(** * Capture & Correlation Engine of the llama.cpp UI metrics extension

    A shallow embedding of the three pieces of the engine and the
    properties stated about them:

    - [Parser]: [parseSseCloneAndEmitRecord] of [injected.js], the
      incremental SSE parser that turns a streamed response into at most
      one completion record;
    - [Correlator]: [shouldRotateChain], [assignChainMetadata] and
      [addRecord] of [background.js], which stamp a record with
      [chain_id] / [turn_number];
    - [Aggregation]: [buildDashboardStats] and [buildScenarioComparisons]
      of [background.js].

    Conventions of the embedding.  A finite JavaScript number that
    carries a token count, milliseconds or a rate is a rational ([Q]);
    wall-clock marks and message counts are integers ([Z]).  A field
    that the code reads only behind a [typeof] test is an [option];
    [None] stands for "absent or not of the tested type".  A field that
    the code stores or passes on without such a test (the members of
    [timings], [finish_reason]) is a [jsval], the value as it is in the
    JSON.  A string is a sequence of code units below 256.  Host
    services ([JSON.parse], [Date.now], [Math.random],
    [String.prototype.localeCompare]) are parameters, and so is the
    floating-point arithmetic the parser does on values of the stream
    (the rounding to three decimals, the subtraction of the reasoning
    boundary); the aggregation is written in exact arithmetic. *)

From Stdlib Require Import ZArith QArith Qround Lqa String Ascii List Bool Lia.
From Stdlib Require Import Permutation Sorted.
From stdpp Require Import gmap strings pretty.
Import ListNotations.

Local Open Scope Z_scope.
Local Open Scope string_scope.

(** ** JavaScript values and helpers shared by the three components *)

Module JS.

(** The values a field can hold where the code inspects the type at run
    time or not at all ([finish_reason], the members of [timings]): the
    JSON scalars, [undefined] for a missing member, the numbers that
    are not finite, and an array or object, which is known by its JSON
    text. *)
Inductive jsval :=
| JUndefined
| JNull
| JBool (b : bool)
| JNum (q : Q)
| JStr (s : string)
| JNaN
| JInfinity (negative : bool)
| JObj (text : string).

(** [x ?? d] *)
Definition nullish (v : jsval) : bool :=
  match v with JUndefined | JNull => true | _ => false end.

Definition coalesce (v d : jsval) : jsval := if nullish v then d else v.

(** [typeof v === "number"] *)
Definition isNumber (v : jsval) : bool :=
  match v with JNum _ | JNaN | JInfinity _ => true | _ => false end.

(** The number [v] is when [typeof v === "number" && Number.isFinite(v)]. *)
Definition numOf (v : jsval) : option Q :=
  match v with JNum q => Some q | _ => None end.

(** Truthiness of an optional string: [null] and [""] are falsy. *)
Definition truthy_str (o : option string) : bool :=
  match o with Some s => negb (String.eqb s "") | None => false end.

(** [a || b] on optional strings, with [null] as the final fallback. *)
Definition or_str (a b : option string) : option string :=
  if truthy_str a then a else if truthy_str b then b else None.

Definition truthy_Z (o : option Z) : bool :=
  match o with Some z => negb (Z.eqb z 0) | None => false end.

Definition or_Z (a b : option Z) : option Z :=
  if truthy_Z a then a else if truthy_Z b then b else None.

(** [Math.round]: the nearest integer, halves rounded up. *)
Definition Math_round (x : Q) : Z := Qfloor (x + (1 # 2))%Q.

(** [Math.max(0, x)] *)
Definition Math_max0 (x : Q) : Q := if Qle_bool 0 x then x else 0%Q.

Definition Math_max0Z (x : Z) : Z := Z.max 0 x.

(** White space removed by [trim] / [trimEnd], among code units below 256. *)
Definition is_js_space (c : ascii) : bool :=
  let n := nat_of_ascii c in
  (Nat.eqb n 9 || Nat.eqb n 10 || Nat.eqb n 11 || Nat.eqb n 12
   || Nat.eqb n 13 || Nat.eqb n 32 || Nat.eqb n 160)%bool.

Fixpoint trimStart (s : string) : string :=
  match s with
  | EmptyString => EmptyString
  | String c r => if is_js_space c then trimStart r else s
  end.

Fixpoint trimEnd (s : string) : string :=
  match s with
  | EmptyString => EmptyString
  | String c r =>
      match trimEnd r with
      | EmptyString => if is_js_space c then EmptyString else String c EmptyString
      | r' => String c r'
      end
  end.

Definition trim (s : string) : string := trimStart (trimEnd s).

(** [s.slice(0, n)] for [n >= 0]. *)
Fixpoint slice0 (n : Z) (s : string) : string :=
  match s with
  | EmptyString => EmptyString
  | String c r => if Z.leb n 0 then EmptyString else String c (slice0 (n - 1) r)
  end.

(** [s.includes(needle)] *)
Fixpoint includes (needle s : string) : bool :=
  (String.prefix needle s
   || match s with EmptyString => false | String _ r => includes needle r end)%bool.

Definition strlen (s : string) : Z := Z.of_nat (String.length s).

(** [s.slice(n)] for [n >= 0]. *)
Fixpoint sliceFrom (n : nat) (s : string) : string :=
  match n, s with
  | O, _ => s
  | S n', String _ r => sliceFrom n' r
  | S _, EmptyString => EmptyString
  end.

(** [Array.prototype.sort(cmp)]: a stable sort; [cmp a b > 0] puts [b]
    before [a].  Written as the stable insertion sort. *)
Section Sort.
Context {A : Type} (cmp : A -> A -> Q).

Definition goes_after (x y : A) : bool := negb (Qle_bool (cmp x y) 0).

Fixpoint insert_sorted (x : A) (l : list A) : list A :=
  match l with
  | [] => [x]
  | y :: l' => if goes_after x y then y :: insert_sorted x l' else x :: l
  end.

Fixpoint sort (l : list A) : list A :=
  match l with
  | [] => []
  | x :: l' => insert_sorted x (sort l')
  end.
End Sort.

End JS.

(** ** The data model: chunks of the stream and the completion record *)

Module Model.
Import JS.

(** The [timings] object of a chunk: its members as they are in the
    JSON, [JUndefined] for a missing one. *)
Record Timings := mkTimings {
  cache_n : jsval;
  prompt_n : jsval;
  prompt_ms : jsval;
  predicted_n : jsval;
  predicted_ms : jsval;
  prompt_per_second : jsval;
  predicted_per_second : jsval
}.

(** [choices[0]] of a chunk: the two text deltas (present when they are
    strings) and the raw [finish_reason]. *)
Record Choice := mkChoice {
  delta_content : option string;
  delta_reasoning_content : option string;
  finish_reason : jsval
}.

(** A parsed [data:] payload, seen through the fields the parser reads.
    [choices0] is [None] when [choices] is not an array or its first
    element is nullish. *)
Record Chunk := mkChunk {
  object : option string;
  id : option string;
  created : option Z;
  model : option string;
  system_fingerprint : option string;
  choices0 : option Choice;
  timings : option Timings
}.

(** Request-side metadata, restricted to the fields the core reads. *)
Record ScenarioLabels := mkLabels {
  input_mode : option string;
  current_user_text_size_bucket : option string;
  file_size_bucket : option string;
  image_size_bucket : option string;
  file_kind_set : option string;
  runtime_bucket : option string
}.

Record RequestMeta := mkReq {
  req_model : option string;
  messages_count : option Q;
  has_document : bool;
  has_images : bool;
  promptText : option string;
  role_user : option Q;
  role_assistant : option Q;
  role_tool : option Q;
  image_count : option Q;
  payload_current_user_text_bytes : option Q;
  payload_file_bytes_total : option Q;
  prompt_hash : option string;
  scenario_labels : ScenarioLabels
}.

(** [resp.timings], [resp.phase_boundary] and [resp.derived] of a
    record hold values the parser passes on from the stream untested. *)
Record RespTimings := mkRespTimings {
  t_cache_n : jsval;
  t_prompt_n : jsval;
  t_prompt_ms : jsval;
  t_predicted_n : jsval;
  t_predicted_ms : jsval;
  t_prompt_tps : jsval;
  t_predicted_tps : jsval
}.

Record PhaseBoundary := mkPhase {
  reasoning_final_predicted_n : jsval;
  reasoning_final_predicted_ms : jsval
}.

Record Derived := mkDerived {
  reasoning_n : jsval;
  reasoning_ms : jsval;
  content_n : jsval;
  content_ms : jsval
}.

Record ClientTiming := mkClientTiming {
  request_start_ms : option Z;
  response_headers_ms : option Z;
  first_stream_chunk_ms : option Z;
  stop_chunk_ms : option Z;
  duration_request_to_headers_ms : option Z;
  duration_request_to_first_stream_chunk_ms : option Z;
  duration_headers_to_first_stream_chunk_ms : option Z;
  duration_first_stream_chunk_to_stop_ms : option Z;
  duration_headers_to_stop_ms : option Z;
  duration_request_to_stop_ms : option Z
}.

Record Guardrails := mkGuardrails {
  stop_reason_category : option string;
  output_tokens_estimate : option Q;
  output_chars_estimate : option Q
}.

Record Response := mkResp {
  resp_id : option string;
  resp_created : option Z;
  resp_model : option string;
  resp_fingerprint : option string;
  resp_finish_reason : jsval;
  resp_timings : RespTimings;
  phase_boundary : option PhaseBoundary;
  derived : Derived;
  client_timing : ClientTiming;
  guardrails : Guardrails
}.

(** The completion record.  [session_id], [chain_id] and [turn_number]
    are absent when the parser emits it. *)
Record CompletionRecord := mkRecord {
  trace_id : option string;
  rec_promptText : option string;
  responseText : string;
  ReasoningText : option string;
  captured_at_ms : option Z;
  ui_origin : option string;
  endpoint : option string;
  req : option RequestMeta;
  resp : option Response;
  session_id : option string;
  chain_id : option string;
  turn_number : option Z
}.

End Model.

(** ** The stream parser ([injected.js]) *)

Module Parser.
Import JS Model.

Definition MAX_CAPTURED_TEXT_CHARS : Z := 200000.

(** [clipCapturedText] with the default budget. *)
Definition clipCapturedText (s : option string) : option string :=
  match s with
  | None => None
  | Some t =>
      if Z.leb (strlen t) MAX_CAPTURED_TEXT_CHARS then Some t
      else Some (slice0 MAX_CAPTURED_TEXT_CHARS t)
  end.

(** [categorizeFinishReason] *)
Definition categorizeFinishReason (finishReason : jsval) : string :=
  match finishReason with
  | JStr s =>
      if String.eqb s "stop" then "completed"
      else if String.eqb s "length" then "truncated_length"
      else if String.eqb s "content_filter" then "filtered"
      else if String.eqb s "tool_calls" then "tool_calls"
      else "other"
  | JNull | JUndefined => "unknown"
  | _ => "other"
  end.

(** What [reader.read()] yields over the life of the stream: pieces of
    decoded text, then the end of the stream or an error. *)
Inductive Stream :=
| Eof
| ReadError
| Data (value : string) (rest : Stream).

Record FetchResponse := mkFetchResponse {
  content_type : option string;
  body : option Stream
}.

Record TimingContext := mkTimingContext {
  tc_request_start_ms : option Z;
  tc_response_headers_ms : option Z
}.

(** [reasoningBoundary]: the two members of [chunk.timings] as read. *)
Record Boundary := mkBoundary {
  b_predicted_n : jsval;
  b_predicted_ms : jsval
}.

(** The local variables of [parseSseCloneAndEmitRecord], with the number
    of [Date.now()] calls made so far. *)
Record PState := mkPState {
  completionId : option string;
  completionCreated : option Z;
  completionModel : option string;
  systemFingerprint : option string;
  reasoningBoundary : option Boundary;
  stopChunk : option Chunk;
  lastTimingsAtStop : option Timings;
  stopFinishReason : jsval;
  lastTimedChunk : option Chunk;
  sawDoneMarker : bool;
  firstStreamChunkAtMs : option Z;
  stopChunkAtMs : option Z;
  st_responseText : string;
  st_reasoningText : string;
  ticks : nat
}.

Definition initial : PState :=
  mkPState None None None None None None None JNull None false None None "" "" 0.

(** Complete lines of a buffer and the unterminated remainder: what the
    loop over [buffer.indexOf("\n")] extracts, in order. *)
Fixpoint splitLines (cur s : string) : list string * string :=
  match s with
  | EmptyString => ([], cur)
  | String c r =>
      if Ascii.eqb c "010"%char
      then let '(ls, rest) := splitLines "" r in (cur :: ls, rest)
      else splitLines (cur ++ String c "") r
  end.

(** [text += piece.slice(0, remaining)] under the character budget. *)
Definition appendCapped (text : string) (piece : option string) : string :=
  match piece with
  | Some p =>
      if Z.ltb (strlen text) MAX_CAPTURED_TEXT_CHARS then
        let remaining := MAX_CAPTURED_TEXT_CHARS - strlen text in
        if Z.ltb 0 remaining then text ++ slice0 remaining p else text
      else text
  | None => text
  end.

(** [(Array.isArray(c.choices) ? c.choices[0]?.finish_reason : null)];
    [undefined] and [null] are told apart nowhere in the parser. *)
Definition chunkFinishReason (c : Chunk) : jsval :=
  match choices0 c with
  | Some ch => finish_reason ch
  | None => JNull
  end.

(** The payload of a [data:] line, when the line has one. *)
Definition payload (rawLine : string) : option string :=
  let line := trimEnd rawLine in
  if String.prefix "data:" line then
    let data := trim (sliceFrom 5 line) in
    if String.eqb data "" then None else Some data
  else None.

(** The complete lines of a stream, in the order in which the read loop
    extracts them from its buffer. *)
Fixpoint streamLines (buffer : string) (s : Stream) : list string :=
  match s with
  | Data value rest =>
      let '(ls, buffer') := splitLines "" (buffer ++ value) in
      (ls ++ streamLines buffer' rest)%list
  | _ => []
  end.

Section WithHost.

(** [safeJsonParse] followed by the field reads: [None] when the text is
    not JSON or parses to a falsy value. *)
Variable JSON_parse : string -> option Chunk.

(** Successive values of [Date.now()]. *)
Variable clock : nat -> Z.

(** [location.origin] *)
Variable location_origin : string.

(** [Math.round(x * 1000) / 1000] on a finite number, in the arithmetic
    of the host (the product is taken not to overflow). *)
Variable round3 : Q -> Q.

(** [Math.max(0, a - b)] for a number [a] and any value [b], with the
    coercion and the arithmetic of the host. *)
Variable max0minus : jsval -> jsval -> jsval.

(** [roundMs] *)
Definition roundMs (x : jsval) : jsval :=
  match x with
  | JNum q => JNum (round3 q)
  | _ => JNull
  end.

Definition Date_now (st : PState) : Z * PState :=
  (clock (ticks st),
   mkPState (completionId st) (completionCreated st) (completionModel st)
     (systemFingerprint st) (reasoningBoundary st) (stopChunk st)
     (lastTimingsAtStop st) (stopFinishReason st) (lastTimedChunk st)
     (sawDoneMarker st) (firstStreamChunkAtMs st) (stopChunkAtMs st)
     (st_responseText st) (st_reasoningText st) (S (ticks st))).

Definition setSawDone (st : PState) : PState :=
  mkPState (completionId st) (completionCreated st) (completionModel st)
    (systemFingerprint st) (reasoningBoundary st) (stopChunk st)
    (lastTimingsAtStop st) (stopFinishReason st) (lastTimedChunk st)
    true (firstStreamChunkAtMs st) (stopChunkAtMs st)
    (st_responseText st) (st_reasoningText st) (ticks st).

Definition setFirstChunkAt (t : Z) (st : PState) : PState :=
  mkPState (completionId st) (completionCreated st) (completionModel st)
    (systemFingerprint st) (reasoningBoundary st) (stopChunk st)
    (lastTimingsAtStop st) (stopFinishReason st) (lastTimedChunk st)
    (sawDoneMarker st) (Some t) (stopChunkAtMs st)
    (st_responseText st) (st_reasoningText st) (ticks st).

(** The four assignments that fix the completion boundary. *)
Definition setStop (c : Chunk) (fr : jsval) (st : PState) : PState :=
  let '(t, st1) := Date_now st in
  mkPState (completionId st1) (completionCreated st1) (completionModel st1)
    (systemFingerprint st1) (reasoningBoundary st1) (Some c)
    (timings c) fr (lastTimedChunk st1)
    (sawDoneMarker st1) (firstStreamChunkAtMs st1) (Some t)
    (st_responseText st1) (st_reasoningText st1) (ticks st1).

(** The [[DONE]] fallback: the last timed chunk becomes the boundary. *)
Definition promoteLastTimed (ltc : Chunk) (st : PState) : PState :=
  setStop ltc (coalesce (chunkFinishReason ltc) (JStr "done")) st.

(** The bookkeeping done for every completion chunk before the
    [finish_reason] test. *)
Definition absorbChunk (chunk : Chunk) (st : PState) : PState :=
  let content := match choices0 chunk with Some ch => delta_content ch | None => None end in
  let reasoning :=
    match choices0 chunk with Some ch => delta_reasoning_content ch | None => None end in
  mkPState
    (or_str (completionId st) (id chunk))
    (or_Z (completionCreated st) (created chunk))
    (or_str (completionModel st) (model chunk))
    (or_str (systemFingerprint st) (system_fingerprint chunk))
    (match reasoning, timings chunk with
     | Some _, Some t => Some (mkBoundary (predicted_n t) (predicted_ms t))
     | _, _ => reasoningBoundary st
     end)
    (stopChunk st) (lastTimingsAtStop st) (stopFinishReason st)
    (match timings chunk with Some _ => Some chunk | None => lastTimedChunk st end)
    (sawDoneMarker st) (firstStreamChunkAtMs st) (stopChunkAtMs st)
    (appendCapped (st_responseText st) content)
    (appendCapped (st_reasoningText st) reasoning)
    (ticks st).

(** One iteration of the inner loop on an extracted line; the boolean is
    [true] when the iteration ends in [break]. *)
Definition processLine (st : PState) (rawLine : string) : PState * bool :=
  let line := trimEnd rawLine in
  if negb (String.prefix "data:" line) then (st, false)
  else
    let data := trim (sliceFrom 5 line) in
    if String.eqb data "" then (st, false)
    else if String.eqb data "[DONE]" then
      let st1 := setSawDone st in
      match stopChunk st1, lastTimedChunk st1 with
      | None, Some ltc => (promoteLastTimed ltc st1, true)
      | _, _ => (st1, false)
      end
    else
      match JSON_parse data with
      | None => (st, false)
      | Some chunk =>
          match object chunk with
          | Some o =>
              if String.eqb o "chat.completion.chunk" then
                let st1 := absorbChunk chunk st in
                match chunkFinishReason chunk with
                | JStr fr =>
                    if Z.ltb 0 (strlen fr)
                    then (setStop chunk (JStr fr) st1, true)
                    else (st1, false)
                | _ => (st1, false)
                end
              else (st, false)
          | None => (st, false)
          end
      end.

Fixpoint processLines (st : PState) (ls : list string) : PState * bool :=
  match ls with
  | [] => (st, false)
  | l :: ls' =>
      let '(st1, stop) := processLine st l in
      if stop then (st1, true) else processLines st1 ls'
  end.

(** [if (firstStreamChunkAtMs === null) firstStreamChunkAtMs = Date.now()] *)
Definition arrive (st : PState) : PState :=
  match firstStreamChunkAtMs st with
  | None => let '(t, st') := Date_now st in setFirstChunkAt t st'
  | Some _ => st
  end.

(** The read loop.  [None] is the [catch] branch: the function returns
    without a record. *)
Fixpoint readLoop (buffer : string) (st : PState) (s : Stream) : option PState :=
  match s with
  | Eof => Some st
  | ReadError => None
  | Data value rest =>
      let st1 := arrive st in
      let '(ls, buffer') := splitLines "" (buffer ++ value) in
      let '(st2, _) := processLines st1 ls in
      match stopChunk st2 with
      | Some _ => Some st2
      | None => readLoop buffer' st2 rest
      end
  end.

(** The fallback taken after the loop. *)
Definition lateFallback (st : PState) : PState :=
  match stopChunk st, lastTimingsAtStop st with
  | Some _, Some _ => st
  | _, _ =>
      match lastTimedChunk st with
      | Some ltc => if sawDoneMarker st then promoteLastTimed ltc st else st
      | None => st
      end
  end.

Definition duration (earlier later : option Z) : option Z :=
  match earlier, later with
  | Some a, Some b => Some (Math_max0Z (b - a))
  | _, _ => None
  end.

(** Construction of the record from the final state. *)
Definition buildRecord (traceId : option string) (requestMeta : option RequestMeta)
    (timingContext : TimingContext) (t : Timings) (st : PState) : CompletionRecord :=
  let totalPredN := coalesce (predicted_n t) JNull in
  let totalPredMs := coalesce (predicted_ms t) JNull in
  let rPredN :=
    match reasoningBoundary st with
    | Some b => coalesce (b_predicted_n b) (JNum 0)
    | None => JNum 0
    end in
  let rPredMs :=
    match reasoningBoundary st with
    | Some b => coalesce (b_predicted_ms b) (JNum 0)
    | None => JNum 0
    end in
  let cPredN := if isNumber totalPredN then max0minus totalPredN rPredN else JNull in
  let cPredMs := if isNumber totalPredMs then max0minus totalPredMs rPredMs else JNull in
  let finishReasonFinal := coalesce (stopFinishReason st) (JStr "stop") in
  let outputTokensEstimate := numOf totalPredN in
  let outputCharsEstimate :=
    option_map (fun n => inject_Z (Math_round (n * 4)%Q)) outputTokensEstimate in
  let requestStartMs := tc_request_start_ms timingContext in
  let responseHeadersMs := tc_response_headers_ms timingContext in
  let '(stopMs, st1) :=
    match stopChunkAtMs st with
    | Some z => (z, st)
    | None => Date_now st
    end in
  let first := firstStreamChunkAtMs st1 in
  let '(capturedAt, _) := Date_now st1 in
  mkRecord
    traceId
    (clipCapturedText (match requestMeta with Some m => promptText m | None => None end))
    (st_responseText st1)
    (if Z.ltb 0 (strlen (st_reasoningText st1)) then Some (st_reasoningText st1) else None)
    (Some capturedAt)
    (Some location_origin)
    (Some "/v1/chat/completions")
    requestMeta
    (Some (mkResp
       (completionId st1) (completionCreated st1) (completionModel st1)
       (systemFingerprint st1)
       finishReasonFinal
       (mkRespTimings
          (coalesce (cache_n t) JNull)
          (coalesce (prompt_n t) JNull)
          (roundMs (coalesce (prompt_ms t) JNull))
          (coalesce (predicted_n t) JNull)
          (roundMs (coalesce (predicted_ms t) JNull))
          (coalesce (prompt_per_second t) JNull)
          (coalesce (predicted_per_second t) JNull))
       (match reasoningBoundary st1 with
        | Some b => Some (mkPhase (b_predicted_n b) (roundMs (b_predicted_ms b)))
        | None => None
        end)
       (mkDerived
          (match reasoningBoundary st1 with Some _ => rPredN | None => JNum 0 end)
          (match reasoningBoundary st1 with
           | Some _ => roundMs rPredMs
           | None => JNum 0
           end)
          (match reasoningBoundary st1 with
           | Some _ => cPredN
           | None => if isNumber totalPredN then totalPredN else JNull
           end)
          (match reasoningBoundary st1 with
           | Some _ => roundMs cPredMs
           | None => if isNumber totalPredMs then roundMs totalPredMs else JNull
           end))
       (mkClientTiming
          requestStartMs responseHeadersMs first (Some stopMs)
          (duration requestStartMs responseHeadersMs)
          (duration requestStartMs first)
          (duration responseHeadersMs first)
          (duration first (Some stopMs))
          (duration responseHeadersMs (Some stopMs))
          (duration requestStartMs (Some stopMs)))
       (mkGuardrails
          (Some (categorizeFinishReason finishReasonFinal))
          outputTokensEstimate outputCharsEstimate)))
    None None None.

(** Emission: nothing without a boundary chunk that has timings. *)
Definition emitRecord (traceId : option string) (requestMeta : option RequestMeta)
    (timingContext : TimingContext) (st : PState) : option CompletionRecord :=
  match stopChunk st, lastTimingsAtStop st with
  | Some _, Some t => Some (buildRecord traceId requestMeta timingContext t st)
  | _, _ => None
  end.

(** [parseSseCloneAndEmitRecord]: the record posted to the page, if any. *)
Definition parseSseCloneAndEmitRecord (traceId : option string)
    (response : FetchResponse) (requestMeta : option RequestMeta)
    (timingContext : TimingContext) : option CompletionRecord :=
  let contentType := match content_type response with Some s => s | None => "" end in
  if negb (includes "text/event-stream" contentType) then None
  else
    match body response with
    | None => None
    | Some stream =>
        match readLoop "" initial stream with
        | None => None
        | Some st => emitRecord traceId requestMeta timingContext (lateFallback st)
        end
    end.

(** The completion chunk a line carries, if any. *)
Definition chunkOfLine (rawLine : string) : option Chunk :=
  match payload rawLine with
  | Some data =>
      if String.eqb data "[DONE]" then None
      else
        match JSON_parse data with
        | Some chunk =>
            match object chunk with
            | Some o => if String.eqb o "chat.completion.chunk" then Some chunk else None
            | None => None
            end
        | None => None
        end
  | None => None
  end.

End WithHost.

(** What a delta must be, given the two marks it is taken between. *)
Definition delta_of (earlier later d : option Z) : Prop :=
  (forall a b, earlier = Some a -> later = Some b -> d = Some (Z.max 0 (b - a)))
  /\ (d = None <-> earlier = None \/ later = None)
  /\ (forall v, d = Some v -> 0 <= v).

End Parser.

(** ** The conversation correlator ([background.js]) *)

Module Correlator.
Import JS Model.

Definition CHAIN_STATE_IDLE_RESET_MS : Z := 30 * 60 * 1000.
Definition CHAIN_DUPLICATE_PROMPT_WINDOW_MS : Z := 2 * 60 * 1000.

(** [toPositiveInt] *)
Definition toPositiveInt (x : option Q) : option Z :=
  match x with
  | Some q => let n := Qfloor q in if Z.ltb 0 n then Some n else None
  | None => None
  end.

Record Signals := mkSignals {
  userCount : option Z;
  assistantCount : Z;
  toolCount : Z;
  messagesCount : option Z;
  promptHash : option string;
  uiOrigin : option string;
  sig_endpoint : option string
}.

(** [getConversationSignals]; a record without [req] has no counts. *)
Definition getConversationSignals (record : CompletionRecord) : Signals :=
  let field {T} (f : RequestMeta -> option T) : option T :=
    match req record with Some m => f m | None => None end in
  mkSignals
    (toPositiveInt (field role_user))
    (match toPositiveInt (field role_assistant) with Some n => n | None => 0 end)
    (match toPositiveInt (field role_tool) with Some n => n | None => 0 end)
    (toPositiveInt (field messages_count))
    (field prompt_hash)
    (ui_origin record)
    (endpoint record).

(** [looksLikeFirstTurn] *)
Definition looksLikeFirstTurn (signals : Signals) : bool :=
  match userCount signals with
  | Some 1 =>
      if (Z.ltb 0 (assistantCount signals) || Z.ltb 0 (toolCount signals))%bool then false
      else
        match messagesCount signals with
        | None => true
        | Some m => Z.leb m 4
        end
  | _ => false
  end.

(** The per-tab snapshot kept in [chrome.storage.local], read back with
    the type tests of the code. *)
Record ChainState := mkChainState {
  cs_chain_id : option string;
  cs_turn_number : option Q;
  last_seen_ms : option Z;
  last_user_count : option Q;
  last_messages_count : option Q;
  last_prompt_hash : option string;
  cs_ui_origin : option string;
  cs_endpoint : option string
}.

(** The message sender: the tab id when it is an integer, and the origin
    of the tab URL when [new URL(sender.tab.url).origin] yields one. *)
Record Sender := mkSender {
  tab_id : option Z;
  tab_origin : option string
}.

(** [shouldRotateChain] *)
Definition shouldRotateChain (state : option ChainState) (signals : Signals)
    (ts : Z) (sender : Sender) : bool :=
  match state with
  | None => true
  | Some state =>
      let lastSeenMs := last_seen_ms state in
      if match lastSeenMs with
         | Some l => Z.ltb CHAIN_STATE_IDLE_RESET_MS (ts - l)
         | None => false
         end
      then true
      else
        let senderOrigin := tab_origin sender in
        let prevOrigin := cs_ui_origin state in
        let currOrigin := or_str (uiOrigin signals) senderOrigin in
        if match prevOrigin, currOrigin with
           | Some p, Some c =>
               (truthy_str prevOrigin && truthy_str currOrigin
                && negb (String.eqb p c))%bool
           | _, _ => false
           end
        then true
        else
          let prevUserCount := toPositiveInt (last_user_count state) in
          if match userCount signals, prevUserCount with
             | Some u, Some p => Z.ltb u p
             | _, _ => false
             end
          then true
          else if looksLikeFirstTurn signals then
            let samePrompt :=
              match promptHash signals, last_prompt_hash state with
              | Some h, Some l => (truthy_str (Some h) && String.eqb h l)%bool
              | _, _ => false
              end in
            let nearDuplicate :=
              (samePrompt
               && match lastSeenMs with
                  | Some l => Z.leb (ts - l) CHAIN_DUPLICATE_PROMPT_WINDOW_MS
                  | None => false
                  end)%bool in
            negb nearDuplicate
          else false
  end.

(** How the calls of [chrome.storage.local] made for one record end:
    both resolve, the read of the snapshot rejects, or the read resolves
    and the write of the new snapshot rejects. *)
Inductive StorageOutcome := StorageOk | GetRejects | SetRejects.

(** What the host supplies to one handling of a record: the values of
    the [Date.now()] calls, the random suffix of a new chain id, the id
    [makeSessionId] would mint, and how the calls of
    [chrome.storage.local] end. *)
Record Host := mkHost {
  now_addRecord : Z;
  now_assign : Z;
  now_chainId : Z;
  random_suffix : string;
  fresh_session_id : string;
  chain_storage : StorageOutcome
}.

(** [makeChainId] *)
Definition makeChainId (h : Host) : string :=
  "c-" ++ pretty (now_chainId h) ++ "-" ++ random_suffix h.

(** An assignment to a property of the record object. *)
Inductive FieldWrite :=
| SetSessionId (s : string)
| SetCapturedAtMs (t : Z)
| SetChainId (c : string)
| SetTurnNumber (n : Z).

Definition applyWrite (r : CompletionRecord) (w : FieldWrite) : CompletionRecord :=
  match w with
  | SetSessionId s =>
      mkRecord (trace_id r) (rec_promptText r) (responseText r) (ReasoningText r)
        (captured_at_ms r) (ui_origin r) (endpoint r) (req r) (resp r)
        (Some s) (chain_id r) (turn_number r)
  | SetCapturedAtMs t =>
      mkRecord (trace_id r) (rec_promptText r) (responseText r) (ReasoningText r)
        (Some t) (ui_origin r) (endpoint r) (req r) (resp r)
        (session_id r) (chain_id r) (turn_number r)
  | SetChainId c =>
      mkRecord (trace_id r) (rec_promptText r) (responseText r) (ReasoningText r)
        (captured_at_ms r) (ui_origin r) (endpoint r) (req r) (resp r)
        (session_id r) (Some c) (turn_number r)
  | SetTurnNumber n =>
      mkRecord (trace_id r) (rec_promptText r) (responseText r) (ReasoningText r)
        (captured_at_ms r) (ui_origin r) (endpoint r) (req r) (resp r)
        (session_id r) (chain_id r) (Some n)
  end.

Definition applyWrites (r : CompletionRecord) (ws : list FieldWrite) : CompletionRecord :=
  fold_left applyWrite ws r.

Record ChainMeta := mkChainMeta {
  cm_chain_id : option string;
  cm_turn_number : option Z
}.

(** [getTabChainState] / [setTabChainState] / [clearTabChainState] on the
    part of [chrome.storage.local] keyed by tab id. *)
Definition getTabChainState (store : gmap Z ChainState) (tabId : Z) : option ChainState :=
  store !! tabId.

Definition setTabChainState (store : gmap Z ChainState) (tabId : Z) (state : ChainState)
    : gmap Z ChainState :=
  <[tabId := state]> store.

Definition clearTabChainState (store : gmap Z ChainState) (tabId : Z) : gmap Z ChainState :=
  delete tabId store.

(** The chain id and turn number [assignChainMetadata] settles on. *)
Definition decideChain (h : Host) (state : option ChainState) (signals : Signals)
    (ts : Z) (sender : Sender) : string * Z :=
  let '(chainId, turnNumber) :=
    if negb (shouldRotateChain state signals ts sender) then
      (match state with Some s => cs_chain_id s | None => None end,
       Z.max 1
         (match toPositiveInt (match state with Some s => cs_turn_number s | None => None end)
          with Some n => n | None => 0 end + 1))
    else (None, 1) in
  if truthy_str chainId
  then (match chainId with Some c => c | None => "" end, turnNumber)
  else (makeChainId h, 1).

(** [assignChainMetadata] when its storage calls resolve: the
    assignments made to the record, the new store and the returned
    pair. *)
Definition assignChainMetadata (h : Host) (store : gmap Z ChainState)
    (record : CompletionRecord) (sender : Sender)
    : list FieldWrite * gmap Z ChainState * ChainMeta :=
  let ts := match captured_at_ms record with Some t => t | None => now_assign h end in
  let signals := getConversationSignals record in
  let tabId := tab_id sender in
  let state := match tabId with Some t => getTabChainState store t | None => None end in
  let '(chainId, turnNumber) := decideChain h state signals ts sender in
  let writes := [SetChainId chainId; SetTurnNumber turnNumber] in
  let store' :=
    match tabId with
    | Some t =>
        setTabChainState store t
          (mkChainState (Some chainId) (Some (inject_Z turnNumber)) (Some ts)
             (option_map inject_Z (userCount signals))
             (option_map inject_Z (messagesCount signals))
             (promptHash signals)
             (or_str (uiOrigin signals) None)
             (or_str (sig_endpoint signals) None))
    | None => store
    end in
  (writes, store', mkChainMeta (Some chainId) (Some turnNumber)).

(** A row of the record store. *)
Record StoredRow := mkStoredRow {
  row_key : string;
  row_session_id : string;
  row_captured_at_ms : Z;
  row_record : CompletionRecord
}.

(** The extension state [addRecord] works on. *)
Record World := mkWorld {
  active_session_id : option string;
  tab_chain_state : gmap Z ChainState;
  records_store : gmap string StoredRow
}.

(** [getActiveSessionId] *)
Definition getActiveSessionId (h : Host) (w : World) : string * World :=
  if truthy_str (active_session_id w)
  then (match active_session_id w with Some s => s | None => "" end, w)
  else (fresh_session_id h,
        mkWorld (Some (fresh_session_id h)) (tab_chain_state w) (records_store w)).

Record AddResult := mkAddResult {
  ar_session_id : string;
  ar_key : string;
  ar_chain : ChainMeta
}.

(** [try { chainMeta = await assignChainMetadata(record, sender) }
    catch (e) { ... }] in [addRecord], with [chainMeta] starting as
    [{chain_id: null, turn_number: null}].  Storage is called only for a
    sender with a tab id.  When the read rejects, nothing has been
    assigned yet; when the write rejects, both fields of the record are
    assigned already and the snapshot is not replaced; either way the
    exception is logged and [chainMeta] keeps its nulls. *)
Definition tryAssignChainMetadata (h : Host) (store : gmap Z ChainState)
    (record : CompletionRecord) (sender : Sender)
    : list FieldWrite * gmap Z ChainState * ChainMeta :=
  match tab_id sender, chain_storage h with
  | Some _, GetRejects => ([], store, mkChainMeta None None)
  | Some _, SetRejects =>
      let '(writes, _, _) := assignChainMetadata h store record sender in
      (writes, store, mkChainMeta None None)
  | _, _ => assignChainMetadata h store record sender
  end.

(** [addRecord]: every assignment made to the record object, in program
    order, the record as stored, the new state and the returned value.
    The IndexedDB transactions are taken to complete. *)
Definition addRecord (h : Host) (w : World) (record : CompletionRecord) (sender : Sender)
    : list FieldWrite * CompletionRecord * World * AddResult :=
  let '(sid, w1) := getActiveSessionId h w in
  let traceId := if truthy_str (trace_id record)
                 then match trace_id record with Some s => s | None => "" end
                 else "no-trace" in
  let respId := match resp record with Some rs => resp_id rs | None => None end in
  let completionId := if truthy_str respId
                      then match respId with Some s => s | None => "" end
                      else "noid" in
  let ts := if truthy_Z (captured_at_ms record)
            then match captured_at_ms record with Some t => t | None => 0 end
            else now_addRecord h in
  let writes1 := [SetSessionId sid; SetCapturedAtMs ts] in
  let record1 := applyWrites record writes1 in
  let '(writes2, store', chainMeta) :=
    tryAssignChainMetadata h (tab_chain_state w1) record1 sender in
  let record2 := applyWrites record1 writes2 in
  let key := sid ++ "::" ++ pretty ts ++ "::" ++ traceId ++ "::" ++ completionId in
  let w2 :=
    mkWorld (active_session_id w1) store'
      (<[key := mkStoredRow key sid ts record2]> (records_store w1)) in
  ((writes1 ++ writes2)%list, record2, w2, mkAddResult sid key chainMeta).

(** A snapshot as [assignChainMetadata] writes it. *)
Definition written_state (s : ChainState) : Prop :=
  exists c n ts,
    cs_chain_id s = Some c /\ c <> "" /\
    cs_turn_number s = Some (inject_Z n) /\ 1 <= n /\
    last_seen_ms s = Some ts.

(** The stores that calls of the correlator and tab closures produce. *)
Inductive reachable : gmap Z ChainState -> Prop :=
| reachable_empty : reachable ∅
| reachable_assign h store record sender :
    reachable store ->
    reachable (snd (fst (assignChainMetadata h store record sender)))
| reachable_clear store tabId :
    reachable store -> reachable (clearTabChainState store tabId).

Definition writesChainId (w : FieldWrite) : bool :=
  match w with SetChainId _ => true | _ => false end.

Definition writesTurnNumber (w : FieldWrite) : bool :=
  match w with SetTurnNumber _ => true | _ => false end.

(** The exception of the storage call is caught before [chain_id] and
    [turn_number] are assigned. *)
Definition assignmentSkipped (h : Host) (sender : Sender) : bool :=
  match tab_id sender, chain_storage h with
  | Some _, GetRejects => true
  | _, _ => false
  end.

(** [assignChainMetadata] returns: no storage call of it rejects. *)
Definition assignmentReturns (h : Host) (sender : Sender) : bool :=
  match tab_id sender, chain_storage h with
  | Some _, GetRejects | Some _, SetRejects => false
  | _, _ => true
  end.

End Correlator.

(** ** The aggregation engine ([background.js]) *)

Module Aggregation.
Import JS Model.

(** [toFiniteNumber] on a value already read as a finite number or
    [null]. *)
Definition toFiniteNumber (x : option Q) : option Q := x.

Definition numZ (x : option Z) : option Q := option_map inject_Z x.

(** [safePct] on two counters. *)
Definition safePct (numerator denominator : Z) : Q :=
  if Z.leb denominator 0 then 0%Q
  else
    let raw := ((inject_Z numerator / inject_Z denominator) * 100)%Q in
    let capped := if Qle_bool raw 100 then raw else 100%Q in
    if Qle_bool 0 capped then capped else 0%Q.

(** [round2], in exact arithmetic: the nearest multiple of 0.01, halves
    rounded up.  In the floating point of the host a value that lies
    within rounding error of a half can go the other way. *)
Definition round2 (x : option Q) : option Q :=
  match toFiniteNumber x with
  | Some n => Some (inject_Z (Math_round (n * 100)) / 100)%Q
  | None => None
  end.

(** [average] *)
Definition average (sum : Q) (count : Z) : option Q :=
  if Z.eqb count 0 then None else Some (sum / inject_Z count)%Q.

(** A running sum with the number of values added ([xSum], [xCount]). *)
Record Running := mkRunning { r_sum : Q; r_count : Z }.

Definition running0 : Running := mkRunning 0 0.

(** [if (x !== null) { sum += x; count += 1 }], in exact arithmetic,
    where the sum does not depend on the order of its terms; in the
    floating point of the host it can, in its last digits. *)
Definition addRunning (acc : Running) (x : option Q) : Running :=
  match x with
  | Some v => mkRunning (r_sum acc + v)%Q (r_count acc + 1)
  | None => acc
  end.

Definition avgRunning (acc : Running) : option Q :=
  round2 (average (r_sum acc) (r_count acc)).

(** [if (t !== null && (last === null || t > last)) last = t] *)
Definition laterOf (last t : option Z) : option Z :=
  match t with
  | Some c =>
      match last with
      | None => Some c
      | Some l => if Z.ltb l c then Some c else Some l
      end
  | None => last
  end.

(** [x || d] on a string that may be absent. *)
Definition strOr (x : option string) (d : string) : string :=
  match x with
  | Some s => if String.eqb s "" then d else s
  | None => d
  end.

(** [a || b || "unknown"] for the model name of a record. *)
Definition modelOf (r : CompletionRecord) : string :=
  let a := match req r with Some m => req_model m | None => None end in
  let b := match resp r with Some rs => resp_model rs | None => None end in
  strOr (or_str a b) "unknown".

(** [r && r.resp && r.req] *)
Definition isClean (r : CompletionRecord) : bool :=
  match req r, resp r with Some _, Some _ => true | _, _ => false end.

(** Field reads with the [?.] / [|| {}] fallbacks of the code.  Every
    read of a member of [resp.timings] or [resp.derived] goes through
    [toFiniteNumber]; [timingOf] and [derivedOf] yield the number the
    member is, if it is a finite number. *)
Definition timingOf (f : RespTimings -> jsval) (r : CompletionRecord) : option Q :=
  match resp r with Some rs => numOf (f (resp_timings rs)) | None => None end.

Definition derivedOf (f : Derived -> jsval) (r : CompletionRecord) : option Q :=
  match resp r with Some rs => numOf (f (derived rs)) | None => None end.

Definition requestToStopOf (r : CompletionRecord) : option Q :=
  match resp r with
  | Some rs => numZ (duration_request_to_stop_ms (client_timing rs))
  | None => None
  end.

Definition guardOf (f : Guardrails -> option Q) (r : CompletionRecord) : option Q :=
  match resp r with Some rs => f (guardrails rs) | None => None end.

Definition reqNum (f : RequestMeta -> option Q) (r : CompletionRecord) : option Q :=
  match req r with Some m => f m | None => None end.

Definition labelOf (f : ScenarioLabels -> option string) (r : CompletionRecord)
    : option string :=
  match req r with Some m => f (scenario_labels m) | None => None end.

Definition hasDocument (r : CompletionRecord) : bool :=
  match req r with Some m => has_document m | None => false end.

Definition hasImages (r : CompletionRecord) : bool :=
  match req r with Some m => has_images m | None => false end.

(** *** JavaScript [Map] with string keys: entries in insertion order *)

Section OrderedMap.
Context {V : Type}.

Fixpoint map_get (k : string) (m : list (string * V)) : option V :=
  match m with
  | [] => None
  | (k', v) :: m' => if String.eqb k k' then Some v else map_get k m'
  end.

Definition map_has (k : string) (m : list (string * V)) : bool :=
  match map_get k m with Some _ => true | None => false end.

(** [if (!m.has(k)) m.set(k, init); update(m.get(k))]: the entry keeps
    its place; a new key goes last. *)
Fixpoint map_upsert (k : string) (init : V) (update : V -> V) (m : list (string * V))
    : list (string * V) :=
  match m with
  | [] => [(k, update init)]
  | (k', v) :: m' =>
      if String.eqb k k' then (k', update v) :: m'
      else (k', v) :: map_upsert k init update m'
  end.

Definition map_values (m : list (string * V)) : list V := map snd m.

End OrderedMap.

(** The shape of the grouping loops: a record with a key updates the
    entry of its key, created on first use. *)
Section Grouping.
Context {R V : Type}.
Variable key : R -> option string.
Variable init : string -> V.
Variable upd : R -> V -> V.

Definition groupStep (m : list (string * V)) (r : R) : list (string * V) :=
  match key r with
  | Some k => map_upsert k (init k) (upd r) m
  | None => m
  end.

Definition hasKey (k : string) (r : R) : bool :=
  match key r with Some k' => String.eqb k' k | None => false end.

End Grouping.

(** *** Summary aggregation *)

Record SummaryAcc := mkSummaryAcc {
  sa_predictedTps : Running;
  sa_ttftMs : Running;
  sa_cacheN : Running;
  sa_docCount : Z;
  sa_imageCount : Z;
  sa_lastCompletionAtMs : option Z
}.

Definition summaryAcc0 : SummaryAcc :=
  mkSummaryAcc running0 running0 running0 0 0 None.

Record ModelAcc := mkModelAcc {
  ma_model : string;
  ma_completions : Z;
  ma_promptN : Running;
  ma_predictedN : Running;
  ma_promptMs : Running;
  ma_predictedMs : Running;
  ma_promptTps : Running;
  ma_predictedTps : Running;
  ma_reasoningMs : Running;
  ma_contentMs : Running;
  ma_cacheN : Running;
  ma_docCount : Z;
  ma_imageCount : Z;
  ma_lastSeenAtMs : option Z
}.

Definition modelAcc0 (model : string) : ModelAcc :=
  mkModelAcc model 0 running0 running0 running0 running0 running0 running0
    running0 running0 running0 0 0 None.

Definition bump (b : bool) (n : Z) : Z := if b then n + 1 else n.

(** The updates of the summary accumulator in one loop iteration. *)
Definition addSummaryRecord (acc : SummaryAcc) (r : CompletionRecord) : SummaryAcc :=
  mkSummaryAcc
    (addRunning (sa_predictedTps acc) (toFiniteNumber (timingOf t_predicted_tps r)))
    (addRunning (sa_ttftMs acc) (toFiniteNumber (timingOf t_prompt_ms r)))
    (addRunning (sa_cacheN acc) (toFiniteNumber (timingOf t_cache_n r)))
    (bump (hasDocument r) (sa_docCount acc))
    (bump (hasImages r) (sa_imageCount acc))
    (laterOf (sa_lastCompletionAtMs acc) (captured_at_ms r)).

(** The updates of the per-model accumulator in one loop iteration. *)
Definition addModelRecord (r : CompletionRecord) (m : ModelAcc) : ModelAcc :=
  mkModelAcc
    (ma_model m)
    (ma_completions m + 1)
    (addRunning (ma_promptN m) (toFiniteNumber (timingOf t_prompt_n r)))
    (addRunning (ma_predictedN m) (toFiniteNumber (timingOf t_predicted_n r)))
    (addRunning (ma_promptMs m) (toFiniteNumber (timingOf t_prompt_ms r)))
    (addRunning (ma_predictedMs m) (toFiniteNumber (timingOf t_predicted_ms r)))
    (addRunning (ma_promptTps m) (toFiniteNumber (timingOf t_prompt_tps r)))
    (addRunning (ma_predictedTps m) (toFiniteNumber (timingOf t_predicted_tps r)))
    (addRunning (ma_reasoningMs m) (toFiniteNumber (derivedOf reasoning_ms r)))
    (addRunning (ma_contentMs m) (toFiniteNumber (derivedOf content_ms r)))
    (addRunning (ma_cacheN m) (toFiniteNumber (timingOf t_cache_n r)))
    (bump (hasDocument r) (ma_docCount m))
    (bump (hasImages r) (ma_imageCount m))
    (laterOf (ma_lastSeenAtMs m) (captured_at_ms r)).

Record ModelRow := mkModelRow {
  mr_model : string;
  mr_completions : Z;
  mr_avg_prompt_n : option Q;
  mr_avg_predicted_n : option Q;
  mr_avg_ttft_ms : option Q;
  mr_avg_predicted_ms : option Q;
  mr_avg_prompt_tps : option Q;
  mr_avg_predicted_tps : option Q;
  mr_avg_reasoning_ms : option Q;
  mr_avg_content_ms : option Q;
  mr_avg_cache_n : option Q;
  mr_doc_request_pct : option Q;
  mr_image_request_pct : option Q;
  mr_last_seen_at_ms : option Z
}.

Definition finalizeModel (m : ModelAcc) : ModelRow :=
  mkModelRow
    (ma_model m) (ma_completions m)
    (avgRunning (ma_promptN m)) (avgRunning (ma_predictedN m))
    (avgRunning (ma_promptMs m)) (avgRunning (ma_predictedMs m))
    (avgRunning (ma_promptTps m)) (avgRunning (ma_predictedTps m))
    (avgRunning (ma_reasoningMs m)) (avgRunning (ma_contentMs m))
    (avgRunning (ma_cacheN m))
    (round2 (Some (safePct (ma_docCount m) (ma_completions m))))
    (round2 (Some (safePct (ma_imageCount m) (ma_completions m))))
    (ma_lastSeenAtMs m).

(** [x || 0] on a number that may be [null]. *)
Definition numOr0 (x : option Q) : Q := match x with Some q => q | None => 0%Q end.

(** [a || b] on two numbers: [b] when [a] is zero. *)
Definition orNum (a b : Q) : Q := if Qeq_bool a 0 then b else a.

Definition compareModelRows (a b : ModelRow) : Q :=
  orNum (inject_Z (mr_completions b - mr_completions a))
    (numOr0 (mr_avg_predicted_tps b) - numOr0 (mr_avg_predicted_tps a))%Q.

Record Summary := mkSummary {
  total_completions : Z;
  distinct_models : Z;
  avg_predicted_tps : option Q;
  avg_ttft_ms : option Q;
  avg_cache_n : option Q;
  last_completion_at_ms : option Z;
  document_attached_requests_pct : option Q;
  image_attached_requests_pct : option Q
}.

Record DashboardStats := mkDashboardStats {
  summary : Summary;
  models : list ModelRow
}.

(** The state of the loop of [buildDashboardStats] after the records. *)
Definition statsLoop (cleanRecords : list CompletionRecord)
    : SummaryAcc * list (string * ModelAcc) :=
  fold_left
    (fun '(acc, perModel) r =>
       let model := modelOf r in
       (addSummaryRecord acc r,
        map_upsert model (modelAcc0 model) (addModelRecord r) perModel))
    cleanRecords (summaryAcc0, []).

(** [buildDashboardStats] *)
Definition buildDashboardStats (records : list CompletionRecord) : DashboardStats :=
  let cleanRecords := List.filter isClean records in
  let totalCompletions := Z.of_nat (length cleanRecords) in
  let '(summaryAcc, perModel) := statsLoop cleanRecords in
  let models := sort compareModelRows (map finalizeModel (map_values perModel)) in
  mkDashboardStats
    (mkSummary
       totalCompletions
       (Z.of_nat (length models))
       (avgRunning (sa_predictedTps summaryAcc))
       (avgRunning (sa_ttftMs summaryAcc))
       (avgRunning (sa_cacheN summaryAcc))
       (sa_lastCompletionAtMs summaryAcc)
       (round2 (Some (safePct (sa_docCount summaryAcc) totalCompletions)))
       (round2 (Some (safePct (sa_imageCount summaryAcc) totalCompletions))))
    models.

(** *** Scenario aggregation *)

Record BucketAcc := mkBucketAcc {
  ba_label : string;
  ba_count : Z;
  ba_predictedTps : Running;
  ba_ttftMs : Running;
  ba_predictedMs : Running;
  ba_requestToStopMs : Running;
  ba_reasoningMs : Running;
  ba_contentMs : Running;
  ba_outputTokens : Running;
  ba_outputChars : Running;
  ba_fileBytes : Running;
  ba_userTextBytes : Running
}.

(** [initScenarioBucket] *)
Definition initScenarioBucket (label : string) : BucketAcc :=
  mkBucketAcc label 0 running0 running0 running0 running0 running0 running0
    running0 running0 running0 running0.

(** [addScenarioRecord] *)
Definition addScenarioRecord (r : CompletionRecord) (acc : BucketAcc) : BucketAcc :=
  mkBucketAcc
    (ba_label acc)
    (ba_count acc + 1)
    (addRunning (ba_predictedTps acc) (toFiniteNumber (timingOf t_predicted_tps r)))
    (addRunning (ba_ttftMs acc) (toFiniteNumber (timingOf t_prompt_ms r)))
    (addRunning (ba_predictedMs acc) (toFiniteNumber (timingOf t_predicted_ms r)))
    (addRunning (ba_requestToStopMs acc) (toFiniteNumber (requestToStopOf r)))
    (addRunning (ba_reasoningMs acc) (toFiniteNumber (derivedOf reasoning_ms r)))
    (addRunning (ba_contentMs acc) (toFiniteNumber (derivedOf content_ms r)))
    (addRunning (ba_outputTokens acc) (toFiniteNumber (guardOf output_tokens_estimate r)))
    (addRunning (ba_outputChars acc) (toFiniteNumber (guardOf output_chars_estimate r)))
    (addRunning (ba_fileBytes acc) (toFiniteNumber (reqNum payload_file_bytes_total r)))
    (addRunning (ba_userTextBytes acc)
       (toFiniteNumber (reqNum payload_current_user_text_bytes r))).

Record BucketRow := mkBucketRow {
  br_label : string;
  br_count : Z;
  br_avg_predicted_tps : option Q;
  br_avg_ttft_ms : option Q;
  br_avg_predicted_ms : option Q;
  br_avg_request_to_stop_ms : option Q;
  br_avg_reasoning_ms : option Q;
  br_avg_content_ms : option Q;
  br_avg_output_tokens : option Q;
  br_avg_output_chars : option Q;
  br_avg_file_bytes : option Q;
  br_avg_user_text_bytes : option Q
}.

Definition finalizeBucket (x : BucketAcc) : BucketRow :=
  mkBucketRow
    (ba_label x) (ba_count x)
    (avgRunning (ba_predictedTps x)) (avgRunning (ba_ttftMs x))
    (avgRunning (ba_predictedMs x)) (avgRunning (ba_requestToStopMs x))
    (avgRunning (ba_reasoningMs x)) (avgRunning (ba_contentMs x))
    (avgRunning (ba_outputTokens x)) (avgRunning (ba_outputChars x))
    (avgRunning (ba_fileBytes x)) (avgRunning (ba_userTextBytes x)).

(** A row of the output-length breakdown: the bucket row and the derived
    milliseconds per thousand output tokens. *)
Record OutputRow := mkOutputRow {
  or_row : BucketRow;
  or_avg_ms_per_1k_output_tokens : option Q
}.

Record ModelOption := mkModelOption {
  mo_model : string;
  mo_count : Z
}.

Record FileVsTextRow := mkFileVsTextRow {
  fv_captured_at_ms : option Z;
  fv_input_mode : string;
  fv_file_kind_set : string;
  fv_file_bytes_total : option Q;
  fv_current_user_text_bytes : option Q;
  fv_predicted_tps : option Q;
  fv_predicted_ms : option Q;
  fv_request_to_stop_ms : option Q
}.

(** An entry of [promptHashMap]; [ph_inputModes] is the [Set], in
    insertion order. *)
Record PromptHashAcc := mkPromptHashAcc {
  ph_hash : string;
  ph_count : Z;
  ph_inputModes : list string;
  ph_predTps : Running
}.

Record PromptHashRow := mkPromptHashRow {
  prompt_hash_prefix : string;
  requests : Z;
  scenario_count : Z;
  scenarios : string;
  ph_avg_predicted_tps : option Q
}.

Record Breakdowns := mkBreakdowns {
  bd_input_mode : list BucketRow;
  bd_file_size_bucket : list BucketRow;
  bd_file_kind_set : list BucketRow;
  bd_image_size_bucket : list BucketRow;
  bd_image_count_bucket : list BucketRow;
  bd_current_user_text_size_bucket : list BucketRow;
  bd_runtime_bucket : list BucketRow;
  bd_stop_reason_category : list BucketRow;
  bd_output_length_bucket : list OutputRow
}.

Record Comparisons := mkComparisons {
  file_vs_text : list FileVsTextRow;
  prompt_hash_controls : list PromptHashRow
}.

Record ScenarioComparison := mkScenarioComparison {
  selected_model : option string;
  model_options : list ModelOption;
  selected_model_record_count : Z;
  breakdowns : Breakdowns;
  comparisons : Comparisons
}.

(** [Set.prototype.add] on a set kept in insertion order. *)
Definition set_add (x : string) (s : list string) : list string :=
  if existsb (String.eqb x) s then s else (s ++ [x])%list.

(** The default comparison of [Array.prototype.sort()] on strings: by
    code units. *)
Definition compareCodeUnits (a b : string) : Q :=
  match String.compare a b with
  | Lt => (-1)%Q
  | Eq => 0%Q
  | Gt => 1%Q
  end.

(** [parts.join(sep)] *)
Fixpoint join (sep : string) (parts : list string) : string :=
  match parts with
  | [] => ""
  | [x] => x
  | x :: rest => x ++ sep ++ join sep rest
  end.

(** The key functions of the nine breakdowns. *)
Definition keyInputMode (r : CompletionRecord) : string :=
  strOr (labelOf input_mode r) "unknown".

Definition keyFileSize (r : CompletionRecord) : string :=
  strOr (labelOf file_size_bucket r) "unknown".

Definition keyFileKind (r : CompletionRecord) : string :=
  strOr (labelOf file_kind_set r) "none".

Definition keyImageSize (r : CompletionRecord) : string :=
  strOr (labelOf image_size_bucket r) "unknown".

Definition keyImageCount (r : CompletionRecord) : string :=
  match toFiniteNumber (reqNum image_count r) with
  | None => "unknown"
  | Some n =>
      if Qle_bool n 0 then "0"
      else if Qeq_bool n 1 then "1"
      else if Qeq_bool n 2 then "2"
      else if Qle_bool n 4 then "3-4"
      else "5+"
  end.

Definition keyUserTextSize (r : CompletionRecord) : string :=
  strOr (labelOf current_user_text_size_bucket r) "unknown".

Definition keyRuntime (r : CompletionRecord) : string :=
  strOr (labelOf runtime_bucket r) "default_or_unknown".

Definition keyStopReason (r : CompletionRecord) : string :=
  strOr (match resp r with
         | Some rs => stop_reason_category (guardrails rs)
         | None => None
         end) "unknown".

Definition keyOutputLength (r : CompletionRecord) : string :=
  match toFiniteNumber (guardOf output_tokens_estimate r) with
  | None => "unknown"
  | Some n =>
      if Qle_bool n 128 then "0-128"
      else if Qle_bool n 512 then "129-512"
      else if Qle_bool n 1024 then "513-1024"
      else "1025+"
  end.

(** The derived figure added to each output-length row. *)
Definition withMsPer1k (x : BucketRow) : OutputRow :=
  let msPer1k :=
    match br_avg_predicted_ms x, br_avg_output_tokens x with
    | Some ms, Some tok =>
        if negb (Qle_bool tok 0) then Some ((ms / tok) * 1000)%Q else None
    | _, _ => None
    end in
  mkOutputRow x (round2 msPer1k).

Definition toFileVsTextRow (r : CompletionRecord) : FileVsTextRow :=
  mkFileVsTextRow
    (or_Z (captured_at_ms r) None)
    (strOr (labelOf input_mode r) "unknown")
    (strOr (labelOf file_kind_set r) "none")
    (toFiniteNumber (reqNum payload_file_bytes_total r))
    (toFiniteNumber (reqNum payload_current_user_text_bytes r))
    (toFiniteNumber (timingOf t_predicted_tps r))
    (toFiniteNumber (timingOf t_predicted_ms r))
    (toFiniteNumber (requestToStopOf r)).

Definition hasFileOrText (x : FileVsTextRow) : bool :=
  match fv_file_bytes_total x, fv_current_user_text_bytes x with
  | None, None => false
  | _, _ => true
  end.

Definition compareFileBytes (a b : FileVsTextRow) : Q :=
  (numOr0 (fv_file_bytes_total b) - numOr0 (fv_file_bytes_total a))%Q.

(** One iteration of the loop that fills [promptHashMap]. *)
Definition addPromptHashRecord (m : list (string * PromptHashAcc)) (r : CompletionRecord)
    : list (string * PromptHashAcc) :=
  let hash := match req r with Some q => prompt_hash q | None => None end in
  match hash with
  | Some h =>
      if String.eqb h "" then m
      else
        let mode := strOr (labelOf input_mode r) "unknown" in
        map_upsert h (mkPromptHashAcc h 0 [] running0)
          (fun x =>
             mkPromptHashAcc (ph_hash x) (ph_count x + 1)
               (set_add mode (ph_inputModes x))
               (addRunning (ph_predTps x) (toFiniteNumber (timingOf t_predicted_tps r))))
          m
  | None => m
  end.

Definition spansScenarios (x : PromptHashAcc) : bool :=
  Z.ltb 1 (Z.of_nat (length (ph_inputModes x))).

Definition toPromptHashRow (x : PromptHashAcc) : PromptHashRow :=
  mkPromptHashRow
    (slice0 12 (ph_hash x))
    (ph_count x)
    (Z.of_nat (length (ph_inputModes x)))
    (join ", " (sort compareCodeUnits (ph_inputModes x)))
    (avgRunning (ph_predTps x)).

Definition compareRequests (a b : PromptHashRow) : Q :=
  inject_Z (requests b - requests a).

(** The prompt-hash table before the cut-off at thirty rows. *)
Definition promptHashControlsAll (modelRecords : list CompletionRecord)
    : list PromptHashRow :=
  let promptHashMap := fold_left addPromptHashRecord modelRecords [] in
  sort compareRequests
    (map toPromptHashRow (List.filter spansScenarios (map_values promptHashMap))).

(** The file-versus-text table before the cut-off at fifty rows. *)
Definition fileVsTextAll (modelRecords : list CompletionRecord) : list FileVsTextRow :=
  sort compareFileBytes (List.filter hasFileOrText (map toFileVsTextRow modelRecords)).

Section WithLocale.

(** [a.localeCompare(b)] of the host. *)
Variable localeCompare : string -> string -> Q.

Definition compareBucketRows (sortByCount : bool) (a b : BucketRow) : Q :=
  if sortByCount then
    orNum (inject_Z (br_count b - br_count a))
      (numOr0 (br_avg_predicted_tps b) - numOr0 (br_avg_predicted_tps a))%Q
  else localeCompare (strOr (Some (br_label a)) "") (strOr (Some (br_label b)) "").

(** [finalizeScenarioBuckets] *)
Definition finalizeScenarioBuckets (m : list (string * BucketAcc)) (sortByCount : bool)
    : list BucketRow :=
  sort (compareBucketRows sortByCount) (map finalizeBucket (map_values m)).

(** The [Map] built by the loop of [groupScenario]. *)
Definition scenarioBuckets (records : list CompletionRecord)
    (keyFn : CompletionRecord -> string) : list (string * BucketAcc) :=
  fold_left
    (fun m r =>
       let key := strOr (Some (keyFn r)) "unknown" in
       map_upsert key (initScenarioBucket key) (addScenarioRecord r) m)
    records [].

(** [groupScenario] *)
Definition groupScenario (records : list CompletionRecord)
    (keyFn : CompletionRecord -> string) (sortByCount : bool) : list BucketRow :=
  finalizeScenarioBuckets (scenarioBuckets records keyFn) sortByCount.

Definition compareModelOptions (a b : ModelOption) : Q :=
  orNum (inject_Z (mo_count b - mo_count a)) (localeCompare (mo_model a) (mo_model b)).

(** The [Map] of completions per model. *)
Definition countModels (clean : list CompletionRecord) : list (string * Z) :=
  fold_left (fun m r => map_upsert (modelOf r) 0 (fun n => n + 1) m) clean [].

Definition modelOptionsOf (clean : list CompletionRecord) : list ModelOption :=
  sort compareModelOptions
    (map (fun '(model, count) => mkModelOption model count) (countModels clean)).

(** The model whose records are broken down. *)
Definition effectiveModelOf (clean : list CompletionRecord) (selectedModel : option string)
    : option string :=
  match selectedModel with
  | Some s =>
      if (truthy_str selectedModel && map_has s (countModels clean))%bool then Some s
      else match modelOptionsOf clean with
           | o :: _ => or_str (Some (mo_model o)) None
           | [] => None
           end
  | None =>
      match modelOptionsOf clean with
      | o :: _ => or_str (Some (mo_model o)) None
      | [] => None
      end
  end.

Definition modelRecordsOf (clean : list CompletionRecord) (effectiveModel : option string)
    : list CompletionRecord :=
  match effectiveModel with
  | Some e =>
      if truthy_str effectiveModel
      then List.filter (fun r => String.eqb (modelOf r) e) clean
      else []
  | None => []
  end.

(** [buildScenarioComparisons] *)
Definition buildScenarioComparisons (records : list CompletionRecord)
    (selectedModel : option string) : ScenarioComparison :=
  let clean := List.filter isClean records in
  let modelOptions := modelOptionsOf clean in
  let effectiveModel := effectiveModelOf clean selectedModel in
  let modelRecords := modelRecordsOf clean effectiveModel in
  let inputMode := groupScenario modelRecords keyInputMode true in
  let fileSize := groupScenario modelRecords keyFileSize false in
  let fileKind := groupScenario modelRecords keyFileKind true in
  let imageSize := groupScenario modelRecords keyImageSize false in
  let imageCount := groupScenario modelRecords keyImageCount false in
  let userTextSize := groupScenario modelRecords keyUserTextSize false in
  let runtimeBucket := groupScenario modelRecords keyRuntime true in
  let stopReason := groupScenario modelRecords keyStopReason true in
  let outputNorm := map withMsPer1k (groupScenario modelRecords keyOutputLength false) in
  let fileVsText := firstn 50 (fileVsTextAll modelRecords) in
  let promptHashControls := firstn 30 (promptHashControlsAll modelRecords) in
  mkScenarioComparison
    effectiveModel
    modelOptions
    (Z.of_nat (length modelRecords))
    (mkBreakdowns inputMode fileSize fileKind imageSize imageCount userTextSize
       runtimeBucket stopReason outputNorm)
    (mkComparisons fileVsText promptHashControls).

(** [a] stands before [b] among the model options: more completions,
    or as many and a name that is not after. *)
Definition optionBefore (a b : ModelOption) : Prop :=
  mo_count b < mo_count a
  \/ (mo_count a = mo_count b /\ (localeCompare (mo_model a) (mo_model b) <= 0)%Q).

End WithLocale.

(** The keys of the grouping loops. *)
Definition modelKey (r : CompletionRecord) : option string := Some (modelOf r).

Definition bucketKey (keyFn : CompletionRecord -> string) (r : CompletionRecord)
    : option string :=
  Some (strOr (Some (keyFn r)) "unknown").

(** The host comparison is a total order on strings that tells distinct
    strings apart ([a] is not after [b] when [localeCompare a b <= 0]). *)
Definition separating_order (localeCompare : string -> string -> Q) : Prop :=
  (forall a b, (localeCompare a b <= 0)%Q \/ (localeCompare b a <= 0)%Q)
  /\ (forall a b c,
        (localeCompare a b <= 0)%Q -> (localeCompare b c <= 0)%Q ->
        (localeCompare a c <= 0)%Q)
  /\ (forall a b, (localeCompare a b <= 0)%Q -> (localeCompare b a <= 0)%Q -> a = b).

(** The figures of the outputs that do not come from a running sum of
    numbers of the records: counts, names, labels, times and the
    percentages of counts.  The averages are left out; they are rounded
    quotients of sums that the code adds up in floating point, in the
    order of the records. *)
Definition countsOfSummary (s : Summary) : Z * Z * option Z * option Q * option Q :=
  (total_completions s, distinct_models s, last_completion_at_ms s,
   document_attached_requests_pct s, image_attached_requests_pct s).

Definition countsOfModel (m : ModelRow) : string * Z * option Q * option Q * option Z :=
  (mr_model m, mr_completions m, mr_doc_request_pct m, mr_image_request_pct m,
   mr_last_seen_at_ms m).

Definition countsOfBucket (b : BucketRow) : string * Z := (br_label b, br_count b).

Definition countsOfPromptHash (p : PromptHashRow) : string * Z * Z * string :=
  (prompt_hash_prefix p, requests p, scenario_count p, scenarios p).

(** The records a breakdown of model [m] is about: the number of
    well-formed input records ([r && r.req && r.resp]) whose model is
    [m]. *)
Definition filteredCount (records : list CompletionRecord) (m : string) : Z :=
  Z.of_nat
    (length (List.filter (fun r => isClean r && String.eqb (modelOf r) m)%bool records)).

(** The model of the first model option, if there is one. *)
Definition firstOption (options : list ModelOption) : option string :=
  match options with
  | o :: _ => Some (mo_model o)
  | [] => None
  end.

(** The sum of the counts of the rows of a breakdown. *)
Definition sumCounts (rows : list BucketRow) : Z :=
  fold_right (fun row acc => br_count row + acc) 0 rows.

Definition sumAccCounts (m : list (string * BucketAcc)) : Z :=
  fold_right (fun e acc => ba_count (snd e) + acc) 0 m.

(** The prompt hash under which a record is grouped, if any. *)
Definition promptHashKey (r : CompletionRecord) : option string :=
  match req r with
  | Some q =>
      match prompt_hash q with
      | Some h => if String.eqb h "" then None else Some h
      | None => None
      end
  | None => None
  end.

Definition newPromptHashAcc (h : string) : PromptHashAcc :=
  mkPromptHashAcc h 0 [] running0.

Definition updPromptHashAcc (r : CompletionRecord) (x : PromptHashAcc) : PromptHashAcc :=
  mkPromptHashAcc (ph_hash x) (ph_count x + 1)
    (set_add (keyInputMode r) (ph_inputModes x))
    (addRunning (ph_predTps x) (toFiniteNumber (timingOf t_predicted_tps r))).

(** What a row of the prompt-hash table shows of an entry, with the
    test that admits the entry to the table. *)
Definition promptHashView (x : PromptHashAcc) : bool * PromptHashRow :=
  (spansScenarios x, toPromptHashRow x).

End Aggregation.

(** ** Concrete streams and records used to exercise the definitions *)

Module Examples.
Import JS Model Parser.

(** The double quote and the line feed. *)
Definition dq : string := String "034"%char EmptyString.
Definition nl : string := String "010"%char EmptyString.

Definition jstr (s : string) : string := dq ++ s ++ dq.
Definition kv (k v : string) : string := jstr k ++ ":" ++ v.

(** The text of a chunk object with the given delta member, finish
    reason and predicted token count and milliseconds, for instance
    [{"object":"chat.completion.chunk",
      "choices":[{"delta":{"content":"Hi"},"finish_reason":null}],
      "timings":{"predicted_n":5,"predicted_ms":50}}]
    written without any white space. *)
Definition chunkJson (delta finish n ms : string) : string :=
  "{" ++ kv "object" (jstr "chat.completion.chunk") ++ ","
  ++ kv "choices" ("[{" ++ kv "delta" ("{" ++ delta ++ "}") ++ ","
                   ++ kv "finish_reason" finish ++ "}]") ++ ","
  ++ kv "timings" ("{" ++ kv "predicted_n" n ++ "," ++ kv "predicted_ms" ms ++ "}")
  ++ "}".

(** The same chunk without a [timings] member. *)
Definition chunkJsonNoTimings (delta finish : string) : string :=
  "{" ++ kv "object" (jstr "chat.completion.chunk") ++ ","
  ++ kv "choices" ("[{" ++ kv "delta" ("{" ++ delta ++ "}") ++ ","
                   ++ kv "finish_reason" finish ++ "}]")
  ++ "}".

Definition chunkOfRaw (content reasoning : option string) (finish n ms : jsval) : Chunk :=
  mkChunk (Some "chat.completion.chunk") None None None None
    (Some (mkChoice content reasoning finish))
    (Some (mkTimings JUndefined JUndefined JUndefined n ms JUndefined JUndefined)).

Definition chunkOf (content reasoning : option string) (finish : jsval) (n ms : Q) : Chunk :=
  chunkOfRaw content reasoning finish (JNum n) (JNum ms).

Definition chunkOfNoTimings (content reasoning : option string) (finish : jsval) : Chunk :=
  mkChunk (Some "chat.completion.chunk") None None None None
    (Some (mkChoice content reasoning finish)) None.

(** A content chunk with timings and no finish reason. *)
Definition timedJson : string := chunkJson (kv "content" (jstr "Hi")) "null" "5" "50".
Definition timedChunk : Chunk := chunkOf (Some "Hi") None JNull 5 50.

(** A reasoning chunk whose timings are the reasoning boundary. *)
Definition reasoningJson : string :=
  chunkJson (kv "reasoning_content" (jstr "hm")) "null" "30" "300".
Definition reasoningChunk : Chunk := chunkOf None (Some "hm") JNull 30 300.

(** The terminal chunk of the same completion. *)
Definition stopJson : string := chunkJson "" (jstr "stop") "100" "1000".
Definition stopChunk : Chunk := chunkOf None None (JStr "stop") 100 1000.

(** A reasoning chunk that reports more predicted tokens than the
    terminal chunk that follows it. *)
Definition reasoning50Json : string :=
  chunkJson (kv "reasoning_content" (jstr "hm")) "null" "50" "500".
Definition reasoning50Chunk : Chunk := chunkOf None (Some "hm") JNull 50 500.
Definition stop30Json : string := chunkJson "" (jstr "stop") "30" "300".
Definition stop30Chunk : Chunk := chunkOf None None (JStr "stop") 30 300.

(** A timed chunk whose finish reason is the empty string. *)
Definition emptyFinishJson : string := chunkJson "" (jstr "") "5" "50".
Definition emptyFinishChunk : Chunk := chunkOf None None (JStr "") 5 50.

(** A reasoning chunk whose timings hold strings instead of numbers. *)
Definition reasoningTextJson : string :=
  chunkJson (kv "reasoning_content" (jstr "hm")) "null" (jstr "30") (jstr "300").
Definition reasoningTextChunk : Chunk :=
  chunkOfRaw None (Some "hm") JNull (JStr "30") (JStr "300").

(** A chunk with a finish reason and no timings. *)
Definition stopNoTimingsJson : string := chunkJsonNoTimings "" (jstr "stop").
Definition stopNoTimingsChunk : Chunk := chunkOfNoTimings None None (JStr "stop").

(** [JSON.parse] on the texts above; any other text is taken not to
    parse. *)
Definition exampleParse (s : string) : option Chunk :=
  if String.eqb s timedJson then Some timedChunk
  else if String.eqb s reasoningJson then Some reasoningChunk
  else if String.eqb s stopJson then Some stopChunk
  else if String.eqb s reasoning50Json then Some reasoning50Chunk
  else if String.eqb s stop30Json then Some stop30Chunk
  else if String.eqb s emptyFinishJson then Some emptyFinishChunk
  else if String.eqb s stopNoTimingsJson then Some stopNoTimingsChunk
  else if String.eqb s reasoningTextJson then Some reasoningTextChunk
  else None.

(** A clock that starts at 1000 and advances by one per call. *)
Definition exampleClock (n : nat) : Z := 1000 + Z.of_nat n.

Definition exampleOrigin : string := "https://ui.example.com".

Definition dataLine (payload : string) : string := "data: " ++ payload ++ nl.

Definition sse (stream : Stream) : FetchResponse :=
  mkFetchResponse (Some "text/event-stream; charset=utf-8") (Some stream).

Definition exampleTiming : TimingContext := mkTimingContext (Some 990) (Some 995).

(** Arithmetic on exact rationals, for the hosts of the examples: the
    rounding to three decimals, and [Math.max(0, a - b)] with [ToNumber]
    on the operands.  Of the strings, those made of decimal digits are
    read as the integer they write; any other text, [undefined], arrays,
    objects and the numbers that are not finite count as [NaN] here.
    The examples subtract finite numbers and digit strings only. *)
Definition exactRound3 (x : Q) : Q := (inject_Z (Math_round (x * 1000)) / 1000)%Q.

Fixpoint digitsValue (acc : Z) (s : string) : option Z :=
  match s with
  | EmptyString => Some acc
  | String c r =>
      let n := Z.of_nat (nat_of_ascii c) in
      if (Z.leb 48 n && Z.leb n 57)%bool then digitsValue (10 * acc + (n - 48)) r
      else None
  end.

Definition exactToNumber (v : jsval) : option Q :=
  match v with
  | JNum q => Some q
  | JNull => Some 0%Q
  | JBool b => Some (if b then 1%Q else 0%Q)
  | JStr s => option_map inject_Z (digitsValue 0 s)
  | _ => None
  end.

Definition exactMax0minus (a b : jsval) : jsval :=
  match exactToNumber a, exactToNumber b with
  | Some x, Some y => JNum (Math_max0 (x - y)%Q)
  | _, _ => JNaN
  end.

Definition runParser (stream : Stream) : option CompletionRecord :=
  parseSseCloneAndEmitRecord exampleParse exampleClock exampleOrigin
    exactRound3 exactMax0minus
    (Some "t-1") (sse stream) None exampleTiming.

(** Reasoning chunk, terminal chunk, sentinel; the second line is split
    across two reads. *)
Definition reasoningStream : Stream :=
  Data (dataLine reasoningJson ++ "da")
    (Data ("ta: " ++ stopJson ++ nl ++ nl ++ dataLine "[DONE]") Eof).

(** A timed chunk and then the end of the stream, without sentinel. *)
Definition eofStream : Stream := Data (dataLine timedJson) Eof.

(** A timed chunk and then the sentinel. *)
Definition doneStream : Stream := Data (dataLine timedJson ++ dataLine "[DONE]") Eof.

(** The boundary is reported above the terminal chunk's total. *)
Definition regressingStream : Stream :=
  Data (dataLine reasoning50Json) (Data (dataLine stop30Json) Eof).

(** The last timed chunk has an empty finish reason; then the sentinel. *)
Definition emptyFinishStream : Stream :=
  Data (dataLine emptyFinishJson ++ dataLine "[DONE]") Eof.

(** The reasoning boundary is reported in strings. *)
Definition textBoundaryStream : Stream :=
  Data (dataLine reasoningTextJson) (Data (dataLine stopJson) Eof).

End Examples.

Module CorrelatorExamples.
Import JS Model Correlator.

Definition noLabels : ScenarioLabels := mkLabels None None None None None None.

(** A request with the given per-role message counts and prompt hash. *)
Definition chatRequest (users assistants total : Q) (hash : string) : RequestMeta :=
  mkReq (Some "model-a") (Some total) false false None
    (Some users) (Some assistants) (Some 0%Q) None None None (Some hash) noLabels.

Definition chatRecord (users assistants total : Q) (hash : string) (ts : Z)
    : CompletionRecord :=
  mkRecord (Some "t-1") None "Hi" None (Some ts) (Some "https://ui.example.com")
    (Some "/v1/chat/completions") (Some (chatRequest users assistants total hash))
    None None None None.

(** A first turn: one user message, no assistant message. *)
Definition firstTurn (ts : Z) : CompletionRecord := chatRecord 1 0 2 "hash-a" ts.

(** A second turn: two user messages and one assistant message. *)
Definition secondTurn (ts : Z) : CompletionRecord := chatRecord 2 1 3 "hash-b" ts.

Definition tab7 : Sender := mkSender (Some 7) (Some "https://ui.example.com").

Definition hostA : Host := mkHost 5000 5000 5000 "aaaaaaaa" "session-a" StorageOk.
Definition hostB : Host := mkHost 6000 6000 6000 "bbbbbbbb" "session-b" StorageOk.

(** Hosts whose storage rejects the read, or the write, of the snapshot. *)
Definition hostReadFails : Host :=
  mkHost 5000 5000 5000 "aaaaaaaa" "session-a" GetRejects.
Definition hostWriteFails : Host :=
  mkHost 5000 5000 5000 "aaaaaaaa" "session-a" SetRejects.

(** Two handlings of the same record for tab 7, the second [gap]
    milliseconds after the first. *)
Definition replay (record : Z -> CompletionRecord) (gap : Z) : ChainMeta * ChainMeta :=
  let '(_, store1, first) := assignChainMetadata hostA ∅ (record 1000000) tab7 in
  let '(_, _, second) := assignChainMetadata hostB store1 (record (1000000 + gap)) tab7 in
  (first, second).

Definition emptyWorld : World := mkWorld None ∅ ∅.

End CorrelatorExamples.

Module AggregationExamples.
Import JS Model Aggregation.

(** A stored record of the given model and input mode, with the given
    prompt hash, predicted tokens per second and capture time. *)
Definition aggRecord (model mode hash : string) (tps : Q) (ts : Z) : CompletionRecord :=
  mkRecord (Some "t") None "" None (Some ts) (Some "https://ui.example.com")
    (Some "/v1/chat/completions")
    (Some (mkReq (Some model) (Some 2%Q) false false None (Some 1%Q) None None (Some 0%Q)
             (Some 120%Q) (Some 0%Q) (Some hash)
             (mkLabels (Some mode) (Some "1B-10KB") (Some "0B") (Some "0B") (Some "none")
                (Some "default_or_unknown"))))
    (Some (mkResp None None (Some model) None (JStr "stop")
             (mkRespTimings (JNum 20) (JNum 50) (JNum 200) (JNum 100) (JNum 1000)
                (JNum 250) (JNum tps))
             None
             (mkDerived (JNum 0) (JNum 0) (JNum 100) (JNum 1000))
             (mkClientTiming None None None None None None None None None (Some 1200))
             (mkGuardrails (Some "completed") (Some 100%Q) (Some 400%Q))))
    None None None.

(** The same record with the attachment flags of its request set. *)
Definition flagged (doc img : bool) (r : CompletionRecord) : CompletionRecord :=
  mkRecord (trace_id r) (rec_promptText r) (responseText r) (ReasoningText r)
    (captured_at_ms r) (ui_origin r) (endpoint r)
    (option_map
       (fun q =>
          mkReq (req_model q) (messages_count q) doc img (promptText q) (role_user q)
            (role_assistant q) (role_tool q) (image_count q)
            (payload_current_user_text_bytes q) (payload_file_bytes_total q)
            (prompt_hash q) (scenario_labels q))
       (req r))
    (resp r) (session_id r) (chain_id r) (turn_number r).

(** Two records of different models with the same figures. *)
Definition recA : CompletionRecord := aggRecord "model-a" "text_only" "hash-a" 100 1000.
Definition recB : CompletionRecord := aggRecord "model-b" "text_only" "hash-b" 100 1000.

(** Two records of one model and one prompt under different input
    modes, with the same figures. *)
Definition recText : CompletionRecord := aggRecord "model-a" "text_only" "same-hash" 100 1000.
Definition recFile : CompletionRecord := aggRecord "model-a" "file_only" "same-hash" 100 1000.

End AggregationExamples.

(** ** Views of a stream used to state properties of the parser *)

Module StreamView.
Import JS Model Parser.

(** The text a stream delivers, whatever the reads it arrives in. *)
Fixpoint streamText (s : Stream) : string :=
  match s with
  | Data value rest => value ++ streamText rest
  | _ => ""
  end.

(** How a stream ends: [Eof] or [ReadError]. *)
Fixpoint streamEnd (s : Stream) : Stream :=
  match s with
  | Data _ rest => streamEnd rest
  | e => e
  end.

(** The text of a list of lines, each terminated by a line feed. *)
Fixpoint unlines (ls : list string) : string :=
  match ls with
  | [] => ""
  | l :: ls' => l ++ String "010"%char (unlines ls')
  end.

(** A line without a line feed. *)
Definition oneLine (l : string) : Prop :=
  forall c, In c (list_ascii_of_string l) -> c <> "010"%char.

(** The text under the budget: the first [MAX_CAPTURED_TEXT_CHARS]
    characters of the pieces put end to end. *)
Definition cappedText (pieces : list (option string)) : string :=
  slice0 MAX_CAPTURED_TEXT_CHARS
    (fold_left (fun t p => match p with Some x => t ++ x | None => t end) pieces "").

(** The first truthy value of a list, as [a || b || ... || null] gives it. *)
Definition firstTruthy (vs : list (option string)) : option string :=
  fold_left or_str vs None.

(** The two text deltas of a chunk, where they are strings. *)
Definition contentOf (c : Chunk) : option string :=
  match choices0 c with Some ch => delta_content ch | None => None end.

Definition reasoningOf (c : Chunk) : option string :=
  match choices0 c with Some ch => delta_reasoning_content ch | None => None end.

(** What a state has gathered from the chunks [cs] absorbed since the
    state [st0]: the two texts under the budget, and the first non-empty
    id and model. *)
Definition gathered (cs : list Chunk) (st0 st : PState) : Prop :=
  st_responseText st
  = fold_left appendCapped (map contentOf cs) (st_responseText st0)
  /\ st_reasoningText st
     = fold_left appendCapped (map reasoningOf cs) (st_reasoningText st0)
  /\ completionId st = fold_left or_str (map id cs) (completionId st0)
  /\ completionModel st = fold_left or_str (map model cs) (completionModel st0).

(** A chunk with timings has been read. *)
Definition timedOf (st : PState) : bool :=
  match lastTimedChunk st with Some _ => true | None => false end.

(** The last element of a list that passes a test. *)
Definition lastWhere {A : Type} (p : A -> bool) (l : list A) : option A :=
  List.find p (rev l).

(** The chunk has a [timings] member. *)
Definition hasTimings (c : Chunk) : bool :=
  match timings c with Some _ => true | None => false end.

(** The chunk has string reasoning content and a [timings] member. *)
Definition reasoningTimed (c : Chunk) : bool :=
  match reasoningOf c, timings c with
  | Some _, Some _ => true
  | _, _ => false
  end.

(** The two members of the timings of a chunk that a reasoning boundary
    keeps. *)
Definition boundaryOfChunk (c : Chunk) : option Boundary :=
  match timings c with
  | Some t => Some (mkBoundary (predicted_n t) (predicted_ms t))
  | None => None
  end.

(** The finish reason of a chunk when it is a non-empty string. *)
Definition terminalReason (c : Chunk) : option string :=
  match chunkFinishReason c with
  | JStr fr => if Z.ltb 0 (strlen fr) then Some fr else None
  | _ => None
  end.

(** The line is the [[DONE]] sentinel. *)
Definition isSentinel (l : string) : bool :=
  match payload l with
  | Some data => String.eqb data "[DONE]"
  | None => false
  end.

(** [x ?? null] on the seven members of a [timings] object, with the two
    durations rounded: what a record shows of the timings it is built
    from. *)
Definition shownTimings (round3 : Q -> Q) (t : Timings) : RespTimings :=
  mkRespTimings
    (coalesce (cache_n t) JNull)
    (coalesce (prompt_n t) JNull)
    (roundMs round3 (coalesce (prompt_ms t) JNull))
    (coalesce (predicted_n t) JNull)
    (roundMs round3 (coalesce (predicted_ms t) JNull))
    (coalesce (prompt_per_second t) JNull)
    (coalesce (predicted_per_second t) JNull).

Section WithParse.
Variable JSON_parse : string -> option Chunk.

(** The completion chunks of a list of lines, in order. *)
Fixpoint chunksOfLines (ls : list string) : list Chunk :=
  match ls with
  | [] => []
  | l :: ls' =>
      match chunkOfLine JSON_parse l with
      | Some c => c :: chunksOfLines ls'
      | None => chunksOfLines ls'
      end
  end.

(** The line carries a completion chunk with [timings]. *)
Definition lineHasTimings (l : string) : bool :=
  match chunkOfLine JSON_parse l with
  | Some c => match timings c with Some _ => true | None => false end
  | None => false
  end.

(** The line at which the loop over the lines breaks: a completion
    chunk whose finish reason is a non-empty string, or the sentinel when
    a chunk with timings has been read before it ([timed]). *)
Definition boundaryLine (timed : bool) (l : string) : bool :=
  match payload l with
  | Some data =>
      if String.eqb data "[DONE]" then timed
      else
        match chunkOfLine JSON_parse l with
        | Some c =>
            match chunkFinishReason c with
            | JStr fr => Z.ltb 0 (strlen fr)
            | _ => false
            end
        | None => false
        end
  | None => false
  end.

(** The lines read up to the boundary, the boundary line included; all
    the lines when there is no boundary. *)
Fixpoint linesRead (timed : bool) (ls : list string) : list string :=
  match ls with
  | [] => []
  | l :: ls' =>
      if boundaryLine timed l then [l]
      else l :: linesRead (timed || lineHasTimings l) ls'
  end.

(** Some line of the list is a boundary line. *)
Fixpoint breaks (timed : bool) (ls : list string) : bool :=
  match ls with
  | [] => false
  | l :: ls' => (boundaryLine timed l || breaks (timed || lineHasTimings l) ls')%bool
  end.

(** What the state keeps track of over the lines [P] read since the
    state [st0]: the last chunk with timings, the timings of the last
    chunk that had both reasoning content and timings, and whether the
    sentinel was among the lines. *)
Definition tracked (P : list string) (st0 st : PState) : Prop :=
  lastTimedChunk st
  = match lastWhere hasTimings (chunksOfLines P) with
    | Some c => Some c
    | None => lastTimedChunk st0
    end
  /\ reasoningBoundary st
     = match lastWhere reasoningTimed (chunksOfLines P) with
       | Some c => boundaryOfChunk c
       | None => reasoningBoundary st0
       end
  /\ sawDoneMarker st = (sawDoneMarker st0 || existsb isSentinel P)%bool.

(** No line of the list carries a chunk with a non-empty finish reason. *)
Definition noTerminal (P : list string) : Prop :=
  forall l c, In l P -> chunkOfLine JSON_parse l = Some c -> terminalReason c = None.

(** The loop over the lines [P] ended in [break] at the last of them,
    which set the boundary fields of the state: a chunk with a
    non-empty finish reason, or the sentinel after a chunk with
    timings. *)
Definition brokeAt (P : list string) (st : PState) : Prop :=
  exists P0 l,
    P = (P0 ++ [l])%list /\ noTerminal P0
    /\ ((exists c fr,
           chunkOfLine JSON_parse l = Some c /\ terminalReason c = Some fr
           /\ stopChunk st = Some c /\ lastTimingsAtStop st = timings c
           /\ stopFinishReason st = JStr fr)
        \/ (isSentinel l = true
            /\ exists ltc,
                 lastTimedChunk st = Some ltc
                 /\ stopChunk st = Some ltc /\ lastTimingsAtStop st = timings ltc
                 /\ stopFinishReason st = coalesce (chunkFinishReason ltc) (JStr "done"))).

(** The lines [P] were read without a [break]. *)
Definition ranOut (P : list string) (st : PState) : Prop :=
  stopChunk st = None /\ lastTimingsAtStop st = None /\ noTerminal P.

(** The degraded terminal chunk of the lines read [P]: when the sentinel
    is among them, the last chunk with timings, paired with the finish
    reason recorded for it, which is its own unless that is null or
    missing, and ["done"] then. *)
Definition degradedTerminal (P : list string) : option (Chunk * jsval) :=
  if existsb isSentinel P then
    match lastWhere hasTimings (chunksOfLines P) with
    | Some c => Some (c, coalesce (chunkFinishReason c) (JStr "done"))
    | None => None
    end
  else None.

(** The terminal chunk of the lines read [P], with the finish reason
    recorded for it: the chunk of the last line read when it has a
    non-empty finish reason and timings, and the degraded terminal chunk
    otherwise. *)
Definition terminalOf (P : list string) : option (Chunk * jsval) :=
  match rev P with
  | l :: _ =>
      match chunkOfLine JSON_parse l with
      | Some c =>
          match terminalReason c, timings c with
          | Some fr, Some _ => Some (c, JStr fr)
          | _, _ => degradedTerminal P
          end
      | None => degradedTerminal P
      end
  | [] => None
  end.

(** The lines the parser acts on: the sentinel and the completion
    chunks. *)
Definition relevant (l : string) : bool :=
  match payload l with
  | Some data =>
      (String.eqb data "[DONE]"
       || match chunkOfLine JSON_parse l with Some _ => true | None => false end)%bool
  | None => false
  end.

End WithParse.

End StreamView.

(** ** Request-side capture helpers ([injected.js]) *)

Module Capture.
Import JS Aggregation.

(** A value as [JSON.parse] returns it.  An object is the list of its own
    properties, each key once, in enumeration order. *)
#[local] Unset Elimination Schemes.
Inductive json :=
| VNull
| VBool (b : bool)
| VNum (q : Q)
| VStr (s : string)
| VArr (items : list json)
| VObj (fields : list (string * json)).
#[local] Set Elimination Schemes.

(** [v?.k] for the keys the code reads, none of which is inherited from
    [Object.prototype] or defined on arrays and strings: [None] is
    [undefined]. *)
Definition prop (k : string) (v : json) : option json :=
  match v with
  | VObj fields => map_get k fields
  | _ => None
  end.

(** [Object.prototype.hasOwnProperty.call(v, k)], for keys that are
    neither an index nor [length]. *)
Definition hasOwn (k : string) (v : json) : bool :=
  match v with
  | VObj fields => map_has k fields
  | _ => false
  end.

Definition truthy (v : json) : bool :=
  match v with
  | VNull => false
  | VBool b => b
  | VNum q => negb (Qeq_bool q 0)
  | VStr s => negb (String.eqb s "")
  | VArr _ | VObj _ => true
  end.

(** [v && typeof v === "object"] *)
Definition isObjectLike (v : json) : bool :=
  match v with
  | VArr _ | VObj _ => true
  | _ => false
  end.

(** [a ?? b] on a property read. *)
Definition orElse (a b : option json) : option json :=
  match a with
  | None | Some VNull => b
  | Some _ => a
  end.

(** [s.endsWith(suffix)] *)
Definition endsWith (suffix s : string) : bool :=
  let n := String.length s in
  let m := String.length suffix in
  (Nat.leb m n && String.eqb (sliceFrom (n - m) s) suffix)%bool.

(** [part.type === "text" && typeof part.text === "string"], on a part
    that is an object: the text of the part. *)
Definition textOfPart (part : json) : option string :=
  match prop "type" part, prop "text" part with
  | Some (VStr ty), Some (VStr text) => if String.eqb ty "text" then Some text else None
  | _, _ => None
  end.

(** [extractTextFromMessageContent] *)
Definition extractTextFromMessageContent (content : option json) : string :=
  match content with
  | Some (VStr s) => s
  | Some (VArr parts) =>
      fold_left
        (fun out part =>
           if negb (isObjectLike part) then out
           else match textOfPart part with
                | Some text => out ++ text
                | None => out
                end)
        parts ""
  | _ => ""
  end.

(** [Array.isArray(bodyObj?.messages) ? bodyObj.messages : []] *)
Definition messagesOf (bodyObj : option json) : list json :=
  match bodyObj with
  | Some b => match prop "messages" b with Some (VArr ms) => ms | _ => [] end
  | None => []
  end.

(** [m?.role === "user"] *)
Definition isUserMessage (m : json) : bool :=
  match prop "role" m with
  | Some (VStr r) => String.eqb r "user"
  | _ => false
  end.

(** [getCurrentUserPromptText]: the loop runs from the last message to
    the first and returns at the first message of role [user]. *)
Definition getCurrentUserPromptText (bodyObj : option json) : option string :=
  match find isUserMessage (rev (messagesOf bodyObj)) with
  | Some m => Some (extractTextFromMessageContent (prop "content" m))
  | None => None
  end.

(** *** Data URLs *)

(** The longest prefix without [;] and what follows it. *)
Fixpoint spanToSemicolon (s : string) : string * string :=
  match s with
  | EmptyString => ("", "")
  | String c r =>
      if Ascii.eqb c ";"%char then ("", s)
      else let '(a, b) := spanToSemicolon r in (String c a, b)
  end.

(** The characters [.] does not match, among code units below 256. *)
Definition isLineTerminator (c : ascii) : bool :=
  (Ascii.eqb c "010"%char || Ascii.eqb c "013"%char)%bool.

(** [url.match(/^data:([^;]+);base64,(.+)$/)]: the two groups. *)
Definition matchDataUrl (url : string) : option (string * string) :=
  if String.prefix "data:" url then
    let '(mime, after) := spanToSemicolon (sliceFrom 5 url) in
    if (negb (String.eqb mime "") && String.prefix ";base64," after)%bool then
      let b64 := sliceFrom 8 after in
      if (negb (String.eqb b64 "")
          && forallb (fun c => negb (isLineTerminator c)) (list_ascii_of_string b64))%bool
      then Some (mime, b64)
      else None
    else None
  else None.

(** [Math.max(0, Math.floor((b64.length * 3) / 4) - pad)] with
    [pad] read off the end of the text. *)
Definition decodedBytes (b64 : string) : Z :=
  let pad := if endsWith "==" b64 then 2 else if endsWith "=" b64 then 1 else 0 in
  Z.max 0 (strlen b64 * 3 / 4 - pad).

(** *** [estimateMessagesBytesAndCounts] *)

(** The variables of the loop, without the two per-role tallies
    [byRole] and [byRoleBytes], which no other variable depends on. *)
Record MsgAcc := mkMsgAcc {
  acc_bytes : Z;
  acc_hasImages : bool;
  acc_imagesBytes : Z;
  acc_imagePartsCount : Z;
  acc_imageMimeTypes : list string;
  acc_imageBytesByPart : list (option Z);
  acc_imageMimesByPart : list (option string);
  acc_lastUserIndex : Z;
  acc_perMessageTextBytes : list Z
}.

Definition msgAcc0 : MsgAcc := mkMsgAcc 0 false 0 0 [] [] [] (-1) [].

Record MsgInfo := mkMsgInfo {
  messagesCount : Z;
  messagesBytes : Z;
  currentUserTextBytes : Z;
  historyTextBytes : Z;
  mi_hasImages : bool;
  imagesBytes : Z;
  imagePartsCount : Z;
  imageBytesByPart : list (option Z);
  imageMimesByPart : list (option string);
  imageMimeTypes : list string
}.

Section WithEncoder.

(** [new TextEncoder().encode(s).length] *)
Variable utf8Bytes : string -> Z.

Definition addTextBytes (a : MsgAcc) (n : Z) : MsgAcc :=
  mkMsgAcc (acc_bytes a + n) (acc_hasImages a) (acc_imagesBytes a)
    (acc_imagePartsCount a) (acc_imageMimeTypes a) (acc_imageBytesByPart a)
    (acc_imageMimesByPart a) (acc_lastUserIndex a) (acc_perMessageTextBytes a).

(** An image part: the counters, and the size and type when the URL is
    a base64 data URL. *)
Definition addImagePart (a : MsgAcc) (url : string) : MsgAcc :=
  match matchDataUrl url with
  | Some (mime, b64) =>
      let decoded := decodedBytes b64 in
      mkMsgAcc (acc_bytes a) true (acc_imagesBytes a + decoded)
        (acc_imagePartsCount a + 1) (set_add mime (acc_imageMimeTypes a))
        (acc_imageBytesByPart a ++ [Some decoded])
        (acc_imageMimesByPart a ++ [Some mime])
        (acc_lastUserIndex a) (acc_perMessageTextBytes a)
  | None =>
      mkMsgAcc (acc_bytes a) true (acc_imagesBytes a)
        (acc_imagePartsCount a + 1) (acc_imageMimeTypes a)
        (acc_imageBytesByPart a ++ [None])
        (acc_imageMimesByPart a ++ [None])
        (acc_lastUserIndex a) (acc_perMessageTextBytes a)
  end.

(** [part.type === "image_url" && part.image_url &&
    typeof part.image_url.url === "string"]: the URL of the part. *)
Definition imageUrlOfPart (part : json) : option string :=
  match prop "type" part, prop "image_url" part with
  | Some (VStr ty), Some iu =>
      if (String.eqb ty "image_url" && truthy iu)%bool then
        match prop "url" iu with
        | Some (VStr url) => Some url
        | _ => None
        end
      else None
  | _, _ => None
  end.

(** One part of an array content; the second component is
    [messageTextBytes]. *)
Definition scanPart (st : MsgAcc * Z) (part : json) : MsgAcc * Z :=
  if negb (isObjectLike part) then st
  else
    let '(a, messageTextBytes) := st in
    let '(a1, messageTextBytes1) :=
      match textOfPart part with
      | Some text =>
          let textBytes := utf8Bytes text in
          (addTextBytes a textBytes, messageTextBytes + textBytes)
      | None => (a, messageTextBytes)
      end in
    let a2 :=
      match imageUrlOfPart part with
      | Some url => addImagePart a1 url
      | None => a1
      end in
    (a2, messageTextBytes1).

Definition pushMessageBytes (a : MsgAcc) (n : Z) : MsgAcc :=
  mkMsgAcc (acc_bytes a) (acc_hasImages a) (acc_imagesBytes a)
    (acc_imagePartsCount a) (acc_imageMimeTypes a) (acc_imageBytesByPart a)
    (acc_imageMimesByPart a) (acc_lastUserIndex a)
    (acc_perMessageTextBytes a ++ [n]).

Definition setLastUserIndex (a : MsgAcc) (i : Z) : MsgAcc :=
  mkMsgAcc (acc_bytes a) (acc_hasImages a) (acc_imagesBytes a)
    (acc_imagePartsCount a) (acc_imageMimeTypes a) (acc_imageBytesByPart a)
    (acc_imageMimesByPart a) i (acc_perMessageTextBytes a).

(** The body of the loop for the message at index [i]. *)
Definition scanMessage (a : MsgAcc) (i : Z) (m : json) : MsgAcc :=
  let a0 := if isUserMessage m then setLastUserIndex a i else a in
  match prop "content" m with
  | Some (VStr c) =>
      let textBytes := utf8Bytes c in
      pushMessageBytes (addTextBytes a0 textBytes) textBytes
  | Some (VArr parts) =>
      let '(a1, messageTextBytes) := fold_left scanPart parts (a0, 0) in
      pushMessageBytes a1 messageTextBytes
  | _ => pushMessageBytes a0 0
  end.

Definition scanMessages (messages : list json) : MsgAcc :=
  fst (fold_left (fun '(a, i) m => (scanMessage a i m, i + 1)) messages (msgAcc0, 0)).

(** [estimateMessagesBytesAndCounts] *)
Definition estimateMessagesBytesAndCounts (bodyObj : option json) : MsgInfo :=
  let messages := messagesOf bodyObj in
  let a := scanMessages messages in
  let lastUserIndex := acc_lastUserIndex a in
  let perMessageTextBytes := acc_perMessageTextBytes a in
  let currentUserTextBytes :=
    if (Z.leb 0 lastUserIndex
        && Z.ltb lastUserIndex (Z.of_nat (length perMessageTextBytes)))%bool
    then nth (Z.to_nat lastUserIndex) perMessageTextBytes 0
    else 0 in
  mkMsgInfo
    (Z.of_nat (length messages))
    (acc_bytes a)
    currentUserTextBytes
    (Z.max 0 (acc_bytes a - currentUserTextBytes))
    (acc_hasImages a)
    (acc_imagesBytes a)
    (acc_imagePartsCount a)
    (acc_imageBytesByPart a)
    (acc_imageMimesByPart a)
    (acc_imageMimeTypes a).

End WithEncoder.

(** The sum of the numbers of a list, and of those present in a list
    with gaps. *)
Definition sumZ (l : list Z) : Z := fold_right Z.add 0 l.

Definition sumPresent (l : list (option Z)) : Z :=
  fold_right (fun x acc => match x with Some n => n + acc | None => acc end) 0 l.

(** The image figures of an accumulator agree with each other. *)
Definition imagesAccounted (a : MsgAcc) : Prop :=
  acc_imagePartsCount a = Z.of_nat (length (acc_imageBytesByPart a))
  /\ length (acc_imageBytesByPart a) = length (acc_imageMimesByPart a)
  /\ acc_hasImages a = Z.ltb 0 (acc_imagePartsCount a)
  /\ acc_imagesBytes a = sumPresent (acc_imageBytesByPart a)
  /\ Forall (fun x => match x with Some n => 0 <= n | None => True end)
       (acc_imageBytesByPart a)
  /\ Forall2 (fun b m => b = None <-> m = None)
       (acc_imageBytesByPart a) (acc_imageMimesByPart a)
  /\ List.NoDup (acc_imageMimeTypes a)
  /\ (forall x, In x (acc_imageMimeTypes a) <-> In (Some x) (acc_imageMimesByPart a)).

(** The padding at the end of the base64 text of [n] bytes, and the
    length of that text before the padding. *)
Definition base64Padding (n : Z) : Z := (3 - n mod 3) mod 3.

Definition base64Length (n : Z) : Z := 4 * ((n + 2) / 3) - base64Padding n.

Fixpoint equalsSigns (p : nat) : string :=
  match p with
  | O => ""
  | S p' => String "="%char (equalsSigns p')
  end.

(** *** Parameters picked from the request body *)

Definition PARAM_KEYS : list string :=
  ["temperature"; "top_p"; "top_k"; "max_tokens"; "seed";
   "presence_penalty"; "frequency_penalty";
   "stream"; "stream_options";
   "n"; "stop"].

Definition RUNTIME_KEYS : list string :=
  ["n_ctx"; "n_batch"; "n_ubatch"; "n_threads"; "n_threads_batch"; "threads";
   "threads_batch"; "n_gpu_layers"; "gpu_layers"; "main_gpu"; "tensor_split";
   "rope_freq_base"; "rope_freq_scale"; "flash_attn"; "cache_type_k";
   "cache_type_v"; "numa"; "seed"].

(** The loop [for (const k of keys) if (hasOwnProperty(bodyObj, k))
    out[k] = bodyObj[k]] on an empty [out]. *)
Fixpoint pickKeys (keys : list string) (bodyObj : json) : list (string * json) :=
  match keys with
  | [] => []
  | k :: keys' =>
      match (if hasOwn k bodyObj then prop k bodyObj else None) with
      | Some v => (k, v) :: pickKeys keys' bodyObj
      | None => pickKeys keys' bodyObj
      end
  end.

(** [pickParams]; [bodyObj] may be [null]. *)
Definition pickParams (bodyObj : option json) : json :=
  match bodyObj with
  | Some b => if truthy b then VObj (pickKeys PARAM_KEYS b) else VObj []
  | None => VObj []
  end.

(** [pickRuntimeContext] *)
Definition pickRuntimeContext (bodyObj : option json) : option json :=
  match bodyObj with
  | Some b =>
      if negb (isObjectLike b) then None
      else
        match pickKeys RUNTIME_KEYS b with
        | [] => None
        | out => Some (VObj out)
        end
  | None => None
  end.

(** *** Scenario labels *)

(** [bytesBucket] *)
Definition bytesBucket (x : option Q) : string :=
  match x with
  | None => "unknown"
  | Some x =>
      if negb (Qle_bool 0 x) then "unknown"
      else if Qeq_bool x 0 then "0B"
      else if Qle_bool x (10 * 1024) then "1B-10KB"
      else if Qle_bool x (100 * 1024) then "10KB-100KB"
      else if Qle_bool x (500 * 1024) then "100KB-500KB"
      else if Qle_bool x (1024 * 1024) then "500KB-1MB"
      else if Qle_bool x (5 * 1024 * 1024) then "1MB-5MB"
      else ">5MB"
  end.

(** [typeof textBytes === "number" && textBytes > 0] *)
Definition hasTextOf (textBytes : option Q) : bool :=
  match textBytes with Some t => negb (Qle_bool t 0) | None => false end.

(** [deriveInputMode] *)
Definition deriveInputMode (textBytes : option Q) (hasFiles hasImages : bool) : string :=
  let hasText := hasTextOf textBytes in
  if (hasText && hasFiles && hasImages)%bool then "text+file+image"
  else if (hasText && hasFiles)%bool then "text+file"
  else if (hasText && hasImages)%bool then "text+image"
  else if (hasFiles && hasImages)%bool then "file+image"
  else if hasFiles then "file_only"
  else if hasImages then "image_only"
  else if hasText then "text_only"
  else "empty_or_unknown".

(** [typeof v === "number" && v > 0] *)
Definition positiveNumber (v : option json) : bool :=
  match v with
  | Some (VNum q) => negb (Qle_bool q 0)
  | _ => false
  end.

(** [deriveRuntimeBucket] *)
Definition deriveRuntimeBucket (runtimeContext : option json) : string :=
  match runtimeContext with
  | None => "default_or_unknown"
  | Some rc =>
      if negb (isObjectLike rc) then "default_or_unknown"
      else
        let gpuLayers := orElse (prop "n_gpu_layers" rc) (orElse (prop "gpu_layers" rc) None) in
        let threads := orElse (prop "n_threads" rc) (orElse (prop "threads" rc) None) in
        let hasCtx := hasOwn "n_ctx" rc in
        if positiveNumber gpuLayers then "gpu_offload"
        else if (positiveNumber threads && hasCtx)%bool then "cpu_tuned"
        else if positiveNumber threads then "cpu_threads_set"
        else if hasCtx then "ctx_set"
        else "runtime_set_other"
  end.

End Capture.

(** ** Attachment and document detection ([injected.js]) *)

Module Attachments.
Import JS Aggregation.

Definition DOCUMENT_EVENT_WINDOW_MS : Z := 5 * 60 * 1000.
Definition DOCUMENT_BLOB_SIGNAL_WINDOW_MS : Z := 10 * 60 * 1000.
Definition ATTACHMENT_EVENT_WINDOW_MS : Z := 5 * 60 * 1000.

Definition TEXT_FILE_EXTENSIONS : list string :=
  ["txt"; "md"; "markdown"; "csv"; "tsv"; "json"; "jsonl"; "yaml"; "yml"; "xml"; "log"].

Definition IMAGE_FILE_EXTENSIONS : list string :=
  ["png"; "jpg"; "jpeg"; "gif"; "webp"; "bmp"; "tif"; "tiff"; "heic"; "heif"; "avif"].

Definition AUDIO_FILE_EXTENSIONS : list string :=
  ["mp3"; "wav"; "ogg"; "m4a"; "aac"; "flac"; "opus"; "weba"; "aiff"].

(** [Set.prototype.has] *)
Definition set_has (x : string) (s : list string) : bool := existsb (String.eqb x) s.

(** [toLowerCase] on a code unit below 256: the letters A-Z and the
    capital letters of Latin-1 (U+00C0 to U+00DE without U+00D7). *)
Definition lowerCodeUnit (c : ascii) : ascii :=
  let n := nat_of_ascii c in
  if ((Nat.leb 65 n && Nat.leb n 90)
      || (Nat.leb 192 n && Nat.leb n 222 && negb (Nat.eqb n 215)))%bool
  then ascii_of_nat (n + 32)
  else c.

Fixpoint toLowerCase (s : string) : string :=
  match s with
  | EmptyString => EmptyString
  | String c r => String (lowerCodeUnit c) (toLowerCase r)
  end.

(** [s.split(".").pop()], with [cur] the segment being read. *)
Fixpoint lastSegment (cur s : string) : string :=
  match s with
  | EmptyString => cur
  | String c r =>
      if Ascii.eqb c "."%char then lastSegment "" r
      else lastSegment (cur ++ String c "") r
  end.

(** A string without a dot. *)
Definition noDot (s : string) : Prop :=
  forall c, In c (list_ascii_of_string s) -> c <> "."%char.

(** [getFileExt] *)
Definition getFileExt (name : option string) : string :=
  let safeName := match name with Some n => toLowerCase n | None => "" end in
  if includes "." safeName then lastSegment "" safeName else "".

Definition isTextMime (safeMime : string) : bool :=
  (String.prefix "text/" safeMime
   || String.eqb safeMime "application/json"
   || String.eqb safeMime "application/xml"
   || String.eqb safeMime "application/x-yaml"
   || String.eqb safeMime "application/yaml")%bool.

(** [classifyDocumentKind] *)
Definition classifyDocumentKind (mime name : option string) : option string :=
  let safeMime := match mime with Some m => toLowerCase m | None => "" end in
  let ext := getFileExt name in
  if (String.eqb safeMime "application/pdf" || String.eqb ext "pdf")%bool then Some "pdf"
  else if (isTextMime safeMime || set_has ext TEXT_FILE_EXTENSIONS)%bool then Some "text"
  else None.

(** [classifyAttachmentKind] *)
Definition classifyAttachmentKind (mime name : option string) : string :=
  let safeMime := match mime with Some m => toLowerCase m | None => "" end in
  let ext := getFileExt name in
  if (String.eqb safeMime "application/pdf" || String.eqb ext "pdf")%bool then "pdf"
  else if (String.prefix "image/" safeMime || set_has ext IMAGE_FILE_EXTENSIONS)%bool
  then "image"
  else if (String.prefix "audio/" safeMime || set_has ext AUDIO_FILE_EXTENSIONS)%bool
  then "audio"
  else if (isTextMime safeMime || set_has ext TEXT_FILE_EXTENSIONS)%bool then "text"
  else "other".

(** A [File] of a file list, seen through the three properties the
    code reads, each present when it has the type tested for. *)
Record FileObj := mkFileObj {
  f_name : option string;
  f_type : option string;
  f_size : option Q
}.

Record DocInfo := mkDocInfo {
  di_kind : string;
  di_mime : string;
  di_name : string
}.

(** [detectDocumentFileInfo] *)
Definition detectDocumentFileInfo (file : option FileObj) : option DocInfo :=
  match file with
  | None => None
  | Some f =>
      let mime := match f_type f with Some t => toLowerCase t | None => "" end in
      let name := match f_name f with Some n => n | None => "" end in
      match classifyDocumentKind (Some mime) (Some name) with
      | Some kind => if String.eqb kind "" then None else Some (mkDocInfo kind mime name)
      | None => None
      end
  end.

(** The loop of [summarizeFiles] on the entries collected so far. *)
Fixpoint summarizeLoop (out : list FileObj) (files : list (option FileObj)) : list FileObj :=
  match files with
  | [] => out
  | None :: files' => summarizeLoop out files'
  | Some f :: files' =>
      let out' := (out ++ [mkFileObj (f_name f) (f_type f) (f_size f)])%list in
      if Z.leb 8 (Z.of_nat (length out')) then out' else summarizeLoop out' files'
  end.

(** [summarizeFiles]; [None] is a value without a numeric [length]. *)
Definition summarizeFiles (files : option (list (option FileObj))) : list FileObj :=
  match files with
  | None => []
  | Some fs => summarizeLoop [] fs
  end.

(** [pushUniqueLimited]: the array after the call. *)
Fixpoint pushUniqueLimited (arr : list string) (values : list (option string)) (limit : Z)
    : list string :=
  match values with
  | [] => arr
  | v :: values' =>
      if negb (truthy_str v) then pushUniqueLimited arr values' limit
      else
        let s := match v with Some s => s | None => "" end in
        if set_has s arr then pushUniqueLimited arr values' limit
        else
          let arr' := (arr ++ [s])%list in
          if Z.leb limit (Z.of_nat (length arr')) then arr'
          else pushUniqueLimited arr' values' limit
  end.

(** What is kept of a file in the attachment state. *)
Record FileMeta := mkFileMeta {
  fm_name : option string;
  fm_type : option string;
  fm_size : option Q;
  fm_kind : string
}.

Section WithHost.

(** [String(x)] on a number. *)
Variable Number_toString : Q -> string.

(** Successive values of [Date.now()]. *)
Variable clock : nat -> Z.

(** The key under which [pushUniqueFileMetaLimited] compares entries. *)
Definition fileMetaKey (v : FileMeta) : string :=
  strOr (fm_name v) "" ++ "|" ++ strOr (fm_type v) "" ++ "|"
  ++ match fm_size v with Some n => Number_toString n | None => "" end
  ++ "|" ++ strOr (Some (fm_kind v)) "".

(** [pushUniqueFileMetaLimited]: the array after the call. *)
Fixpoint pushUniqueFileMetaLimited (arr : list FileMeta) (values : list FileMeta) (limit : Z)
    : list FileMeta :=
  match values with
  | [] => arr
  | v :: values' =>
      if existsb (fun x => String.eqb (fileMetaKey x) (fileMetaKey v)) arr
      then pushUniqueFileMetaLimited arr values' limit
      else
        let arr' := (arr ++ [v])%list in
        if Z.leb limit (Z.of_nat (length arr')) then arr'
        else pushUniqueFileMetaLimited arr' values' limit
  end.

(** *** The state of the detector *)

Record DocumentSignal := mkDocumentSignal {
  ds_totalEvents : Z;
  ds_lastEventAtMs : option Z;
  ds_lastSource : option string;
  ds_lastKind : option string;
  ds_lastFiles : list string;
  ds_lastBlobUrl : option string;
  ds_lastBlobMime : option string;
  ds_lastBlobBytes : option Q;
  ds_pdf : Z;
  ds_text : Z;
  ds_other : Z;
  ds_lastConsumedEventAtMs : Z
}.

Record AttachmentSignal := mkAttachmentSignal {
  as_totalEvents : Z;
  as_lastEventAtMs : option Z;
  as_lastSource : option string;
  as_lastFiles : list FileMeta;
  as_pdf : Z;
  as_text : Z;
  as_image : Z;
  as_audio : Z;
  as_other : Z;
  as_lastConsumedEventAtMs : Z
}.

Record PendingDocument := mkPendingDocument {
  pd_version : Z;
  pd_lastEventAtMs : option Z;
  pd_sources : list string;
  pd_kinds : list string;
  pd_files : list string;
  pd_blobMimes : list string
}.

Record PendingAttachments := mkPendingAttachments {
  pa_version : Z;
  pa_lastEventAtMs : option Z;
  pa_sources : list string;
  pa_files : list FileMeta
}.

(** The variables of the page script that the detector reads and
    writes, with the number of [Date.now()] calls made so far. *)
Record PageState := mkPageState {
  debugEnabled : bool;
  documentSignal : DocumentSignal;
  attachmentSignal : AttachmentSignal;
  pendingDocument : PendingDocument;
  lastConsumedPendingVersion : Z;
  pendingAttachments : PendingAttachments;
  lastConsumedAttachmentVersion : Z;
  now_calls : nat
}.

Definition initialPage : PageState :=
  mkPageState false
    (mkDocumentSignal 0 None None None [] None None None 0 0 0 0)
    (mkAttachmentSignal 0 None None [] 0 0 0 0 0 0)
    (mkPendingDocument 0 None [] [] [] [])
    0
    (mkPendingAttachments 0 None [] [])
    0
    0.

Definition Date_now (st : PageState) : Z * PageState :=
  (clock (now_calls st),
   mkPageState (debugEnabled st) (documentSignal st) (attachmentSignal st)
     (pendingDocument st) (lastConsumedPendingVersion st) (pendingAttachments st)
     (lastConsumedAttachmentVersion st) (S (now_calls st))).

Definition setDocumentSignal (st : PageState) (ds : DocumentSignal) : PageState :=
  mkPageState (debugEnabled st) ds (attachmentSignal st)
    (pendingDocument st) (lastConsumedPendingVersion st) (pendingAttachments st)
    (lastConsumedAttachmentVersion st) (now_calls st).

Definition setAttachmentSignal (st : PageState) (a : AttachmentSignal) : PageState :=
  mkPageState (debugEnabled st) (documentSignal st) a
    (pendingDocument st) (lastConsumedPendingVersion st) (pendingAttachments st)
    (lastConsumedAttachmentVersion st) (now_calls st).

Definition setPendingDocument (st : PageState) (p : PendingDocument) : PageState :=
  mkPageState (debugEnabled st) (documentSignal st) (attachmentSignal st)
    p (lastConsumedPendingVersion st) (pendingAttachments st)
    (lastConsumedAttachmentVersion st) (now_calls st).

Definition setPendingAttachments (st : PageState) (p : PendingAttachments) : PageState :=
  mkPageState (debugEnabled st) (documentSignal st) (attachmentSignal st)
    (pendingDocument st) (lastConsumedPendingVersion st) p
    (lastConsumedAttachmentVersion st) (now_calls st).

Definition setLastConsumedPendingVersion (st : PageState) (v : Z) : PageState :=
  mkPageState (debugEnabled st) (documentSignal st) (attachmentSignal st)
    (pendingDocument st) v (pendingAttachments st)
    (lastConsumedAttachmentVersion st) (now_calls st).

Definition setLastConsumedAttachmentVersion (st : PageState) (v : Z) : PageState :=
  mkPageState (debugEnabled st) (documentSignal st) (attachmentSignal st)
    (pendingDocument st) (lastConsumedPendingVersion st) (pendingAttachments st)
    v (now_calls st).

(** The handler of the [LLAMACPP_SET_DEBUG] message. *)
Definition setDebug (enabled : bool) (st : PageState) : PageState :=
  mkPageState enabled (documentSignal st) (attachmentSignal st)
    (pendingDocument st) (lastConsumedPendingVersion st) (pendingAttachments st)
    (lastConsumedAttachmentVersion st) (now_calls st).

(** [emitProbe]: the payload carries [Date.now()] when debugging is on;
    the message posted is not part of the state. *)
Definition emitProbe (st : PageState) : PageState :=
  if debugEnabled st then snd (Date_now st) else st.

(** [if (x) set.add(x)] *)
Definition addTruthy (x : option string) (s : list string) : list string :=
  if truthy_str x then set_add (match x with Some v => v | None => "" end) s else s.

(** [updatePendingDocument] *)
Definition updatePendingDocument (kind source : string) (fileNames : list (option string))
    (blobMime : option string) (st : PageState) : PageState :=
  let '(now, st1) := Date_now st in
  let p := pendingDocument st1 in
  setPendingDocument st1
    (mkPendingDocument
       (pd_version p + 1)
       (Some now)
       (addTruthy (Some source) (pd_sources p))
       (addTruthy (Some kind) (pd_kinds p))
       (pushUniqueLimited (pd_files p) fileNames 12)
       (addTruthy blobMime (pd_blobMimes p))).

(** [resetPendingDocument] *)
Definition resetPendingDocument (st : PageState) : PageState :=
  setPendingDocument st (mkPendingDocument 0 None [] [] [] []).

(** [updatePendingAttachments] *)
Definition updatePendingAttachments (source : string) (filesMeta : list FileMeta)
    (st : PageState) : PageState :=
  let '(now, st1) := Date_now st in
  let p := pendingAttachments st1 in
  setPendingAttachments st1
    (mkPendingAttachments
       (pa_version p + 1)
       (Some now)
       (addTruthy (Some source) (pa_sources p))
       (pushUniqueFileMetaLimited (pa_files p) filesMeta 20)).

(** [resetPendingAttachments] *)
Definition resetPendingAttachments (st : PageState) : PageState :=
  setPendingAttachments st (mkPendingAttachments 0 None [] []).

(** [kindCounts[k] = (kindCounts[k] || 0) + 1] on the five counters of
    [attachmentSignal]. *)
Definition countAttachmentKind (a : AttachmentSignal) (k : string) : AttachmentSignal :=
  let bumpIf (name : string) (n : Z) := if String.eqb k name then n + 1 else n in
  mkAttachmentSignal (as_totalEvents a) (as_lastEventAtMs a) (as_lastSource a)
    (as_lastFiles a)
    (bumpIf "pdf" (as_pdf a)) (bumpIf "text" (as_text a)) (bumpIf "image" (as_image a))
    (bumpIf "audio" (as_audio a)) (bumpIf "other" (as_other a))
    (as_lastConsumedEventAtMs a).

(** The entries [registerAttachmentFilesEvent] builds from a file list. *)
Definition fileMetasOf (files : list (option FileObj)) : list FileMeta :=
  flat_map
    (fun f =>
       match f with
       | None => []
       | Some f =>
           let mime := match f_type f with Some t => toLowerCase t | None => "" end in
           [mkFileMeta (f_name f) (or_str (Some mime) None) (f_size f)
              (classifyAttachmentKind (Some mime) (f_name f))]
       end)
    files.

(** [registerAttachmentFilesEvent] *)
Definition registerAttachmentFilesEvent (files : option (list (option FileObj)))
    (source : string) (st : PageState) : PageState :=
  match files with
  | None => st
  | Some fs =>
      let fileMetas := fileMetasOf fs in
      match fileMetas with
      | [] => st
      | _ =>
          let '(now, st1) := Date_now st in
          let a := attachmentSignal st1 in
          let a1 :=
            mkAttachmentSignal
              (as_totalEvents a + Z.of_nat (length fileMetas))
              (Some now) (Some source) (firstn 8 fileMetas)
              (as_pdf a) (as_text a) (as_image a) (as_audio a) (as_other a)
              (as_lastConsumedEventAtMs a) in
          let a2 :=
            fold_left (fun acc f => countAttachmentKind acc (strOr (Some (fm_kind f)) "other"))
              fileMetas a1 in
          emitProbe (updatePendingAttachments source fileMetas (setAttachmentSignal st1 a2))
      end
  end.

(** The [meta] argument of the two signal functions. *)
Record SignalMeta := mkSignalMeta {
  sm_name : option string;
  sm_blob_url : option string;
  sm_mime : option string;
  sm_size_bytes : option Q
}.

(** [registerAttachmentSignal] *)
Definition registerAttachmentSignal (source : string) (meta : option SignalMeta)
    (st : PageState) : PageState :=
  match meta with
  | None => st
  | Some meta =>
      let mime := match sm_mime meta with Some m => toLowerCase m | None => "" end in
      let fileMeta :=
        mkFileMeta (sm_name meta) (or_str (Some mime) None) (sm_size_bytes meta)
          (classifyAttachmentKind (Some mime) None) in
      let '(now, st1) := Date_now st in
      let a := attachmentSignal st1 in
      let a1 :=
        mkAttachmentSignal (as_totalEvents a + 1) (Some now) (Some source) [fileMeta]
          (as_pdf a) (as_text a) (as_image a) (as_audio a) (as_other a)
          (as_lastConsumedEventAtMs a) in
      let a2 := countAttachmentKind a1 (strOr (Some (fm_kind fileMeta)) "other") in
      emitProbe (updatePendingAttachments source [fileMeta] (setAttachmentSignal st1 a2))
  end.

(** The files of a list that [detectDocumentFileInfo] recognises, with
    what it says of them. *)
Definition matchedFiles (files : list (option FileObj)) : list (FileObj * DocInfo) :=
  flat_map
    (fun f =>
       match f, detectDocumentFileInfo f with
       | Some file, Some info => [(file, info)]
       | _, _ => []
       end)
    files.

Definition countKind (k : string) (matched : list (FileObj * DocInfo)) : Z :=
  Z.of_nat (length (List.filter (fun m => String.eqb (di_kind (snd m)) k) matched)).

(** [registerDocumentFileEvent] *)
Definition registerDocumentFileEvent (files : option (list (option FileObj)))
    (source : string) (st : PageState) : PageState :=
  match files with
  | None => st
  | Some fs =>
      let st1 := emitProbe (registerAttachmentFilesEvent files source st) in
      let matched := matchedFiles fs in
      match matched with
      | [] => emitProbe st1
      | _ =>
          let pdf := countKind "pdf" matched in
          let text := countKind "text" matched in
          let dominantKind := if Z.leb text pdf then "pdf" else "text" in
          let '(now, st2) := Date_now st1 in
          let d := documentSignal st2 in
          let d1 :=
            mkDocumentSignal
              (ds_totalEvents d + Z.of_nat (length matched))
              (Some now) (Some source) (Some dominantKind)
              (firstn 5
                 (map (fun m => match f_name (fst m) with
                                | Some n => n
                                | None => "unknown.file"
                                end) matched))
              (ds_lastBlobUrl d) (ds_lastBlobMime d) (ds_lastBlobBytes d)
              (ds_pdf d + pdf) (ds_text d + text) (ds_other d)
              (ds_lastConsumedEventAtMs d) in
          emitProbe
            (updatePendingDocument dominantKind source
               (map (fun m => f_name (fst m)) matched) None
               (setDocumentSignal st2 d1))
      end
  end.

(** [registerDocumentSignal] *)
Definition registerDocumentSignal (kind source : string) (meta : option SignalMeta)
    (st : PageState) : PageState :=
  let normalizedKind :=
    if (String.eqb kind "pdf" || String.eqb kind "text")%bool then kind else "other" in
  let '(now, st1) := Date_now st in
  let d := documentSignal st1 in
  let bumpIf (name : string) (n : Z) := if String.eqb normalizedKind name then n + 1 else n in
  let keep (new old : option string) := match new with Some _ => new | None => old end in
  let d1 :=
    mkDocumentSignal
      (ds_totalEvents d + 1) (Some now) (Some source) (Some normalizedKind)
      (ds_lastFiles d)
      (match meta with Some m => keep (sm_blob_url m) (ds_lastBlobUrl d)
                      | None => ds_lastBlobUrl d end)
      (match meta with Some m => keep (sm_mime m) (ds_lastBlobMime d)
                      | None => ds_lastBlobMime d end)
      (match meta with
       | Some m => match sm_size_bytes m with
                   | Some b => Some b
                   | None => ds_lastBlobBytes d
                   end
       | None => ds_lastBlobBytes d
       end)
      (bumpIf "pdf" (ds_pdf d)) (bumpIf "text" (ds_text d)) (bumpIf "other" (ds_other d))
      (ds_lastConsumedEventAtMs d) in
  emitProbe
    (updatePendingDocument normalizedKind source []
       (match meta with Some m => sm_mime m | None => None end)
       (setDocumentSignal st1 d1)).

(** [a || b] on two time stamps that may be [null]. *)
Definition firstTruthyMs (a b : option Z) : option Z :=
  if truthy_Z a then a else b.

Record DocumentMeta := mkDocumentMeta {
  dm_hasDocument : bool;
  dm_kind : option string;
  dm_kinds_seen : list string;
  dm_sources_seen : list string;
  dm_files_seen : list string;
  dm_blob_mimes_seen : list string;
  dm_window_ms : Z;
  dm_last_event_at_ms : option Z;
  dm_last_event_age_ms : option Z;
  dm_last_event_source : option string;
  dm_last_files : list string;
  dm_last_blob_url : option string;
  dm_last_blob_mime : option string;
  dm_last_blob_bytes : option Q;
  dm_total_document_events_seen : Z;
  dm_total_pdf_events_seen : Z;
  dm_total_text_events_seen : Z
}.

(** [getDocumentMetaForRequest] *)
Definition getDocumentMetaForRequest (st : PageState) : DocumentMeta * PageState :=
  let '(nowMs, st1) := Date_now st in
  let p := pendingDocument st1 in
  let d := documentSignal st1 in
  let lastAt := firstTruthyMs (pd_lastEventAtMs p) (ds_lastEventAtMs d) in
  let ageMs := option_map (fun l => Z.max 0 (nowMs - l)) lastAt in
  let withinWindow :=
    match ageMs with Some a => Z.leb a DOCUMENT_EVENT_WINDOW_MS | None => false end in
  let withinBlobWindow :=
    match ageMs with Some a => Z.leb a DOCUMENT_BLOB_SIGNAL_WINDOW_MS | None => false end in
  let hasUnconsumedPending :=
    (Z.ltb 0 (pd_version p) && Z.ltb (lastConsumedPendingVersion st1) (pd_version p))%bool in
  let unconsumed :=
    (hasUnconsumedPending
     || match lastAt with
        | Some l => Z.ltb (ds_lastConsumedEventAtMs d) l
        | None => false
        end)%bool in
  let hasDocument := ((withinWindow || withinBlobWindow) && unconsumed)%bool in
  let st2 :=
    match lastAt with
    | Some l =>
        if hasDocument then
          resetPendingDocument
            (setLastConsumedPendingVersion
               (setDocumentSignal st1
                  (mkDocumentSignal (ds_totalEvents d) (ds_lastEventAtMs d) (ds_lastSource d)
                     (ds_lastKind d) (ds_lastFiles d) (ds_lastBlobUrl d) (ds_lastBlobMime d)
                     (ds_lastBlobBytes d) (ds_pdf d) (ds_text d) (ds_other d) l))
               (pd_version p))
        else st1
    | None => st1
    end in
  (mkDocumentMeta
     hasDocument
     (match pd_kinds p with
      | [] => ds_lastKind d
      | [k] => Some k
      | _ => Some "mixed"
      end)
     (pd_kinds p) (pd_sources p) (pd_files p) (pd_blobMimes p)
     DOCUMENT_EVENT_WINDOW_MS
     lastAt ageMs
     (ds_lastSource d) (ds_lastFiles d) (ds_lastBlobUrl d) (ds_lastBlobMime d)
     (ds_lastBlobBytes d) (ds_totalEvents d) (ds_pdf d) (ds_text d),
   st2).

Record AttachmentMeta := mkAttachmentMeta {
  am_hasFiles : bool;
  am_file_count : Z;
  am_file_bytes_total : Q;
  am_kinds_seen : list string;
  am_sources_seen : list string;
  am_files : list FileMeta;
  am_window_ms : Z;
  am_last_event_at_ms : option Z;
  am_last_event_age_ms : option Z;
  am_last_event_source : option string;
  am_last_files : list FileMeta;
  am_total_attachment_events_seen : Z;
  am_total_pdf_events_seen : Z;
  am_total_text_events_seen : Z;
  am_total_image_events_seen : Z;
  am_total_audio_events_seen : Z;
  am_total_other_events_seen : Z
}.

(** [getAttachmentMetaForRequest] *)
Definition getAttachmentMetaForRequest (st : PageState) : AttachmentMeta * PageState :=
  let '(nowMs, st1) := Date_now st in
  let p := pendingAttachments st1 in
  let a := attachmentSignal st1 in
  let lastAt := firstTruthyMs (pa_lastEventAtMs p) (as_lastEventAtMs a) in
  let ageMs := option_map (fun l => Z.max 0 (nowMs - l)) lastAt in
  let withinWindow :=
    match ageMs with Some g => Z.leb g ATTACHMENT_EVENT_WINDOW_MS | None => false end in
  let hasUnconsumedPending :=
    (Z.ltb 0 (pa_version p) && Z.ltb (lastConsumedAttachmentVersion st1) (pa_version p))%bool in
  let unconsumed :=
    (hasUnconsumedPending
     || match lastAt with
        | Some l => Z.ltb (as_lastConsumedEventAtMs a) l
        | None => false
        end)%bool in
  let pendingFiles := pa_files p in
  let hasFiles :=
    (withinWindow && unconsumed && negb (Nat.eqb (length pendingFiles) 0))%bool in
  let filesTotalBytes :=
    fold_left (fun sum f => (sum + match fm_size f with Some n => n | None => 0 end)%Q)
      pendingFiles 0%Q in
  let kindsSeen :=
    fold_left (fun s f => if String.eqb (fm_kind f) "" then s else set_add (fm_kind f) s)
      pendingFiles [] in
  let st2 :=
    match lastAt with
    | Some l =>
        if hasFiles then
          resetPendingAttachments
            (setLastConsumedAttachmentVersion
               (setAttachmentSignal st1
                  (mkAttachmentSignal (as_totalEvents a) (as_lastEventAtMs a) (as_lastSource a)
                     (as_lastFiles a) (as_pdf a) (as_text a) (as_image a) (as_audio a)
                     (as_other a) l))
               (pa_version p))
        else st1
    | None => st1
    end in
  (mkAttachmentMeta
     hasFiles
     (Z.of_nat (length pendingFiles))
     filesTotalBytes
     kindsSeen
     (pa_sources p)
     pendingFiles
     ATTACHMENT_EVENT_WINDOW_MS
     lastAt ageMs
     (as_lastSource a) (as_lastFiles a)
     (as_totalEvents a) (as_pdf a) (as_text a) (as_image a) (as_audio a) (as_other a),
   st2).

(** The steps of the detector: the file events of the page, the blob
    signals, the debug switch, any other call of [Date.now()] in the page
    script, and the two reads made for a request. *)
Inductive Step :=
| FileEvent (files : option (list (option FileObj))) (source : string)
| DocumentSignalEvent (kind source : string) (meta : option SignalMeta)
| AttachmentSignalEvent (source : string) (meta : option SignalMeta)
| DebugSwitch (enabled : bool)
| ClockRead
| ReadDocumentMeta
| ReadAttachmentMeta.

Definition step (st : PageState) (e : Step) : PageState :=
  match e with
  | FileEvent files source => registerDocumentFileEvent files source st
  | DocumentSignalEvent kind source meta => registerDocumentSignal kind source meta st
  | AttachmentSignalEvent source meta => registerAttachmentSignal source meta st
  | DebugSwitch enabled => setDebug enabled st
  | ClockRead => snd (Date_now st)
  | ReadDocumentMeta => snd (getDocumentMetaForRequest st)
  | ReadAttachmentMeta => snd (getAttachmentMetaForRequest st)
  end.

(** The state after a history of steps. *)
Definition run (history : list Step) : PageState := fold_left step history initialPage.

(** The clock never goes back. *)
Definition monotone : Prop := forall i j, (i <= j)%nat -> clock i <= clock j.

(** The steps that bring a new document, and those that bring a new
    attachment. *)
Definition isDocumentEvent (e : Step) : bool :=
  match e with
  | FileEvent _ _ | DocumentSignalEvent _ _ _ => true
  | _ => false
  end.

Definition isAttachmentEvent (e : Step) : bool :=
  match e with
  | FileEvent _ _ | AttachmentSignalEvent _ _ => true
  | _ => false
  end.

(** A step that leaves the document state, or the attachment state,
    as it is; the clock may have been read. *)
Definition sameDocuments (st st' : PageState) : Prop :=
  documentSignal st' = documentSignal st
  /\ pendingDocument st' = pendingDocument st
  /\ lastConsumedPendingVersion st' = lastConsumedPendingVersion st
  /\ (now_calls st <= now_calls st')%nat.

Definition sameAttachments (st st' : PageState) : Prop :=
  attachmentSignal st' = attachmentSignal st
  /\ pendingAttachments st' = pendingAttachments st
  /\ lastConsumedAttachmentVersion st' = lastConsumedAttachmentVersion st
  /\ (now_calls st <= now_calls st')%nat.

(** The pending document event is not older than the last document
    signal. *)
Definition documentOrdered (st : PageState) : Prop :=
  forall p, pd_lastEventAtMs (pendingDocument st) = Some p ->
  exists d, ds_lastEventAtMs (documentSignal st) = Some d /\ d <= p.

(** An event at [l] has been consumed up to version [consumedVersion]
    and time [consumedAt], or was already older than [window] at some
    earlier call of [Date.now()]. *)
Definition spent (window version consumedVersion consumedAt : Z) (calls : nat) (l : Z)
    : Prop :=
  ((version <= 0 \/ version <= consumedVersion) /\ l <= consumedAt)
  \/ exists k, (k <= calls)%nat /\ window < clock k - l.

(** Nothing is left of the document events for a later request. *)
Definition documentSpent (st : PageState) : Prop :=
  match firstTruthyMs (pd_lastEventAtMs (pendingDocument st))
          (ds_lastEventAtMs (documentSignal st)) with
  | None => True
  | Some l =>
      spent DOCUMENT_BLOB_SIGNAL_WINDOW_MS (pd_version (pendingDocument st))
        (lastConsumedPendingVersion st)
        (ds_lastConsumedEventAtMs (documentSignal st)) (now_calls st) l
  end.

(** Nothing is left of the attachment events for a later request. *)
Definition attachmentSpent (st : PageState) : Prop :=
  pa_files (pendingAttachments st) = []
  \/ match firstTruthyMs (pa_lastEventAtMs (pendingAttachments st))
             (as_lastEventAtMs (attachmentSignal st)) with
     | None => True
     | Some l =>
         spent ATTACHMENT_EVENT_WINDOW_MS (pa_version (pendingAttachments st))
           (lastConsumedAttachmentVersion st)
           (as_lastConsumedEventAtMs (attachmentSignal st)) (now_calls st) l
     end.

(** The totals of the two signals are the sums of their counters. *)
Definition documentCounted (d : DocumentSignal) : Prop :=
  ds_totalEvents d = ds_pdf d + ds_text d + ds_other d
  /\ 0 <= ds_pdf d /\ 0 <= ds_text d /\ 0 <= ds_other d.

Definition attachmentsCounted (a : AttachmentSignal) : Prop :=
  as_totalEvents a = as_pdf a + as_text a + as_image a + as_audio a + as_other a.

Definition countersAddUp (st : PageState) : Prop :=
  documentCounted (documentSignal st) /\ attachmentsCounted (attachmentSignal st).

(** The five kinds of [attachmentSignal.kindCounts]. *)
Definition isAttachmentKind (k : string) : Prop :=
  k = "pdf" \/ k = "text" \/ k = "image" \/ k = "audio" \/ k = "other".

End WithHost.

End Attachments.

(** ** Scenario labels of a request ([injected.js]) *)

Module Labels.
Import JS Model Aggregation Capture Attachments.

(** [deriveScenarioLabels]; [msgInfo] is [None] for the object of nulls
    used when the request body did not parse. *)
Definition deriveScenarioLabels (msgInfo : option MsgInfo) (attachmentMeta : AttachmentMeta)
    (runtimeContext : option json) : ScenarioLabels :=
  let textBytes := option_map (fun i => inject_Z (currentUserTextBytes i)) msgInfo in
  let fileBytes := Some (am_file_bytes_total attachmentMeta) in
  let imageBytes := option_map (fun i => inject_Z (imagesBytes i)) msgInfo in
  let hasFiles := am_hasFiles attachmentMeta in
  let hasImages := match msgInfo with Some i => mi_hasImages i | None => false end in
  let kinds :=
    List.filter (fun k => negb (String.eqb k "")) (am_kinds_seen attachmentMeta) in
  mkLabels
    (Some (deriveInputMode textBytes hasFiles hasImages))
    (Some (bytesBucket textBytes))
    (Some (bytesBucket fileBytes))
    (Some (bytesBucket imageBytes))
    (Some (match kinds with
           | [] => "none"
           | _ => join "+" (sort compareCodeUnits kinds)
           end))
    (Some (deriveRuntimeBucket runtimeContext)).

End Labels.

(** ** The record store and the compact records ([background.js]) *)

Module Storage.
Import JS Model Correlator Aggregation.

(** The rows of the object store, in the order in which a cursor
    visits them: by primary key, compared by code units. *)
Definition allRows (w : World) : list StoredRow :=
  sort (fun a b => compareCodeUnits (row_key a) (row_key b))
    (map snd (map_to_list (records_store w))).

(** The rows a cursor over the [session_id] index visits for one
    session. *)
Definition rowsOfSession (w : World) (sessionId : string) : list StoredRow :=
  List.filter (fun row => String.eqb (row_session_id row) sessionId) (allRows w).

(** [countRecordsForSession] *)
Definition countRecordsForSession (w : World) (sessionId : string) : Z :=
  Z.of_nat (length (rowsOfSession w sessionId)).

(** [getRecordsForSession] *)
Definition getRecordsForSession (w : World) (activeSessionId : string)
    : list CompletionRecord :=
  map row_record (rowsOfSession w activeSessionId).

(** [clearAll]: the database is deleted and the active session
    forgotten; the chain states of the tabs stay. *)
Definition clearAll (w : World) : World :=
  mkWorld None (tab_chain_state w) ∅.

(** [setActiveSession], without the [sessions] object store. *)
Definition setActiveSession (w : World) (sessionId : string) : World :=
  mkWorld (Some sessionId) (tab_chain_state w) (records_store w).

(** The handler of the [clear_all] message. *)
Definition handleClearAll (h : Host) (w : World) : string * World :=
  (fresh_session_id h, setActiveSession (clearAll w) (fresh_session_id h)).

(** The two errors [importJsonlRecords] throws. *)
Inductive ImportError :=
| NoRecordsProvided
| InvalidRecordAt (i : nat).

(** [!r || typeof r !== "object" || !r.req || !r.resp]; [None] is a
    value that is not an object. *)
Definition invalidRecord (r : option CompletionRecord) : bool :=
  match r with
  | Some r => negb (isClean r)
  | None => true
  end.

(** The index at which the validation loop throws, counted from [i]. *)
Fixpoint firstInvalid (i : nat) (input : list (option CompletionRecord)) : option nat :=
  match input with
  | [] => None
  | r :: input' => if invalidRecord r then Some i else firstInvalid (S i) input'
  end.

(** What the host supplies to one import: the id [makeSessionId] would
    mint and the value of [Date.now()] for the record at each index. *)
Record ImportHost := mkImportHost {
  import_fresh_session_id : string;
  import_now : nat -> Z
}.

(** The row stored for the record at index [i]. *)
Definition importedRow (h : ImportHost) (inferredSession : string) (i : nat)
    (src : CompletionRecord) : StoredRow :=
  let ts := match captured_at_ms src with Some t => t | None => import_now h i end in
  let rec :=
    mkRecord (trace_id src) (rec_promptText src) (responseText src) (ReasoningText src)
      (Some ts) (ui_origin src) (endpoint src) (req src) (resp src)
      (Some inferredSession) (chain_id src) (turn_number src) in
  let traceId := strOr (trace_id rec) ("import-" ++ pretty i) in
  let completionId :=
    strOr (match resp rec with Some rs => resp_id rs | None => None end)
      ("noid-" ++ pretty i) in
  let key :=
    inferredSession ++ "::" ++ pretty ts ++ "::" ++ traceId ++ "::" ++ completionId
    ++ "::" ++ pretty i in
  mkStoredRow key inferredSession ts rec.

(** The loop of [store.put] calls, from index [i]. *)
Fixpoint putImported (h : ImportHost) (inferredSession : string) (i : nat)
    (input : list (option CompletionRecord)) (store : gmap string StoredRow)
    : gmap string StoredRow :=
  match input with
  | [] => store
  | Some src :: input' =>
      let row := importedRow h inferredSession i src in
      putImported h inferredSession (S i) input' (<[row_key row := row]> store)
  | None :: input' => putImported h inferredSession (S i) input' store
  end.

Record ImportResult := mkImportResult {
  ir_session_id : string;
  ir_imported : Z
}.

(** [importJsonlRecords]; [records] is [None] when the message carries
    no array.  Storage calls are taken to succeed. *)
Definition importJsonlRecords (h : ImportHost) (w : World)
    (records : option (list (option CompletionRecord)))
    : ImportError + (ImportResult * World) :=
  let input := match records with Some l => l | None => [] end in
  match input with
  | [] => inl NoRecordsProvided
  | first :: _ =>
      match firstInvalid 0 input with
      | Some i => inl (InvalidRecordAt i)
      | None =>
          let w1 := clearAll w in
          let inferredSession :=
            strOr (match first with Some r => session_id r | None => None end)
              (import_fresh_session_id h) in
          let w2 := setActiveSession w1 inferredSession in
          let store := putImported h inferredSession 0 input (records_store w2) in
          inr (mkImportResult inferredSession (Z.of_nat (length input)),
               mkWorld (active_session_id w2) (tab_chain_state w2) store)
      end
  end.

(** [x.captured_at_ms || 0] *)
Definition timeOr0 (t : option Z) : Z := match t with Some z => z | None => 0 end.

Definition compareRowTimes (a b : StoredRow) : Q :=
  inject_Z (timeOr0 (Some (row_captured_at_ms a)) - timeOr0 (Some (row_captured_at_ms b))).

(** The text [exportSessionJsonl] hands to the download: one line per
    row of the session, oldest first. *)
Definition exportedLines (JSON_stringify : CompletionRecord -> string) (w : World)
    (sessionId : string) : list string :=
  map (fun x => JSON_stringify (row_record x))
    (sort compareRowTimes (rowsOfSession w sessionId)).

Definition exportSessionJsonl (JSON_stringify : CompletionRecord -> string) (w : World)
    (sessionId : string) : string :=
  let lines := exportedLines JSON_stringify w sessionId in
  join (String "010"%char "") lines
  ++ match lines with [] => "" | _ => String "010"%char "" end.

(** [llamacpp-metrics_${sessionId}.jsonl] *)
Definition exportFilename (sessionId : string) : string :=
  "llamacpp-metrics_" ++ sessionId ++ ".jsonl".

(** *** Compact records of the dashboard *)

(** [x || null] on a value of any type. *)
Definition truthyOrNull (v : jsval) : jsval :=
  match v with
  | JUndefined | JNull => JNull
  | JBool b => if b then v else JNull
  | JNum q => if Qeq_bool q 0 then JNull else v
  | JStr s => if String.eqb s "" then JNull else v
  | JNaN => JNull
  | JInfinity _ | JObj _ => v
  end.

(** A row of [buildDashboardRecords], without [has_files],
    [text_bytes_total] and [file_bytes_total], which are read from parts
    of the request that the record model leaves out. *)
Record CompactRecord := mkCompactRecord {
  cr_captured_at_ms : option Z;
  cr_chain_id : option string;
  cr_turn_number : option Z;
  cr_model : string;
  cr_input_mode : string;
  cr_has_images : bool;
  cr_finish_reason : jsval;
  cr_prompt_n : option Q;
  cr_predicted_n : option Q;
  cr_prompt_tps : option Q;
  cr_predicted_tps : option Q;
  cr_cache_n : option Q;
  cr_ttft_ms : option Q;
  cr_request_to_headers_ms : option Q;
  cr_headers_to_first_stream_chunk_ms : option Q;
  cr_first_stream_chunk_to_stop_ms : option Q;
  cr_request_to_stop_ms : option Q;
  cr_reasoning_ms : option Q;
  cr_content_ms : option Q;
  cr_reasoning_n : option Q;
  cr_content_n : option Q;
  cr_output_tokens_estimate : option Q;
  cr_output_chars_estimate : option Q;
  cr_prompt_hash : option string
}.

Definition clientTimingOf (f : ClientTiming -> option Z) (r : CompletionRecord) : option Q :=
  match resp r with Some rs => numZ (f (client_timing rs)) | None => None end.

(** The row pushed for a record that has [req] and [resp]. *)
Definition toCompactRecord (x : CompletionRecord) : CompactRecord :=
    (mkCompactRecord
       (captured_at_ms x)
       (chain_id x)
       (turn_number x)
       (modelOf x)
       (strOr (labelOf input_mode x) "unknown")
       (hasImages x)
       (match resp x with Some rs => truthyOrNull (resp_finish_reason rs) | None => JNull end)
       (toFiniteNumber (timingOf t_prompt_n x))
       (toFiniteNumber (timingOf t_predicted_n x))
       (toFiniteNumber (timingOf t_prompt_tps x))
       (toFiniteNumber (timingOf t_predicted_tps x))
       (toFiniteNumber (timingOf t_cache_n x))
       (match toFiniteNumber (clientTimingOf duration_request_to_first_stream_chunk_ms x) with
        | Some v => Some v
        | None => toFiniteNumber (timingOf t_prompt_ms x)
        end)
       (toFiniteNumber (clientTimingOf duration_request_to_headers_ms x))
       (toFiniteNumber (clientTimingOf duration_headers_to_first_stream_chunk_ms x))
       (toFiniteNumber (clientTimingOf duration_first_stream_chunk_to_stop_ms x))
       (toFiniteNumber (clientTimingOf duration_request_to_stop_ms x))
       (toFiniteNumber (derivedOf reasoning_ms x))
       (toFiniteNumber (derivedOf content_ms x))
       (toFiniteNumber (derivedOf reasoning_n x))
       (toFiniteNumber (derivedOf content_n x))
       (toFiniteNumber (guardOf output_tokens_estimate x))
       (toFiniteNumber (guardOf output_chars_estimate x))
       (or_str (match req x with Some q => prompt_hash q | None => None end) None)).

Definition compareCaptured (a b : CompactRecord) : Q :=
  inject_Z (timeOr0 (cr_captured_at_ms a) - timeOr0 (cr_captured_at_ms b)).

(** [buildDashboardRecords] *)
Definition buildDashboardRecords (records : list CompletionRecord) : list CompactRecord :=
  sort compareCaptured (map toCompactRecord (List.filter isClean records)).

(** *** The worlds the background script reaches *)

(** A row is filed under the session and the time its record carries,
    and under its own key. *)
Definition rowsAgree (w : World) : Prop :=
  forall k row,
    records_store w !! k = Some row ->
    row_key row = k
    /\ session_id (row_record row) = Some (row_session_id row)
    /\ captured_at_ms (row_record row) = Some (row_captured_at_ms row).

Inductive reachableWorld : World -> Prop :=
| reachable_start : reachableWorld (mkWorld None ∅ ∅)
| reachable_addRecord h w record sender :
    reachableWorld w ->
    reachableWorld (snd (fst (addRecord h w record sender)))
| reachable_clearAll h w :
    reachableWorld w -> reachableWorld (snd (handleClearAll h w))
| reachable_import h w records res w' :
    reachableWorld w ->
    importJsonlRecords h w records = inr (res, w') ->
    reachableWorld w'
| reachable_tabRemoved w tabId :
    reachableWorld w ->
    reachableWorld
      (mkWorld (active_session_id w) (clearTabChainState (tab_chain_state w) tabId)
         (records_store w)).

(** The rows an import of [input] writes, from index [i]. *)
Fixpoint importedRows (h : ImportHost) (inferredSession : string) (i : nat)
    (input : list (option CompletionRecord)) : list StoredRow :=
  match input with
  | [] => []
  | Some src :: input' =>
      importedRow h inferredSession i src :: importedRows h inferredSession (S i) input'
  | None :: input' => importedRows h inferredSession (S i) input'
  end.

(** [store.put(row)] *)
Definition putRow (m : gmap string StoredRow) (row : StoredRow) : gmap string StoredRow :=
  <[row_key row := row]> m.

(** What follows the last occurrence of [sep] in [s], with [cur] what
    has been read since the last one. *)
Fixpoint afterLast (sep : ascii) (cur s : string) : string :=
  match s with
  | EmptyString => cur
  | String c r =>
      if Ascii.eqb c sep then afterLast sep "" r
      else afterLast sep (cur ++ String c "") r
  end.

(** No code unit of [s] is [sep]. *)
Definition lacks (sep : ascii) (s : string) : Prop :=
  forall c, In c (list_ascii_of_string s) -> c <> sep.

End Storage.

(** ** Totals of the dashboard tables *)

Module Totals.
Import JS Model Aggregation.

(** The completions of the rows of the model table, added up. *)
Definition sumCompletions (rows : list ModelRow) : Z :=
  fold_right (fun row acc => mr_completions row + acc) 0 rows.

Definition sumAccCompletions (m : list (string * ModelAcc)) : Z :=
  fold_right (fun e acc => ma_completions (snd e) + acc) 0 m.

(** The records counted under a model name. *)
Definition recordsOfModel (model : string) (records : list CompletionRecord)
    : list CompletionRecord :=
  List.filter (hasKey modelKey model) records.

End Totals.

(** ** The material of the prompt hash ([injected.js]) *)

Module Identity.
Import JS Aggregation Capture.

Section Stringify.
(** [JSON.stringify] on a number and on a string. *)
Variable JSON_number : Q -> string.
Variable JSON_quote : string -> string.

(** [stableStringify].  The values of an object are rendered once each,
    and the part of a key reads the rendering of [value[k]]. *)
Fixpoint stableStringify (value : json) : string :=
  match value with
  | VNull => "null"
  | VBool b => if b then "true" else "false"
  | VNum q => JSON_number q
  | VStr s => JSON_quote s
  | VArr items => "[" ++ join "," (map stableStringify items) ++ "]"
  | VObj fields =>
      let rendered := map (fun kv => (fst kv, stableStringify (snd kv))) fields in
      let keys := sort compareCodeUnits (map fst fields) in
      let parts :=
        map (fun k =>
               JSON_quote k ++ ":"
               ++ match map_get k rendered with Some s => s | None => "undefined" end)
          keys in
      "{" ++ join "," parts ++ "}"
  end.

(** [promptMaterial] of [buildPromptIdentity], for a body that is an
    object. *)
Definition promptMaterial (bodyObj : json) : string :=
  stableStringify (VArr (messagesOf (Some bodyObj))).

End Stringify.

(** Two values that differ at most in the order in which objects list
    their keys. *)
#[local] Unset Elimination Schemes.
Inductive sameJson : json -> json -> Prop :=
| same_null : sameJson VNull VNull
| same_bool b : sameJson (VBool b) (VBool b)
| same_num q : sameJson (VNum q) (VNum q)
| same_str s : sameJson (VStr s) (VStr s)
| same_arr items items' :
    Forall2 sameJson items items' -> sameJson (VArr items) (VArr items')
| same_obj fields fields' :
    List.NoDup (map fst fields) -> List.NoDup (map fst fields') ->
    (forall k, map_has k fields = map_has k fields') ->
    (forall k v v', map_get k fields = Some v -> map_get k fields' = Some v' ->
                    sameJson v v') ->
    sameJson (VObj fields) (VObj fields').
#[local] Set Elimination Schemes.

End Identity.

(** ** Concrete inputs for the request side, the detector and the store *)

Module CaptureExamples.
Import JS Model Parser Correlator Aggregation Capture Attachments Labels Storage Identity.
Import StreamView Examples CorrelatorExamples AggregationExamples.

(** The text of [reasoningStream], delivered in one read. *)
Definition oneReadStream : Stream := Data (streamText reasoningStream) Eof.

(** A chunk and the sentinel, with a comment line before them, and with
    an event line between them. *)
Definition commentedLines : list string :=
  [": keep-alive"; "data: " ++ timedJson; "data: [DONE]"].
Definition pingedLines : list string :=
  ["data: " ++ timedJson; "event: ping"; "data: [DONE]"].

(** The byte length of a text of code units below 128. *)
Definition asciiBytes (s : string) : Z := strlen s.

Definition message (role : string) (content : json) : json :=
  VObj [("role", VStr role); ("content", content)].

(** A request body with two user turns, the second in parts. *)
Definition chatBody : json :=
  VObj [("model", VStr "model-a");
        ("messages",
         VArr [message "user" (VStr "Hi");
               message "assistant" (VStr "Hello");
               message "user" (VArr [VObj [("type", VStr "text"); ("text", VStr "What ")];
                                     VObj [("type", VStr "text"); ("text", VStr "now?")]])]);
        ("n_ctx", VNum 4096);
        ("temperature", VNum (1 # 2))].

(** The same body with the keys of every object in another order. *)
Definition chatBodyReordered : json :=
  VObj [("temperature", VNum (1 # 2));
        ("n_ctx", VNum 4096);
        ("messages",
         VArr [VObj [("content", VStr "Hi"); ("role", VStr "user")];
               VObj [("content", VStr "Hello"); ("role", VStr "assistant")];
               VObj [("content",
                      VArr [VObj [("text", VStr "What "); ("type", VStr "text")];
                            VObj [("text", VStr "now?"); ("type", VStr "text")]]);
                     ("role", VStr "user")]]);
        ("model", VStr "model-a")].

(** A PDF and a text file named in the two orders. *)
Definition filesSeen (kinds : list string) : AttachmentMeta :=
  mkAttachmentMeta true 2 2048 kinds ["input_change"] [] 60000 (Some 1000) (Some 5)
    (Some "input_change") [] 2 1 1 0 0 0.

(** A record whose request carries the labels derived for a body
    without parsed messages and the two files above. *)
Definition labelledRequest : RequestMeta :=
  mkReq (Some "model-a") None false false None None None None None None None None
    (deriveScenarioLabels None (filesSeen ["text"; "pdf"]) (Some chatBody)).

Definition labelledRecord : CompletionRecord :=
  mkRecord (Some "t-1") None "Hi" None (Some 1000) None None (Some labelledRequest)
    None None None None.

(** [String(x)] on the whole numbers of the examples. *)
Definition wholeNumberText (q : Q) : string := pretty (Qfloor q).

Definition pdfFile : FileObj :=
  mkFileObj (Some "paper.PDF") (Some "application/pdf") (Some 1024%Q).

(** A PDF is picked; later the debug switch is turned on and the clock
    is read. *)
Definition pdfPicked : list Step := [FileEvent (Some [Some pdfFile]) "input_change"].
Definition quietSteps : list Step := [DebugSwitch true; ClockRead].

(** An import of two records that name no session. *)
Definition importHost : ImportHost := mkImportHost "session-new" (fun i => 7000 + Z.of_nat i).
Definition importedFile : list (option CompletionRecord) := [Some recA; Some recB].

(** The store after one record of tab 7. *)
Definition oneRecordWorld : World :=
  snd (fst (addRecord hostA emptyWorld (firstTurn 1000000) tab7)).

End CaptureExamples.


Module RoundingFacts.
Import JS Model Parser Examples.

(** [Math.round] brackets its argument. *)
Lemma Math_round_bounds x :
  (inject_Z (Math_round x) <= x + (1 # 2) /\ x - (1 # 2) < inject_Z (Math_round x))%Q.
Proof.
  unfold Math_round. split.
  - apply Qfloor_le.
  - pose proof (Qlt_floor (x + (1 # 2))) as H.
    rewrite inject_Z_plus in H. change (inject_Z 1) with 1%Q in H. lra.
Qed.

Lemma Math_round_mono x y : (x <= y)%Q -> Math_round x <= Math_round y.
Proof. intros H. apply Qfloor_resp_le. lra. Qed.

Lemma Math_round_nonneg x : (0 <= x)%Q -> 0 <= Math_round x.
Proof.
  intros H. change 0 with (Math_round 0). apply Math_round_mono, H.
Qed.

Ltac unfold_round3 :=
  unfold exactRound3, Qdiv in *; change (/ 1000)%Q with (1 # 1000)%Q in *.

Lemma exactRound3_mono x y : (x <= y)%Q -> (exactRound3 x <= exactRound3 y)%Q.
Proof.
  intros H. unfold_round3.
  assert (Hz : Math_round (x * 1000) <= Math_round (y * 1000)).
  { apply Math_round_mono. lra. }
  rewrite Zle_Qle in Hz. lra.
Qed.

Lemma Math_max0_of_nonneg x : (0 <= x)%Q -> Math_max0 x = x.
Proof.
  intros H. unfold Math_max0. apply Qle_bool_iff in H. rewrite H. reflexivity.
Qed.

Lemma Math_max0_of_neg x : (x < 0)%Q -> Math_max0 x = 0%Q.
Proof.
  intros H. unfold Math_max0. destruct (Qle_bool 0 x) eqn:E; [|reflexivity].
  apply Qle_bool_iff in E. lra.
Qed.

End RoundingFacts.

Module ParserFacts.
Import JS Model Parser RoundingFacts.

Section Facts.
Variable JSON_parse : string -> option Chunk.
Variable clock : nat -> Z.
Variable location_origin : string.
Variable round3 : Q -> Q.
Variable max0minus : jsval -> jsval -> jsval.

Abbreviation processLine := (Parser.processLine JSON_parse clock).
Abbreviation processLines := (Parser.processLines JSON_parse clock).
Abbreviation readLoop := (Parser.readLoop JSON_parse clock).
Abbreviation emitRecord := (Parser.emitRecord clock location_origin round3 max0minus).
Abbreviation buildRecord := (Parser.buildRecord clock location_origin round3 max0minus).
Abbreviation parseSse :=
  (Parser.parseSseCloneAndEmitRecord JSON_parse clock location_origin round3 max0minus).

Abbreviation arrive := (Parser.arrive clock).
Abbreviation chunkOfLine := (Parser.chunkOfLine JSON_parse).

Lemma readLoop_Data buffer st value rest :
  readLoop buffer st (Data value rest) =
  let st2 := fst (processLines (arrive st) (fst (splitLines "" (buffer ++ value)))) in
  match stopChunk st2 with
  | Some _ => Some st2
  | None => readLoop (snd (splitLines "" (buffer ++ value))) st2 rest
  end.
Proof.
  simpl. unfold arrive.
  destruct (splitLines "" (buffer ++ value)) as [ls buffer']. simpl.
  destruct (Parser.processLines _ _ _ ls) as [st2 b]. reflexivity.
Qed.

Lemma processLine_payload_None st l : payload l = None -> processLine st l = (st, false).
Proof.
  unfold payload, Parser.processLine.
  destruct (String.prefix "data:" (trimEnd l)); simpl; [|reflexivity].
  destruct (String.eqb _ ""); [reflexivity | discriminate].
Qed.

Lemma processLine_payload_Some st l data :
  payload l = Some data ->
  processLine st l =
  if String.eqb data "[DONE]" then
    match stopChunk (setSawDone st), lastTimedChunk (setSawDone st) with
    | None, Some ltc => (promoteLastTimed clock ltc (setSawDone st), true)
    | _, _ => (setSawDone st, false)
    end
  else
    match JSON_parse data with
    | None => (st, false)
    | Some chunk =>
        match object chunk with
        | Some o =>
            if String.eqb o "chat.completion.chunk" then
              match chunkFinishReason chunk with
              | JStr fr =>
                  if Z.ltb 0 (strlen fr)
                  then (setStop clock chunk (JStr fr) (absorbChunk chunk st), true)
                  else (absorbChunk chunk st, false)
              | _ => (absorbChunk chunk st, false)
              end
            else (st, false)
        | None => (st, false)
        end
    end.
Proof.
  unfold payload, Parser.processLine.
  destruct (String.prefix "data:" (trimEnd l)); simpl; [|discriminate].
  destruct (String.eqb _ "") eqn:E; [discriminate|].
  intros H. injection H as <-. reflexivity.
Qed.

(** A line either leaves the state alone, or is the sentinel, or
    carries a completion chunk that the state absorbs. *)
Lemma processLine_cases st l :
  processLine st l = (st, false)
  \/ (payload l = Some "[DONE]"
      /\ processLine st l
         = match stopChunk (setSawDone st), lastTimedChunk (setSawDone st) with
           | None, Some ltc => (promoteLastTimed clock ltc (setSawDone st), true)
           | _, _ => (setSawDone st, false)
           end)
  \/ (exists chunk,
        chunkOfLine l = Some chunk
        /\ processLine st l
           = match chunkFinishReason chunk with
             | JStr fr =>
                 if Z.ltb 0 (strlen fr)
                 then (setStop clock chunk (JStr fr) (absorbChunk chunk st), true)
                 else (absorbChunk chunk st, false)
             | _ => (absorbChunk chunk st, false)
             end).
Proof.
  unfold Parser.chunkOfLine.
  destruct (payload l) as [data|] eqn:Hp.
  - rewrite (processLine_payload_Some st l data Hp).
    destruct (String.eqb_spec data "[DONE]") as [->|Hne].
    + right. left. auto.
    + destruct (JSON_parse data) as [chunk|]; [|auto].
      destruct (object chunk) as [o|]; [|auto].
      destruct (String.eqb o "chat.completion.chunk"); [|auto].
      right. right. exists chunk. auto.
  - left. apply processLine_payload_None, Hp.
Qed.

Lemma streamLines_Data buffer value rest :
  streamLines buffer (Data value rest)
  = (fst (splitLines "" (buffer ++ value))
     ++ streamLines (snd (splitLines "" (buffer ++ value))) rest)%list.
Proof. simpl. destruct (splitLines "" (buffer ++ value)). reflexivity. Qed.

(** What an emitted record is built from. *)
Lemma parseSse_emits traceId response requestMeta timingContext r :
  parseSse traceId response requestMeta timingContext = Some r ->
  exists stream st0 c t,
    body response = Some stream
    /\ readLoop "" initial stream = Some st0
    /\ stopChunk (lateFallback clock st0) = Some c
    /\ lastTimingsAtStop (lateFallback clock st0) = Some t
    /\ r = buildRecord traceId requestMeta timingContext t (lateFallback clock st0).
Proof.
  unfold Parser.parseSseCloneAndEmitRecord.
  destruct (negb _); [discriminate|].
  destruct (body response) as [stream|]; [|discriminate].
  destruct (Parser.readLoop _ _ "" initial stream) as [st0|] eqn:Hloop; [|discriminate].
  unfold Parser.emitRecord.
  destruct (stopChunk (lateFallback clock st0)) as [c|] eqn:Hs; [|discriminate].
  destruct (lastTimingsAtStop (lateFallback clock st0)) as [t|] eqn:Ht; [|discriminate].
  intros H. injection H as <-. exists stream, st0, c, t. auto.
Qed.


(** *** Client-side latency deltas *)

Lemma duration_delta_of earlier later : delta_of earlier later (duration earlier later).
Proof.
  unfold delta_of, duration, Math_max0Z.
  destruct earlier as [a|], later as [b|]; repeat split;
    try (intros; congruence); try (intros; discriminate); auto.
  - intros [H|H]; discriminate H.
  - intros v Hv. injection Hv as <-. lia.
Qed.

(** C7: in every emitted record each of the six client_timing deltas is
    max(0, later - earlier) of its two marks when both are known, is non
    negative, and is null exactly when one of its two marks is unknown;
    the request and header marks are those of the timing context and the
    stop mark is always known. *)
Theorem client_timing_deltas traceId response requestMeta timingContext r :
  parseSse traceId response requestMeta timingContext = Some r ->
  exists rs,
    resp r = Some rs
    /\ request_start_ms (client_timing rs) = tc_request_start_ms timingContext
    /\ response_headers_ms (client_timing rs) = tc_response_headers_ms timingContext
    /\ stop_chunk_ms (client_timing rs) <> None
    /\ delta_of (request_start_ms (client_timing rs))
         (response_headers_ms (client_timing rs))
         (duration_request_to_headers_ms (client_timing rs))
    /\ delta_of (request_start_ms (client_timing rs))
         (first_stream_chunk_ms (client_timing rs))
         (duration_request_to_first_stream_chunk_ms (client_timing rs))
    /\ delta_of (response_headers_ms (client_timing rs))
         (first_stream_chunk_ms (client_timing rs))
         (duration_headers_to_first_stream_chunk_ms (client_timing rs))
    /\ delta_of (first_stream_chunk_ms (client_timing rs))
         (stop_chunk_ms (client_timing rs))
         (duration_first_stream_chunk_to_stop_ms (client_timing rs))
    /\ delta_of (response_headers_ms (client_timing rs))
         (stop_chunk_ms (client_timing rs))
         (duration_headers_to_stop_ms (client_timing rs))
    /\ delta_of (request_start_ms (client_timing rs))
         (stop_chunk_ms (client_timing rs))
         (duration_request_to_stop_ms (client_timing rs)).
Proof.
  intros H. apply parseSse_emits in H.
  destruct H as (stream & st0 & c & t & _ & _ & _ & _ & ->).
  unfold Parser.buildRecord.
  destruct (stopChunkAtMs (lateFallback clock st0)) as [z|]; cbn;
    (eexists; split; [reflexivity|]; cbn;
     repeat split; try discriminate; apply duration_delta_of).
Qed.

(** *** The finish reason of an emitted record *)

Lemma coalesce_not_nullish v s : nullish (coalesce v (JStr s)) = false.
Proof. unfold coalesce. destruct v; reflexivity. Qed.

Lemma categorize_unknown v : categorizeFinishReason v = "unknown" -> nullish v = true.
Proof.
  destruct v; simpl; try reflexivity; try discriminate.
  repeat (destruct (String.eqb s _); [discriminate|]). discriminate.
Qed.

(** *** Completion boundaries *)

Lemma processLines_app st pre post :
  processLines st (pre ++ post) =
  if snd (processLines st pre) then processLines st pre
  else processLines (fst (processLines st pre)) post.
Proof.
  revert st. induction pre as [|l pre IH]; intros st; simpl; [reflexivity|].
  destruct (Parser.processLine _ _ st l) as [st1 stop]. destruct stop; simpl; [reflexivity|].
  apply IH.
Qed.

(** A line that does not end the loop leaves the boundary unset. *)
Lemma processLine_continue st l :
  stopChunk st = None -> snd (processLine st l) = false ->
  stopChunk (fst (processLine st l)) = None.
Proof.
  intros Hs. destruct (payload l) as [data|] eqn:Hp.
  - rewrite (processLine_payload_Some st l data Hp).
    destruct (String.eqb data "[DONE]").
    + change (stopChunk (setSawDone st)) with (stopChunk st). rewrite Hs.
      destruct (lastTimedChunk (setSawDone st)); simpl; [discriminate | auto].
    + destruct (JSON_parse data) as [chunk|]; [|auto].
      destruct (object chunk) as [o|]; [|auto].
      destruct (String.eqb o _); [|auto].
      destruct (chunkFinishReason chunk); simpl; auto.
      destruct (Z.ltb 0 (strlen s)); simpl; [discriminate | auto].
  - rewrite (processLine_payload_None st l Hp). auto.
Qed.

Lemma processLines_continue ls : forall st,
  stopChunk st = None -> snd (processLines st ls) = false ->
  stopChunk (fst (processLines st ls)) = None.
Proof.
  induction ls as [|l ls IH]; intros st Hs Hc; simpl in *; [exact Hs|].
  pose proof (processLine_continue st l Hs) as H1.
  destruct (Parser.processLine _ _ st l) as [st1 stop]. destruct stop; simpl in *; [discriminate|].
  apply IH; auto.
Qed.

Lemma stopChunk_arrive st : stopChunk (arrive st) = stopChunk st.
Proof. unfold arrive. destruct (firstStreamChunkAtMs st); reflexivity. Qed.

End Facts.
End ParserFacts.

Module CorrelatorFacts.
Import JS Model Correlator.

Lemma toPositiveInt_inject n : 1 <= n -> toPositiveInt (Some (inject_Z n)) = Some n.
Proof.
  intros H. unfold toPositiveInt. rewrite Qfloor_Z.
  destruct (Z.ltb_spec 0 n); [reflexivity | lia].
Qed.

Lemma makeChainId_truthy h : truthy_str (Some (makeChainId h)) = true.
Proof. reflexivity. Qed.

Lemma decideChain_truthy h state signals ts sender :
  truthy_str (Some (fst (decideChain h state signals ts sender))) = true
  /\ 1 <= snd (decideChain h state signals ts sender).
Proof.
  unfold decideChain.
  destruct (negb (shouldRotateChain state signals ts sender)).
  - destruct (truthy_str (match state with Some s => cs_chain_id s | None => None end)) eqn:E.
    + simpl. split; [|lia].
      destruct (match state with Some s => cs_chain_id s | None => None end);
        [exact E | discriminate].
    + simpl. split; [reflexivity | lia].
  - simpl. split; [reflexivity | lia].
Qed.

Lemma truthy_str_nonempty c : truthy_str (Some c) = true -> c <> "".
Proof.
  unfold truthy_str. intros H ->. discriminate.
Qed.

Lemma assign_store h store record sender t :
  tab_id sender = Some t ->
  let ts := match captured_at_ms record with Some x => x | None => now_assign h end in
  let signals := getConversationSignals record in
  let d := decideChain h (store !! t) signals ts sender in
  assignChainMetadata h store record sender =
  ([SetChainId (fst d); SetTurnNumber (snd d)],
   <[t := mkChainState (Some (fst d)) (Some (inject_Z (snd d))) (Some ts)
            (option_map inject_Z (userCount signals))
            (option_map inject_Z (messagesCount signals))
            (promptHash signals)
            (or_str (uiOrigin signals) None)
            (or_str (sig_endpoint signals) None)]> store,
   mkChainMeta (Some (fst d)) (Some (snd d))).
Proof.
  intros Ht. unfold assignChainMetadata. rewrite Ht. unfold getTabChainState, setTabChainState.
  cbv zeta. destruct (decideChain _ _ _ _ _). reflexivity.
Qed.

Lemma assign_store_no_tab h store record sender :
  tab_id sender = None ->
  snd (fst (assignChainMetadata h store record sender)) = store.
Proof.
  intros Ht. unfold assignChainMetadata. rewrite Ht. cbv zeta.
  destruct (decideChain _ _ _ _ _). reflexivity.
Qed.

Lemma reachable_written store :
  reachable store -> forall t s, store !! t = Some s -> written_state s.
Proof.
  induction 1 as [|h store record sender Hr IH|store tabId Hr IH]; intros t s Hs.
  - rewrite lookup_empty in Hs. discriminate.
  - destruct (tab_id sender) as [t'|] eqn:Ht.
    + rewrite (assign_store h store record sender t' Ht) in Hs. cbv zeta in Hs. simpl in Hs.
      destruct (decide (t' = t)) as [->|Hne].
      * rewrite lookup_insert_eq in Hs. injection Hs as <-.
        destruct (decideChain_truthy h (store !! t) (getConversationSignals record)
                    (match captured_at_ms record with Some x => x | None => now_assign h end)
                    sender) as [Hc Hn].
        do 3 eexists. simpl. repeat split; eauto.
        apply truthy_str_nonempty, Hc.
      * rewrite lookup_insert_ne in Hs by exact Hne. eapply IH, Hs.
    + rewrite (assign_store_no_tab h store record sender Ht) in Hs. eapply IH, Hs.
  - unfold clearTabChainState in Hs.
    destruct (decide (tabId = t)) as [->|Hne].
    + rewrite lookup_delete_eq in Hs. discriminate.
    + rewrite lookup_delete_ne in Hs by exact Hne. eapply IH, Hs.
Qed.

(** The decision on a well-formed snapshot. *)
Lemma decideChain_continue h s signals ts sender c n :
  cs_chain_id s = Some c -> c <> "" -> cs_turn_number s = Some (inject_Z n) -> 1 <= n ->
  shouldRotateChain (Some s) signals ts sender = false ->
  decideChain h (Some s) signals ts sender = (c, n + 1).
Proof.
  intros Hc Hne Hn Hn1 Hrot. unfold decideChain. rewrite Hrot, Hc, Hn. simpl negb. cbv iota.
  rewrite (toPositiveInt_inject n Hn1).
  assert (Ht : truthy_str (Some c) = true).
  { unfold truthy_str. destruct (String.eqb_spec c ""); [contradiction | reflexivity]. }
  rewrite Ht. f_equal. lia.
Qed.

Lemma decideChain_rotate h state signals ts sender :
  shouldRotateChain state signals ts sender = true ->
  decideChain h state signals ts sender = (makeChainId h, 1).
Proof. intros Hrot. unfold decideChain. rewrite Hrot. reflexivity. Qed.

(** C5: on a store produced by the correlator, a record for a tab gets
    turn number 1 and a newly minted chain id when there is no snapshot
    for the tab (first record) or the rotation test holds, and otherwise
    keeps the chain id of the snapshot with its turn number plus one; the
    snapshot written back carries exactly the assigned pair. *)
Theorem turn_number_steps h store record sender t :
  reachable store ->
  tab_id sender = Some t ->
  let ts := match captured_at_ms record with Some x => x | None => now_assign h end in
  let signals := getConversationSignals record in
  exists chain turn s',
    assignChainMetadata h store record sender
    = ([SetChainId chain; SetTurnNumber turn],
       <[t := s']> store,
       mkChainMeta (Some chain) (Some turn))
    /\ cs_chain_id s' = Some chain
    /\ cs_turn_number s' = Some (inject_Z turn)
    /\ match store !! t with
       | None => chain = makeChainId h /\ turn = 1
       | Some prev =>
           if shouldRotateChain (Some prev) signals ts sender
           then chain = makeChainId h /\ turn = 1
           else exists n,
                  cs_chain_id prev = Some chain
                  /\ cs_turn_number prev = Some (inject_Z n)
                  /\ turn = n + 1
       end.
Proof.
  intros Hreach Ht ts signals.
  rewrite (assign_store h store record sender t Ht). cbv zeta.
  fold ts signals.
  do 3 eexists. split; [reflexivity|]. split; [reflexivity|]. split; [reflexivity|].
  destruct (store !! t) as [prev|] eqn:Hprev.
  - destruct (shouldRotateChain (Some prev) signals ts sender) eqn:Hrot.
    + rewrite (decideChain_rotate h _ _ _ _ Hrot). auto.
    + destruct (reachable_written store Hreach t prev Hprev)
        as (c & n & ls & Hc & Hne & Hn & Hn1 & _).
      rewrite (decideChain_continue h prev signals ts sender c n Hc Hne Hn Hn1 Hrot).
      exists n. auto.
  - rewrite (decideChain_rotate h None signals ts sender eq_refl). auto.
Qed.


(** *** Replaying a record *)

Lemma signals_captured_at record ts :
  getConversationSignals (applyWrite record (SetCapturedAtMs ts))
  = getConversationSignals record.
Proof. reflexivity. Qed.

Lemma firstTurn_userCount signals :
  looksLikeFirstTurn signals = true -> userCount signals = Some 1.
Proof.
  unfold looksLikeFirstTurn. destruct (userCount signals) as [[|[]|]|]; try discriminate.
  reflexivity.
Qed.

(** The rotation test against the snapshot left by the same signals. *)
Lemma shouldRotate_replay signals ts1 ts2 sender c n m e :
  looksLikeFirstTurn signals = true ->
  shouldRotateChain
    (Some (mkChainState c n (Some ts1)
             (option_map inject_Z (userCount signals)) m
             (promptHash signals) (or_str (uiOrigin signals) None) e))
    signals ts2 sender
  = (Z.ltb CHAIN_STATE_IDLE_RESET_MS (ts2 - ts1)
     || negb (truthy_str (promptHash signals)
              && Z.leb (ts2 - ts1) CHAIN_DUPLICATE_PROMPT_WINDOW_MS))%bool.
Proof.
  intros Hfirst. unfold shouldRotateChain.
  cbn [last_seen_ms cs_ui_origin last_user_count last_prompt_hash].
  destruct (Z.ltb CHAIN_STATE_IDLE_RESET_MS (ts2 - ts1)); [reflexivity|].
  rewrite Hfirst, (firstTurn_userCount signals Hfirst). simpl orb.
  assert (Ho : match or_str (uiOrigin signals) None,
                     or_str (uiOrigin signals) (tab_origin sender) with
               | Some p, Some c0 =>
                   (truthy_str (or_str (uiOrigin signals) None)
                    && truthy_str (or_str (uiOrigin signals) (tab_origin sender))
                    && negb (String.eqb p c0))%bool
               | _, _ => false
               end = false).
  { unfold or_str. destruct (truthy_str (uiOrigin signals)) eqn:E.
    - destruct (uiOrigin signals) as [o|]; [|discriminate].
      rewrite String.eqb_refl. rewrite E. reflexivity.
    - simpl. reflexivity. }
  rewrite Ho. simpl option_map. rewrite (toPositiveInt_inject 1) by lia.
  simpl Z.ltb. cbv iota.
  destruct (promptHash signals) as [ph|]; [|reflexivity].
  rewrite String.eqb_refl, andb_true_r. reflexivity.
Qed.

(** C3 (amended): when a first-turn record is handled twice for the same
    tab, the second time more than the duplicate window (120000 ms)
    after the first, the second handling rotates: it gets a new chain id
    and turn number 1.  When the second handling is within the window
    and the record has a non-empty prompt hash, it does not rotate: it
    keeps the chain id of the first and gets its turn number plus one. *)
Theorem replay_rotation h1 h2 store record sender1 sender2 t ts1 ts2 :
  tab_id sender1 = Some t ->
  tab_id sender2 = Some t ->
  looksLikeFirstTurn (getConversationSignals record) = true ->
  let r1 := applyWrite record (SetCapturedAtMs ts1) in
  let r2 := applyWrite record (SetCapturedAtMs ts2) in
  let store1 := snd (fst (assignChainMetadata h1 store r1 sender1)) in
  let first := snd (assignChainMetadata h1 store r1 sender1) in
  let second := snd (assignChainMetadata h2 store1 r2 sender2) in
  (CHAIN_DUPLICATE_PROMPT_WINDOW_MS < ts2 - ts1 ->
     shouldRotateChain (store1 !! t) (getConversationSignals r2) ts2 sender2 = true
     /\ second = mkChainMeta (Some (makeChainId h2)) (Some 1))
  /\ (ts2 - ts1 <= CHAIN_DUPLICATE_PROMPT_WINDOW_MS ->
       (exists ph, promptHash (getConversationSignals record) = Some ph /\ ph <> "") ->
       shouldRotateChain (store1 !! t) (getConversationSignals r2) ts2 sender2 = false
       /\ exists c n,
            first = mkChainMeta (Some c) (Some n)
            /\ second = mkChainMeta (Some c) (Some (n + 1))).
Proof.
  intros Ht1 Ht2 Hfirst r1 r2 store1 first second.
  subst store1 first second.
  rewrite (assign_store h1 store r1 sender1 t Ht1). cbv zeta.
  cbn [fst snd].
  rewrite (assign_store h2 _ r2 sender2 t Ht2). cbv zeta.
  cbn [fst snd].
  rewrite lookup_insert_eq.
  subst r1 r2. rewrite !signals_captured_at. cbn [captured_at_ms applyWrite].
  set (signals := getConversationSignals record) in *.
  set (d1 := decideChain h1 (store !! t) signals ts1 sender1).
  pose proof (shouldRotate_replay signals ts1 ts2 sender2 (Some (fst d1))
                (Some (inject_Z (snd d1))) (option_map inject_Z (messagesCount signals))
                (or_str (sig_endpoint signals) None) Hfirst) as Hrot.
  split.
  - intros Hgt.
    assert (Hr : shouldRotateChain
                   (Some (mkChainState (Some (fst d1)) (Some (inject_Z (snd d1))) (Some ts1)
                            (option_map inject_Z (userCount signals))
                            (option_map inject_Z (messagesCount signals))
                            (promptHash signals) (or_str (uiOrigin signals) None)
                            (or_str (sig_endpoint signals) None)))
                   signals ts2 sender2 = true).
    { rewrite Hrot. destruct (Z.leb_spec (ts2 - ts1) CHAIN_DUPLICATE_PROMPT_WINDOW_MS); [lia|].
      rewrite andb_false_r. apply orb_true_r. }
    split; [exact Hr|]. rewrite (decideChain_rotate h2 _ _ _ _ Hr). reflexivity.
  - intros Hle (ph & Hph & Hne).
    assert (Hr : shouldRotateChain
                   (Some (mkChainState (Some (fst d1)) (Some (inject_Z (snd d1))) (Some ts1)
                            (option_map inject_Z (userCount signals))
                            (option_map inject_Z (messagesCount signals))
                            (promptHash signals) (or_str (uiOrigin signals) None)
                            (or_str (sig_endpoint signals) None)))
                   signals ts2 sender2 = false).
    { rewrite Hrot, Hph.
      assert (Hw : CHAIN_DUPLICATE_PROMPT_WINDOW_MS < CHAIN_STATE_IDLE_RESET_MS) by reflexivity.
      destruct (Z.ltb_spec CHAIN_STATE_IDLE_RESET_MS (ts2 - ts1)); [lia|].
      destruct (Z.leb_spec (ts2 - ts1) CHAIN_DUPLICATE_PROMPT_WINDOW_MS); [|lia].
      unfold truthy_str. destruct (String.eqb_spec ph ""); [contradiction | reflexivity]. }
    split; [exact Hr|].
    destruct (decideChain_truthy h1 (store !! t) signals ts1 sender1) as [Hc Hn].
    fold d1 in Hc, Hn.
    exists (fst d1), (snd d1). split; [reflexivity|].
    rewrite (decideChain_continue h2
               (mkChainState (Some (fst d1)) (Some (inject_Z (snd d1))) (Some ts1)
                  (option_map inject_Z (userCount signals))
                  (option_map inject_Z (messagesCount signals))
                  (promptHash signals) (or_str (uiOrigin signals) None)
                  (or_str (sig_endpoint signals) None))
               signals ts2 sender2 (fst d1) (snd d1)
               eq_refl (truthy_str_nonempty _ Hc) eq_refl Hn Hr).
    reflexivity.
Qed.

(** *** The writes made to a stored record *)

Lemma getActiveSessionId_spec h w :
  fst (getActiveSessionId h w)
  = match active_session_id w with
    | Some s => if String.eqb s "" then fresh_session_id h else s
    | None => fresh_session_id h
    end
  /\ tab_chain_state (snd (getActiveSessionId h w)) = tab_chain_state w
  /\ records_store (snd (getActiveSessionId h w)) = records_store w.
Proof.
  unfold getActiveSessionId, truthy_str.
  destruct (active_session_id w) as [s|]; [|repeat split].
  destruct (String.eqb s ""); repeat split.
Qed.

Lemma captured_or_now h record :
  (if truthy_Z (captured_at_ms record)
   then match captured_at_ms record with Some t => t | None => 0 end
   else now_addRecord h)
  = match captured_at_ms record with
    | Some t => if Z.eqb t 0 then now_addRecord h else t
    | None => now_addRecord h
    end.
Proof.
  unfold truthy_Z. destruct (captured_at_ms record) as [t|]; [|reflexivity].
  destruct (Z.eqb t 0); reflexivity.
Qed.


End CorrelatorFacts.

(** ** Facts about the stable sort *)

Module SortFacts.
Import JS.

Section Sorting.
Context {A : Type} (cmp : A -> A -> Q).

Lemma insert_sorted_perm x l : Permutation (x :: l) (insert_sorted cmp x l).
Proof.
  induction l as [|y l IH]; simpl; [apply Permutation_refl|].
  destruct (goes_after cmp x y).
  - eapply Permutation_trans; [apply perm_swap|]. apply perm_skip, IH.
  - apply Permutation_refl.
Qed.

Lemma sort_perm l : Permutation l (sort cmp l).
Proof.
  induction l as [|x l IH]; simpl; [apply Permutation_refl|].
  eapply Permutation_trans; [apply perm_skip, IH|]. apply insert_sorted_perm.
Qed.

Lemma sort_In x l : In x (sort cmp l) <-> In x l.
Proof.
  split; apply Permutation_in; [apply Permutation_sym|]; apply sort_perm.
Qed.

Lemma sort_length l : length (sort cmp l) = length l.
Proof. symmetry. apply Permutation_length, sort_perm. Qed.

(** The order the comparator induces: [x] may stand before [y]. *)
Variable R : A -> A -> Prop.
Hypothesis R_before : forall x y, goes_after cmp x y = false -> R x y.
Hypothesis R_after : forall x y, goes_after cmp x y = true -> R y x.
Hypothesis R_trans : forall x y z, R x y -> R y z -> R x z.

Lemma insert_sorted_sorted x l :
  StronglySorted R l -> StronglySorted R (insert_sorted cmp x l).
Proof.
  induction 1 as [|y l Hs IH Hall]; simpl.
  - repeat constructor.
  - destruct (goes_after cmp x y) eqn:E.
    + constructor; [exact IH|].
      apply List.Forall_forall. intros z Hz.
      apply (Permutation_in _ (Permutation_sym (insert_sorted_perm x l))) in Hz.
      destruct Hz as [<-|Hz]; [apply R_after, E|].
      rewrite List.Forall_forall in Hall. apply Hall, Hz.
    + constructor; [constructor; assumption|].
      constructor; [apply R_before, E|].
      apply List.Forall_forall. intros z Hz. rewrite List.Forall_forall in Hall.
      eapply R_trans; [apply R_before, E | apply Hall, Hz].
Qed.

Lemma sort_sorted l : StronglySorted R (sort cmp l).
Proof.
  induction l as [|x l IH]; simpl; [constructor | apply insert_sorted_sorted, IH].
Qed.

End Sorting.

Lemma StronglySorted_firstn {A} (R : A -> A -> Prop) n l :
  StronglySorted R l -> StronglySorted R (firstn n l).
Proof.
  intros H. revert n. induction H as [|x l Hs IH Hall]; intros [|n]; simpl; try constructor.
  - apply IH.
  - rewrite List.Forall_forall in *. intros y Hy. apply Hall.
    rewrite <- (firstn_skipn n l). apply in_or_app. left. exact Hy.
Qed.

End SortFacts.

(** ** Facts about the insertion-ordered map *)

Module MapFacts.
Import JS Aggregation.

Section Maps.
Context {V : Type}.
Implicit Types (m : list (string * V)) (k : string).

Lemma map_upsert_keys k init f m :
  map fst (map_upsert k init f m)
  = if map_has k m then map fst m else (map fst m ++ [k])%list.
Proof.
  unfold map_has. induction m as [|[k' v] m IH]; simpl; [reflexivity|].
  destruct (String.eqb k k') eqn:E; simpl; [reflexivity|].
  rewrite IH. destruct (map_get k m); reflexivity.
Qed.

Lemma map_get_In k m v : map_get k m = Some v -> In (k, v) m.
Proof.
  induction m as [|[k' v'] m IH]; simpl; [discriminate|].
  destruct (String.eqb_spec k k') as [->|Hne].
  - intros H. injection H as <-. left. reflexivity.
  - intros H. right. apply IH, H.
Qed.

Lemma map_get_None k m : map_get k m = None <-> ~ In k (map fst m).
Proof.
  induction m as [|[k' v'] m IH]; simpl; [tauto|].
  destruct (String.eqb_spec k k') as [->|Hne].
  - split; [discriminate | intros H; exfalso; apply H; left; reflexivity].
  - rewrite IH. split; [intros H [E|E]; [congruence | contradiction] | tauto].
Qed.

Lemma In_map_get k v m : List.NoDup (map fst m) -> In (k, v) m -> map_get k m = Some v.
Proof.
  induction m as [|[k' v'] m IH]; simpl; [tauto|].
  intros Hnd [E|Hin].
  - injection E as -> ->. rewrite String.eqb_refl. reflexivity.
  - inversion Hnd as [|? ? Hni Hnd']; subst.
    destruct (String.eqb_spec k k') as [->|Hne].
    + exfalso. apply Hni. change k' with (fst (k', v)). apply in_map, Hin.
    + apply IH; assumption.
Qed.

Lemma map_upsert_NoDup k init f m :
  List.NoDup (map fst m) -> List.NoDup (map fst (map_upsert k init f m)).
Proof.
  intros H. rewrite map_upsert_keys. unfold map_has.
  destruct (map_get k m) eqn:E; [exact H|].
  apply map_get_None in E.
  apply (Permutation.Permutation_NoDup (l := k :: map fst m)).
  - apply Permutation_cons_append.
  - constructor; assumption.
Qed.

Lemma map_get_upsert_eq k init f m :
  map_get k (map_upsert k init f m)
  = Some (f (match map_get k m with Some v => v | None => init end)).
Proof.
  induction m as [|[k' v] m IH]; simpl.
  - rewrite String.eqb_refl. reflexivity.
  - destruct (String.eqb k k') eqn:E; simpl; rewrite E; [reflexivity | exact IH].
Qed.

Lemma map_get_upsert_ne k k' init f m :
  k' <> k -> map_get k' (map_upsert k init f m) = map_get k' m.
Proof.
  intros Hne. induction m as [|[k0 v] m IH]; simpl.
  - destruct (String.eqb_spec k' k); [contradiction | reflexivity].
  - destruct (String.eqb_spec k k0) as [->|Hk]; simpl.
    + destruct (String.eqb_spec k' k0); [contradiction | reflexivity].
    + destruct (String.eqb k' k0); [reflexivity | exact IH].
Qed.

End Maps.

(** *** The loops that group records under a key *)

Section Grouping.
Context {R V : Type}.
Variable key : R -> option string.
Variable init : string -> V.
Variable upd : R -> V -> V.

Abbreviation groupStep := (Aggregation.groupStep key init upd).
Abbreviation hasKey := (Aggregation.hasKey key).

Lemma group_NoDup rs : forall m,
  List.NoDup (map fst m) -> List.NoDup (map fst (fold_left groupStep rs m)).
Proof.
  induction rs as [|r rs IH]; intros m H; simpl; [exact H|].
  apply IH. unfold groupStep. destruct (key r); [apply map_upsert_NoDup|]; exact H.
Qed.

(** The entry of a key after the loop: the records of that key folded,
    in order, into the entry it had before (or a new one). *)
Lemma group_get k rs : forall m,
  map_get k (fold_left groupStep rs m)
  = match List.filter (hasKey k) rs with
    | [] => map_get k m
    | rk =>
        Some (fold_left (fun a r => upd r a) rk
                (match map_get k m with Some v => v | None => init k end))
    end.
Proof.
  induction rs as [|r rs IH]; intros m; simpl; [reflexivity|].
  rewrite IH. unfold hasKey at 2, groupStep. destruct (key r) as [k'|]; [|reflexivity].
  destruct (String.eqb_spec k' k) as [->|Hne].
  - rewrite map_get_upsert_eq. simpl.
    destruct (List.filter (hasKey k) rs); reflexivity.
  - rewrite map_get_upsert_ne by congruence. reflexivity.
Qed.

End Grouping.

End MapFacts.

(** ** Facts about the aggregation engine *)

Module AggregationFacts.
Import JS Model Aggregation SortFacts MapFacts.

Lemma sumCounts_perm l l' : Permutation l l' -> sumCounts l = sumCounts l'.
Proof.
  induction 1; simpl; lia.
Qed.

Lemma sumCounts_finalize m :
  sumCounts (map finalizeBucket (map_values m)) = sumAccCounts m.
Proof.
  unfold map_values. induction m as [|[k v] m IH]; simpl; [reflexivity|].
  simpl in IH. rewrite IH. reflexivity.
Qed.

Lemma sumAccCounts_upsert k r m :
  sumAccCounts (map_upsert k (initScenarioBucket k) (addScenarioRecord r) m)
  = sumAccCounts m + 1.
Proof.
  induction m as [|[k' v] m IH]; simpl; [lia|].
  destruct (String.eqb k k'); simpl; [lia|]. rewrite IH. lia.
Qed.

Lemma scenarioBuckets_count keyFn records : forall m,
  sumAccCounts
    (fold_left
       (fun m r =>
          let key := strOr (Some (keyFn r)) "unknown" in
          map_upsert key (initScenarioBucket key) (addScenarioRecord r) m)
       records m)
  = sumAccCounts m + Z.of_nat (length records).
Proof.
  induction records as [|r records IH]; intros m; simpl length; simpl fold_left; [lia|].
  rewrite IH. cbv zeta. rewrite sumAccCounts_upsert. lia.
Qed.

(** Every record handed to [groupScenario] is counted in one bucket. *)
Lemma groupScenario_count localeCompare records keyFn sortByCount :
  sumCounts (groupScenario localeCompare records keyFn sortByCount)
  = Z.of_nat (length records).
Proof.
  unfold groupScenario, finalizeScenarioBuckets.
  rewrite <- (sumCounts_perm _ _ (sort_perm _ _)).
  rewrite sumCounts_finalize. unfold scenarioBuckets.
  rewrite scenarioBuckets_count. reflexivity.
Qed.

Lemma sumCounts_withMsPer1k rows :
  sumCounts (map or_row (map withMsPer1k rows)) = sumCounts rows.
Proof.
  induction rows as [|x rows IH]; simpl; [reflexivity|]. rewrite IH. reflexivity.
Qed.

Lemma filter_filter {A} (f g : A -> bool) l :
  List.filter f (List.filter g l) = List.filter (fun x => g x && f x)%bool l.
Proof.
  induction l as [|x l IH]; simpl; [reflexivity|].
  destruct (g x); simpl; [destruct (f x); simpl; congruence | exact IH].
Qed.

Lemma effectiveModelOf_truthy localeCompare clean selectedModel e :
  effectiveModelOf localeCompare clean selectedModel = Some e ->
  truthy_str (Some e) = true.
Proof.
  unfold effectiveModelOf.
  assert (Hfallback :
    match modelOptionsOf localeCompare clean with
    | o :: _ => or_str (Some (mo_model o)) None
    | [] => None
    end = Some e -> truthy_str (Some e) = true).
  { destruct (modelOptionsOf localeCompare clean) as [|o os]; [discriminate|].
    unfold or_str. destruct (truthy_str (Some (mo_model o))) eqn:E; simpl.
    - intros H. injection H as <-. exact E.
    - discriminate. }
  destruct selectedModel as [s|]; [|exact Hfallback].
  destruct (truthy_str (Some s)) eqn:E; simpl; [|exact Hfallback].
  destruct (map_has s _); [|exact Hfallback].
  intros H. injection H as <-. exact E.
Qed.

(** The model name of a record is never empty. *)
Lemma modelOf_nonempty r : modelOf r <> "".
Proof.
  unfold modelOf, strOr.
  destruct (or_str _ _) as [s|]; [|discriminate].
  destruct (String.eqb_spec s ""); [discriminate | assumption].
Qed.

Lemma count_fold (rk : list CompletionRecord) : forall n,
  fold_left (fun a (_ : CompletionRecord) => a + 1) rk n = n + Z.of_nat (length rk).
Proof.
  induction rk as [|r rk IH]; intros n; simpl fold_left; simpl length; [lia|].
  rewrite IH. lia.
Qed.

(** The entry of a model in the map of completions per model. *)
Lemma countModels_get clean m :
  map_get m (countModels clean)
  = match List.filter (fun r => String.eqb (modelOf r) m) clean with
    | [] => None
    | rk => Some (Z.of_nat (length rk))
    end.
Proof.
  change (countModels clean)
    with (fold_left (groupStep modelKey (fun _ => 0) (fun _ n => n + 1)) clean []).
  rewrite group_get.
  change (List.filter (Aggregation.hasKey modelKey m) clean)
    with (List.filter (fun r => String.eqb (modelOf r) m) clean).
  destruct (List.filter _ clean) as [|r rk] eqn:E; [reflexivity|].
  simpl map_get. rewrite count_fold. reflexivity.
Qed.

Lemma map_has_countModels records m :
  map_has m (countModels (List.filter isClean records)) = Z.ltb 0 (filteredCount records m).
Proof.
  unfold map_has, filteredCount. rewrite countModels_get, filter_filter.
  destruct (List.filter _ records) as [|r rk]; [reflexivity|].
  simpl length. symmetry. apply Z.ltb_lt. lia.
Qed.

Lemma filteredCount_empty records : filteredCount records "" = 0.
Proof.
  unfold filteredCount.
  replace (List.filter _ records) with (@nil CompletionRecord); [reflexivity|].
  induction records as [|r records IH]; simpl; [reflexivity|].
  destruct (String.eqb_spec (modelOf r) "") as [E|_].
  - exfalso. exact (modelOf_nonempty r E).
  - rewrite andb_false_r. exact IH.
Qed.

(** Every model option is a model of some well-formed record, with the
    number of those records. *)
Lemma modelOptionsOf_rows localeCompare records o :
  In o (modelOptionsOf localeCompare (List.filter isClean records)) ->
  mo_count o = filteredCount records (mo_model o) /\ 0 < mo_count o.
Proof.
  unfold modelOptionsOf. rewrite sort_In, in_map_iff.
  intros ([m c] & <- & Hin). cbn [mo_count mo_model].
  assert (Hget : map_get m (countModels (List.filter isClean records)) = Some c).
  { apply In_map_get; [|exact Hin].
    change (countModels (List.filter isClean records))
      with (fold_left (groupStep modelKey (fun _ => 0) (fun _ n => n + 1))
              (List.filter isClean records) []).
    apply group_NoDup. constructor. }
  rewrite countModels_get, filter_filter in Hget. unfold filteredCount.
  revert Hget.
  destruct (List.filter (fun r => isClean r && String.eqb (modelOf r) m)%bool records)
    as [|r rk]; [intros H; discriminate H|].
  intros Hget. injection Hget as <-. simpl length. lia.
Qed.

Lemma modelOptionsOf_nil localeCompare records :
  modelOptionsOf localeCompare (List.filter isClean records) = []
  <-> (forall r, In r records -> isClean r = false).
Proof.
  unfold modelOptionsOf. split.
  - intros H r Hr. destruct (isClean r) eqn:Ec; [exfalso|reflexivity].
    assert (Hlen : length (countModels (List.filter isClean records)) = 0%nat).
    { rewrite <- (length_map (fun '(model, count) => mkModelOption model count)).
      rewrite <- (sort_length (compareModelOptions localeCompare)), H. reflexivity. }
    pose proof (countModels_get (List.filter isClean records) (modelOf r)) as Hget.
    destruct (countModels (List.filter isClean records)); [|discriminate].
    assert (Hin : In r (List.filter (fun r0 => String.eqb (modelOf r0) (modelOf r))
                          (List.filter isClean records))).
    { apply filter_In. split; [apply filter_In; split; assumption|].
      apply String.eqb_refl. }
    destruct (List.filter _ (List.filter isClean records)); [destruct Hin | discriminate].
  - intros H.
    replace (List.filter isClean records) with (@nil CompletionRecord); [reflexivity|].
    symmetry. induction records as [|r records IH]; simpl; [reflexivity|].
    rewrite (H r (or_introl eq_refl)). apply IH. intros r' Hr'. apply H. right. exact Hr'.
Qed.

(** C6: for every record set and requested model, the breakdowns are
    those of the requested model when some well-formed record has it,
    and of the first model option otherwise (no model when no record is
    well-formed); every model option is a model of some well-formed
    record, listed with the number of those records; the record count
    shown is the number of well-formed input records of the selected
    model; and in each of the nine breakdowns the bucket counts add up
    to that number. *)
Theorem bucket_counts_sum localeCompare records selectedModel :
  let sc := buildScenarioComparisons localeCompare records selectedModel in
  let n := selected_model_record_count sc in
  selected_model sc
  = match selectedModel with
    | Some s =>
        if Z.ltb 0 (filteredCount records s) then Some s else firstOption (model_options sc)
    | None => firstOption (model_options sc)
    end
  /\ (model_options sc = [] <-> (forall r, In r records -> isClean r = false))
  /\ (forall o, In o (model_options sc) ->
        mo_count o = filteredCount records (mo_model o) /\ 0 < mo_count o)
  /\ n = match selected_model sc with
         | Some m => filteredCount records m
         | None => 0
         end
  /\ sumCounts (bd_input_mode (breakdowns sc)) = n
  /\ sumCounts (bd_file_size_bucket (breakdowns sc)) = n
  /\ sumCounts (bd_file_kind_set (breakdowns sc)) = n
  /\ sumCounts (bd_image_size_bucket (breakdowns sc)) = n
  /\ sumCounts (bd_image_count_bucket (breakdowns sc)) = n
  /\ sumCounts (bd_current_user_text_size_bucket (breakdowns sc)) = n
  /\ sumCounts (bd_runtime_bucket (breakdowns sc)) = n
  /\ sumCounts (bd_stop_reason_category (breakdowns sc)) = n
  /\ sumCounts (map or_row (bd_output_length_bucket (breakdowns sc))) = n.
Proof.
  cbv zeta. unfold buildScenarioComparisons.
  cbn [breakdowns selected_model_record_count selected_model model_options bd_input_mode
       bd_file_size_bucket bd_file_kind_set bd_image_size_bucket bd_image_count_bucket
       bd_current_user_text_size_bucket bd_runtime_bucket bd_stop_reason_category
       bd_output_length_bucket].
  rewrite sumCounts_withMsPer1k, !groupScenario_count.
  assert (Hfallback :
    match modelOptionsOf localeCompare (List.filter isClean records) with
    | o :: _ => or_str (Some (mo_model o)) None
    | [] => None
    end = firstOption (modelOptionsOf localeCompare (List.filter isClean records))).
  { pose proof (modelOptionsOf_rows localeCompare records) as Hrows.
    destruct (modelOptionsOf localeCompare (List.filter isClean records)) as [|o os];
      [reflexivity|].
    destruct (Hrows o (or_introl eq_refl)) as [Hc Hpos].
    unfold or_str, truthy_str, firstOption.
    destruct (String.eqb_spec (mo_model o) "") as [E|_]; [|reflexivity].
    rewrite E, filteredCount_empty in Hc. lia. }
  split.
  { unfold effectiveModelOf. rewrite Hfallback.
    destruct selectedModel as [s|]; [|reflexivity].
    rewrite map_has_countModels. unfold truthy_str.
    destruct (String.eqb_spec s "") as [->|_]; simpl.
    - rewrite filteredCount_empty. reflexivity.
    - reflexivity. }
  split; [apply modelOptionsOf_nil|].
  split; [apply modelOptionsOf_rows|].
  split; [|do 8 (split; [reflexivity|]); reflexivity].
  destruct (effectiveModelOf localeCompare (List.filter isClean records) selectedModel)
    as [e|] eqn:He; [|reflexivity].
  unfold modelRecordsOf, filteredCount. rewrite (effectiveModelOf_truthy _ _ _ _ He).
  rewrite filter_filter. reflexivity.
Qed.


(** *** The prompt-hash table *)

Lemma addPromptHashRecord_group m r :
  addPromptHashRecord m r = groupStep promptHashKey newPromptHashAcc updPromptHashAcc m r.
Proof.
  unfold addPromptHashRecord, groupStep, promptHashKey.
  destruct (req r) as [q|]; [|reflexivity].
  destruct (prompt_hash q) as [h|]; [|reflexivity].
  destruct (String.eqb h ""); reflexivity.
Qed.

Lemma fold_addPromptHashRecord rs : forall m,
  fold_left addPromptHashRecord rs m
  = fold_left (groupStep promptHashKey newPromptHashAcc updPromptHashAcc) rs m.
Proof.
  induction rs as [|r rs IH]; intros m; simpl; [reflexivity|].
  rewrite addPromptHashRecord_group. apply IH.
Qed.

Lemma In_set_add x y s : In x (set_add y s) <-> x = y \/ In x s.
Proof.
  unfold set_add. destruct (existsb (String.eqb y) s) eqn:E.
  - split; [tauto|]. intros [->|H]; [|exact H].
    apply existsb_exists in E. destruct E as (z & Hz & Hyz).
    apply String.eqb_eq in Hyz. subst z. exact Hz.
  - rewrite in_app_iff. simpl. split; intros [H|H]; auto.
    + destruct H as [<-|[]]. auto.
Qed.

Lemma NoDup_set_add y s : List.NoDup s -> List.NoDup (set_add y s).
Proof.
  intros H. unfold set_add. destruct (existsb (String.eqb y) s) eqn:E; [exact H|].
  apply (Permutation.Permutation_NoDup (l := y :: s)); [apply Permutation_cons_append|].
  constructor; [|exact H]. intros Hin.
  assert (existsb (String.eqb y) s = true); [|congruence].
  apply existsb_exists. exists y. split; [exact Hin | apply String.eqb_refl].
Qed.

(** The entry of a hash after its records. *)
Lemma fold_updPromptHashAcc rk : forall x,
  let y := fold_left (fun a r => updPromptHashAcc r a) rk x in
  ph_hash y = ph_hash x
  /\ ph_count y = ph_count x + Z.of_nat (length rk)
  /\ (List.NoDup (ph_inputModes x) -> List.NoDup (ph_inputModes y))
  /\ (forall mode, In mode (ph_inputModes y) ->
        In mode (ph_inputModes x) \/ exists r, In r rk /\ keyInputMode r = mode).
Proof.
  induction rk as [|r rk IH]; intros x; simpl.
  - repeat split; auto. lia.
  - destruct (IH (updPromptHashAcc r x)) as (H1 & H2 & H3 & H4). cbv zeta in *.
    split; [rewrite H1; reflexivity|].
    split; [rewrite H2; simpl; lia|].
    split; [intros Hnd; apply H3; simpl; apply NoDup_set_add, Hnd|].
    intros mode Hm. destruct (H4 mode Hm) as [Hin|(r' & Hr' & Hmode)].
    + simpl in Hin. apply In_set_add in Hin. destruct Hin as [->|Hin]; eauto.
    + right. exists r'. auto.
Qed.

Lemma two_distinct (l : list string) :
  List.NoDup l -> (1 < length l)%nat -> exists a b, In a l /\ In b l /\ a <> b.
Proof.
  intros Hnd Hlen. destruct l as [|a [|b l]]; simpl in Hlen; try lia.
  exists a, b. repeat split; simpl; auto.
  inversion Hnd as [|? ? Hni _]; subst. intros ->. apply Hni. left. reflexivity.
Qed.

Lemma slice0_length n s : strlen (slice0 n s) <= Z.max 0 n.
Proof.
  unfold strlen. revert n. induction s as [|c s IH]; intros n; simpl; [lia|].
  destruct (Z.leb_spec n 0); simpl; [lia|].
  specialize (IH (n - 1)). lia.
Qed.

Lemma slice0_prefix n s : String.prefix (slice0 n s) s = true.
Proof.
  revert n. induction s as [|c s IH]; intros n; simpl; [reflexivity|].
  destruct (Z.leb n 0); simpl; [reflexivity|].
  destruct (Ascii.ascii_dec c c); [apply IH | contradiction].
Qed.

Lemma compareRequests_order a b :
  goes_after compareRequests a b = false <-> requests b <= requests a.
Proof.
  unfold goes_after, compareRequests. rewrite negb_false_iff, Qle_bool_iff.
  change 0%Q with (inject_Z 0). rewrite <- Zle_Qle. lia.
Qed.

Lemma promptHashControlsAll_sorted modelRecords :
  StronglySorted (fun a b => requests b <= requests a) (promptHashControlsAll modelRecords).
Proof.
  unfold promptHashControlsAll. apply sort_sorted.
  - intros x y H. apply compareRequests_order, H.
  - intros x y H. destruct (Z.le_gt_cases (requests x) (requests y)) as [Hle|Hgt]; [exact Hle|].
    assert (goes_after compareRequests x y = false); [|congruence].
    apply compareRequests_order. lia.
  - intros x y z. lia.
Qed.

Lemma hasKey_promptHashKey h r :
  hasKey promptHashKey h r = true -> promptHashKey r = Some h.
Proof.
  unfold hasKey. destruct (promptHashKey r) as [k|]; [|discriminate].
  intros H. apply String.eqb_eq in H. congruence.
Qed.

Lemma promptHashKey_nonempty r h : promptHashKey r = Some h -> h <> "".
Proof.
  unfold promptHashKey. destruct (req r) as [q|]; [|discriminate].
  destruct (prompt_hash q) as [h'|]; [|discriminate].
  destruct (String.eqb_spec h' ""); [discriminate|]. congruence.
Qed.

(** What a row of the table before the cut-off stands for. *)
Lemma promptHashControlsAll_rows modelRecords row :
  In row (promptHashControlsAll modelRecords) ->
  exists hash,
    hash <> ""
    /\ prompt_hash_prefix row = slice0 12 hash
    /\ requests row
       = Z.of_nat (length (List.filter (hasKey promptHashKey hash) modelRecords))
    /\ 1 < scenario_count row
    /\ exists r1 r2,
         In r1 modelRecords /\ In r2 modelRecords
         /\ promptHashKey r1 = Some hash /\ promptHashKey r2 = Some hash
         /\ keyInputMode r1 <> keyInputMode r2.
Proof.
  unfold promptHashControlsAll. rewrite sort_In, in_map_iff.
  intros (acc & <- & Hacc). apply filter_In in Hacc. destruct Hacc as [Hacc Hspan].
  unfold map_values in Hacc. apply in_map_iff in Hacc.
  destruct Hacc as ([k acc'] & Hsnd & Hin). simpl in Hsnd. subst acc'.
  rewrite fold_addPromptHashRecord in Hin.
  apply In_map_get in Hin; [|apply group_NoDup; constructor].
  rewrite group_get in Hin. simpl map_get in Hin.
  destruct (List.filter (hasKey promptHashKey k) modelRecords) as [|r0 rk] eqn:Hrk;
    [discriminate|].
  injection Hin as Hin.
  assert (Hfold : fold_left (fun a r => updPromptHashAcc r a) (r0 :: rk) (newPromptHashAcc k)
                  = acc) by exact Hin.
  destruct (fold_updPromptHashAcc (r0 :: rk) (newPromptHashAcc k)) as (H1 & H2 & H3 & H4).
  cbv zeta in *. rewrite Hfold in H1, H2, H3, H4. simpl ph_hash in H1. simpl ph_count in H2.
  simpl ph_inputModes in H3, H4.
  assert (Hk : forall r, In r (r0 :: rk) -> In r modelRecords /\ promptHashKey r = Some k).
  { intros r Hr. rewrite <- Hrk in Hr. apply filter_In in Hr. destruct Hr as [Hr Hh].
    split; [exact Hr | apply hasKey_promptHashKey, Hh]. }
  exists k. split.
  { apply (promptHashKey_nonempty r0). apply Hk. left. reflexivity. }
  unfold toPromptHashRow. cbn [prompt_hash_prefix requests scenario_count].
  rewrite H1. split; [reflexivity|]. split; [rewrite H2, Hrk; apply Z.add_0_l|].
  unfold spansScenarios in Hspan. apply Z.ltb_lt in Hspan. split; [exact Hspan|].
  destruct (two_distinct (ph_inputModes acc) (H3 (List.NoDup_nil _)) ltac:(lia))
    as (a & b & Ha & Hb & Hab).
  destruct (H4 a Ha) as [[]|(r1 & Hr1 & Hm1)].
  destruct (H4 b Hb) as [[]|(r2 & Hr2 & Hm2)].
  exists r1, r2. destruct (Hk r1 Hr1), (Hk r2 Hr2). repeat split; auto. congruence.
Qed.

(** C10: the prompt-hash table has at most thirty rows, is sorted by
    request count, largest first, and each of its rows stands for a
    non-empty prompt hash of the selected model's records: it shows the
    first twelve characters of the hash (and no more), counts the
    records with that hash, and among those records there are two with
    different input-mode labels. *)
Theorem prompt_hash_controls_table localeCompare records selectedModel :
  let sc := buildScenarioComparisons localeCompare records selectedModel in
  let rows := prompt_hash_controls (comparisons sc) in
  let modelRecords := modelRecordsOf (List.filter isClean records) (selected_model sc) in
  (length rows <= 30)%nat
  /\ StronglySorted (fun a b => requests b <= requests a) rows
  /\ forall row, In row rows ->
       exists hash,
         hash <> ""
         /\ prompt_hash_prefix row = slice0 12 hash
         /\ strlen (prompt_hash_prefix row) <= 12
         /\ String.prefix (prompt_hash_prefix row) hash = true
         /\ requests row
            = Z.of_nat (length (List.filter (hasKey promptHashKey hash) modelRecords))
         /\ 1 < scenario_count row
         /\ exists r1 r2,
              In r1 modelRecords /\ In r2 modelRecords
              /\ promptHashKey r1 = Some hash /\ promptHashKey r2 = Some hash
              /\ keyInputMode r1 <> keyInputMode r2.
Proof.
  cbv zeta. unfold buildScenarioComparisons.
  cbn [comparisons prompt_hash_controls selected_model].
  split; [apply firstn_le_length|].
  split; [apply StronglySorted_firstn, promptHashControlsAll_sorted|].
  intros row Hrow.
  assert (Hin : In row (promptHashControlsAll
                          (modelRecordsOf (List.filter isClean records)
                             (effectiveModelOf localeCompare (List.filter isClean records)
                                selectedModel)))).
  { rewrite <- (firstn_skipn 30). apply in_or_app. left. exact Hrow. }
  destruct (promptHashControlsAll_rows _ row Hin) as (hash & Hne & Hp & Hreq & Hcount & Hrs).
  exists hash. rewrite Hp.
  split; [exact Hne|]. split; [reflexivity|].
  split; [apply (slice0_length 12 hash)|].
  split; [apply slice0_prefix|].
  split; [exact Hreq|]. split; [exact Hcount | exact Hrs].
Qed.

End AggregationFacts.

(** ** Permuting the input of the aggregation *)

Module PermutationFacts.
Import JS Model Aggregation SortFacts MapFacts.

(** Addition of rationals, as the very same fraction. *)
Lemma Qplus_swap a x y : ((a + x) + y)%Q = ((a + y) + x)%Q.
Proof.
  destruct a as [an ad], x as [xn xd], y as [yn yd]. unfold Qplus. simpl.
  f_equal; [|lia].
  rewrite !Pos2Z.inj_mul. ring.
Qed.

Lemma addRunning_swap a x y :
  addRunning (addRunning a x) y = addRunning (addRunning a y) x.
Proof.
  destruct x as [x|], y as [y|]; simpl; try reflexivity.
  f_equal. apply Qplus_swap.
Qed.

Lemma laterOf_swap a x y : laterOf (laterOf a x) y = laterOf (laterOf a y) x.
Proof.
  destruct a as [a|], x as [x|], y as [y|]; simpl; try reflexivity;
    repeat match goal with
           | |- context [Z.ltb ?p ?q] => destruct (Z.ltb_spec p q); simpl
           end; try reflexivity; f_equal; lia.
Qed.

Lemma bump_swap b c n : bump b (bump c n) = bump c (bump b n).
Proof. destruct b, c; simpl; lia. Qed.

Lemma addSummaryRecord_swap a r1 r2 :
  addSummaryRecord (addSummaryRecord a r1) r2 = addSummaryRecord (addSummaryRecord a r2) r1.
Proof.
  unfold addSummaryRecord. simpl.
  f_equal; try apply addRunning_swap; try apply bump_swap; apply laterOf_swap.
Qed.

Lemma addModelRecord_swap a r1 r2 :
  addModelRecord r2 (addModelRecord r1 a) = addModelRecord r1 (addModelRecord r2 a).
Proof.
  unfold addModelRecord. simpl.
  f_equal; try apply addRunning_swap; try apply bump_swap; try apply laterOf_swap; lia.
Qed.

Lemma addScenarioRecord_swap a r1 r2 :
  addScenarioRecord r2 (addScenarioRecord r1 a)
  = addScenarioRecord r1 (addScenarioRecord r2 a).
Proof.
  unfold addScenarioRecord. simpl. f_equal; try apply addRunning_swap; lia.
Qed.

(** A fold whose steps commute does not depend on the order. *)
Lemma fold_left_perm {A B} (f : A -> B -> A) :
  (forall a x y, f (f a x) y = f (f a y) x) ->
  forall l l', Permutation l l' -> forall a, fold_left f l a = fold_left f l' a.
Proof.
  intros Hf l l' H. induction H as [|x l l' H IH|x y l|l l' l'' H1 IH1 H2 IH2];
    intros a; simpl.
  - reflexivity.
  - apply IH.
  - rewrite Hf. reflexivity.
  - rewrite IH1. apply IH2.
Qed.

Lemma filter_perm {A} (f : A -> bool) l l' :
  Permutation l l' -> Permutation (List.filter f l) (List.filter f l').
Proof.
  induction 1 as [|x l l' H IH|x y l|l l' l'' H1 IH1 H2 IH2]; simpl.
  - constructor.
  - destruct (f x); [constructor|]; exact IH.
  - destruct (f x), (f y); try apply Permutation_refl. apply perm_swap.
  - eapply Permutation_trans; eassumption.
Qed.

(** *** Grouping a permuted input *)

Section GroupPerm.
Context {R V W : Type}.
Variable key : R -> option string.
Variable init : string -> V.
Variable upd : R -> V -> V.
Variable view : V -> W.

(** The view of an entry depends on the records of its key up to their
    order. *)
Hypothesis view_perm : forall k rk rk',
  Permutation rk rk' ->
  view (fold_left (fun a r => upd r a) rk (init k))
  = view (fold_left (fun a r => upd r a) rk' (init k)).

Lemma group_get_perm rs rs' k :
  Permutation rs rs' ->
  option_map view (map_get k (fold_left (groupStep key init upd) rs []))
  = option_map view (map_get k (fold_left (groupStep key init upd) rs' [])).
Proof.
  intros H. rewrite !group_get. simpl map_get.
  pose proof (filter_perm (hasKey key k) rs rs' H) as Hf.
  destruct (List.filter (hasKey key k) rs) as [|r rk] eqn:E.
  - apply Permutation_nil in Hf. rewrite Hf. reflexivity.
  - destruct (List.filter (hasKey key k) rs') as [|r' rk'] eqn:E'.
    + apply Permutation_sym, Permutation_nil in Hf. discriminate.
    + simpl option_map. f_equal. apply (view_perm k (r :: rk) (r' :: rk') Hf).
Qed.

End GroupPerm.

(** Two maps with the same view of every key have the same views of
    their values, up to order. *)
Lemma values_view_perm {V W} (view : V -> W) (m m' : list (string * V)) :
  List.NoDup (map fst m) -> List.NoDup (map fst m') ->
  (forall k, option_map view (map_get k m) = option_map view (map_get k m')) ->
  Permutation (map view (map_values m)) (map view (map_values m')).
Proof.
  intros Hm Hm' Hget.
  assert (Hkeys : Permutation (map fst m) (map fst m')).
  { apply Permutation.NoDup_Permutation; try assumption. intros k.
    specialize (Hget k).
    destruct (map_get k m) as [v|] eqn:E, (map_get k m') as [v'|] eqn:E';
      try discriminate.
    - apply map_get_In in E, E'. split; intros _.
      + change k with (fst (k, v')). apply in_map, E'.
      + change k with (fst (k, v)). apply in_map, E.
    - apply map_get_None in E, E'. tauto. }
  assert (Hvals : forall m0 : list (string * V), List.NoDup (map fst m0) ->
            map Some (map view (map_values m0))
            = map (fun k => option_map view (map_get k m0)) (map fst m0)).
  { intros m0 Hnd. unfold map_values. rewrite !map_map.
    apply map_ext_in. intros [k v] Hin. simpl.
    rewrite (In_map_get k v m0 Hnd Hin). reflexivity. }
  assert (Hs : Permutation (map Some (map view (map_values m)))
                 (map Some (map view (map_values m')))).
  { rewrite (Hvals m Hm), (Hvals m' Hm').
    rewrite (map_ext _ _ Hget). apply Permutation_map, Hkeys. }
  apply Permutation_map_inv in Hs. destruct Hs as (l3 & Heq & Hperm).
  assert (l3 = map view (map_values m)).
  { clear -Heq. revert l3 Heq. induction (map view (map_values m)) as [|x l IH];
      intros [|y l3] Heq; simpl in Heq; try discriminate; [reflexivity|].
    injection Heq as -> Heq. f_equal. apply IH, Heq. }
  subst l3. apply Permutation_sym, Hperm.
Qed.

End PermutationFacts.

(** ** Sorting under an order without ties *)

Module SortUnique.
Import JS SortFacts.

Lemma sorted_perm_eq {A} (R : A -> A -> Prop) (l : list A) : forall l',
  (forall x y, In x l -> In y l -> R x y -> R y x -> x = y) ->
  StronglySorted R l -> StronglySorted R l' -> Permutation l l' -> l = l'.
Proof.
  induction l as [|x l IH]; intros l' Hanti Hs Hs' Hp.
  - apply Permutation_nil in Hp. congruence.
  - destruct l' as [|y l'].
    { apply Permutation_sym, Permutation_nil in Hp. discriminate. }
    inversion Hs as [|? ? Hs1 Hall]; subst. inversion Hs' as [|? ? Hs1' Hall']; subst.
    rewrite List.Forall_forall in Hall, Hall'.
    assert (Hxy : x = y).
    { assert (Hx : In x (y :: l')) by (eapply Permutation_in; [exact Hp | left; reflexivity]).
      assert (Hy : In y (x :: l))
        by (eapply Permutation_in; [apply Permutation_sym, Hp | left; reflexivity]).
      destruct Hx as [Hx|Hx]; [congruence|].
      destruct Hy as [Hy|Hy]; [congruence|].
      apply Hanti; [left; reflexivity | right; exact Hy | apply Hall, Hy | apply Hall', Hx]. }
    subst y. f_equal. apply IH.
    + intros a b Ha Hb. apply Hanti; right; assumption.
    + exact Hs1.
    + exact Hs1'.
    + eapply Permutation_cons_inv, Hp.
Qed.

(** Sorting two arrangements of the same elements gives the same list
    when the comparator orders them without ties. *)
Lemma sort_unique {A} (cmp : A -> A -> Q) (R : A -> A -> Prop) (l l' : list A) :
  (forall x y, goes_after cmp x y = false -> R x y) ->
  (forall x y, goes_after cmp x y = true -> R y x) ->
  (forall x y z, R x y -> R y z -> R x z) ->
  (forall x y, In x l -> In y l -> R x y -> R y x -> x = y) ->
  Permutation l l' -> sort cmp l = sort cmp l'.
Proof.
  intros Hb Ha Ht Hanti Hp.
  apply (sorted_perm_eq R).
  - intros x y Hx Hy. apply Hanti; apply (sort_In cmp); assumption.
  - apply sort_sorted; assumption.
  - apply sort_sorted; assumption.
  - eapply Permutation_trans; [apply Permutation_sym, sort_perm|].
    eapply Permutation_trans; [exact Hp | apply sort_perm].
Qed.

(** *** The order of strings by code units *)

Lemma ascii_compare_eq x y : Ascii.compare x y = Eq <-> x = y.
Proof.
  split; [apply Ascii.compare_eq_iff|]. intros ->. unfold Ascii.compare.
  apply N.compare_refl.
Qed.

Lemma string_compare_trans a : forall b c,
  String.compare a b <> Gt -> String.compare b c <> Gt -> String.compare a c <> Gt.
Proof.
  induction a as [|x a IH]; intros [|y b] [|z c]; simpl; try congruence.
  destruct (Ascii.compare x y) eqn:E1; try congruence.
  - apply ascii_compare_eq in E1. subst y.
    destruct (Ascii.compare x z); try congruence. apply IH.
  - destruct (Ascii.compare y z) eqn:E2; try congruence.
    + apply ascii_compare_eq in E2. subst z. rewrite E1. congruence.
    + unfold Ascii.compare in *. rewrite N.compare_lt_iff in E1, E2.
      assert (E3 : (N_of_ascii x ?= N_of_ascii z)%N = Lt)
        by (apply N.compare_lt_iff; lia).
      rewrite E3. congruence.
Qed.

Lemma compareCodeUnits_before x y :
  goes_after Aggregation.compareCodeUnits x y = false <-> String.compare x y <> Gt.
Proof.
  unfold goes_after, Aggregation.compareCodeUnits.
  destruct (String.compare x y); simpl; split; congruence.
Qed.

Lemma sort_codeUnits_unique l l' :
  Permutation l l' ->
  sort Aggregation.compareCodeUnits l = sort Aggregation.compareCodeUnits l'.
Proof.
  apply (sort_unique _ (fun a b => String.compare a b <> Gt)).
  - intros x y. apply compareCodeUnits_before.
  - intros x y H.
    assert (Hgt : String.compare x y = Gt).
    { destruct (String.compare x y) eqn:E; try reflexivity;
        exfalso; assert (goes_after Aggregation.compareCodeUnits x y = false)
          by (apply compareCodeUnits_before; congruence); congruence. }
    rewrite String.compare_antisym, Hgt. discriminate.
  - intros x y z. apply string_compare_trans.
  - intros x y _ _ Hxy Hyx. apply String.leb_antisym; unfold String.leb.
    + destruct (String.compare x y); congruence.
    + destruct (String.compare y x); congruence.
Qed.

(** The order by code units is one the host comparison may be. *)
Lemma compareCodeUnits_separating :
  Aggregation.separating_order Aggregation.compareCodeUnits.
Proof.
  assert (Hle : forall a b,
            (Aggregation.compareCodeUnits a b <= 0)%Q <-> String.compare a b <> Gt).
  { intros a b. unfold Aggregation.compareCodeUnits.
    destruct (String.compare a b); split; try congruence; try discriminate.
    intros H. exfalso. revert H. apply Qlt_not_le. reflexivity. }
  split; [|split].
  - intros a b. rewrite !Hle. rewrite (String.compare_antisym b a).
    destruct (String.compare a b); simpl; [left|left|right]; congruence.
  - intros a b c. rewrite !Hle. apply string_compare_trans.
  - intros a b. rewrite !Hle. intros Hab Hba.
    apply String.leb_antisym; unfold String.leb.
    + destruct (String.compare a b); congruence.
    + destruct (String.compare b a); congruence.
Qed.

End SortUnique.

(** ** The aggregation of a permuted record set *)

Module AggregationPermutation.
Import JS Model Aggregation SortFacts MapFacts AggregationFacts PermutationFacts SortUnique.

(** *** The loops as grouping loops *)

Lemma statsLoop_split l : forall acc pm,
  fold_left
    (fun '(acc, perModel) r =>
       let model := modelOf r in
       (addSummaryRecord acc r,
        map_upsert model (modelAcc0 model) (addModelRecord r) perModel))
    l (acc, pm)
  = (fold_left addSummaryRecord l acc,
     fold_left (groupStep modelKey modelAcc0 addModelRecord) l pm).
Proof.
  induction l as [|r l IH]; intros acc pm; simpl; [reflexivity|]. apply IH.
Qed.

Lemma countModels_group clean :
  countModels clean
  = fold_left (groupStep modelKey (fun _ => 0) (fun _ n => n + 1)) clean [].
Proof. reflexivity. Qed.

Lemma scenarioBuckets_group records keyFn :
  scenarioBuckets records keyFn
  = fold_left (groupStep (bucketKey keyFn) initScenarioBucket addScenarioRecord) records [].
Proof. reflexivity. Qed.

(** *** Summary aggregation *)

Lemma perModel_perm clean clean' :
  Permutation clean clean' ->
  Permutation
    (map finalizeModel
       (map_values (fold_left (groupStep modelKey modelAcc0 addModelRecord) clean [])))
    (map finalizeModel
       (map_values (fold_left (groupStep modelKey modelAcc0 addModelRecord) clean' []))).
Proof.
  intros H. apply values_view_perm; try (apply group_NoDup; constructor).
  intros k. apply group_get_perm; [|exact H].
  intros k' rk rk' Hrk. f_equal.
  apply (fold_left_perm (fun a r => addModelRecord r a)); [|exact Hrk].
  intros a x y. apply addModelRecord_swap.
Qed.

Lemma dashboard_perm records records' :
  Permutation records records' ->
  summary (buildDashboardStats records) = summary (buildDashboardStats records')
  /\ Permutation (models (buildDashboardStats records))
       (models (buildDashboardStats records')).
Proof.
  intros H. pose proof (filter_perm isClean _ _ H) as Hc.
  unfold buildDashboardStats, statsLoop. rewrite !statsLoop_split. cbn [summary models].
  pose proof (perModel_perm _ _ Hc) as Hm.
  split.
  - rewrite !sort_length, (Permutation_length Hc), (Permutation_length Hm).
    rewrite (fold_left_perm addSummaryRecord addSummaryRecord_swap _ _ Hc).
    reflexivity.
  - eapply Permutation_trans; [apply Permutation_sym, sort_perm|].
    eapply Permutation_trans; [exact Hm | apply sort_perm].
Qed.

(** *** Model options *)

Lemma strOr_empty l : strOr (Some l) "" = l.
Proof. unfold strOr. destruct (String.eqb_spec l ""); congruence. Qed.

Lemma orNum_le d q :
  Qle_bool (orNum (inject_Z d) q) 0 = true <-> d < 0 \/ (d = 0 /\ (q <= 0)%Q).
Proof.
  unfold orNum. destruct (Qeq_bool (inject_Z d) 0) eqn:E.
  - apply Qeq_bool_iff in E.
    assert (Hd : d = 0) by (apply (proj1 (inject_Z_injective d 0)); exact E).
    rewrite Qle_bool_iff. split; [intros H; right; auto | intros [H|[_ H]]; [lia | exact H]].
  - assert (Hd : d <> 0).
    { intros ->. discriminate E. }
    rewrite Qle_bool_iff. change 0%Q with (inject_Z 0). rewrite <- Zle_Qle. lia.
Qed.

Section WithOrder.
Variable localeCompare : string -> string -> Q.
Hypothesis Horder : separating_order localeCompare.

Abbreviation optionBefore := (Aggregation.optionBefore localeCompare).

Lemma compareModelOptions_before a b :
  goes_after (compareModelOptions localeCompare) a b = false <-> optionBefore a b.
Proof.
  unfold goes_after, compareModelOptions, optionBefore.
  rewrite negb_false_iff, orNum_le. intuition lia.
Qed.

Lemma modelOptions_unique l l' :
  Permutation l l' ->
  sort (compareModelOptions localeCompare) l = sort (compareModelOptions localeCompare) l'.
Proof.
  destruct Horder as (Htot & Htrans & Hanti).
  apply (sort_unique _ optionBefore).
  - intros x y. apply compareModelOptions_before.
  - intros x y H.
    assert (Hn : ~ optionBefore x y).
    { intros Hb. apply compareModelOptions_before in Hb. congruence. }
    unfold Aggregation.optionBefore in *.
    destruct (Z.lt_trichotomy (mo_count x) (mo_count y)) as [Hlt|[Heq|Hgt]].
    + left. exact Hlt.
    + right. split; [lia|].
      destruct (Htot (mo_model x) (mo_model y)) as [Hxy|Hyx]; [|exact Hyx].
      exfalso. apply Hn. right. auto.
    + exfalso. apply Hn. left. exact Hgt.
  - unfold Aggregation.optionBefore. intros x y z [H1|[H1 H1']] [H2|[H2 H2']]; try (left; lia).
    right. split; [lia|]. eapply Htrans; eassumption.
  - unfold Aggregation.optionBefore. intros [xm xc] [ym yc] _ _; simpl.
    intros [H1|[H1 H1']] [H2|[H2 H2']]; try lia.
    f_equal; [apply Hanti; assumption | exact H1].
Qed.

Lemma fold_count (rk : list CompletionRecord) : forall a,
  fold_left (fun (n : Z) (_ : CompletionRecord) => n + 1) rk a = a + Z.of_nat (length rk).
Proof.
  induction rk as [|r rk IH]; intros a; simpl fold_left.
  - simpl. lia.
  - rewrite IH. simpl length. lia.
Qed.

Lemma count_view_perm (k : string) (rk rk' : list CompletionRecord) :
  Permutation rk rk' ->
  fold_left (fun (n : Z) (_ : CompletionRecord) => n + 1) rk 0
  = fold_left (fun (n : Z) (_ : CompletionRecord) => n + 1) rk' 0.
Proof.
  intros H. rewrite !fold_count, (Permutation_length H). reflexivity.
Qed.

Lemma countModels_perm clean clean' :
  Permutation clean clean' -> Permutation (countModels clean) (countModels clean').
Proof.
  intros H. rewrite !countModels_group.
  set (m := fold_left _ clean []). set (m' := fold_left _ clean' []).
  assert (Hnd : List.NoDup (map fst m)) by (apply group_NoDup; constructor).
  assert (Hnd' : List.NoDup (map fst m')) by (apply group_NoDup; constructor).
  assert (Hget : forall k, map_get k m = map_get k m').
  { intros k.
    pose proof (group_get_perm modelKey (fun _ => 0) (fun _ n => n + 1) (fun n : Z => n)
                  count_view_perm clean clean' k H) as G.
    fold m m' in G. destruct (map_get k m), (map_get k m'); simpl in G; congruence. }
  apply Permutation.NoDup_Permutation.
  - eapply NoDup_map_inv, Hnd.
  - eapply NoDup_map_inv, Hnd'.
  - intros [k v]. split; intros Hin.
    + apply map_get_In. rewrite <- Hget. apply In_map_get; assumption.
    + apply map_get_In. rewrite Hget. apply In_map_get; assumption.
Qed.

Lemma modelOptionsOf_perm clean clean' :
  Permutation clean clean' ->
  modelOptionsOf localeCompare clean = modelOptionsOf localeCompare clean'.
Proof.
  intros H. unfold modelOptionsOf. apply modelOptions_unique.
  apply Permutation_map, countModels_perm, H.
Qed.

Lemma map_has_perm {V} (m m' : list (string * V)) k :
  Permutation m m' -> map_has k m = map_has k m'.
Proof.
  intros H. unfold map_has.
  destruct (map_get k m) as [v|] eqn:E, (map_get k m') as [v'|] eqn:E'; try reflexivity.
  - apply map_get_In in E. apply map_get_None in E'. exfalso. apply E'.
    change k with (fst (k, v)). apply in_map. eapply Permutation_in; eassumption.
  - apply map_get_In in E'. apply map_get_None in E. exfalso. apply E.
    change k with (fst (k, v')). apply in_map.
    eapply Permutation_in; [apply Permutation_sym|]; eassumption.
Qed.

Lemma effectiveModelOf_perm clean clean' selectedModel :
  Permutation clean clean' ->
  effectiveModelOf localeCompare clean selectedModel
  = effectiveModelOf localeCompare clean' selectedModel.
Proof.
  intros H. unfold effectiveModelOf.
  rewrite (modelOptionsOf_perm _ _ H).
  destruct selectedModel as [s|]; [|reflexivity].
  rewrite (map_has_perm _ _ s (countModels_perm _ _ H)). reflexivity.
Qed.

Lemma modelRecordsOf_perm clean clean' e :
  Permutation clean clean' ->
  Permutation (modelRecordsOf clean e) (modelRecordsOf clean' e).
Proof.
  intros H. unfold modelRecordsOf. destruct e as [e|]; [|constructor].
  destruct (truthy_str (Some e)); [|constructor]. apply filter_perm, H.
Qed.

(** *** Breakdowns *)

Lemma bucket_rows_perm keyFn mr mr' :
  Permutation mr mr' ->
  Permutation (map finalizeBucket (map_values (scenarioBuckets mr keyFn)))
    (map finalizeBucket (map_values (scenarioBuckets mr' keyFn))).
Proof.
  intros H. rewrite !scenarioBuckets_group.
  apply values_view_perm; try (apply group_NoDup; constructor).
  intros k. apply group_get_perm; [|exact H].
  intros k' rk rk' Hrk. f_equal.
  apply (fold_left_perm (fun a r => addScenarioRecord r a)); [|exact Hrk].
  intros a x y. apply addScenarioRecord_swap.
Qed.

Lemma groupScenario_perm keyFn sortByCount mr mr' :
  Permutation mr mr' ->
  Permutation (groupScenario localeCompare mr keyFn sortByCount)
    (groupScenario localeCompare mr' keyFn sortByCount).
Proof.
  intros H. unfold groupScenario, finalizeScenarioBuckets.
  eapply Permutation_trans; [apply Permutation_sym, sort_perm|].
  eapply Permutation_trans; [apply bucket_rows_perm, H | apply sort_perm].
Qed.

Lemma fold_label rk : forall acc,
  ba_label (fold_left (fun a r => addScenarioRecord r a) rk acc) = ba_label acc.
Proof.
  induction rk as [|r rk IH]; intros acc; simpl; [reflexivity|]. rewrite IH. reflexivity.
Qed.

(** The rows of a breakdown have distinct labels. *)
Lemma bucket_rows_labels keyFn mr x y :
  In x (map finalizeBucket (map_values (scenarioBuckets mr keyFn))) ->
  In y (map finalizeBucket (map_values (scenarioBuckets mr keyFn))) ->
  br_label x = br_label y -> x = y.
Proof.
  rewrite scenarioBuckets_group.
  set (m := fold_left _ mr []).
  assert (Hnd : List.NoDup (map fst m)) by (apply group_NoDup; constructor).
  assert (Hlab : forall k acc, In (k, acc) m -> ba_label acc = k).
  { intros k acc Hin. apply (In_map_get k acc m Hnd) in Hin.
    unfold m in Hin. rewrite group_get in Hin. simpl map_get in Hin.
    destruct (List.filter _ mr); [discriminate|]. injection Hin as <-.
    rewrite fold_label. reflexivity. }
  unfold map_values. rewrite !map_map, !in_map_iff.
  intros ([kx ax] & <- & Hx) ([ky ay] & <- & Hy). simpl.
  intros Heq. rewrite (Hlab _ _ Hx), (Hlab _ _ Hy) in Heq. subst ky.
  apply (In_map_get _ _ _ Hnd) in Hx, Hy. congruence.
Qed.

Lemma groupScenario_by_label keyFn mr mr' :
  Permutation mr mr' ->
  groupScenario localeCompare mr keyFn false = groupScenario localeCompare mr' keyFn false.
Proof.
  intros H. destruct Horder as (Htot & Htrans & Hanti).
  unfold groupScenario, finalizeScenarioBuckets.
  assert (Hb : forall x y,
            goes_after (compareBucketRows localeCompare false) x y = false
            <-> (localeCompare (br_label x) (br_label y) <= 0)%Q).
  { intros x y. unfold goes_after, compareBucketRows.
    rewrite !strOr_empty, negb_false_iff. apply Qle_bool_iff. }
  apply (sort_unique _
           (fun x y => (localeCompare (br_label x) (br_label y) <= 0)%Q)).
  - intros x y. apply Hb.
  - intros x y Hg. destruct (Htot (br_label x) (br_label y)) as [Hxy|Hyx]; [|exact Hyx].
    apply Hb in Hxy. congruence.
  - intros x y z. apply Htrans.
  - intros x y Hx Hy Hxy Hyx. apply (bucket_rows_labels keyFn mr x y Hx Hy).
    apply Hanti; assumption.
  - apply bucket_rows_perm, H.
Qed.

(** *** Comparison tables *)

Lemma fileVsTextAll_perm mr mr' :
  Permutation mr mr' -> Permutation (fileVsTextAll mr) (fileVsTextAll mr').
Proof.
  intros H. unfold fileVsTextAll.
  eapply Permutation_trans; [apply Permutation_sym, sort_perm|].
  eapply Permutation_trans; [|apply sort_perm].
  apply filter_perm, Permutation_map, H.
Qed.

Lemma fold_updPromptHashAcc_more rk : forall x,
  let y := fold_left (fun a r => updPromptHashAcc r a) rk x in
  ph_predTps y
  = fold_left (fun t r => addRunning t (toFiniteNumber (timingOf t_predicted_tps r)))
      rk (ph_predTps x)
  /\ (forall mode, In mode (ph_inputModes x) -> In mode (ph_inputModes y))
  /\ (forall r, In r rk -> In (keyInputMode r) (ph_inputModes y)).
Proof.
  induction rk as [|r rk IH]; intros x; simpl.
  - repeat split; auto. intros r [].
  - destruct (IH (updPromptHashAcc r x)) as (H1 & H2 & H3). cbv zeta in *.
    split; [rewrite H1; reflexivity|].
    split.
    + intros mode Hm. apply H2. simpl. apply In_set_add. right. exact Hm.
    + intros r' [<-|Hr'].
      * apply H2. simpl. apply In_set_add. left. reflexivity.
      * apply H3, Hr'.
Qed.

Lemma promptHashView_perm (k : string) rk rk' :
  Permutation rk rk' ->
  promptHashView (fold_left (fun a r => updPromptHashAcc r a) rk (newPromptHashAcc k))
  = promptHashView (fold_left (fun a r => updPromptHashAcc r a) rk' (newPromptHashAcc k)).
Proof.
  intros H.
  destruct (fold_updPromptHashAcc rk (newPromptHashAcc k)) as (A1 & A2 & A3 & A4).
  destruct (fold_updPromptHashAcc rk' (newPromptHashAcc k)) as (B1 & B2 & B3 & B4).
  destruct (fold_updPromptHashAcc_more rk (newPromptHashAcc k)) as (A5 & _ & A6).
  destruct (fold_updPromptHashAcc_more rk' (newPromptHashAcc k)) as (B5 & _ & B6).
  cbv zeta in *.
  set (x := fold_left _ rk _) in *. set (x' := fold_left _ rk' _) in *.
  assert (Hmodes : Permutation (ph_inputModes x) (ph_inputModes x')).
  { apply Permutation.NoDup_Permutation.
    - apply A3. constructor.
    - apply B3. constructor.
    - intros mode. split; intros Hm.
      + destruct (A4 mode Hm) as [[]|(r & Hr & <-)]. apply B6.
        eapply Permutation_in; eassumption.
      + destruct (B4 mode Hm) as [[]|(r & Hr & <-)]. apply A6.
        eapply Permutation_in; [apply Permutation_sym|]; eassumption. }
  assert (Htps : ph_predTps x = ph_predTps x').
  { rewrite A5, B5. apply fold_left_perm; [|exact H].
    intros a r1 r2. apply addRunning_swap. }
  unfold promptHashView, spansScenarios, toPromptHashRow.
  rewrite A1, B1, A2, B2, Htps, (Permutation_length Hmodes), (Permutation_length H).
  rewrite (sort_codeUnits_unique _ _ Hmodes). reflexivity.
Qed.

Lemma rows_of_views (vs : list PromptHashAcc) :
  map toPromptHashRow (List.filter spansScenarios vs)
  = map snd (List.filter fst (map promptHashView vs)).
Proof.
  induction vs as [|v vs IH]; simpl; [reflexivity|].
  destruct (spansScenarios v); simpl; rewrite IH; reflexivity.
Qed.

Lemma promptHashControlsAll_perm mr mr' :
  Permutation mr mr' ->
  Permutation (promptHashControlsAll mr) (promptHashControlsAll mr').
Proof.
  intros H. unfold promptHashControlsAll.
  eapply Permutation_trans; [apply Permutation_sym, sort_perm|].
  eapply Permutation_trans; [|apply sort_perm].
  rewrite !rows_of_views. apply Permutation_map, filter_perm.
  rewrite !fold_addPromptHashRecord.
  apply values_view_perm; try (apply group_NoDup; constructor).
  intros k. apply group_get_perm; [|exact H].
  intros k' rk rk' Hrk. apply promptHashView_perm, Hrk.
Qed.

(** In the exact arithmetic of the model, where a sum does not depend
    on the order of its terms, whole rows agree: the summary block is
    identical and the per-model rows are the same up to their order; the
    rows of the breakdowns sorted by label are identical and those of
    the breakdowns sorted by count are the same up to their order; the
    two comparison tables hold the same rows up to their order before
    their cut-offs are applied. *)
Lemma rows_under_permutation records records' selectedModel :
  Permutation records records' ->
  let d := buildDashboardStats records in
  let d' := buildDashboardStats records' in
  let s := buildScenarioComparisons localeCompare records selectedModel in
  let s' := buildScenarioComparisons localeCompare records' selectedModel in
  let mr := modelRecordsOf (List.filter isClean records) (selected_model s) in
  let mr' := modelRecordsOf (List.filter isClean records') (selected_model s') in
  summary d = summary d'
  /\ Permutation (models d) (models d')
  /\ selected_model s = selected_model s'
  /\ model_options s = model_options s'
  /\ selected_model_record_count s = selected_model_record_count s'
  /\ Permutation (bd_input_mode (breakdowns s)) (bd_input_mode (breakdowns s'))
  /\ bd_file_size_bucket (breakdowns s) = bd_file_size_bucket (breakdowns s')
  /\ Permutation (bd_file_kind_set (breakdowns s)) (bd_file_kind_set (breakdowns s'))
  /\ bd_image_size_bucket (breakdowns s) = bd_image_size_bucket (breakdowns s')
  /\ bd_image_count_bucket (breakdowns s) = bd_image_count_bucket (breakdowns s')
  /\ bd_current_user_text_size_bucket (breakdowns s)
     = bd_current_user_text_size_bucket (breakdowns s')
  /\ Permutation (bd_runtime_bucket (breakdowns s)) (bd_runtime_bucket (breakdowns s'))
  /\ Permutation (bd_stop_reason_category (breakdowns s))
       (bd_stop_reason_category (breakdowns s'))
  /\ bd_output_length_bucket (breakdowns s) = bd_output_length_bucket (breakdowns s')
  /\ Permutation (fileVsTextAll mr) (fileVsTextAll mr')
  /\ Permutation (promptHashControlsAll mr) (promptHashControlsAll mr').
Proof.
  intros H. cbv zeta.
  pose proof (filter_perm isClean _ _ H) as Hc.
  destruct (dashboard_perm records records' H) as [Hsum Hmodels].
  split; [exact Hsum|]. split; [exact Hmodels|].
  unfold buildScenarioComparisons.
  cbn [selected_model model_options selected_model_record_count breakdowns
       bd_input_mode bd_file_size_bucket bd_file_kind_set bd_image_size_bucket
       bd_image_count_bucket bd_current_user_text_size_bucket bd_runtime_bucket
       bd_stop_reason_category bd_output_length_bucket].
  rewrite <- (effectiveModelOf_perm _ _ selectedModel Hc).
  set (e := effectiveModelOf localeCompare (List.filter isClean records) selectedModel).
  pose proof (modelRecordsOf_perm _ _ e Hc) as Hmr.
  split; [reflexivity|].
  split; [apply modelOptionsOf_perm, Hc|].
  split; [rewrite (Permutation_length Hmr); reflexivity|].
  split; [apply groupScenario_perm, Hmr|].
  split; [apply groupScenario_by_label, Hmr|].
  split; [apply groupScenario_perm, Hmr|].
  split; [apply groupScenario_by_label, Hmr|].
  split; [apply groupScenario_by_label, Hmr|].
  split; [apply groupScenario_by_label, Hmr|].
  split; [apply groupScenario_perm, Hmr|].
  split; [apply groupScenario_perm, Hmr|].
  split; [rewrite (groupScenario_by_label keyOutputLength _ _ Hmr); reflexivity|].
  split; [apply fileVsTextAll_perm, Hmr | apply promptHashControlsAll_perm, Hmr].
Qed.



End WithOrder.

End AggregationPermutation.

(** ** The parser on concrete streams *)

Module ParserChecks.
Import JS Model Parser Examples ParserFacts.

(** The example of the specification: a reasoning chunk (30 tokens,
    300 ms) and a terminal chunk (100 tokens, 1000 ms). *)
Example reasoning_stream_split :
  exists r rs,
    runParser reasoningStream = Some r /\ resp r = Some rs
    /\ reasoning_n (derived rs) = JNum 30
    /\ content_n (derived rs) = JNum 70
    /\ option_map Qred (numOf (reasoning_ms (derived rs))) = Some 300%Q
    /\ option_map Qred (numOf (content_ms (derived rs))) = Some 700%Q.
Proof. do 2 eexists. vm_compute. repeat split. Qed.

(** A reasoning boundary reported in strings is passed on as it is:
    reasoning_n is the string, reasoning_ms is null because [roundMs]
    refuses what is not a number, and content_n comes from the
    subtraction of the host, which coerces the string. *)
Example text_boundary_split :
  exists r rs pb,
    runParser textBoundaryStream = Some r /\ resp r = Some rs
    /\ phase_boundary rs = Some pb
    /\ reasoning_final_predicted_n pb = JStr "30"
    /\ reasoning_final_predicted_ms pb = JNull
    /\ reasoning_n (derived rs) = JStr "30"
    /\ reasoning_ms (derived rs) = JNull
    /\ content_n (derived rs) = JNum 70
    /\ t_predicted_n (resp_timings rs) = JNum 100.
Proof. do 3 eexists. vm_compute. repeat split. Qed.

Example roundMs_value :
  roundMs exactRound3 (JNum (123456 # 100000)) = JNum (1235 / 1000)
  /\ roundMs exactRound3 (JStr "1.5") = JNull
  /\ roundMs exactRound3 JNaN = JNull
  /\ roundMs exactRound3 JUndefined = JNull.
Proof. repeat split. Qed.

Example categorizeFinishReason_values :
  categorizeFinishReason (JStr "stop") = "completed"
  /\ categorizeFinishReason (JStr "length") = "truncated_length"
  /\ categorizeFinishReason (JStr "content_filter") = "filtered"
  /\ categorizeFinishReason (JStr "tool_calls") = "tool_calls"
  /\ categorizeFinishReason JUndefined = "unknown"
  /\ categorizeFinishReason JNull = "unknown"
  /\ categorizeFinishReason (JStr "weird") = "other".
Proof. repeat split. Qed.

(** A finish reason without timings ends the loop and nothing is
    emitted; the sentinel that follows is not read. *)
Example stop_without_timings_drops :
  runParser
    (Data (dataLine timedJson ++ dataLine stopNoTimingsJson ++ dataLine "[DONE]") Eof)
  = None.
Proof. reflexivity. Qed.

(** C1, at a stream that the claim covers: one chunk with timings, then
    the end of the stream without the sentinel.  No record is emitted. *)
Lemma eof_without_sentinel_counterexample :
  exampleParse timedJson = Some timedChunk
  /\ timings timedChunk <> None
  /\ eofStream = Data (dataLine timedJson) Eof
  /\ runParser eofStream = None.
Proof. repeat split. discriminate. Qed.

(** C2, at a stream whose reasoning boundary (50 tokens) lies above the
    total of the terminal chunk (30 tokens): the two split values do not
    add up to predicted_n. *)
Lemma split_sum_counterexample :
  exists r rs,
    runParser regressingStream = Some r /\ resp r = Some rs
    /\ reasoning_n (derived rs) = JNum 50
    /\ content_n (derived rs) = JNum 0
    /\ t_predicted_n (resp_timings rs) = JNum 30
    /\ ~ (50 + 0 == 30)%Q.
Proof. do 2 eexists. vm_compute. repeat split. discriminate. Qed.

Lemma client_timing_deltas_witness :
  exists r rs,
    runParser reasoningStream = Some r /\ resp r = Some rs
    /\ delta_of (request_start_ms (client_timing rs)) (stop_chunk_ms (client_timing rs))
         (duration_request_to_stop_ms (client_timing rs)).
Proof.
  destruct (runParser reasoningStream) as [r|] eqn:E;
    [|exfalso; vm_compute in E; discriminate E].
  destruct (client_timing_deltas exampleParse exampleClock exampleOrigin
              exactRound3 exactMax0minus (Some "t-1") (sse reasoningStream) None exampleTiming r E)
    as (rs & Hrs & H).
  exists r, rs. split; [reflexivity|]. split; [exact Hrs|]. apply H.
Defined.

(** C9, at a stream whose last timed chunk has the empty string as its
    finish reason, followed by the sentinel: the record carries the
    empty string. *)
Lemma empty_finish_reason_counterexample :
  exists r rs,
    runParser emptyFinishStream = Some r /\ resp r = Some rs
    /\ resp_finish_reason rs = JStr "".
Proof. do 2 eexists. vm_compute. repeat split. Qed.

End ParserChecks.

(** ** The correlator on concrete records *)

Module CorrelatorChecks.
Import JS Model Correlator CorrelatorExamples CorrelatorFacts.

(** The example of the specification: a first turn with another prompt
    hash than the snapshot, within the idle window, rotates. *)
Example new_prompt_rotates :
  shouldRotateChain
    (Some (mkChainState (Some "c-1") (Some 1%Q) (Some 1000000) (Some 1%Q) (Some 2%Q)
             (Some "h") (Some "https://ui.example.com") None))
    (getConversationSignals (chatRecord 1 0 2 "h2" 1010000)) 1010000 tab7 = true.
Proof. reflexivity. Qed.

(** The transitions exercised by the tests of the repository. *)
Example rotation_transitions :
  let signals := getConversationSignals (chatRecord 1 0 2 "hash-a" 1000000) in
  let stable :=
    mkChainState (Some "c1") None (Some (1000000 - 10000)) (Some 1%Q) (Some 2%Q)
      (Some "hash-a") (Some "https://ui.example.com") None in
  let idle :=
    mkChainState (Some "c1") None (Some (1000000 - 31 * 60 * 1000)) (Some 1%Q) (Some 2%Q)
      (Some "hash-a") (Some "https://ui.example.com") None in
  let otherOrigin :=
    mkChainState (Some "c1") None (Some (1000000 - 10000)) (Some 1%Q) (Some 2%Q)
      (Some "hash-a") (Some "https://other.example.com") None in
  let moreUsers :=
    mkChainState (Some "c1") None (Some (1000000 - 10000)) (Some 3%Q) (Some 2%Q)
      (Some "hash-a") (Some "https://ui.example.com") None in
  let newPrompt := getConversationSignals (chatRecord 1 0 2 "hash-new" 1000000) in
  let duplicate :=
    mkChainState (Some "c1") None (Some (1000000 - 30000)) (Some 1%Q) (Some 2%Q)
      (Some "hash-a") (Some "https://ui.example.com") None in
  userCount signals = Some 1 /\ assistantCount signals = 0
  /\ messagesCount signals = Some 2 /\ promptHash signals = Some "hash-a"
  /\ shouldRotateChain None signals 1000000 tab7 = true
  /\ shouldRotateChain (Some stable) signals 1000000 tab7 = false
  /\ shouldRotateChain (Some idle) signals 1000000 tab7 = true
  /\ shouldRotateChain (Some otherOrigin) signals 1000000 tab7 = true
  /\ shouldRotateChain (Some moreUsers) signals 1000000 tab7 = true
  /\ shouldRotateChain (Some stable) newPrompt 1000000 tab7 = true
  /\ shouldRotateChain (Some duplicate) signals 1000000 tab7 = false.
Proof. cbv zeta. repeat split. Qed.

Example toPositiveInt_values :
  toPositiveInt (Some (39 # 10)) = Some 3
  /\ toPositiveInt (Some 0%Q) = None
  /\ toPositiveInt (Some (-2)%Q) = None
  /\ toPositiveInt None = None.
Proof. repeat split. Qed.

Example looksLikeFirstTurn_values :
  looksLikeFirstTurn (mkSignals (Some 1) 0 0 (Some 2) None None None) = true
  /\ looksLikeFirstTurn (mkSignals (Some 1) 1 0 (Some 3) None None None) = false
  /\ looksLikeFirstTurn (mkSignals (Some 2) 0 0 (Some 2) None None None) = false.
Proof. repeat split. Qed.

(** C3, at a second-turn record handled twice for one tab, 130000 ms
    apart: the second handling does not rotate; it continues the chain
    of the first with turn number 2. *)
Lemma replay_counterexample :
  CHAIN_DUPLICATE_PROMPT_WINDOW_MS < (1000000 + 130000) - 1000000
  /\ replay secondTurn 130000
     = (mkChainMeta (Some "c-5000-aaaaaaaa") (Some 1),
        mkChainMeta (Some "c-5000-aaaaaaaa") (Some 2))
  /\ shouldRotateChain
       (snd (fst (assignChainMetadata hostA ∅ (secondTurn 1000000) tab7)) !! 7)
       (getConversationSignals (secondTurn 1130000)) 1130000 tab7 = false.
Proof. split; [reflexivity|]. split; vm_compute; reflexivity. Qed.

Lemma replay_rotation_witness :
  snd (assignChainMetadata hostB
         (snd (fst (assignChainMetadata hostA ∅ (firstTurn 1000000) tab7)))
         (firstTurn 1130000) tab7)
  = mkChainMeta (Some (makeChainId hostB)) (Some 1)
  /\ exists c n,
       snd (assignChainMetadata hostA ∅ (firstTurn 1000000) tab7)
       = mkChainMeta (Some c) (Some n)
       /\ snd (assignChainMetadata hostB
                 (snd (fst (assignChainMetadata hostA ∅ (firstTurn 1000000) tab7)))
                 (firstTurn 1030000) tab7)
          = mkChainMeta (Some c) (Some (n + 1)).
Proof.
  split.
  - apply (replay_rotation hostA hostB ∅ (firstTurn 0) tab7 tab7 7 1000000 1130000);
      reflexivity.
  - apply (replay_rotation hostA hostB ∅ (firstTurn 0) tab7 tab7 7 1000000 1030000);
      try reflexivity.
    + discriminate.
    + exists "hash-a". split; [reflexivity | discriminate].
Defined.

Lemma turn_number_steps_witness :
  exists chain turn s',
    assignChainMetadata hostB
      (snd (fst (assignChainMetadata hostA ∅ (firstTurn 1000000) tab7)))
      (secondTurn 1060000) tab7
    = ([SetChainId chain; SetTurnNumber turn],
       <[7 := s']> (snd (fst (assignChainMetadata hostA ∅ (firstTurn 1000000) tab7))),
       mkChainMeta (Some chain) (Some turn))
    /\ chain = "c-5000-aaaaaaaa" /\ turn = 2.
Proof.
  destruct (turn_number_steps hostB
              (snd (fst (assignChainMetadata hostA ∅ (firstTurn 1000000) tab7)))
              (secondTurn 1060000) tab7 7
              (reachable_assign hostA ∅ (firstTurn 1000000) tab7 reachable_empty)
              eq_refl)
    as (chain & turn & s' & Heq & _ & _ & Hstep).
  exists chain, turn, s'. split; [exact Heq|].
  vm_compute in Hstep. destruct Hstep as (n & Hc & Hn & Ht).
  injection Hc as <-. injection Hn as <-. split; [reflexivity | exact Ht].
Defined.


(** [addRecord] under the three outcomes of the storage calls: the
    writes made to the record, the chain fields of the stored record,
    the pair of the reply, and the snapshot of the tab afterwards. *)
Example addRecord_storage_outcomes :
  let view h :=
    let out := addRecord h emptyWorld (firstTurn 1000) tab7 in
    (fst (fst (fst out)),
     chain_id (snd (fst (fst out))), turn_number (snd (fst (fst out))),
     ar_chain (snd out),
     option_map cs_chain_id (tab_chain_state (snd (fst out)) !! 7)) in
  view hostA
  = ([SetSessionId "session-a"; SetCapturedAtMs 1000;
      SetChainId "c-5000-aaaaaaaa"; SetTurnNumber 1],
     Some "c-5000-aaaaaaaa", Some 1,
     mkChainMeta (Some "c-5000-aaaaaaaa") (Some 1),
     Some (Some "c-5000-aaaaaaaa"))
  /\ view hostReadFails
     = ([SetSessionId "session-a"; SetCapturedAtMs 1000],
        None, None, mkChainMeta None None, None)
  /\ view hostWriteFails
     = ([SetSessionId "session-a"; SetCapturedAtMs 1000;
         SetChainId "c-5000-aaaaaaaa"; SetTurnNumber 1],
        Some "c-5000-aaaaaaaa", Some 1, mkChainMeta None None, None).
Proof. vm_compute. repeat split. Qed.

End CorrelatorChecks.

(** ** The aggregation on concrete record sets *)

Module AggregationChecks.
Import JS Model Aggregation AggregationExamples AggregationFacts SortUnique
  AggregationPermutation.



(** The example of the specification: a record with a document and a
    record with an image for one model, a third record for another. *)
Example three_records_summary :
  let stats :=
    buildDashboardStats
      [flagged true false (aggRecord "model-a" "file_only" "h1" 100 1000);
       flagged false true (aggRecord "model-a" "image_only" "h2" 120 2000);
       aggRecord "model-b" "text_only" "h3" 80 1500] in
  total_completions (summary stats) = 3
  /\ distinct_models (summary stats) = 2
  /\ last_completion_at_ms (summary stats) = Some 2000
  /\ option_map Qred (document_attached_requests_pct (summary stats)) = Some (Qred (3333 # 100))
  /\ option_map Qred (image_attached_requests_pct (summary stats)) = Some (Qred (3333 # 100))
  /\ map (fun m => (mr_model m, mr_completions m,
                    option_map Qred (mr_doc_request_pct m),
                    option_map Qred (mr_image_request_pct m)))
       (models stats)
     = [("model-a", 2, Some 50%Q, Some 50%Q); ("model-b", 1, Some 0%Q, Some 0%Q)].
Proof. cbv zeta. repeat split. Qed.

(** The nine breakdowns of two records of one model. *)
Example two_records_bucket_counts :
  sumCounts
    (bd_input_mode
       (breakdowns (buildScenarioComparisons compareCodeUnits [recText; recFile; recB] None)))
  = 2
  /\ selected_model (buildScenarioComparisons compareCodeUnits [recText; recFile; recB] None)
     = Some "model-a".
Proof. split; vm_compute; reflexivity. Qed.

(** The same prompt under two input modes appears in the table. *)
Example same_prompt_two_modes :
  map (fun row => (prompt_hash_prefix row, requests row, scenario_count row, scenarios row))
    (prompt_hash_controls
       (comparisons
          (buildScenarioComparisons compareCodeUnits
             [recText; recFile; recB;
              aggRecord "model-a" "text_only" "0123456789abcdef" 90 1100;
              aggRecord "model-a" "text+image" "0123456789abcdef" 80 1200;
              aggRecord "model-a" "file_only" "0123456789abcdef" 70 1300] None)))
  = [("0123456789ab", 3, 3, "file_only, text+image, text_only");
     ("same-hash", 2, 2, "file_only, text_only")].
Proof. vm_compute. reflexivity. Qed.

End AggregationChecks.

(** ** Strings *)

Module StringFacts.
Import JS.

Lemma str_app_cons c (a b : string) : String c a ++ b = String c (a ++ b).
Proof. reflexivity. Qed.

Lemma str_app_nil_l (b : string) : "" ++ b = b.
Proof. reflexivity. Qed.

Lemma str_app_nil_r (a : string) : a ++ "" = a.
Proof.
  induction a as [|x a IH]; [reflexivity|].
  rewrite str_app_cons. f_equal. exact IH.
Qed.

Lemma str_app_assoc (a b c : string) : (a ++ b) ++ c = a ++ (b ++ c).
Proof.
  induction a as [|x a IH]; [reflexivity|].
  rewrite !str_app_cons. f_equal. exact IH.
Qed.

Lemma str_length_app (a b : string) :
  String.length (a ++ b) = (String.length a + String.length b)%nat.
Proof.
  induction a as [|c a IH]; [reflexivity|].
  rewrite str_app_cons. simpl. rewrite IH. reflexivity.
Qed.

Lemma strlen_app a b : strlen (a ++ b) = strlen a + strlen b.
Proof. unfold strlen. rewrite str_length_app. lia. Qed.

Lemma str_app_inv_tail (a b c : string) : a ++ c = b ++ c -> a = b.
Proof.
  revert b. induction a as [|x a IH]; intros [|y b] H.
  - reflexivity.
  - exfalso. apply (f_equal String.length) in H.
    rewrite str_app_nil_l, str_app_cons in H. simpl in H. rewrite str_length_app in H. lia.
  - exfalso. apply (f_equal String.length) in H.
    rewrite str_app_nil_l, str_app_cons in H. simpl in H. rewrite str_length_app in H. lia.
  - rewrite !str_app_cons in H. injection H as -> H. f_equal. apply IH, H.
Qed.

Lemma sliceFrom_app (a b : string) : sliceFrom (String.length a) (a ++ b) = b.
Proof.
  induction a as [|c a IH]; [destruct b; reflexivity|].
  rewrite str_app_cons. simpl. exact IH.
Qed.

Lemma sliceFrom_split n : forall s,
  (n <= String.length s)%nat ->
  exists a, s = a ++ sliceFrom n s /\ String.length a = n.
Proof.
  induction n as [|n IH]; intros s H.
  - exists "". split; [destruct s; reflexivity | reflexivity].
  - destruct s as [|c s]; [simpl in H; lia|].
    destruct (IH s) as (a & Ha & Hl); [simpl in H; lia|].
    exists (String c a). simpl sliceFrom. rewrite str_app_cons, <- Ha. simpl. auto.
Qed.

Lemma slice0_nonpos n s : n <= 0 -> slice0 n s = "".
Proof.
  intros H. destruct s; simpl; [reflexivity|].
  destruct (Z.leb_spec n 0); [reflexivity | lia].
Qed.

Lemma slice0_all n s : strlen s <= n -> slice0 n s = s.
Proof.
  revert n. induction s as [|c s IH]; intros n H; simpl; [reflexivity|].
  unfold strlen in H. simpl String.length in H.
  destruct (Z.leb_spec n 0); [lia|].
  f_equal. apply IH. unfold strlen. lia.
Qed.

Lemma slice0_app n a b :
  slice0 n (a ++ b) = slice0 n a ++ slice0 (n - strlen a) b.
Proof.
  revert n. induction a as [|c a IH]; intros n.
  - rewrite !str_app_nil_l. simpl. f_equal. unfold strlen. simpl. lia.
  - rewrite str_app_cons. simpl. destruct (Z.leb_spec n 0).
    + rewrite str_app_nil_l. symmetry. apply slice0_nonpos.
      unfold strlen. simpl String.length. lia.
    + rewrite str_app_cons, IH. do 3 f_equal. unfold strlen. simpl String.length. lia.
Qed.

Lemma slice0_full n x : 0 <= n <= strlen x -> strlen (slice0 n x) = n.
Proof.
  revert n. induction x as [|c x IH]; intros n H.
  - unfold strlen in *. simpl in *. lia.
  - simpl. destruct (Z.leb_spec n 0); [unfold strlen in *; simpl; lia|].
    unfold strlen in *. simpl String.length in *.
    specialize (IH (n - 1)). lia.
Qed.

End StringFacts.

Module StreamFacts.
Import JS Model Parser StreamView StringFacts.

(** *** Lines of a text delivered in two pieces *)

Lemma oneLine_empty : oneLine "".
Proof. intros c []. Qed.

Lemma oneLine_cons c s : c <> "010"%char -> oneLine s -> oneLine (String c s).
Proof. intros Hc Hs x [<-|Hx]; [exact Hc | apply Hs, Hx]. Qed.

Lemma oneLine_inv c s : oneLine (String c s) -> c <> "010"%char /\ oneLine s.
Proof.
  intros H. split; [apply H; left; reflexivity|].
  intros x Hx. apply H. right. exact Hx.
Qed.

Lemma oneLine_app a b : oneLine a -> oneLine b -> oneLine (a ++ b).
Proof.
  induction a as [|c a IH]; intros Ha Hb; [exact Hb|].
  rewrite str_app_cons.
  apply oneLine_inv in Ha. destruct Ha as [Hc Ha]. apply oneLine_cons; auto.
Qed.

Lemma splitLines_app x : forall cur y,
  splitLines cur (x ++ y) =
  (fst (splitLines cur x) ++ fst (splitLines (snd (splitLines cur x)) y),
   snd (splitLines (snd (splitLines cur x)) y))%list.
Proof.
  induction x as [|c x IH]; intros cur y; [rewrite str_app_nil_l | rewrite str_app_cons]; simpl.
  - destruct (splitLines cur y); reflexivity.
  - destruct (Ascii.eqb c "010"%char).
    + rewrite IH. destruct (splitLines "" x) as [l1 r1]. simpl.
      destruct (splitLines r1 y); reflexivity.
    + apply IH.
Qed.

Lemma splitLines_oneLine r : forall cur y,
  oneLine r -> splitLines cur (r ++ y) = splitLines (cur ++ r) y.
Proof.
  induction r as [|c r IH]; intros cur y Hr.
  - rewrite str_app_nil_r. reflexivity.
  - rewrite str_app_cons. simpl.
    apply oneLine_inv in Hr. destruct Hr as [Hc Hr].
    destruct (Ascii.eqb_spec c "010"%char) as [->|_]; [congruence|].
    rewrite IH by exact Hr. rewrite str_app_assoc. reflexivity.
Qed.

Lemma splitLines_rest_oneLine x : forall cur,
  oneLine cur -> oneLine (snd (splitLines cur x)).
Proof.
  induction x as [|c x IH]; intros cur Hcur; simpl; [exact Hcur|].
  destruct (Ascii.eqb_spec c "010"%char) as [->|Hc].
  - specialize (IH "" oneLine_empty). destruct (splitLines "" x). exact IH.
  - apply IH. apply oneLine_app; [exact Hcur|].
    apply oneLine_cons; [exact Hc | exact oneLine_empty].
Qed.

(** The lines of [buffer ++ a ++ b] are the lines of [buffer ++ a]
    followed by the lines of the rest with [b]. *)
Lemma splitLines_two_reads buffer a b :
  splitLines "" (buffer ++ a ++ b) =
  (fst (splitLines "" (buffer ++ a))
     ++ fst (splitLines "" (snd (splitLines "" (buffer ++ a)) ++ b)),
   snd (splitLines "" (snd (splitLines "" (buffer ++ a)) ++ b)))%list.
Proof.
  rewrite <- str_app_assoc, splitLines_app.
  rewrite (splitLines_oneLine (snd (splitLines "" (buffer ++ a))) "" b)
    by (apply splitLines_rest_oneLine, oneLine_empty).
  reflexivity.
Qed.

Lemma splitLines_line l : forall cur rest,
  oneLine l ->
  splitLines cur (l ++ String "010"%char rest)
  = ((cur ++ l) :: fst (splitLines "" rest), snd (splitLines "" rest)).
Proof.
  intros cur rest Hl. rewrite splitLines_oneLine by exact Hl. simpl.
  destruct (splitLines "" rest); reflexivity.
Qed.

Lemma splitLines_unlines ls :
  Forall oneLine ls -> splitLines "" (unlines ls) = (ls, "").
Proof.
  induction 1 as [|l ls Hl _ IH]; simpl; [reflexivity|].
  rewrite splitLines_line by exact Hl. rewrite IH. reflexivity.
Qed.

Section Facts.
Variable JSON_parse : string -> option Chunk.
Variable clock : nat -> Z.
Variable location_origin : string.
Variable round3 : Q -> Q.
Variable max0minus : jsval -> jsval -> jsval.

Abbreviation processLine := (Parser.processLine JSON_parse clock).
Abbreviation processLines := (Parser.processLines JSON_parse clock).
Abbreviation readLoop := (Parser.readLoop JSON_parse clock).
Abbreviation emitRecord := (Parser.emitRecord clock location_origin round3 max0minus).
Abbreviation buildRecord := (Parser.buildRecord clock location_origin round3 max0minus).
Abbreviation parseSse :=
  (Parser.parseSseCloneAndEmitRecord JSON_parse clock location_origin round3 max0minus).
Abbreviation arrive := (Parser.arrive clock).
Abbreviation chunkOfLine := (Parser.chunkOfLine JSON_parse).
Abbreviation lateFallback := (Parser.lateFallback clock).

Abbreviation readLoop_Data := (ParserFacts.readLoop_Data JSON_parse clock).
Abbreviation processLine_cases := (ParserFacts.processLine_cases JSON_parse clock).
Abbreviation processLines_app := (ParserFacts.processLines_app JSON_parse clock).
Abbreviation processLines_continue := (ParserFacts.processLines_continue JSON_parse clock).
Abbreviation stopChunk_arrive := (ParserFacts.stopChunk_arrive clock).

(** *** Fields that a line leaves alone *)

Lemma first_processLine st l :
  firstStreamChunkAtMs (fst (processLine st l)) = firstStreamChunkAtMs st.
Proof.
  destruct (processLine_cases st l) as [E|[[_ E]|(chunk & _ & E)]]; rewrite E.
  - reflexivity.
  - destruct (stopChunk (setSawDone st)); [reflexivity|].
    destruct (lastTimedChunk (setSawDone st)); reflexivity.
  - destruct (chunkFinishReason chunk); try reflexivity.
    destruct (Z.ltb 0 (strlen s)); reflexivity.
Qed.

Lemma first_processLines ls : forall st,
  firstStreamChunkAtMs (fst (processLines st ls)) = firstStreamChunkAtMs st.
Proof.
  induction ls as [|l ls IH]; intros st; simpl; [reflexivity|].
  pose proof (first_processLine st l) as H.
  destruct (Parser.processLine _ _ st l) as [st1 stop]. simpl in H.
  destruct stop; simpl; [exact H|]. rewrite IH. exact H.
Qed.

Lemma arrive_first st : firstStreamChunkAtMs (arrive st) <> None.
Proof.
  unfold Parser.arrive. destruct (firstStreamChunkAtMs st) eqn:E; [congruence|].
  simpl. discriminate.
Qed.

Lemma arrive_again st : firstStreamChunkAtMs st <> None -> arrive st = st.
Proof. unfold Parser.arrive. destruct (firstStreamChunkAtMs st); congruence. Qed.

Lemma processLine_break st l :
  snd (processLine st l) = true -> stopChunk (fst (processLine st l)) <> None.
Proof.
  destruct (processLine_cases st l) as [E|[[_ E]|(chunk & _ & E)]]; rewrite E.
  - discriminate.
  - destruct (stopChunk (setSawDone st)); [discriminate|].
    destruct (lastTimedChunk (setSawDone st)); simpl; discriminate.
  - destruct (chunkFinishReason chunk); try discriminate.
    destruct (Z.ltb 0 (strlen s)); simpl; discriminate.
Qed.

Lemma processLines_break ls : forall st,
  snd (processLines st ls) = true -> stopChunk (fst (processLines st ls)) <> None.
Proof.
  induction ls as [|l ls IH]; intros st; simpl; [discriminate|].
  pose proof (processLine_break st l) as H.
  destruct (Parser.processLine _ _ st l) as [st1 stop]. simpl in H.
  destruct stop; simpl; [intros _; apply H; reflexivity | apply IH].
Qed.

(** *** Two reads against one *)

Lemma readLoop_merge buffer st a b rest :
  stopChunk st = None ->
  readLoop buffer st (Data a (Data b rest)) = readLoop buffer st (Data (a ++ b) rest).
Proof.
  intros Hs.
  rewrite (readLoop_Data buffer st (a ++ b)), (readLoop_Data buffer st a).
  cbv zeta. rewrite splitLines_two_reads. cbn [fst snd].
  set (l1 := fst (splitLines "" (buffer ++ a))).
  set (r1 := snd (splitLines "" (buffer ++ a))).
  rewrite processLines_app.
  destruct (snd (processLines (arrive st) l1)) eqn:Hb.
  - destruct (stopChunk (fst (processLines (arrive st) l1))) eqn:Hs1; [reflexivity|].
    exfalso. exact (processLines_break l1 (arrive st) Hb Hs1).
  - rewrite (processLines_continue l1 (arrive st)); [| rewrite stopChunk_arrive; exact Hs | exact Hb].
    rewrite (readLoop_Data r1 _ b). cbv zeta.
    rewrite arrive_again; [reflexivity|].
    rewrite first_processLines. apply arrive_first.
Qed.

Lemma readLoop_one_read s : forall buffer st value,
  stopChunk st = None ->
  readLoop buffer st (Data value s)
  = readLoop buffer st (Data (value ++ streamText s) (streamEnd s)).
Proof.
  induction s as [| |b rest IH]; intros buffer st value Hs.
  - simpl streamText. rewrite str_app_nil_r. reflexivity.
  - simpl streamText. rewrite str_app_nil_r. reflexivity.
  - simpl streamText. simpl streamEnd.
    rewrite <- str_app_assoc. rewrite <- IH by exact Hs.
    apply readLoop_merge, Hs.
Qed.

Lemma parseSse_one_read traceId ct s requestMeta timingContext :
  parseSse traceId (mkFetchResponse ct (Some s)) requestMeta timingContext
  = parseSse traceId (mkFetchResponse ct (Some (Data (streamText s) (streamEnd s))))
      requestMeta timingContext.
Proof.
  unfold Parser.parseSseCloneAndEmitRecord. cbn [content_type body].
  destruct (negb _); [reflexivity|].
  destruct s as [| |value rest].
  - reflexivity.
  - reflexivity.
  - rewrite (readLoop_one_read rest "" initial value eq_refl). reflexivity.
Qed.

(** X1: the record depends on the text of the stream and on how it ends,
    not on the reads the text arrives in. *)
Theorem reads_do_not_matter traceId ct s1 s2 requestMeta timingContext :
  streamText s1 = streamText s2 ->
  streamEnd s1 = streamEnd s2 ->
  parseSse traceId (mkFetchResponse ct (Some s1)) requestMeta timingContext
  = parseSse traceId (mkFetchResponse ct (Some s2)) requestMeta timingContext.
Proof.
  intros Ht He.
  rewrite (parseSse_one_read traceId ct s1), (parseSse_one_read traceId ct s2).
  rewrite Ht, He. reflexivity.
Qed.


(** *** Lines the parser does not act on *)

Lemma processLine_irrelevant st l :
  relevant JSON_parse l = false -> processLine st l = (st, false).
Proof.
  unfold relevant. intros H.
  destruct (payload l) as [data|] eqn:Hp;
    [|apply (ParserFacts.processLine_payload_None JSON_parse clock), Hp].
  apply orb_false_iff in H. destruct H as [Hd Hc].
  rewrite (ParserFacts.processLine_payload_Some JSON_parse clock st l data Hp), Hd.
  unfold Parser.chunkOfLine in Hc. rewrite Hp, Hd in Hc.
  destruct (JSON_parse data) as [chunk|]; [|reflexivity].
  destruct (object chunk) as [o|]; [|reflexivity].
  destruct (String.eqb o "chat.completion.chunk"); [discriminate | reflexivity].
Qed.

Lemma processLines_relevant ls : forall st,
  processLines st (List.filter (relevant JSON_parse) ls) = processLines st ls.
Proof.
  induction ls as [|l ls IH]; intros st; simpl; [reflexivity|].
  destruct (relevant JSON_parse l) eqn:Hr.
  - simpl. destruct (Parser.processLine _ _ st l) as [st1 stop].
    destruct stop; [reflexivity | apply IH].
  - rewrite (processLine_irrelevant st l Hr). apply IH.
Qed.

(** X2: lines that are neither the sentinel nor a completion chunk
    (comments, other fields, blank lines, other JSON) can be added or
    removed without changing the record. *)
Theorem other_lines_do_not_matter traceId ct ls ls' rest requestMeta timingContext :
  Forall oneLine ls -> Forall oneLine ls' ->
  List.filter (relevant JSON_parse) ls = List.filter (relevant JSON_parse) ls' ->
  parseSse traceId (mkFetchResponse ct (Some (Data (unlines ls) rest))) requestMeta timingContext
  = parseSse traceId (mkFetchResponse ct (Some (Data (unlines ls') rest)))
      requestMeta timingContext.
Proof.
  intros Hl Hl' Hf.
  unfold Parser.parseSseCloneAndEmitRecord. cbn [content_type body].
  destruct (negb _); [reflexivity|].
  rewrite !readLoop_Data. cbv zeta. rewrite !str_app_nil_l.
  rewrite (splitLines_unlines ls Hl), (splitLines_unlines ls' Hl'). cbn [fst snd].
  rewrite <- (processLines_relevant ls), <- (processLines_relevant ls'), Hf.
  reflexivity.
Qed.

(** *** What the state has gathered from the chunks absorbed *)

Lemma gathered_nil st : gathered [] st st.
Proof. repeat split. Qed.

Lemma gathered_app cs ds st0 st1 st2 :
  gathered cs st0 st1 -> gathered ds st1 st2 -> gathered (cs ++ ds) st0 st2.
Proof.
  unfold gathered. intros (A & B & C & D) (A' & B' & C' & D').
  rewrite !map_app, !fold_left_app, <- A, <- B, <- C, <- D. repeat split; assumption.
Qed.

Lemma chunksOfLines_app P Q :
  chunksOfLines JSON_parse (P ++ Q)
  = (chunksOfLines JSON_parse P ++ chunksOfLines JSON_parse Q)%list.
Proof.
  induction P as [|l P IH]; simpl; [reflexivity|].
  destruct (Parser.chunkOfLine JSON_parse l); simpl; rewrite IH; reflexivity.
Qed.

Lemma gathered_absorb chunk st : gathered [chunk] st (absorbChunk chunk st).
Proof. repeat split. Qed.

Lemma gathered_line st l :
  gathered (chunksOfLines JSON_parse [l]) st (fst (processLine st l)).
Proof.
  simpl. unfold Parser.chunkOfLine.
  destruct (payload l) as [data|] eqn:Hp.
  - rewrite (ParserFacts.processLine_payload_Some JSON_parse clock st l data Hp).
    destruct (String.eqb data "[DONE]").
    + destruct (stopChunk (setSawDone st)); [repeat split|].
      destruct (lastTimedChunk (setSawDone st)); repeat split.
    + destruct (JSON_parse data) as [chunk|]; [|apply gathered_nil].
      destruct (object chunk) as [o|]; [|apply gathered_nil].
      destruct (String.eqb o "chat.completion.chunk"); [|apply gathered_nil].
      destruct (chunkFinishReason chunk); try apply gathered_absorb.
      destruct (Z.ltb 0 (strlen s)); apply gathered_absorb.
  - rewrite (ParserFacts.processLine_payload_None JSON_parse clock st l Hp).
    apply gathered_nil.
Qed.

(** The loop breaks exactly at a boundary line; a line that is not one
    leaves the boundary open and records whether it carried timings. *)
Lemma boundary_step st l :
  stopChunk st = None ->
  snd (processLine st l) = boundaryLine JSON_parse (timedOf st) l
  /\ (snd (processLine st l) = false ->
      timedOf (fst (processLine st l)) = (timedOf st || lineHasTimings JSON_parse l)%bool).
Proof.
  intros Hs. unfold boundaryLine, lineHasTimings, Parser.chunkOfLine, timedOf.
  destruct (payload l) as [data|] eqn:Hp.
  - rewrite (ParserFacts.processLine_payload_Some JSON_parse clock st l data Hp).
    destruct (String.eqb data "[DONE]").
    + change (stopChunk (setSawDone st)) with (stopChunk st).
      change (lastTimedChunk (setSawDone st)) with (lastTimedChunk st). rewrite Hs.
      destruct (lastTimedChunk st) eqn:El; cbn [fst snd]; split; try reflexivity;
        try discriminate.
      intros _. change (lastTimedChunk (setSawDone st)) with (lastTimedChunk st).
      rewrite El. reflexivity.
    + destruct (JSON_parse data) as [chunk|];
        [|cbn [fst snd]; split; [reflexivity | intros _; rewrite orb_false_r; reflexivity]].
      destruct (object chunk) as [o|];
        [|cbn [fst snd]; split; [reflexivity | intros _; rewrite orb_false_r; reflexivity]].
      destruct (String.eqb o "chat.completion.chunk");
        [|cbn [fst snd]; split; [reflexivity | intros _; rewrite orb_false_r; reflexivity]].
      assert (Ht : match lastTimedChunk (absorbChunk chunk st) with
                   | Some _ => true | None => false end
                   = ((match lastTimedChunk st with Some _ => true | None => false end)
                      || match timings chunk with Some _ => true | None => false end)%bool).
      { cbn [absorbChunk lastTimedChunk]. destruct (timings chunk);
          [rewrite orb_true_r | rewrite orb_false_r]; reflexivity. }
      destruct (chunkFinishReason chunk); cbn [fst snd];
        try (split; [reflexivity | intros _; exact Ht]).
      destruct (Z.ltb 0 (strlen s)); cbn [fst snd];
        (split; [reflexivity | try discriminate; intros _; exact Ht]).
  - rewrite (ParserFacts.processLine_payload_None JSON_parse clock st l Hp).
    cbn [fst snd]. split; [reflexivity | intros _; rewrite orb_false_r; reflexivity].
Qed.

(** The lines of one read, followed by [more]: what the loop gathers,
    and where the reading of the lines goes on. *)
Lemma gathered_lines ls : forall st more,
  stopChunk st = None ->
  exists P,
    gathered (chunksOfLines JSON_parse P) st (fst (processLines st ls))
    /\ linesRead JSON_parse (timedOf st) (ls ++ more)
       = if snd (processLines st ls) then P
         else (P ++ linesRead JSON_parse (timedOf (fst (processLines st ls))) more)%list.
Proof.
  induction ls as [|l ls IH]; intros st more Hs.
  - exists []. split; [apply gathered_nil | reflexivity].
  - cbn [processLines Parser.processLines app linesRead].
    pose proof (gathered_line st l) as Hl.
    destruct (boundary_step st l Hs) as [Hb Ht].
    pose proof (ParserFacts.processLine_continue JSON_parse clock st l Hs) as Hc.
    destruct (Parser.processLine _ _ st l) as [st1 stop]. cbn [fst snd] in *.
    rewrite <- Hb. destruct stop.
    + exists [l]. split; [exact Hl | reflexivity].
    + rewrite <- (Ht eq_refl).
      destruct (IH st1 more (Hc eq_refl)) as (P & Hg & Hr).
      exists (l :: P). split.
      * change (l :: P) with ([l] ++ P)%list. rewrite chunksOfLines_app.
        eapply gathered_app; eassumption.
      * rewrite Hr. destruct (snd (processLines st1 ls)); reflexivity.
Qed.

Lemma gathered_arrive st : gathered [] st (arrive st).
Proof. unfold Parser.arrive. destruct (firstStreamChunkAtMs st); repeat split. Qed.

Lemma timedOf_arrive st : timedOf (arrive st) = timedOf st.
Proof. unfold Parser.arrive, timedOf. destruct (firstStreamChunkAtMs st); reflexivity. Qed.

Lemma gathered_readLoop s : forall buffer st st',
  stopChunk st = None ->
  readLoop buffer st s = Some st' ->
  gathered
    (chunksOfLines JSON_parse (linesRead JSON_parse (timedOf st) (streamLines buffer s)))
    st st'.
Proof.
  induction s as [| |value rest IH]; intros buffer st st' Hs Hr.
  - injection Hr as <-. apply gathered_nil.
  - discriminate.
  - rewrite readLoop_Data in Hr. cbv zeta in Hr.
    rewrite (ParserFacts.streamLines_Data buffer value rest).
    set (l1 := fst (splitLines "" (buffer ++ value))) in *.
    set (r1 := snd (splitLines "" (buffer ++ value))) in *.
    assert (Hs1 : stopChunk (arrive st) = None) by (rewrite stopChunk_arrive; exact Hs).
    destruct (gathered_lines l1 (arrive st) (streamLines r1 rest) Hs1) as (P & Hg & Hl).
    rewrite timedOf_arrive in Hl. rewrite Hl.
    assert (Hg' : gathered (chunksOfLines JSON_parse P) st
                    (fst (processLines (arrive st) l1))).
    { change (chunksOfLines JSON_parse P) with ([] ++ chunksOfLines JSON_parse P)%list.
      eapply gathered_app; [apply gathered_arrive | exact Hg]. }
    destruct (stopChunk (fst (processLines (arrive st) l1))) eqn:Hstop.
    + injection Hr as <-.
      destruct (snd (processLines (arrive st) l1)) eqn:Hb; [exact Hg'|].
      rewrite (processLines_continue l1 (arrive st) Hs1 Hb) in Hstop. discriminate Hstop.
    + destruct (snd (processLines (arrive st) l1)) eqn:Hb.
      * exfalso. exact (processLines_break l1 (arrive st) Hb Hstop).
      * rewrite chunksOfLines_app. eapply gathered_app; [exact Hg'|].
        apply (IH r1 _ st' Hstop Hr).
Qed.

Lemma gathered_lateFallback st : gathered [] st (lateFallback st).
Proof.
  unfold Parser.lateFallback.
  destruct (stopChunk st), (lastTimingsAtStop st), (lastTimedChunk st), (sawDoneMarker st);
    repeat split.
Qed.

(** What the state of an emitted record has gathered, and from which
    lines. *)
Lemma parseSse_gathered traceId response requestMeta timingContext r stream :
  parseSse traceId response requestMeta timingContext = Some r ->
  body response = Some stream ->
  exists st,
    gathered
      (chunksOfLines JSON_parse (linesRead JSON_parse false (streamLines "" stream)))
      initial st
    /\ responseText r = st_responseText st
    /\ ReasoningText r
       = (if Z.ltb 0 (strlen (st_reasoningText st)) then Some (st_reasoningText st) else None)
    /\ (forall rs, resp r = Some rs ->
          resp_id rs = completionId st /\ resp_model rs = completionModel st).
Proof.
  unfold Parser.parseSseCloneAndEmitRecord. intros H Hb. rewrite Hb in H.
  destruct (negb _); [discriminate|].
  destruct (Parser.readLoop _ _ "" initial stream) as [st0|] eqn:Hloop; [|discriminate].
  pose proof (gathered_readLoop stream "" initial st0 eq_refl Hloop) as Hg.
  change (timedOf initial) with false in Hg.
  exists (lateFallback st0). split.
  { rewrite <- (app_nil_r (chunksOfLines JSON_parse _)).
    eapply gathered_app; [exact Hg | apply gathered_lateFallback]. }
  unfold Parser.emitRecord in H.
  destruct (stopChunk (lateFallback st0)); [|discriminate].
  destruct (lastTimingsAtStop (lateFallback st0)) as [t|]; [|discriminate].
  injection H as <-. unfold Parser.buildRecord.
  destruct (stopChunkAtMs (lateFallback st0)); cbn; (split; [reflexivity|]);
    (split; [reflexivity|]); intros rs Hrs; injection Hrs as <-; split; reflexivity.
Qed.

(** *** The text kept under the budget *)

Lemma slice0_length_le n s : 0 <= n -> strlen (slice0 n s) <= n.
Proof.
  intros Hn. pose proof (AggregationFacts.slice0_length n s). lia.
Qed.

Lemma appendCapped_slice x p :
  appendCapped (slice0 MAX_CAPTURED_TEXT_CHARS x) p
  = slice0 MAX_CAPTURED_TEXT_CHARS (match p with Some y => x ++ y | None => x end).
Proof.
  unfold appendCapped. destruct p as [y|]; [|reflexivity].
  set (M := MAX_CAPTURED_TEXT_CHARS).
  assert (HM : 0 <= M) by (unfold M, MAX_CAPTURED_TEXT_CHARS; lia).
  rewrite slice0_app.
  destruct (Z.le_gt_cases M (strlen x)) as [Hge|Hlt].
  - (* the budget is used up *)
    rewrite (slice0_nonpos (M - strlen x) y) by lia. rewrite str_app_nil_r.
    rewrite (slice0_full M x) by lia. rewrite Z.ltb_irrefl. reflexivity.
  - rewrite (slice0_all M x) by lia.
    destruct (Z.ltb_spec (strlen x) M); [|lia].
    destruct (Z.ltb_spec 0 (M - strlen x)); [reflexivity | lia].
Qed.

Lemma fold_appendCapped pieces : forall x,
  fold_left appendCapped pieces (slice0 MAX_CAPTURED_TEXT_CHARS x)
  = slice0 MAX_CAPTURED_TEXT_CHARS
      (fold_left (fun t p => match p with Some y => t ++ y | None => t end) pieces x).
Proof.
  induction pieces as [|p pieces IH]; intros x; simpl; [reflexivity|].
  rewrite appendCapped_slice. apply IH.
Qed.

Lemma fold_appendCapped_empty pieces :
  fold_left appendCapped pieces "" = cappedText pieces.
Proof. exact (fold_appendCapped pieces ""). Qed.

(** X3: the captured texts are the first 200000 characters of the
    content deltas, and of the reasoning deltas, of the completion chunks
    on the lines read up to the boundary; a record without reasoning text
    has [ReasoningText] null. *)
Theorem captured_text traceId response requestMeta timingContext r stream :
  parseSse traceId response requestMeta timingContext = Some r ->
  body response = Some stream ->
  let chunks :=
    chunksOfLines JSON_parse (linesRead JSON_parse false (streamLines "" stream)) in
  responseText r = cappedText (map contentOf chunks)
  /\ ReasoningText r
     = (let t := cappedText (map reasoningOf chunks) in
        if String.eqb t "" then None else Some t)
  /\ strlen (responseText r) <= MAX_CAPTURED_TEXT_CHARS
  /\ (forall t, ReasoningText r = Some t -> strlen t <= MAX_CAPTURED_TEXT_CHARS).
Proof.
  intros H Hb chunks.
  destruct (parseSse_gathered traceId response requestMeta timingContext r stream H Hb)
    as (st & (Ht & Hr & _ & _) & Hresp & Hreas & _).
  fold chunks in Ht, Hr.
  change (st_responseText initial) with "" in Ht.
  change (st_reasoningText initial) with "" in Hr.
  rewrite fold_appendCapped_empty in Ht, Hr.
  assert (HM : 0 <= MAX_CAPTURED_TEXT_CHARS) by (unfold MAX_CAPTURED_TEXT_CHARS; lia).
  assert (Hreas' : ReasoningText r
       = (let t := cappedText (map reasoningOf chunks) in
          if String.eqb t "" then None else Some t)).
  { rewrite Hreas, Hr. cbv zeta.
    destruct (cappedText (map reasoningOf chunks)) as [|c t]; reflexivity. }
  split; [rewrite Hresp; exact Ht|].
  split; [exact Hreas'|]. split.
  - rewrite Hresp, Ht. apply slice0_length_le, HM.
  - intros t Ht'. rewrite Hreas' in Ht'. cbv zeta in Ht'.
    destruct (String.eqb _ ""); [discriminate|]. injection Ht' as <-.
    apply slice0_length_le, HM.
Qed.

(** X4: the id and the model of the record are those of the first chunk
    that carries a non-empty one, among the completion chunks on the
    lines read up to the boundary. *)
Theorem first_identifiers_win traceId response requestMeta timingContext r stream rs :
  parseSse traceId response requestMeta timingContext = Some r ->
  body response = Some stream ->
  resp r = Some rs ->
  let chunks :=
    chunksOfLines JSON_parse (linesRead JSON_parse false (streamLines "" stream)) in
  resp_id rs = firstTruthy (map id chunks)
  /\ resp_model rs = firstTruthy (map model chunks).
Proof.
  intros H Hb Hrs chunks.
  destruct (parseSse_gathered traceId response requestMeta timingContext r stream H Hb)
    as (st & (_ & _ & Hi & Hm) & _ & _ & Hresp).
  destruct (Hresp rs Hrs) as [-> ->].
  split; [exact Hi | exact Hm].
Qed.

End Facts.
End StreamFacts.

(** ** The completion boundary and what the record takes from it *)

Module BoundaryFacts.
Import JS Model Parser StreamView StringFacts ParserFacts StreamFacts.

(** *** The last element that passes a test *)

Lemma lastWhere_app {A} (p : A -> bool) l m :
  lastWhere p (l ++ m)
  = match lastWhere p m with
    | Some x => Some x
    | None => lastWhere p l
    end.
Proof.
  unfold lastWhere. rewrite rev_app_distr.
  induction (rev m) as [|x r IH]; simpl; [reflexivity|].
  destruct (p x); [reflexivity | exact IH].
Qed.

Lemma lastWhere_one {A} (p : A -> bool) x :
  lastWhere p [x] = if p x then Some x else None.
Proof. reflexivity. Qed.

Lemma lastWhere_passes {A} (p : A -> bool) l x :
  lastWhere p l = Some x -> In x l /\ p x = true.
Proof.
  unfold lastWhere. intros H. apply find_some in H. destruct H as [Hin Hp].
  split; [apply in_rev, Hin | exact Hp].
Qed.

(** The last element that passes is followed by elements that fail. *)
Lemma lastWhere_split {A} (p : A -> bool) l x :
  lastWhere p l = Some x <->
  exists pre post, l = (pre ++ x :: post)%list /\ p x = true /\ forallb (fun y => negb (p y)) post = true.
Proof.
  split.
  - induction l as [|y l IH] using rev_ind; [discriminate|].
    rewrite lastWhere_app, lastWhere_one.
    destruct (p y) eqn:Ey.
    + intros H. injection H as <-. exists l, []. auto.
    + intros H. destruct (IH H) as (pre & post & -> & Hp & Hpost).
      exists pre, (post ++ [y])%list. rewrite <- app_assoc. split; [reflexivity|].
      split; [exact Hp|]. rewrite forallb_app, Hpost. simpl. rewrite Ey. reflexivity.
  - intros (pre & post & -> & Hp & Hpost).
    change (x :: post) with ([x] ++ post)%list. rewrite !lastWhere_app, lastWhere_one, Hp.
    replace (lastWhere p post) with (@None A); [reflexivity|].
    symmetry. clear -Hpost. induction post as [|y post IH] using rev_ind; [reflexivity|].
    rewrite forallb_app in Hpost. apply andb_prop in Hpost. destruct Hpost as [H1 H2].
    simpl in H2. rewrite lastWhere_app, lastWhere_one.
    destruct (p y); [discriminate H2 | apply IH, H1].
Qed.

Section Facts.
Variable JSON_parse : string -> option Chunk.
Variable clock : nat -> Z.
Variable location_origin : string.
Variable round3 : Q -> Q.
Variable max0minus : jsval -> jsval -> jsval.

Abbreviation processLine := (Parser.processLine JSON_parse clock).
Abbreviation processLines := (Parser.processLines JSON_parse clock).
Abbreviation readLoop := (Parser.readLoop JSON_parse clock).
Abbreviation emitRecord := (Parser.emitRecord clock location_origin round3 max0minus).
Abbreviation buildRecord := (Parser.buildRecord clock location_origin round3 max0minus).
Abbreviation parseSse :=
  (Parser.parseSseCloneAndEmitRecord JSON_parse clock location_origin round3 max0minus).
Abbreviation arrive := (Parser.arrive clock).
Abbreviation chunkOfLine := (Parser.chunkOfLine JSON_parse).
Abbreviation lateFallback := (Parser.lateFallback clock).
Abbreviation chunksOfLines := (StreamView.chunksOfLines JSON_parse).
Abbreviation linesRead := (StreamView.linesRead JSON_parse).
Abbreviation breaks := (StreamView.breaks JSON_parse).
Abbreviation tracked := (StreamView.tracked JSON_parse).
Abbreviation noTerminal := (StreamView.noTerminal JSON_parse).
Abbreviation brokeAt := (StreamView.brokeAt JSON_parse).
Abbreviation ranOut := (StreamView.ranOut JSON_parse).
Abbreviation degradedTerminal := (StreamView.degradedTerminal JSON_parse).
Abbreviation terminalOf := (StreamView.terminalOf JSON_parse).
Abbreviation chunksOfLines_app := (StreamFacts.chunksOfLines_app JSON_parse).

(** *** What the state keeps track of *)

Lemma tracked_nil st : tracked [] st st.
Proof.
  unfold StreamView.tracked. simpl. rewrite orb_false_r. repeat split.
Qed.

Lemma tracked_app P Q st0 st1 st2 :
  tracked P st0 st1 -> tracked Q st1 st2 -> tracked (P ++ Q) st0 st2.
Proof.
  unfold StreamView.tracked. intros (A & B & C) (A' & B' & C').
  rewrite chunksOfLines_app, !lastWhere_app, existsb_app, A', B', C', A, B, C.
  split; [|split].
  - destruct (lastWhere hasTimings (chunksOfLines Q)); reflexivity.
  - destruct (lastWhere reasoningTimed (chunksOfLines Q)); reflexivity.
  - rewrite orb_assoc. reflexivity.
Qed.

Lemma chunkOfLine_payload l c :
  chunkOfLine l = Some c -> exists data, payload l = Some data /\ String.eqb data "[DONE]" = false.
Proof.
  unfold Parser.chunkOfLine. destruct (payload l) as [data|]; [|discriminate].
  destruct (String.eqb data "[DONE]") eqn:E; [discriminate|].
  intros _. exists data. split; [reflexivity | exact E].
Qed.

Lemma chunkOfLine_not_sentinel l c : chunkOfLine l = Some c -> isSentinel l = false.
Proof.
  intros H. destruct (chunkOfLine_payload l c H) as (data & Hp & Hd).
  unfold isSentinel. rewrite Hp. exact Hd.
Qed.

Lemma sentinel_no_chunk l : isSentinel l = true -> chunkOfLine l = None.
Proof.
  intros H. destruct (chunkOfLine l) as [c|] eqn:E; [|reflexivity].
  rewrite (chunkOfLine_not_sentinel l c E) in H. discriminate H.
Qed.

Lemma tracked_absorb l chunk st :
  chunkOfLine l = Some chunk -> tracked [l] st (absorbChunk chunk st).
Proof.
  intros Hc. unfold StreamView.tracked. cbn [StreamView.chunksOfLines existsb].
  rewrite Hc, (chunkOfLine_not_sentinel l chunk Hc), !lastWhere_one.
  cbn [absorbChunk lastTimedChunk reasoningBoundary sawDoneMarker].
  unfold hasTimings, reasoningTimed, reasoningOf, boundaryOfChunk.
  rewrite !orb_false_r.
  destruct (choices0 chunk) as [ch|]; [destruct (delta_reasoning_content ch)|];
    destruct (timings chunk) eqn:Et; rewrite ?Et; repeat split.
Qed.

(** One line: what the state keeps track of, and whether and how the
    loop breaks at it. *)
Lemma tracked_line st l :
  stopChunk st = None -> lastTimingsAtStop st = None ->
  tracked [l] st (fst (processLine st l))
  /\ (snd (processLine st l) = true -> brokeAt [l] (fst (processLine st l)))
  /\ (snd (processLine st l) = false -> ranOut [l] (fst (processLine st l))).
Proof.
  intros Hs Ht.
  assert (Hsame : ranOut [] st -> chunkOfLine l = None -> isSentinel l = false ->
                  tracked [l] st st /\ (false = true -> brokeAt [l] st)
                  /\ (false = false -> ranOut [l] st)).
  { intros _ Hc Hn. split; [|split]; [|discriminate|].
    - unfold StreamView.tracked. cbn [StreamView.chunksOfLines existsb]. rewrite Hc, Hn.
      simpl. rewrite orb_false_r. repeat split.
    - intros _. split; [exact Hs|]. split; [exact Ht|].
      intros l0 c [<-|[]] Hc0. rewrite Hc in Hc0. discriminate Hc0. }
  assert (Hr0 : ranOut [] st) by (split; [exact Hs|]; split; [exact Ht|]; intros ? ? []).
  destruct (payload l) as [data|] eqn:Hp.
  - rewrite (processLine_payload_Some JSON_parse clock st l data Hp).
    destruct (String.eqb data "[DONE]") eqn:Hd.
    + assert (Hsen : isSentinel l = true) by (unfold isSentinel; rewrite Hp; exact Hd).
      assert (Hnc : chunkOfLine l = None) by (apply sentinel_no_chunk, Hsen).
      assert (Htr : forall st', lastTimedChunk st' = lastTimedChunk st ->
                      reasoningBoundary st' = reasoningBoundary st ->
                      sawDoneMarker st' = true -> tracked [l] st st').
      { intros st' H1 H2 H3. unfold StreamView.tracked.
        cbn [StreamView.chunksOfLines existsb]. rewrite Hnc, Hsen, H1, H2, H3.
        simpl. rewrite orb_true_r. repeat split. }
      change (stopChunk (setSawDone st)) with (stopChunk st). rewrite Hs.
      change (lastTimedChunk (setSawDone st)) with (lastTimedChunk st).
      destruct (lastTimedChunk st) as [ltc|] eqn:El; cbn [fst snd].
      * split; [apply Htr; try reflexivity; exact El|]. split; [|discriminate].
        intros _. exists [], l. split; [reflexivity|]. split; [intros ? ? []|].
        right. split; [exact Hsen|]. exists ltc. repeat split. exact El.
      * split; [apply Htr; try reflexivity; exact El|]. split; [discriminate|].
        intros _. split; [exact Hs|]. split; [exact Ht|].
        intros l0 c [<-|[]] Hc0. rewrite Hnc in Hc0. discriminate Hc0.
    + assert (Hsen : isSentinel l = false) by (unfold isSentinel; rewrite Hp; exact Hd).
      assert (Hcl : chunkOfLine l
                    = match JSON_parse data with
                      | Some chunk =>
                          match object chunk with
                          | Some o =>
                              if String.eqb o "chat.completion.chunk" then Some chunk else None
                          | None => None
                          end
                      | None => None
                      end).
      { unfold Parser.chunkOfLine. rewrite Hp, Hd. reflexivity. }
      destruct (JSON_parse data) as [chunk|]; [|apply Hsame; auto].
      destruct (object chunk) as [o|]; [|apply Hsame; auto].
      destruct (String.eqb o "chat.completion.chunk"); [|apply Hsame; auto].
      pose proof (tracked_absorb l chunk st Hcl) as Htr.
      assert (Hout : terminalReason chunk = None ->
                     ranOut [l] (absorbChunk chunk st)).
      { intros Hn. split; [exact Hs|]. split; [exact Ht|].
        intros l0 c [<-|[]] Hc0. rewrite Hcl in Hc0. injection Hc0 as <-. exact Hn. }
      unfold terminalReason in Hout.
      destruct (chunkFinishReason chunk) as [| | | |fr| | |] eqn:Hfr; cbn [fst snd];
        try (split; [exact Htr|]; split; [discriminate | intros _; apply Hout; reflexivity]).
      destruct (Z.ltb 0 (strlen fr)) eqn:Hlen; cbn [fst snd].
      * split; [exact Htr|]. split; [|discriminate].
        intros _. exists [], l. split; [reflexivity|]. split; [intros ? ? []|].
        left. exists chunk, fr. split; [exact Hcl|].
        unfold terminalReason. rewrite Hfr, Hlen. repeat split.
      * split; [exact Htr|]. split; [discriminate|]. intros _. apply Hout. reflexivity.
  - rewrite (processLine_payload_None JSON_parse clock st l Hp). cbn [fst snd].
    apply Hsame; [exact Hr0| |].
    + unfold Parser.chunkOfLine. rewrite Hp. reflexivity.
    + unfold isSentinel. rewrite Hp. reflexivity.
Qed.

Lemma noTerminal_app P Q : noTerminal P -> noTerminal Q -> noTerminal (P ++ Q).
Proof.
  intros HP HQ l c Hin. apply in_app_or in Hin. destruct Hin; [apply HP | apply HQ]; assumption.
Qed.

Lemma brokeAt_app P Q st : noTerminal P -> brokeAt Q st -> brokeAt (P ++ Q) st.
Proof.
  intros HP (P0 & l & -> & H0 & H). exists (P ++ P0)%list, l.
  split; [apply app_assoc|]. split; [apply noTerminal_app; assumption | exact H].
Qed.

Lemma ranOut_app P Q st : noTerminal P -> ranOut Q st -> ranOut (P ++ Q) st.
Proof.
  intros HP (H1 & H2 & H3). split; [exact H1|]. split; [exact H2|].
  apply noTerminal_app; assumption.
Qed.

(** The lines of one read, followed by [more]. *)
Lemma tracked_lines ls : forall st more,
  stopChunk st = None -> lastTimingsAtStop st = None ->
  exists P,
    tracked P st (fst (processLines st ls))
    /\ linesRead (timedOf st) (ls ++ more)
       = (if snd (processLines st ls) then P
          else (P ++ linesRead (timedOf (fst (processLines st ls))) more)%list)
    /\ breaks (timedOf st) (ls ++ more)
       = (if snd (processLines st ls) then true
          else breaks (timedOf (fst (processLines st ls))) more)
    /\ (if snd (processLines st ls) then brokeAt P (fst (processLines st ls))
        else ranOut P (fst (processLines st ls)))
    /\ processLines st P = processLines st ls.
Proof.
  induction ls as [|l ls IH]; intros st more Hs Ht.
  - exists []. split; [apply tracked_nil|]. split; [reflexivity|]. split; [reflexivity|].
    split; [|reflexivity]. split; [exact Hs|]. split; [exact Ht|]. intros ? ? [].
  - cbn [Parser.processLines app StreamView.linesRead StreamView.breaks].
    destruct (tracked_line st l Hs Ht) as (Htr & Hbr & Hro).
    destruct (boundary_step JSON_parse clock st l Hs) as [Hb Hti].
    destruct (Parser.processLine JSON_parse clock st l) as [st1 stop] eqn:El.
    cbn [fst snd] in *. rewrite <- Hb. destruct stop.
    + exists [l]. split; [exact Htr|]. split; [reflexivity|]. split; [reflexivity|].
      split; [exact (Hbr eq_refl)|].
      cbn [Parser.processLines]. rewrite El. reflexivity.
    + rewrite <- (Hti eq_refl). cbn [orb].
      destruct (Hro eq_refl) as (Hs1 & Ht1 & Hn1).
      destruct (IH st1 more Hs1 Ht1) as (P & HtrP & Hr & Hbk & Hend & Hproc).
      exists (l :: P). split; [|split; [|split; [|split]]].
      * change (l :: P) with ([l] ++ P)%list. eapply tracked_app; eassumption.
      * rewrite Hr. destruct (snd (processLines st1 ls)); reflexivity.
      * exact Hbk.
      * change (l :: P) with ([l] ++ P)%list.
        destruct (snd (processLines st1 ls));
          [apply brokeAt_app | apply ranOut_app]; assumption.
      * cbn [Parser.processLines]. rewrite El. exact Hproc.
Qed.

Lemma tracked_arrive st : tracked [] st (arrive st).
Proof.
  unfold Parser.arrive, StreamView.tracked.
  destruct (firstStreamChunkAtMs st); simpl; rewrite orb_false_r; repeat split.
Qed.

Lemma lastTimingsAtStop_arrive st : lastTimingsAtStop (arrive st) = lastTimingsAtStop st.
Proof. unfold Parser.arrive. destruct (firstStreamChunkAtMs st); reflexivity. Qed.

Lemma ranOut_stop P st : ranOut P st -> stopChunk st = None.
Proof. intros H. apply H. Qed.

Lemma brokeAt_stop P st : brokeAt P st -> stopChunk st <> None.
Proof.
  intros (P0 & l & _ & _ & [(c & fr & _ & _ & H & _)|(_ & ltc & _ & H & _)]);
    rewrite H; discriminate.
Qed.

(** The read loop: what the final state keeps track of, how the loop
    ended, and the state as the one reached by the lines read taken in
    one piece. *)
Lemma tracked_readLoop s : forall buffer st st',
  stopChunk st = None -> lastTimingsAtStop st = None ->
  readLoop buffer st s = Some st' ->
  tracked (linesRead (timedOf st) (streamLines buffer s)) st st'
  /\ (brokeAt (linesRead (timedOf st) (streamLines buffer s)) st'
      \/ ranOut (linesRead (timedOf st) (streamLines buffer s)) st')
  /\ (firstStreamChunkAtMs st <> None ->
      st' = fst (processLines st (linesRead (timedOf st) (streamLines buffer s)))).
Proof.
  induction s as [| |value rest IH]; intros buffer st st' Hs Ht Hr.
  - injection Hr as <-. split; [apply tracked_nil|]. split; [|reflexivity].
    right. split; [exact Hs|]. split; [exact Ht|]. intros ? ? [].
  - discriminate.
  - rewrite (readLoop_Data JSON_parse clock) in Hr. cbv zeta in Hr.
    rewrite (streamLines_Data buffer value rest).
    set (l1 := fst (splitLines "" (buffer ++ value))) in *.
    set (r1 := snd (splitLines "" (buffer ++ value))) in *.
    assert (Hs1 : stopChunk (arrive st) = None)
      by (rewrite (stopChunk_arrive clock); exact Hs).
    assert (Ht1 : lastTimingsAtStop (arrive st) = None)
      by (rewrite lastTimingsAtStop_arrive; exact Ht).
    destruct (tracked_lines l1 (arrive st) (streamLines r1 rest) Hs1 Ht1)
      as (P & Htr & Hl & _ & Hend & Hproc).
    rewrite (timedOf_arrive clock) in Hl. rewrite Hl.
    assert (Htr' : tracked P st (fst (processLines (arrive st) l1))).
    { change P with ([] ++ P)%list. eapply tracked_app; [apply tracked_arrive | exact Htr]. }
    destruct (snd (processLines (arrive st) l1)) eqn:Hb.
    + pose proof (brokeAt_stop _ _ Hend) as Hne.
      destruct (stopChunk (fst (processLines (arrive st) l1))); [|congruence].
      injection Hr as <-. split; [exact Htr'|]. split; [left; exact Hend|].
      intros Hf. rewrite (arrive_again clock st Hf) in Hproc |- *.
      rewrite Hproc. reflexivity.
    + rewrite (ranOut_stop _ _ Hend) in Hr.
      destruct Hend as (Hs2 & Ht2 & Hn2).
      destruct (IH r1 _ st' Hs2 Ht2 Hr) as (HtrR & HendR & HstR).
      split; [eapply tracked_app; eassumption|]. split.
      * destruct HendR; [left; apply brokeAt_app | right; apply ranOut_app]; assumption.
      * intros Hf. rewrite (arrive_again clock st Hf) in *.
        rewrite (processLines_app JSON_parse clock), Hproc, Hb.
        apply HstR. rewrite (first_processLines JSON_parse clock). exact Hf.
Qed.

(** The read loop ends in the [catch] branch exactly when the stream
    fails before a boundary line has been read. *)
Lemma readLoop_None s : forall buffer st,
  stopChunk st = None -> lastTimingsAtStop st = None ->
  (readLoop buffer st s = None
   <-> streamEnd s = ReadError /\ breaks (timedOf st) (streamLines buffer s) = false).
Proof.
  induction s as [| |value rest IH]; intros buffer st Hs Ht.
  - simpl. split; [discriminate | intros [H _]; discriminate H].
  - simpl. split; auto.
  - rewrite (readLoop_Data JSON_parse clock). cbv zeta.
    rewrite (streamLines_Data buffer value rest). cbn [streamEnd].
    set (l1 := fst (splitLines "" (buffer ++ value))) in *.
    set (r1 := snd (splitLines "" (buffer ++ value))) in *.
    assert (Hs1 : stopChunk (arrive st) = None)
      by (rewrite (stopChunk_arrive clock); exact Hs).
    assert (Ht1 : lastTimingsAtStop (arrive st) = None)
      by (rewrite lastTimingsAtStop_arrive; exact Ht).
    destruct (tracked_lines l1 (arrive st) (streamLines r1 rest) Hs1 Ht1)
      as (P & _ & _ & Hbk & Hend & _).
    rewrite (timedOf_arrive clock) in Hbk. rewrite Hbk.
    destruct (snd (processLines (arrive st) l1)).
    + pose proof (brokeAt_stop _ _ Hend) as Hne.
      destruct (stopChunk (fst (processLines (arrive st) l1))); [|congruence].
      split; [discriminate | intros [_ H]; discriminate H].
    + rewrite (ranOut_stop _ _ Hend). destruct Hend as (Hs2 & Ht2 & _).
      apply IH; assumption.
Qed.

Lemma hasTimings_Some c : hasTimings c = true -> exists t, timings c = Some t.
Proof. unfold hasTimings. destruct (timings c) as [t|]; [eauto | discriminate]. Qed.

(** From the final state of the read loop to the record: the record is
    built from the terminal chunk of the lines read, and there is none
    without one. *)
Lemma settle traceId requestMeta timingContext P st0 :
  tracked P initial st0 -> brokeAt P st0 \/ ranOut P st0 ->
  match terminalOf P with
  | Some (c, fr) =>
      exists t,
        timings c = Some t
        /\ emitRecord traceId requestMeta timingContext (lateFallback st0)
           = Some (buildRecord traceId requestMeta timingContext t (lateFallback st0))
        /\ stopFinishReason (lateFallback st0) = fr
        /\ reasoningBoundary (lateFallback st0)
           = match lastWhere reasoningTimed (chunksOfLines P) with
             | Some b => boundaryOfChunk b
             | None => None
             end
  | None => emitRecord traceId requestMeta timingContext (lateFallback st0) = None
  end.
Proof.
  intros (Hltc & Hrb & Hdone) Hend.
  cbn [lastTimedChunk reasoningBoundary sawDoneMarker initial orb] in Hltc, Hrb, Hdone.
  assert (Hdeg :
    (stopChunk st0 = None \/ lastTimingsAtStop st0 = None) ->
    match degradedTerminal P with
    | Some (c, fr) =>
        exists t,
          timings c = Some t
          /\ emitRecord traceId requestMeta timingContext (lateFallback st0)
             = Some (buildRecord traceId requestMeta timingContext t (lateFallback st0))
          /\ stopFinishReason (lateFallback st0) = fr
          /\ reasoningBoundary (lateFallback st0)
             = match lastWhere reasoningTimed (chunksOfLines P) with
               | Some b => boundaryOfChunk b
               | None => None
               end
    | None => emitRecord traceId requestMeta timingContext (lateFallback st0) = None
    end).
  { intros Hopen. unfold StreamView.degradedTerminal, Parser.lateFallback.
    rewrite <- Hdone, Hltc.
    assert (Hnone : emitRecord traceId requestMeta timingContext st0 = None).
    { unfold Parser.emitRecord. destruct Hopen as [-> | ->]; [reflexivity|].
      destruct (stopChunk st0); reflexivity. }
    assert (Hm : match stopChunk st0, lastTimingsAtStop st0 with
                 | Some _, Some _ => false
                 | _, _ => true
                 end = true).
    { destruct Hopen as [-> | ->]; [reflexivity|]. destruct (stopChunk st0); reflexivity. }
    destruct (lastWhere hasTimings (chunksOfLines P)) as [ltc|] eqn:Elw.
    - destruct (lastWhere_passes _ _ _ Elw) as [_ Hht].
      destruct (hasTimings_Some ltc Hht) as (t & Et).
      destruct (sawDoneMarker st0).
      + exists t. split; [exact Et|].
        destruct (stopChunk st0); [destruct (lastTimingsAtStop st0); [discriminate Hm|]|];
          unfold Parser.emitRecord, Parser.promoteLastTimed;
          cbn [Parser.setStop Date_now stopChunk lastTimingsAtStop stopFinishReason
               reasoningBoundary];
          rewrite Et; repeat split; exact Hrb.
      + destruct (stopChunk st0); [destruct (lastTimingsAtStop st0); [discriminate Hm|]|];
          exact Hnone.
    - destruct (sawDoneMarker st0);
        (destruct (stopChunk st0); [destruct (lastTimingsAtStop st0); [discriminate Hm|]|]);
        exact Hnone. }
  unfold StreamView.terminalOf.
  destruct Hend as [(P0 & l & -> & Hn0 & Hbr) | (Hs & Ht & Hn)].
  - rewrite rev_unit.
    destruct Hbr as [(c & fr & Hc & Hfr & Hstop & Hlt & Hsf) | (Hsen & ltc & Hl & Hstop & Hlt & Hsf)].
    + rewrite Hc, Hfr. destruct (timings c) as [t|] eqn:Et.
      * exists t. split; [exact Et|].
        unfold Parser.lateFallback. rewrite Hstop, Hlt.
        unfold Parser.emitRecord. rewrite Hstop, Hlt.
        repeat split; assumption.
      * apply Hdeg. right. exact Hlt.
    + rewrite (sentinel_no_chunk l Hsen).
      unfold StreamView.degradedTerminal.
      rewrite existsb_app. cbn [existsb]. rewrite Hsen, orb_true_r.
      rewrite Hl in Hltc.
      destruct (lastWhere hasTimings (chunksOfLines (P0 ++ [l]))) as [c|] eqn:Elw;
        [|discriminate Hltc].
      injection Hltc as <-.
      destruct (lastWhere_passes _ _ _ Elw) as [_ Hht].
      destruct (hasTimings_Some ltc Hht) as (t & Et).
      exists t. split; [exact Et|].
      unfold Parser.lateFallback. rewrite Hstop, Hlt, Et.
      unfold Parser.emitRecord. rewrite Hstop, Hlt, Et.
      repeat split; assumption.
  - specialize (Hdeg (or_introl Hs)).
    destruct (rev P) as [|l r] eqn:Er.
    + assert (P = []) as -> by (rewrite <- (rev_involutive P), Er; reflexivity).
      exact Hdeg.
    + assert (Hin : In l P) by (apply in_rev; rewrite Er; left; reflexivity).
      destruct (chunkOfLine l) as [c|] eqn:Ec; [|exact Hdeg].
      rewrite (Hn l c Hin Ec). exact Hdeg.
Qed.

Lemma initial_readLoop stream st0 :
  readLoop "" initial stream = Some st0 ->
  tracked (linesRead false (streamLines "" stream)) initial st0
  /\ (brokeAt (linesRead false (streamLines "" stream)) st0
      \/ ranOut (linesRead false (streamLines "" stream)) st0).
Proof.
  intros H.
  destruct (tracked_readLoop stream "" initial st0 eq_refl eq_refl H) as (H1 & H2 & _).
  split; assumption.
Qed.

(** What an emitted record is built from: the timings of the terminal
    chunk of the lines read and a state that holds the finish reason
    recorded for that chunk and the reasoning boundary. *)
Lemma parseSse_settled traceId response requestMeta timingContext r stream :
  parseSse traceId response requestMeta timingContext = Some r ->
  body response = Some stream ->
  exists c fr t st,
    terminalOf (linesRead false (streamLines "" stream)) = Some (c, fr)
    /\ timings c = Some t
    /\ stopFinishReason st = fr
    /\ reasoningBoundary st
       = match lastWhere reasoningTimed
                 (chunksOfLines (linesRead false (streamLines "" stream))) with
         | Some b => boundaryOfChunk b
         | None => None
         end
    /\ r = buildRecord traceId requestMeta timingContext t st.
Proof.
  unfold Parser.parseSseCloneAndEmitRecord. intros H Hb. rewrite Hb in H.
  destruct (negb _); [discriminate|].
  destruct (Parser.readLoop _ _ "" initial stream) as [st0|] eqn:Hloop; [|discriminate].
  destruct (initial_readLoop stream st0 Hloop) as [Htr Hend].
  pose proof (settle traceId requestMeta timingContext _ st0 Htr Hend) as Hs.
  destruct (terminalOf (linesRead false (streamLines "" stream))) as [[c fr]|].
  - destruct Hs as (t & Et & Hemit & Hfr & Hrb).
    rewrite Hemit in H. injection H as <-.
    exists c, fr, t, (lateFallback st0). auto.
  - rewrite Hs in H. discriminate H.
Qed.

(** When nothing is emitted for an event stream. *)
Lemma parseSse_None traceId response requestMeta timingContext stream :
  body response = Some stream ->
  includes "text/event-stream"
    (match content_type response with Some s => s | None => "" end) = true ->
  (parseSse traceId response requestMeta timingContext = None
   <-> (streamEnd stream = ReadError /\ breaks false (streamLines "" stream) = false)
       \/ terminalOf (linesRead false (streamLines "" stream)) = None).
Proof.
  intros Hb Hct. unfold Parser.parseSseCloneAndEmitRecord. rewrite Hb, Hct. cbn [negb].
  pose proof (readLoop_None stream "" initial eq_refl eq_refl) as Hnone.
  change (timedOf initial) with false in Hnone.
  destruct (Parser.readLoop _ _ "" initial stream) as [st0|] eqn:Hloop.
  - destruct (initial_readLoop stream st0 Hloop) as [Htr Hend].
    pose proof (settle traceId requestMeta timingContext _ st0 Htr Hend) as Hs.
    destruct (terminalOf (linesRead false (streamLines "" stream))) as [[c fr]|].
    + destruct Hs as (t & _ & -> & _). split; [discriminate|].
      intros [H|H]; [|discriminate H]. apply Hnone in H. discriminate H.
    + split; [right; reflexivity | intros _; exact Hs].
  - split; [|reflexivity]. intros _. left. apply Hnone. reflexivity.
Qed.

(** The record depends on the stream only through the lines read. *)
Lemma parseSse_of_lines traceId response requestMeta timingContext r stream :
  parseSse traceId response requestMeta timingContext = Some r ->
  body response = Some stream ->
  Some r
  = emitRecord traceId requestMeta timingContext
      (lateFallback
         (fst (processLines (arrive initial) (linesRead false (streamLines "" stream))))).
Proof.
  unfold Parser.parseSseCloneAndEmitRecord. intros H Hb. rewrite Hb in H.
  destruct (negb _); [discriminate|].
  destruct stream as [| |value rest]; [discriminate H | discriminate H |].
  assert (Hsame : Parser.readLoop JSON_parse clock "" initial (Data value rest)
                  = Parser.readLoop JSON_parse clock "" (arrive initial) (Data value rest)).
  { rewrite !(readLoop_Data JSON_parse clock).
    rewrite (arrive_again clock (arrive initial)) by apply (arrive_first clock).
    reflexivity. }
  rewrite Hsame in H.
  destruct (Parser.readLoop _ _ "" (arrive initial) (Data value rest)) as [st0|] eqn:Hloop;
    [|discriminate].
  destruct (tracked_readLoop (Data value rest) "" (arrive initial) st0 eq_refl eq_refl Hloop)
    as (_ & _ & Hst).
  rewrite (Hst (arrive_first clock initial)) in H.
  symmetry. exact H.
Qed.

(** *** Boundary lines among the lines of a stream *)

Abbreviation boundaryLine := (StreamView.boundaryLine JSON_parse).
Abbreviation lineHasTimings := (StreamView.lineHasTimings JSON_parse).

Lemma boundaryLine_terminal timed l c fr :
  chunkOfLine l = Some c -> terminalReason c = Some fr -> boundaryLine timed l = true.
Proof.
  intros Hc Hfr. destruct (chunkOfLine_payload l c Hc) as (data & Hp & Hd).
  unfold StreamView.boundaryLine. rewrite Hp, Hd, Hc.
  unfold terminalReason in Hfr. destruct (chunkFinishReason c); try discriminate Hfr.
  destruct (Z.ltb 0 (strlen s)); [reflexivity | discriminate Hfr].
Qed.

Lemma boundaryLine_sentinel timed l : isSentinel l = true -> boundaryLine timed l = timed.
Proof.
  unfold isSentinel, StreamView.boundaryLine. destruct (payload l) as [data|]; [|discriminate].
  intros ->. reflexivity.
Qed.

Lemma boundaryLine_other timed l :
  isSentinel l = false ->
  (forall c, chunkOfLine l = Some c -> terminalReason c = None) ->
  boundaryLine timed l = false.
Proof.
  unfold isSentinel, StreamView.boundaryLine. intros Hs Hn.
  destruct (payload l) as [data|]; [|reflexivity]. rewrite Hs.
  destruct (chunkOfLine l) as [c|]; [|reflexivity].
  specialize (Hn c eq_refl). unfold terminalReason in Hn.
  destruct (chunkFinishReason c); try reflexivity.
  destruct (Z.ltb 0 (strlen s)); [discriminate Hn | reflexivity].
Qed.

(** Lines before the first boundary line are all read. *)
Lemma linesRead_open pre : forall timed rest,
  breaks timed pre = false ->
  linesRead timed (pre ++ rest)
  = (pre ++ linesRead (timed || existsb lineHasTimings pre) rest)%list
  /\ breaks timed (pre ++ rest) = breaks (timed || existsb lineHasTimings pre) rest.
Proof.
  induction pre as [|l pre IH]; intros timed rest Hb.
  - simpl. rewrite orb_false_r. split; reflexivity.
  - cbn [StreamView.breaks] in Hb. apply orb_false_elim in Hb. destruct Hb as [Hl Hb].
    cbn [app StreamView.linesRead StreamView.breaks existsb]. rewrite Hl. cbn [orb].
    destruct (IH _ rest Hb) as [H1 H2]. rewrite H1, H2, orb_assoc. split; reflexivity.
Qed.

(** Nothing after a line that is a boundary line in any case is read. *)
Lemma linesRead_cut pre l post :
  (forall timed, boundaryLine timed l = true) ->
  forall timed,
    linesRead timed (pre ++ l :: post) = linesRead timed (pre ++ [l])
    /\ breaks timed (pre ++ l :: post) = true.
Proof.
  intros Hl. induction pre as [|x pre IH]; intros timed.
  - cbn [app StreamView.linesRead StreamView.breaks]. rewrite Hl. split; reflexivity.
  - cbn [app StreamView.linesRead StreamView.breaks].
    destruct (boundaryLine timed x); [split; reflexivity|].
    destruct (IH (timed || lineHasTimings x)%bool) as [H1 H2]. rewrite H1, H2.
    split; reflexivity.
Qed.

Lemma lastWhere_cons {A} (p : A -> bool) x l :
  lastWhere p (x :: l)
  = match lastWhere p l with
    | Some y => Some y
    | None => if p x then Some x else None
    end.
Proof. change (x :: l) with ([x] ++ l)%list. rewrite lastWhere_app. reflexivity. Qed.

Lemma existsb_lineHasTimings pre :
  existsb lineHasTimings pre
  = match lastWhere hasTimings (chunksOfLines pre) with
    | Some _ => true
    | None => false
    end.
Proof.
  induction pre as [|l pre IH]; [reflexivity|].
  cbn [existsb StreamView.chunksOfLines]. unfold StreamView.lineHasTimings at 1.
  destruct (chunkOfLine l) as [c|]; [|exact IH].
  rewrite lastWhere_cons, IH. fold (hasTimings c).
  destruct (lastWhere hasTimings (chunksOfLines pre)); [apply orb_true_r|].
  rewrite orb_false_r. destruct (hasTimings c); reflexivity.
Qed.

Lemma noTerminal_cons l P : noTerminal (l :: P) -> noTerminal [l] /\ noTerminal P.
Proof.
  intros H. split; intros x c Hx; apply H; [destruct Hx as [<-|[]]; left | right]; auto.
Qed.

(** Without sentinel and without a chunk that has a non-empty finish
    reason, every line is read and the loops never break. *)
Lemma linesRead_all ls : forall timed,
  existsb isSentinel ls = false -> noTerminal ls ->
  linesRead timed ls = ls /\ breaks timed ls = false.
Proof.
  induction ls as [|l ls IH]; intros timed Hs Hn; [split; reflexivity|].
  cbn [existsb] in Hs. apply orb_false_elim in Hs. destruct Hs as [Hl Hs].
  apply noTerminal_cons in Hn. destruct Hn as [Hn1 Hn].
  cbn [StreamView.linesRead StreamView.breaks].
  rewrite (boundaryLine_other timed l Hl (fun c Hc => Hn1 l c (or_introl eq_refl) Hc)).
  destruct (IH (timed || lineHasTimings l)%bool Hs Hn) as [H1 H2]. rewrite H1, H2.
  split; reflexivity.
Qed.

Lemma terminalOf_open P : noTerminal P -> terminalOf P = degradedTerminal P.
Proof.
  intros Hn. unfold StreamView.terminalOf.
  destruct (rev P) as [|l r] eqn:Er.
  - assert (P = []) as -> by (rewrite <- (rev_involutive P), Er; reflexivity). reflexivity.
  - assert (Hin : In l P) by (apply in_rev; rewrite Er; left; reflexivity).
    destruct (chunkOfLine l) as [c|] eqn:Ec; [|reflexivity].
    rewrite (Hn l c Hin Ec). reflexivity.
Qed.

(** The finish reason recorded for a terminal chunk is never null. *)
Lemma terminalOf_reason P c fr : terminalOf P = Some (c, fr) -> nullish fr = false.
Proof.
  assert (Hd : degradedTerminal P = Some (c, fr) -> nullish fr = false).
  { unfold StreamView.degradedTerminal. destruct (existsb isSentinel P); [|discriminate].
    destruct (lastWhere hasTimings (chunksOfLines P)) as [x|]; [|discriminate].
    intros H. injection H as _ <-. apply coalesce_not_nullish. }
  unfold StreamView.terminalOf. destruct (rev P) as [|l r]; [discriminate|].
  destruct (chunkOfLine l) as [x|]; [|exact Hd].
  destruct (terminalReason x) as [s|]; [|exact Hd].
  destruct (timings x); [|exact Hd].
  intros H. injection H as _ <-. reflexivity.
Qed.

Lemma coalesce_same v d : nullish v = false -> coalesce v d = v.
Proof. intros H. unfold coalesce. rewrite H. reflexivity. Qed.

Lemma chunksOfLines_sentinel pre l :
  isSentinel l = true -> chunksOfLines (pre ++ [l]) = chunksOfLines pre.
Proof.
  intros H. rewrite chunksOfLines_app. cbn [StreamView.chunksOfLines].
  rewrite (sentinel_no_chunk l H). apply app_nil_r.
Qed.

(** C1 (amended): for a response of the event-stream type, let the lines
    read be the complete lines of the stream up to and including the
    first line that carries a completion chunk with a non-empty finish
    reason, or that is the sentinel after a chunk with timings, and all
    the complete lines when there is no such line.  (1) Nothing is
    emitted exactly when the stream fails before such a line, or the
    lines read have no terminal chunk.  (2) An emitted record shows the
    timings and the finish reason of the terminal chunk of the lines
    read: the chunk of the last line read when it has a non-empty finish
    reason and timings, else, when the sentinel is among the lines read,
    the last chunk with timings among them.  (3) A chunk with a
    non-empty finish reason ends the lines read, whatever follows it,
    and is the terminal chunk when no earlier line ends the lines read
    and it has timings.  (4) The sentinel after a chunk with timings,
    when no earlier line ends the lines read, ends them, and the last
    chunk with timings before it is the terminal chunk.  (5) A stream without the sentinel and without a chunk that
    has a non-empty finish reason yields no record, whatever timings its
    chunks carry.  (6) Two streams with the same lines read that both
    yield a record yield the same record. *)
Theorem boundary_rules traceId response requestMeta timingContext stream :
  body response = Some stream ->
  includes "text/event-stream"
    (match content_type response with Some s => s | None => "" end) = true ->
  let ls := streamLines "" stream in
  let P := linesRead false ls in
  (parseSse traceId response requestMeta timingContext = None
   <-> (streamEnd stream = ReadError /\ breaks false ls = false) \/ terminalOf P = None)
  /\ (forall r,
        parseSse traceId response requestMeta timingContext = Some r ->
        exists c fr t rs,
          terminalOf P = Some (c, fr) /\ timings c = Some t
          /\ resp r = Some rs
          /\ resp_timings rs = shownTimings round3 t
          /\ resp_finish_reason rs = fr)
  /\ (forall pre l post c fr,
        ls = (pre ++ l :: post)%list ->
        chunkOfLine l = Some c -> terminalReason c = Some fr ->
        P = linesRead false (pre ++ [l])
        /\ breaks false ls = true
        /\ (breaks false pre = false ->
            P = (pre ++ [l])%list
            /\ (timings c <> None -> terminalOf P = Some (c, JStr fr))))
  /\ (forall pre l post c,
        ls = (pre ++ l :: post)%list ->
        isSentinel l = true -> breaks false pre = false ->
        lastWhere hasTimings (chunksOfLines pre) = Some c ->
        P = (pre ++ [l])%list
        /\ breaks false ls = true
        /\ terminalOf P = Some (c, coalesce (chunkFinishReason c) (JStr "done")))
  /\ (existsb isSentinel ls = false -> noTerminal ls ->
      parseSse traceId response requestMeta timingContext = None)
  /\ (forall response' stream' r r',
        body response' = Some stream' ->
        linesRead false (streamLines "" stream') = P ->
        parseSse traceId response requestMeta timingContext = Some r ->
        parseSse traceId response' requestMeta timingContext = Some r' ->
        r = r').
Proof.
  intros Hb Hct ls P. subst P ls.
  pose proof (parseSse_None traceId response requestMeta timingContext stream Hb Hct)
    as Hnone.
  split; [exact Hnone|]. split; [|split; [|split; [|split]]].
  - intros r Hr.
    destruct (parseSse_settled _ _ _ _ r stream Hr Hb)
      as (c & fr & t & st & Hterm & Et & Hfr & _ & ->).
    unfold Parser.buildRecord.
    destruct (stopChunkAtMs st);
      (exists c, fr, t; eexists; split; [exact Hterm|]; split; [exact Et|];
       split; [reflexivity|]; cbn [resp_timings resp_finish_reason];
       split; [reflexivity|]).
    + rewrite Hfr. apply coalesce_same, (terminalOf_reason _ _ _ Hterm).
    + rewrite Hfr. apply coalesce_same, (terminalOf_reason _ _ _ Hterm).
  - intros pre l post c fr Hls Hc Hfr. rewrite Hls.
    destruct (linesRead_cut pre l post
                (fun timed => boundaryLine_terminal timed l c fr Hc Hfr) false) as [H1 H2].
    split; [exact H1|]. split; [exact H2|]. intros Hopen.
    destruct (linesRead_open pre false [l] Hopen) as [H3 _].
    rewrite H1, H3. cbn [StreamView.linesRead].
    rewrite (boundaryLine_terminal _ l c fr Hc Hfr). split; [reflexivity|].
    intros Ht. unfold StreamView.terminalOf. rewrite rev_unit, Hc, Hfr.
    destruct (timings c); [reflexivity | congruence].
  - intros pre l post c Hls Hsen Hopen Hlw. rewrite Hls.
    destruct (linesRead_open pre false (l :: post) Hopen) as [H1 H2].
    rewrite H1, H2. cbn [StreamView.linesRead StreamView.breaks orb].
    rewrite (boundaryLine_sentinel _ l Hsen), existsb_lineHasTimings, Hlw.
    split; [reflexivity|]. split; [reflexivity|].
    unfold StreamView.terminalOf. rewrite rev_unit, (sentinel_no_chunk l Hsen).
    unfold StreamView.degradedTerminal.
    rewrite existsb_app. cbn [existsb]. rewrite Hsen, orb_true_r.
    rewrite (chunksOfLines_sentinel pre l Hsen), Hlw. reflexivity.
  - intros Hs Hn. apply Hnone. right.
    destruct (linesRead_all _ false Hs Hn) as [-> _].
    rewrite (terminalOf_open _ Hn). unfold StreamView.degradedTerminal. rewrite Hs.
    reflexivity.
  - intros response' stream' r r' Hb' HP Hr Hr'.
    pose proof (parseSse_of_lines _ _ _ _ r stream Hr Hb) as E.
    pose proof (parseSse_of_lines _ _ _ _ r' stream' Hr' Hb') as E'.
    rewrite HP, <- E in E'.
    injection E' as <-. reflexivity.
Qed.

(** *** The finish reason of an emitted record *)

Lemma terminalReason_string c fr :
  terminalReason c = Some fr -> chunkFinishReason c = JStr fr /\ fr <> "".
Proof.
  unfold terminalReason. destruct (chunkFinishReason c) as [| | | |s| | |]; try discriminate.
  destruct (Z.ltb 0 (strlen s)) eqn:E; [|discriminate].
  intros H. injection H as <-. split; [reflexivity|].
  intros ->. discriminate E.
Qed.

(** The two ways in which a chunk is the terminal chunk. *)
Lemma terminalOf_cases P c fr :
  terminalOf P = Some (c, fr) ->
  (exists P0 l s,
     P = (P0 ++ [l])%list /\ chunkOfLine l = Some c
     /\ chunkFinishReason c = JStr s /\ s <> "" /\ timings c <> None /\ fr = JStr s)
  \/ (existsb isSentinel P = true
      /\ lastWhere hasTimings (chunksOfLines P) = Some c
      /\ fr = coalesce (chunkFinishReason c) (JStr "done")).
Proof.
  assert (Hd : degradedTerminal P = Some (c, fr) ->
               existsb isSentinel P = true
               /\ lastWhere hasTimings (chunksOfLines P) = Some c
               /\ fr = coalesce (chunkFinishReason c) (JStr "done")).
  { unfold StreamView.degradedTerminal. destruct (existsb isSentinel P); [|discriminate].
    destruct (lastWhere hasTimings (chunksOfLines P)) as [x|]; [|discriminate].
    intros H. injection H as <- <-. auto. }
  unfold StreamView.terminalOf. destruct (rev P) as [|l r] eqn:Er; [discriminate|].
  destruct (chunkOfLine l) as [x|] eqn:Ec; [|intros H; right; exact (Hd H)].
  destruct (terminalReason x) as [s|] eqn:Es; [|intros H; right; exact (Hd H)].
  destruct (timings x) as [t|] eqn:Et; [|intros H; right; exact (Hd H)].
  intros H. injection H as <- <-. left.
  destruct (terminalReason_string x s Es) as [Hfr Hne].
  exists (rev r), l, s. split.
  - rewrite <- (rev_involutive P), Er. reflexivity.
  - rewrite Et. repeat split; try assumption. discriminate.
Qed.

(** C9 (amended): the finish_reason of an emitted record is the finish
    reason recorded for the terminal chunk of the lines read.  When that
    chunk is the chunk of the last line read, it is the chunk's own
    finish reason, a non-empty string.  Otherwise the chunk is the last
    chunk with timings among the lines read, the sentinel is among them,
    and the finish_reason is the chunk's own unless that is null or
    missing, and "done" then; it may be the empty string or a value that
    is not a string.  In either case it is never null, and the
    stop_reason_category derived from it is never "unknown". *)
Theorem finish_reason_of_emitted traceId response requestMeta timingContext r stream :
  parseSse traceId response requestMeta timingContext = Some r ->
  body response = Some stream ->
  let P := linesRead false (streamLines "" stream) in
  exists rs c,
    resp r = Some rs
    /\ terminalOf P = Some (c, resp_finish_reason rs)
    /\ ((exists P0 l s,
           P = (P0 ++ [l])%list /\ chunkOfLine l = Some c
           /\ chunkFinishReason c = JStr s /\ s <> "" /\ timings c <> None
           /\ resp_finish_reason rs = JStr s)
        \/ (existsb isSentinel P = true
            /\ lastWhere hasTimings (chunksOfLines P) = Some c
            /\ resp_finish_reason rs = coalesce (chunkFinishReason c) (JStr "done")))
    /\ nullish (resp_finish_reason rs) = false
    /\ stop_reason_category (guardrails rs)
       = Some (categorizeFinishReason (resp_finish_reason rs))
    /\ stop_reason_category (guardrails rs) <> Some "unknown".
Proof.
  intros Hr Hb P. subst P.
  destruct (parseSse_settled _ _ _ _ r stream Hr Hb)
    as (c & fr & t & st & Hterm & Et & Hfr & _ & ->).
  pose proof (terminalOf_reason _ _ _ Hterm) as Hnull.
  pose proof (terminalOf_cases _ _ _ Hterm) as Hcases.
  assert (Hfinal : coalesce (stopFinishReason st) (JStr "stop") = fr).
  { rewrite Hfr. apply coalesce_same, Hnull. }
  unfold Parser.buildRecord.
  destruct (stopChunkAtMs st);
    (eexists; exists c; split; [reflexivity|];
     cbn [resp_finish_reason guardrails stop_reason_category]; rewrite Hfinal;
     split; [exact Hterm|]; split; [exact Hcases|]; split; [exact Hnull|];
     split; [reflexivity|];
     intros Hu; injection Hu as Hu; apply categorize_unknown in Hu;
     rewrite Hnull in Hu; discriminate Hu).
Qed.

(** *** The reasoning / content split *)

Lemma reasoningTimed_Some b :
  reasoningTimed b = true -> exists tb, timings b = Some tb.
Proof.
  unfold reasoningTimed. destruct (reasoningOf b); [|discriminate].
  destruct (timings b) as [tb|]; [eauto | discriminate].
Qed.

Lemma number_minus v w :
  (if isNumber (coalesce v JNull) then max0minus (coalesce v JNull) w else JNull)
  = (if isNumber v then max0minus v w else JNull).
Proof. destruct v; reflexivity. Qed.

Lemma number_itself v :
  (if isNumber (coalesce v JNull) then coalesce v JNull else JNull)
  = (if isNumber v then v else JNull).
Proof. destruct v; reflexivity. Qed.

Section Split.

(** What the split relies on of the arithmetic of the host: rounding is
    monotone and keeps zero; the subtraction floored at zero is exact on
    whole numbers up to 2^53, stays between zero and the minuend when
    the subtrahend does, and is zero when the subtrahend is not below
    the minuend; and, on numbers between 0 and 10^9, neither the
    rounding nor the subtraction is off by more than 0.001. *)
Hypothesis round3_mono : forall x y, (x <= y)%Q -> (round3 x <= round3 y)%Q.
Hypothesis round3_zero : (round3 0 == 0)%Q.
Hypothesis max0minus_whole : forall x y a b,
  (x == inject_Z a)%Q -> (y == inject_Z b)%Q -> 0 <= b -> b <= a -> a <= 2 ^ 53 ->
  exists v, max0minus (JNum x) (JNum y) = JNum v /\ (v == inject_Z (a - b))%Q.
Hypothesis max0minus_range : forall x y,
  (0 <= y)%Q -> (y <= x)%Q ->
  exists v, max0minus (JNum x) (JNum y) = JNum v /\ (0 <= v)%Q /\ (v <= x)%Q.
Hypothesis max0minus_floor : forall x y,
  (x <= y)%Q -> exists v, max0minus (JNum x) (JNum y) = JNum v /\ (v == 0)%Q.
Hypothesis round3_near : forall x,
  (0 <= x)%Q -> (x <= 1000000000)%Q ->
  (- (1 # 1000) <= round3 x - x)%Q /\ (round3 x - x <= 1 # 1000)%Q.
Hypothesis max0minus_near : forall x y,
  (0 <= y)%Q -> (y <= x)%Q -> (x <= 1000000000)%Q ->
  exists v,
    max0minus (JNum x) (JNum y) = JNum v
    /\ (- (1 # 1000) <= v - (x - y))%Q /\ (v - (x - y) <= 1 # 1000)%Q.

Lemma round3_of_zero v : (v == 0)%Q -> (round3 v == 0)%Q.
Proof.
  intros Hv. apply Qle_antisym.
  - rewrite <- round3_zero. apply round3_mono. rewrite Hv. apply Qle_refl.
  - rewrite <- round3_zero at 1. apply round3_mono. rewrite Hv. apply Qle_refl.
Qed.

Lemma round3_nonneg v : (0 <= v)%Q -> (0 <= round3 v)%Q.
Proof. intros Hv. rewrite <- round3_zero. apply round3_mono, Hv. Qed.

(** C2 (amended): an emitted record is built from the timings [t] of the
    terminal chunk of the lines read and from the reasoning boundary,
    the timings [tb] of the last chunk among the lines read that had
    both string reasoning content and timings.  Without a reasoning
    boundary, reasoning_n and reasoning_ms are 0, content_ms is the
    predicted_ms of the record, and content_n is the predicted_n of the
    record when that is a number, and null otherwise.  With a reasoning
    boundary, reasoning_n is the predicted_n of [tb] as it stands in the
    stream (0 in place of a null or missing one), whatever its type,
    reasoning_ms is its predicted_ms rounded, or null when that is not
    a finite number, and content_n and content_ms come from the
    subtraction floored at zero.  For whole token counts [T] of [t] and
    [R] of [tb] with [0 <= R <= T <= 2^53], content_n is [T - R], so
    that reasoning_n + content_n is predicted_n; when [T <= R],
    content_n is 0 and the sum is [R], not [T].  For milliseconds [Tm]
    of [t] and [Rm] of [tb] with [0 <= Rm <= Tm], reasoning_ms and
    content_ms are numbers between 0 and the predicted_ms of the record,
    and when moreover [Tm <= 10^9], reasoning_ms + content_ms is within
    0.004 of that predicted_ms; when [Tm <= Rm], content_ms is 0. *)
Theorem reasoning_content_split traceId response requestMeta timingContext r stream :
  parseSse traceId response requestMeta timingContext = Some r ->
  body response = Some stream ->
  let P := linesRead false (streamLines "" stream) in
  exists rs c fr t,
    resp r = Some rs
    /\ terminalOf P = Some (c, fr) /\ timings c = Some t
    /\ t_predicted_n (resp_timings rs) = coalesce (predicted_n t) JNull
    /\ t_predicted_ms (resp_timings rs)
       = roundMs round3 (coalesce (predicted_ms t) JNull)
    /\ match lastWhere reasoningTimed (chunksOfLines P) with
       | None =>
           phase_boundary rs = None
           /\ reasoning_n (derived rs) = JNum 0
           /\ reasoning_ms (derived rs) = JNum 0
           /\ content_n (derived rs)
              = (if isNumber (predicted_n t) then predicted_n t else JNull)
           /\ (isNumber (predicted_n t) = true ->
               content_n (derived rs) = t_predicted_n (resp_timings rs))
           /\ content_ms (derived rs) = t_predicted_ms (resp_timings rs)
       | Some b =>
           exists tb,
             timings b = Some tb
             /\ phase_boundary rs
                = Some (mkPhase (predicted_n tb) (roundMs round3 (predicted_ms tb)))
             /\ reasoning_n (derived rs) = coalesce (predicted_n tb) (JNum 0)
             /\ reasoning_ms (derived rs)
                = roundMs round3 (coalesce (predicted_ms tb) (JNum 0))
             /\ content_n (derived rs)
                = (if isNumber (predicted_n t)
                   then max0minus (predicted_n t) (coalesce (predicted_n tb) (JNum 0))
                   else JNull)
             /\ content_ms (derived rs)
                = roundMs round3
                    (if isNumber (predicted_ms t)
                     then max0minus (predicted_ms t) (coalesce (predicted_ms tb) (JNum 0))
                     else JNull)
             /\ (forall x y T R,
                   predicted_n t = JNum x -> predicted_n tb = JNum y ->
                   (x == inject_Z T)%Q -> (y == inject_Z R)%Q ->
                   0 <= R -> T <= 2 ^ 53 ->
                   reasoning_n (derived rs) = JNum y
                   /\ exists cn,
                        content_n (derived rs) = JNum cn
                        /\ (R <= T -> (cn == inject_Z (T - R))%Q /\ (y + cn == x)%Q)
                        /\ (T <= R -> (cn == 0)%Q))
             /\ (forall Tm Rm,
                   predicted_ms t = JNum Tm -> predicted_ms tb = JNum Rm ->
                   (0 <= Rm)%Q ->
                   exists rm cm pm,
                     reasoning_ms (derived rs) = JNum rm
                     /\ content_ms (derived rs) = JNum cm
                     /\ t_predicted_ms (resp_timings rs) = JNum pm
                     /\ (0 <= rm)%Q
                     /\ ((Rm <= Tm)%Q -> (rm <= pm)%Q /\ (0 <= cm)%Q /\ (cm <= pm)%Q)
                     /\ ((Rm <= Tm)%Q -> (Tm <= 1000000000)%Q ->
                         (- (4 # 1000) <= rm + cm - pm)%Q
                         /\ (rm + cm - pm <= 4 # 1000)%Q)
                     /\ ((Tm <= Rm)%Q -> (cm == 0)%Q))
       end.
Proof.
  intros Hr Hb P. subst P.
  destruct (parseSse_settled _ _ _ _ r stream Hr Hb)
    as (c & fr & t & st & Hterm & Et & _ & Hrb & ->).
  clear Hr.
  set (cs := chunksOfLines (linesRead false (streamLines "" stream))) in *.
  assert (Hrec : exists z st1,
    buildRecord traceId requestMeta timingContext t st
    = buildRecord traceId requestMeta timingContext t st1
    /\ reasoningBoundary st1 = reasoningBoundary st /\ stopChunkAtMs st1 = Some z).
  { destruct (stopChunkAtMs st) as [z|] eqn:Ez.
    - exists z, st. auto.
    - exists (clock (ticks st)),
        (mkPState (completionId st) (completionCreated st) (completionModel st)
           (systemFingerprint st) (reasoningBoundary st) (stopChunk st)
           (lastTimingsAtStop st) (stopFinishReason st) (lastTimedChunk st)
           (sawDoneMarker st) (firstStreamChunkAtMs st) (Some (clock (ticks st)))
           (st_responseText st) (st_reasoningText st) (S (ticks st))).
      split; [|split; reflexivity].
      unfold Parser.buildRecord. rewrite Ez. reflexivity. }
  destruct Hrec as (z & st1 & -> & Hrb1 & Hz). rewrite <- Hrb1 in Hrb. clear Hrb1 st.
  unfold Parser.buildRecord. rewrite Hz. cbn [Date_now].
  eexists. exists c, fr, t. split; [reflexivity|].
  cbn [resp_timings derived phase_boundary t_predicted_n t_predicted_ms reasoning_n
       reasoning_ms content_n content_ms reasoningBoundary].
  split; [exact Hterm|]. split; [exact Et|]. split; [reflexivity|]. split; [reflexivity|].
  rewrite !number_minus, number_itself.
  destruct (lastWhere reasoningTimed cs) as [b|] eqn:Elw.
  - destruct (lastWhere_passes _ _ _ Elw) as [_ Hb'].
    destruct (reasoningTimed_Some b Hb') as (tb & Etb).
    unfold boundaryOfChunk in Hrb. rewrite Etb in Hrb. rewrite Hrb.
    cbn [b_predicted_n b_predicted_ms].
    exists tb. split; [exact Etb|]. do 5 (split; [reflexivity|]). split.
    + intros x y T R Hx Hy Hqx Hqy HR HT. rewrite Hx, Hy. cbn [coalesce nullish isNumber].
      split; [reflexivity|].
      destruct (Z_le_gt_dec R T) as [Hle|Hgt].
      * destruct (max0minus_whole x y T R Hqx Hqy HR Hle HT) as (v & -> & Hv).
        exists v. split; [reflexivity|]. split.
        -- intros _. split; [exact Hv|]. rewrite Hv, Hqx, Hqy.
           unfold Z.sub. rewrite inject_Z_plus, inject_Z_opp. ring.
        -- intros Hge. assert (T = R) as -> by lia. rewrite Hv, Z.sub_diag. reflexivity.
      * assert (Hxy : (x <= y)%Q).
        { rewrite Hqx, Hqy. rewrite <- Zle_Qle. lia. }
        destruct (max0minus_floor x y Hxy) as (v & -> & Hv).
        exists v. split; [reflexivity|]. split; [intros Hle; lia | intros _; exact Hv].
    + intros Tm Rm Hx Hy HR. rewrite Hx, Hy. cbn [coalesce nullish isNumber roundMs].
      destruct (Qlt_le_dec Tm Rm) as [Hlt|Hle].
      * destruct (max0minus_floor Tm Rm (Qlt_le_weak _ _ Hlt)) as (v & -> & Hv).
        cbn [roundMs]. exists (round3 Rm), (round3 v), (round3 Tm).
        do 3 (split; [reflexivity|]). split; [apply round3_nonneg, HR|].
        split; [|split].
        -- intros Hge. exfalso. apply (Qlt_not_le _ _ Hlt Hge).
        -- intros Hge. exfalso. apply (Qlt_not_le _ _ Hlt Hge).
        -- intros _. apply round3_of_zero, Hv.
      * destruct (max0minus_range Tm Rm HR Hle) as (v & Hmv & Hv0 & Hv1).
        rewrite Hmv. cbn [roundMs]. exists (round3 Rm), (round3 v), (round3 Tm).
        do 3 (split; [reflexivity|]). split; [apply round3_nonneg, HR|].
        split; [|split].
        -- intros _. split; [apply round3_mono, Hle|].
           split; [apply round3_nonneg, Hv0 | apply round3_mono, Hv1].
        -- intros _ Hbig.
           destruct (max0minus_near Tm Rm HR Hle Hbig) as (v' & Hmv' & Hn0 & Hn1).
           rewrite Hmv in Hmv'. injection Hmv' as <-.
           destruct (round3_near Rm HR) as [Ha0 Ha1]; [lra|].
           destruct (round3_near v Hv0) as [Hb0 Hb1]; [lra|].
           destruct (round3_near Tm) as [Hc0 Hc1]; [lra | exact Hbig|].
           split; lra.
        -- intros Hge. destruct (max0minus_floor Tm Rm Hge) as (v' & Hmv' & Hv').
           rewrite Hmv in Hmv'. injection Hmv' as <-. apply round3_of_zero, Hv'.
  - rewrite Hrb. do 4 (split; [reflexivity|]). split.
    + intros Hn. unfold coalesce.
      destruct (predicted_n t); try discriminate Hn; reflexivity.
    + unfold coalesce. destruct (predicted_ms t); reflexivity.
Qed.

End Split.

End Facts.
End BoundaryFacts.

(** ** The completion boundary on concrete streams *)

Module ExactArithmetic.
Import JS Model Parser Examples RoundingFacts.

(** The arithmetic of the example hosts has what the split relies on. *)

Lemma exactRound3_zero : (exactRound3 0 == 0)%Q.
Proof. reflexivity. Qed.

Lemma exactMax0minus_numbers x y :
  exactMax0minus (JNum x) (JNum y) = JNum (Math_max0 (x - y)).
Proof. reflexivity. Qed.

Lemma exactMax0minus_whole x y a b :
  (x == inject_Z a)%Q -> (y == inject_Z b)%Q -> 0 <= b -> b <= a -> a <= 2 ^ 53 ->
  exists v, exactMax0minus (JNum x) (JNum y) = JNum v /\ (v == inject_Z (a - b))%Q.
Proof.
  intros Hx Hy _ Hle _. exists (Math_max0 (x - y)). split; [reflexivity|].
  assert (H0 : (0 <= x - y)%Q).
  { rewrite Hx, Hy. rewrite Zle_Qle in Hle. lra. }
  rewrite (Math_max0_of_nonneg _ H0), Hx, Hy.
  unfold Z.sub. rewrite inject_Z_plus, inject_Z_opp. ring.
Qed.

Lemma exactMax0minus_range x y :
  (0 <= y)%Q -> (y <= x)%Q ->
  exists v, exactMax0minus (JNum x) (JNum y) = JNum v /\ (0 <= v)%Q /\ (v <= x)%Q.
Proof.
  intros H0 H1. exists (Math_max0 (x - y)). split; [reflexivity|].
  rewrite Math_max0_of_nonneg by lra. split; lra.
Qed.

Lemma exactRound3_near x :
  (0 <= x)%Q -> (x <= 1000000000)%Q ->
  (- (1 # 1000) <= exactRound3 x - x)%Q /\ (exactRound3 x - x <= 1 # 1000)%Q.
Proof.
  intros _ _. destruct (Math_round_bounds (x * 1000)) as [H1 H2].
  unfold exactRound3, Qdiv. change (/ 1000)%Q with (1 # 1000)%Q. split; lra.
Qed.

Lemma exactMax0minus_near x y :
  (0 <= y)%Q -> (y <= x)%Q -> (x <= 1000000000)%Q ->
  exists v,
    exactMax0minus (JNum x) (JNum y) = JNum v
    /\ (- (1 # 1000) <= v - (x - y))%Q /\ (v - (x - y) <= 1 # 1000)%Q.
Proof.
  intros H0 H1 _. exists (Math_max0 (x - y)). split; [reflexivity|].
  rewrite Math_max0_of_nonneg by lra. split; lra.
Qed.

Lemma exactMax0minus_floor x y :
  (x <= y)%Q -> exists v, exactMax0minus (JNum x) (JNum y) = JNum v /\ (v == 0)%Q.
Proof.
  intros H. exists (Math_max0 (x - y)). split; [reflexivity|].
  destruct (Qlt_le_dec (x - y) 0) as [Hneg|Hpos].
  - rewrite (Math_max0_of_neg _ Hneg). reflexivity.
  - rewrite (Math_max0_of_nonneg _ Hpos). lra.
Qed.

End ExactArithmetic.

Module BoundaryChecks.
Import JS Model Parser StreamView Examples RoundingFacts BoundaryFacts ExactArithmetic.

(** The lines read and the terminal chunk of the example streams: the
    terminal chunk of [reasoningStream] is the chunk of its last line
    read; that of [doneStream] is its last chunk with timings, recorded
    with "done"; [eofStream], which ends without the sentinel, has none. *)
Example terminal_chunks :
  terminalOf exampleParse (linesRead exampleParse false (streamLines "" reasoningStream))
  = Some (Examples.stopChunk, JStr "stop")
  /\ terminalOf exampleParse (linesRead exampleParse false (streamLines "" doneStream))
     = Some (timedChunk, JStr "done")
  /\ terminalOf exampleParse (linesRead exampleParse false (streamLines "" eofStream))
     = None
  /\ terminalOf exampleParse
       (linesRead exampleParse false (streamLines "" emptyFinishStream))
     = Some (emptyFinishChunk, JStr "")
  /\ lastWhere reasoningTimed
       (chunksOfLines exampleParse
          (linesRead exampleParse false (streamLines "" reasoningStream)))
     = Some reasoningChunk.
Proof. repeat split. Qed.

(** A stream that fails after its terminal chunk yields the record of
    the stream that ends there; one that fails before any boundary
    yields nothing. *)
Example failing_streams :
  runParser (Data (dataLine timedJson ++ dataLine stopJson) ReadError)
  = runParser (Data (dataLine timedJson ++ dataLine stopJson) Eof)
  /\ runParser (Data (dataLine timedJson ++ dataLine stopJson) ReadError) <> None
  /\ runParser (Data (dataLine timedJson) ReadError) = None.
Proof. repeat split. discriminate. Qed.

Lemma boundary_rules_witness :
  exists r c fr t rs,
    runParser reasoningStream = Some r
    /\ terminalOf exampleParse
         (linesRead exampleParse false (streamLines "" reasoningStream))
       = Some (c, fr)
    /\ timings c = Some t
    /\ resp r = Some rs
    /\ resp_timings rs = shownTimings exactRound3 t
    /\ resp_finish_reason rs = fr.
Proof.
  destruct (runParser reasoningStream) as [r|] eqn:E;
    [|exfalso; vm_compute in E; discriminate E].
  destruct (boundary_rules exampleParse exampleClock exampleOrigin exactRound3
              exactMax0minus (Some "t-1") (sse reasoningStream) None exampleTiming
              reasoningStream eq_refl eq_refl)
    as (_ & H & _).
  destruct (H r E) as (c & fr & t & rs & H1 & H2 & H3 & H4 & H5).
  exists r, c, fr, t, rs. split; [reflexivity|]. split; [exact H1|]. split; [exact H2|].
  split; [exact H3|]. split; [exact H4 | exact H5].
Defined.

Lemma finish_reason_of_emitted_witness :
  exists r rs c,
    runParser doneStream = Some r /\ resp r = Some rs
    /\ terminalOf exampleParse (linesRead exampleParse false (streamLines "" doneStream))
       = Some (c, resp_finish_reason rs)
    /\ nullish (resp_finish_reason rs) = false
    /\ stop_reason_category (guardrails rs) <> Some "unknown".
Proof.
  destruct (runParser doneStream) as [r|] eqn:E;
    [|exfalso; vm_compute in E; discriminate E].
  destruct (finish_reason_of_emitted exampleParse exampleClock exampleOrigin exactRound3
              exactMax0minus (Some "t-1") (sse doneStream) None exampleTiming r doneStream
              E eq_refl)
    as (rs & c & Hrs & Hterm & _ & Hn & _ & Hu).
  exists r, rs, c. split; [reflexivity|]. split; [exact Hrs|]. split; [exact Hterm|].
  split; [exact Hn | exact Hu].
Defined.

Lemma reasoning_content_split_witness :
  exists r rs cn,
    runParser reasoningStream = Some r /\ resp r = Some rs
    /\ reasoning_n (derived rs) = JNum 30
    /\ content_n (derived rs) = JNum cn
    /\ (30 + cn == 100)%Q.
Proof.
  destruct (runParser reasoningStream) as [r|] eqn:E;
    [|exfalso; vm_compute in E; discriminate E].
  destruct (reasoning_content_split exampleParse exampleClock exampleOrigin exactRound3
              exactMax0minus exactRound3_mono exactRound3_zero exactMax0minus_whole
              exactMax0minus_range exactMax0minus_floor exactRound3_near
              exactMax0minus_near
              (Some "t-1") (sse reasoningStream) None exampleTiming r reasoningStream
              E eq_refl)
    as (rs & c & fr & t & Hrs & Hterm & Et & _ & _ & Hsplit).
  cbv zeta in Hterm, Hsplit.
  assert (Hlw : lastWhere reasoningTimed
                  (chunksOfLines exampleParse
                     (linesRead exampleParse false (streamLines "" reasoningStream)))
                = Some reasoningChunk) by reflexivity.
  rewrite Hlw in Hsplit.
  assert (Hc : terminalOf exampleParse
                 (linesRead exampleParse false (streamLines "" reasoningStream))
               = Some (Examples.stopChunk, JStr "stop")) by reflexivity.
  rewrite Hc in Hterm. injection Hterm as <- <-.
  cbn in Et. injection Et as <-.
  destruct Hsplit as (tb & Etb & _ & _ & _ & _ & _ & Hn & _).
  cbn in Etb. injection Etb as <-.
  destruct (Hn 100%Q 30%Q 100 30 eq_refl eq_refl (Qeq_refl _) (Qeq_refl _))
    as (Hrn & cn & Hcn & Hle & _); [lia | lia |].
  exists r, rs, cn. split; [reflexivity|]. split; [exact Hrs|].
  split; [exact Hrn|]. split; [exact Hcn|]. apply Hle. lia.
Defined.

End BoundaryChecks.

Module CaptureFacts.
Import JS Aggregation Capture.

(** *** Size buckets *)

Ltac q_tests :=
  repeat match goal with
         | H : Qle_bool _ _ = true |- _ => apply Qle_bool_iff in H
         | H : Qle_bool ?a ?b = false |- _ =>
             assert (~ (a <= b)%Q) by (rewrite <- Qle_bool_iff; congruence); clear H
         | H : Qeq_bool _ _ = true |- _ => apply Qeq_bool_iff in H
         | H : Qeq_bool ?a ?b = false |- _ =>
             assert (~ (a == b)%Q) by (rewrite <- Qeq_bool_iff; congruence); clear H
         end.

Ltac bucket_cases x :=
  destruct (Qle_bool 0 x) eqn:?; simpl;
  [ destruct (Qeq_bool x 0) eqn:?;
    [ | destruct (Qle_bool x (10 * 1024)) eqn:?;
        [ | destruct (Qle_bool x (100 * 1024)) eqn:?;
            [ | destruct (Qle_bool x (500 * 1024)) eqn:?;
                [ | destruct (Qle_bool x (1024 * 1024)) eqn:?;
                    [ | destruct (Qle_bool x (5 * 1024 * 1024)) eqn:? ] ] ] ] ]
  | ].

(** X12: the size buckets are intervals: a size between two sizes of one
    bucket is in that bucket; and the bucket is "unknown" exactly for a
    missing or negative size. *)
Theorem bytesBucket_intervals :
  (forall x y z,
      (x <= y)%Q -> (y <= z)%Q ->
      bytesBucket (Some x) = bytesBucket (Some z) ->
      bytesBucket (Some y) = bytesBucket (Some x))
  /\ (forall x, bytesBucket x = "unknown" <-> x = None \/ exists q, x = Some q /\ (q < 0)%Q).
Proof.
  split.
  - intros x y z Hxy Hyz. unfold bytesBucket.
    bucket_cases x; bucket_cases z; try discriminate; intros _;
      bucket_cases y; try reflexivity; exfalso; q_tests; lra.
  - intros [q|]; unfold bytesBucket.
    + split.
      * bucket_cases q; try discriminate. intros _. right. exists q. split; [reflexivity|].
        q_tests. lra.
      * intros [H|(q' & H & Hq)]; [discriminate|]. injection H as <-.
        destruct (Qle_bool 0 q) eqn:E; [|reflexivity]. q_tests. lra.
    + split; [auto | reflexivity].
Qed.

(** *** Input mode *)

(** X13: the input mode names exactly the kinds of input present: it
    contains "text", "file" and "image" exactly when the request has
    text, files and images. *)
Theorem deriveInputMode_names_inputs textBytes hasFiles hasImages :
  let mode := deriveInputMode textBytes hasFiles hasImages in
  includes "text" mode = hasTextOf textBytes
  /\ includes "file" mode = hasFiles
  /\ includes "image" mode = hasImages.
Proof.
  unfold deriveInputMode.
  destruct (hasTextOf textBytes), hasFiles, hasImages; cbv zeta; simpl andb; cbv iota;
    repeat split; vm_compute; reflexivity.
Qed.

End CaptureFacts.

Module RequestFacts.
Import JS Aggregation Capture.

(** *** The current user prompt *)

Lemma find_rev_snoc {A} (f : A -> bool) l x :
  find f (rev (l ++ [x])) = if f x then Some x else find f (rev l).
Proof. rewrite rev_app_distr. reflexivity. Qed.

Lemma find_rev_none {A} (f : A -> bool) l :
  find f (rev l) = None <-> forall x, In x l -> f x = false.
Proof.
  split.
  - intros H x Hx. apply (find_none f (rev l) H). apply in_rev. rewrite rev_involutive. exact Hx.
  - intros H. destruct (find f (rev l)) as [y|] eqn:E; [|reflexivity].
    apply find_some in E. destruct E as [Hin Hf].
    apply in_rev in Hin. rewrite (H y Hin) in Hf. discriminate.
Qed.

Lemma find_app_skip {A} (f : A -> bool) l1 l2 :
  (forall x, In x l1 -> f x = false) -> find f (l1 ++ l2) = find f l2.
Proof.
  induction l1 as [|y l1 IH]; intros H; simpl; [reflexivity|].
  rewrite (H y (or_introl eq_refl)). apply IH. intros x Hx. apply H. right. exact Hx.
Qed.

Lemma find_rev_last {A} (f : A -> bool) pre m post :
  f m = true -> (forall x, In x post -> f x = false) ->
  find f (rev (pre ++ m :: post)) = Some m.
Proof.
  intros Hm Hpost. rewrite rev_app_distr. simpl rev. rewrite <- app_assoc.
  rewrite find_app_skip.
  - simpl. rewrite Hm. reflexivity.
  - intros x Hx. apply Hpost. apply in_rev. exact Hx.
Qed.

(** X5: the prompt text is null exactly when no message has the role
    "user"; otherwise it is the text of the last message of that role. *)
Theorem current_user_prompt bodyObj :
  (getCurrentUserPromptText bodyObj = None
   <-> forall m, In m (messagesOf bodyObj) -> isUserMessage m = false)
  /\ (forall pre m post,
        messagesOf bodyObj = (pre ++ m :: post)%list ->
        isUserMessage m = true ->
        (forall x, In x post -> isUserMessage x = false) ->
        getCurrentUserPromptText bodyObj
        = Some (extractTextFromMessageContent (prop "content" m))).
Proof.
  unfold getCurrentUserPromptText. split.
  - rewrite <- find_rev_none.
    destruct (find isUserMessage (rev (messagesOf bodyObj))); split; congruence.
  - intros pre m post -> Hm Hpost. rewrite (find_rev_last _ pre m post Hm Hpost). reflexivity.
Qed.

(** *** Text bytes of the messages *)

Section WithEncoder.
Variable utf8Bytes : string -> Z.

Abbreviation scanPart := (Capture.scanPart utf8Bytes).
Abbreviation scanMessage := (Capture.scanMessage utf8Bytes).
Abbreviation scanMessages := (Capture.scanMessages utf8Bytes).
Abbreviation estimate := (Capture.estimateMessagesBytesAndCounts utf8Bytes).

Lemma scanMessages_snoc ms m :
  scanMessages (ms ++ [m])
  = scanMessage (scanMessages ms) (Z.of_nat (length ms)) m.
Proof.
  unfold Capture.scanMessages.
  assert (H : forall ms a i,
             snd (fold_left (fun '(a, i) m => (Capture.scanMessage utf8Bytes a i m, i + 1))
                    ms (a, i)) = i + Z.of_nat (length ms)).
  { clear. induction ms as [|x ms IH]; intros a i; simpl fold_left.
    - simpl. lia.
    - rewrite IH. simpl length. lia. }
  rewrite fold_left_app. simpl fold_left.
  specialize (H ms msgAcc0 0).
  destruct (fold_left _ ms (msgAcc0, 0)) as [a i]. simpl in *. subst i. reflexivity.
Qed.

(** The text bytes a message contributes. *)
Lemma scanPart_frame st part :
  let st' := scanPart st part in
  acc_perMessageTextBytes (fst st') = acc_perMessageTextBytes (fst st)
  /\ acc_lastUserIndex (fst st') = acc_lastUserIndex (fst st)
  /\ acc_bytes (fst st') - snd st' = acc_bytes (fst st) - snd st.
Proof.
  unfold Capture.scanPart. destruct st as [a mtb].
  destruct (negb (isObjectLike part)); [cbn; repeat split; lia|].
  destruct (textOfPart part) as [text|];
    (destruct (imageUrlOfPart part) as [url|];
     [unfold addImagePart; destruct (matchDataUrl url) as [[mime b64]|]|]);
    cbn; repeat split; lia.
Qed.

Lemma scanParts_frame parts : forall st,
  let st' := fold_left scanPart parts st in
  acc_perMessageTextBytes (fst st') = acc_perMessageTextBytes (fst st)
  /\ acc_lastUserIndex (fst st') = acc_lastUserIndex (fst st)
  /\ acc_bytes (fst st') - snd st' = acc_bytes (fst st) - snd st.
Proof.
  induction parts as [|p parts IH]; intros st; simpl fold_left; [repeat split|].
  destruct (IH (scanPart st p)) as (A & B & C).
  destruct (scanPart_frame st p) as (A' & B' & C').
  cbv zeta. rewrite A, B, C. repeat split; assumption.
Qed.

Hypothesis utf8Bytes_nonneg : forall s, 0 <= utf8Bytes s.

Lemma scanPart_nonneg st part : 0 <= snd st -> 0 <= snd (scanPart st part).
Proof.
  unfold Capture.scanPart. destruct st as [a mtb]. intros H.
  destruct (negb (isObjectLike part)); [exact H|].
  destruct (textOfPart part) as [text|]; cbn in *; [pose proof (utf8Bytes_nonneg text)|]; lia.
Qed.

Lemma scanParts_nonneg parts : forall st,
  0 <= snd st -> 0 <= snd (fold_left scanPart parts st).
Proof.
  induction parts as [|p parts IH]; intros st H; simpl; [exact H|].
  apply IH, scanPart_nonneg, H.
Qed.

Lemma sumZ_app a b : sumZ (a ++ b) = sumZ a + sumZ b.
Proof. induction a as [|x a IH]; simpl; [reflexivity | rewrite IH; lia]. Qed.

Lemma nth_le_sum l : Forall (fun x => 0 <= x) l -> forall n, 0 <= nth n l 0 <= sumZ l.
Proof.
  induction 1 as [|x l Hx Hl IH]; intros n.
  - destruct n; simpl; lia.
  - assert (0 <= sumZ l) by (specialize (IH 0%nat); lia).
    destruct n; simpl; [lia|]. specialize (IH n). lia.
Qed.

(** After any messages, the total is the sum of the per-message
    figures, none of which is negative. *)
Lemma scanMessage_totals a i m :
  acc_bytes a = sumZ (acc_perMessageTextBytes a) ->
  Forall (fun x => 0 <= x) (acc_perMessageTextBytes a) ->
  let a' := scanMessage a i m in
  acc_bytes a' = sumZ (acc_perMessageTextBytes a')
  /\ Forall (fun x => 0 <= x) (acc_perMessageTextBytes a').
Proof.
  intros Hb Hf. unfold Capture.scanMessage.
  set (a0 := if isUserMessage m then setLastUserIndex a i else a).
  assert (Hb0 : acc_bytes a0 = sumZ (acc_perMessageTextBytes a0))
    by (unfold a0; destruct (isUserMessage m); exact Hb).
  assert (Hf0 : Forall (fun x => 0 <= x) (acc_perMessageTextBytes a0))
    by (unfold a0; destruct (isUserMessage m); exact Hf).
  destruct (prop "content" m) as [[| | |c|parts|]|]; cbv zeta;
    try (cbn; rewrite sumZ_app; simpl; split;
         [lia | apply Forall_app; split; [exact Hf0 | repeat constructor; lia]]).
  - cbn. rewrite sumZ_app. simpl. pose proof (utf8Bytes_nonneg c). split; [lia|].
    apply Forall_app. split; [exact Hf0 | repeat constructor; lia].
  - destruct (scanParts_frame parts (a0, 0)) as (A & _ & C).
    pose proof (scanParts_nonneg parts (a0, 0) (Z.le_refl 0)) as N.
    destruct (fold_left _ parts (a0, 0)) as [a1 mtb]. cbn in *.
    rewrite sumZ_app, A. simpl. split; [lia|].
    apply Forall_app. split; [exact Hf0 | repeat constructor; lia].
Qed.

Lemma scanMessages_totals ms :
  let a := scanMessages ms in
  acc_bytes a = sumZ (acc_perMessageTextBytes a)
  /\ Forall (fun x => 0 <= x) (acc_perMessageTextBytes a).
Proof.
  induction ms as [|m ms IH] using rev_ind.
  - cbn. split; [reflexivity | constructor].
  - rewrite scanMessages_snoc. destruct IH as [A B]. apply scanMessage_totals; assumption.
Qed.

(** X6: the text bytes of the current user message and of the history
    add up to the text bytes of all messages, and neither is negative. *)
Theorem text_bytes_split bodyObj :
  let info := estimateMessagesBytesAndCounts utf8Bytes bodyObj in
  currentUserTextBytes info + historyTextBytes info = messagesBytes info
  /\ 0 <= currentUserTextBytes info
  /\ 0 <= historyTextBytes info.
Proof.
  unfold Capture.estimateMessagesBytesAndCounts. cbn [currentUserTextBytes historyTextBytes messagesBytes].
  destruct (scanMessages_totals (messagesOf bodyObj)) as [A B].
  set (a := scanMessages (messagesOf bodyObj)) in *.
  pose proof (nth_le_sum _ B (Z.to_nat (acc_lastUserIndex a))) as N.
  assert (0 <= sumZ (acc_perMessageTextBytes a)) by lia.
  destruct (_ && _)%bool; lia.
Qed.

Hypothesis utf8Bytes_app : forall a b, utf8Bytes (a ++ b) = utf8Bytes a + utf8Bytes b.

Lemma utf8Bytes_empty : utf8Bytes "" = 0.
Proof. pose proof (utf8Bytes_app "" ""). change ("" ++ "") with "" in H. lia. Qed.

(** The text bytes counted for the parts of a content array are the
    bytes of the text extracted from it. *)
Lemma scanParts_extract parts : forall a mtb out,
  utf8Bytes out = mtb ->
  utf8Bytes
    (fold_left
       (fun out part =>
          if negb (isObjectLike part) then out
          else match textOfPart part with Some text => out ++ text | None => out end)
       parts out)
  = snd (fold_left scanPart parts (a, mtb)).
Proof.
  induction parts as [|p parts IH]; intros a mtb out H; simpl fold_left; [exact H|].
  unfold Capture.scanPart at 2.
  destruct (negb (isObjectLike p)); [apply IH, H|].
  destruct (textOfPart p) as [text|]; apply IH; [rewrite utf8Bytes_app|]; cbn; lia.
Qed.

Lemma scanMessage_per a i m :
  acc_perMessageTextBytes (scanMessage a i m)
  = (acc_perMessageTextBytes a
       ++ [utf8Bytes (extractTextFromMessageContent (prop "content" m))])%list
  /\ acc_lastUserIndex (scanMessage a i m)
     = if isUserMessage m then i else acc_lastUserIndex a.
Proof.
  unfold Capture.scanMessage, extractTextFromMessageContent.
  set (a0 := if isUserMessage m then setLastUserIndex a i else a).
  assert (Hp : acc_perMessageTextBytes a0 = acc_perMessageTextBytes a)
    by (unfold a0; destruct (isUserMessage m); reflexivity).
  assert (Hl : acc_lastUserIndex a0 = if isUserMessage m then i else acc_lastUserIndex a)
    by (unfold a0; destruct (isUserMessage m); reflexivity).
  destruct (prop "content" m) as [[| | |c|parts|]|]; cbv zeta;
    try (cbn; rewrite Hp, Hl, utf8Bytes_empty; split; reflexivity).
  - cbn. rewrite Hp, Hl. split; reflexivity.
  - rewrite (scanParts_extract parts a0 0 "" utf8Bytes_empty).
    destruct (scanParts_frame parts (a0, 0)) as (A & B & _).
    destruct (fold_left _ parts (a0, 0)) as [a1 mtb]. cbn in *.
    rewrite A, B, Hp, Hl. split; reflexivity.
Qed.

Lemma scanMessages_current ms :
  let a := scanMessages ms in
  length (acc_perMessageTextBytes a) = length ms
  /\ -1 <= acc_lastUserIndex a < Z.of_nat (length ms)
  /\ (if Z.leb 0 (acc_lastUserIndex a)
      then nth (Z.to_nat (acc_lastUserIndex a)) (acc_perMessageTextBytes a) 0
      else 0)
     = match find isUserMessage (rev ms) with
       | Some m => utf8Bytes (extractTextFromMessageContent (prop "content" m))
       | None => 0
       end.
Proof.
  induction ms as [|m ms IH] using rev_ind.
  - cbn. repeat split; lia.
  - rewrite scanMessages_snoc, find_rev_snoc. cbv zeta in *.
    destruct IH as (Hlen & Hidx & Hcur).
    destruct (scanMessage_per (scanMessages ms) (Z.of_nat (length ms)) m) as [Hp Hl].
    rewrite Hp, Hl. rewrite !length_app, Hlen. simpl length.
    split; [lia|].
    destruct (isUserMessage m).
    + split; [lia|].
      destruct (Z.leb_spec 0 (Z.of_nat (length ms))); [|lia].
      rewrite Nat2Z.id, <- Hlen, nth_middle. reflexivity.
    + split; [lia|]. rewrite <- Hcur.
      destruct (Z.leb_spec 0 (acc_lastUserIndex (scanMessages ms))); [|reflexivity].
      apply app_nth1. lia.
Qed.

(** X7: when the byte count of a text is the sum of the byte counts of
    its pieces, the bytes counted for the current user message are the
    bytes of the prompt text captured for the record, and zero when
    there is no user message. *)
Theorem current_user_bytes_of_prompt bodyObj :
  currentUserTextBytes (estimateMessagesBytesAndCounts utf8Bytes bodyObj)
  = match getCurrentUserPromptText bodyObj with
    | Some text => utf8Bytes text
    | None => 0
    end.
Proof.
  unfold Capture.estimateMessagesBytesAndCounts, getCurrentUserPromptText.
  cbn [currentUserTextBytes].
  destruct (scanMessages_current (messagesOf bodyObj)) as (Hlen & Hidx & Hcur).
  set (a := scanMessages (messagesOf bodyObj)) in *.
  rewrite Hlen.
  replace (Z.ltb (acc_lastUserIndex a) (Z.of_nat (length (messagesOf bodyObj)))) with true
    by (symmetry; apply Z.ltb_lt; lia).
  rewrite andb_true_r, Hcur.
  destruct (find isUserMessage (rev (messagesOf bodyObj))); reflexivity.
Qed.

End WithEncoder.

(** *** Images of the messages *)

Section Images.
Variable utf8Bytes : string -> Z.

Abbreviation scanPart := (Capture.scanPart utf8Bytes).
Abbreviation scanMessage := (Capture.scanMessage utf8Bytes).
Abbreviation scanMessages := (Capture.scanMessages utf8Bytes).
Abbreviation estimate := (Capture.estimateMessagesBytesAndCounts utf8Bytes).

Lemma sumPresent_app a b : sumPresent (a ++ b) = sumPresent a + sumPresent b.
Proof.
  induction a as [|[x|] a IH]; simpl; [reflexivity | rewrite IH; lia | exact IH].
Qed.

Lemma imagesAccounted_fields a a' :
  acc_hasImages a' = acc_hasImages a ->
  acc_imagesBytes a' = acc_imagesBytes a ->
  acc_imagePartsCount a' = acc_imagePartsCount a ->
  acc_imageMimeTypes a' = acc_imageMimeTypes a ->
  acc_imageBytesByPart a' = acc_imageBytesByPart a ->
  acc_imageMimesByPart a' = acc_imageMimesByPart a ->
  imagesAccounted a -> imagesAccounted a'.
Proof. unfold imagesAccounted. intros -> -> -> -> -> ->. auto. Qed.

Lemma imagesAccounted_addImagePart a url :
  imagesAccounted a -> imagesAccounted (addImagePart a url).
Proof.
  intros (Hc & Hl & Hh & Hb & Hn & Hf & Hd & Ht). unfold addImagePart.
  destruct (matchDataUrl url) as [[mime b64]|]; unfold imagesAccounted; cbn.
  - rewrite !length_app, sumPresent_app. simpl.
    split; [lia|]. split; [lia|].
    split; [symmetry; apply Z.ltb_lt; lia|].
    split; [lia|].
    split; [apply Forall_app; split;
              [exact Hn | repeat constructor; unfold decodedBytes; lia]|].
    split; [apply Forall2_app; [exact Hf|];
            constructor; [split; discriminate | constructor]|].
    split; [apply AggregationFacts.NoDup_set_add, Hd|].
    intros x. rewrite AggregationFacts.In_set_add, in_app_iff, Ht. simpl.
    split; [intros [->|H]; auto | intros [H|[H|[]]]; [auto | injection H as ->; auto]].
  - rewrite !length_app, sumPresent_app. simpl.
    split; [lia|]. split; [lia|].
    split; [symmetry; apply Z.ltb_lt; lia|].
    split; [lia|].
    split; [apply Forall_app; split; [exact Hn | repeat constructor]|].
    split; [apply Forall2_app; [exact Hf|];
            constructor; [split; reflexivity | constructor]|].
    split; [exact Hd|].
    intros x. rewrite in_app_iff, Ht. simpl.
    split; [auto | intros [H|[H|[]]]; [auto | discriminate]].
Qed.

Lemma imagesAccounted_scanPart st part :
  imagesAccounted (fst st) -> imagesAccounted (fst (scanPart st part)).
Proof.
  unfold Capture.scanPart. destruct st as [a mtb]. intros H.
  destruct (negb (isObjectLike part)); [exact H|].
  assert (H1 : forall n, imagesAccounted (addTextBytes a n))
    by (intros n; revert H; apply imagesAccounted_fields; reflexivity).
  destruct (textOfPart part) as [text|]; destruct (imageUrlOfPart part) as [url|]; cbn;
    try apply imagesAccounted_addImagePart; auto.
Qed.

Lemma imagesAccounted_scanParts parts : forall st,
  imagesAccounted (fst st) -> imagesAccounted (fst (fold_left scanPart parts st)).
Proof.
  induction parts as [|p parts IH]; intros st H; simpl; [exact H|].
  apply IH, imagesAccounted_scanPart, H.
Qed.

Lemma imagesAccounted_scanMessage a i m :
  imagesAccounted a -> imagesAccounted (scanMessage a i m).
Proof.
  intros H. unfold Capture.scanMessage.
  set (a0 := if isUserMessage m then setLastUserIndex a i else a).
  assert (H0 : imagesAccounted a0).
  { unfold a0. destruct (isUserMessage m); [|exact H].
    revert H. apply imagesAccounted_fields; reflexivity. }
  destruct (prop "content" m) as [[| | |c|parts|]|]; cbv zeta;
    try (revert H0; apply imagesAccounted_fields; reflexivity).
  pose proof (imagesAccounted_scanParts parts (a0, 0) H0) as H1.
  destruct (fold_left _ parts (a0, 0)) as [a1 mtb]. cbn in H1.
  revert H1. apply imagesAccounted_fields; reflexivity.
Qed.

Lemma imagesAccounted_scanMessages ms : imagesAccounted (scanMessages ms).
Proof.
  induction ms as [|m ms IH] using rev_ind.
  - unfold imagesAccounted. cbn. repeat split; auto; try constructor; intros [].
  - rewrite (scanMessages_snoc utf8Bytes). apply imagesAccounted_scanMessage, IH.
Qed.

(** X8: the image figures of a request agree with each other: one
    entry per image part in the two per-part lists, [hasImages] exactly
    when there is an image part, the total of the decoded sizes, a size
    exactly where there is a type, and each type listed once. *)
Theorem image_figures_agree bodyObj :
  let info := estimateMessagesBytesAndCounts utf8Bytes bodyObj in
  imagePartsCount info = Z.of_nat (length (imageBytesByPart info))
  /\ length (imageBytesByPart info) = length (imageMimesByPart info)
  /\ mi_hasImages info = Z.ltb 0 (imagePartsCount info)
  /\ imagesBytes info = sumPresent (imageBytesByPart info)
  /\ 0 <= imagesBytes info
  /\ Forall2 (fun b m => b = None <-> m = None)
       (imageBytesByPart info) (imageMimesByPart info)
  /\ List.NoDup (imageMimeTypes info)
  /\ (forall x, In x (imageMimeTypes info) <-> In (Some x) (imageMimesByPart info)).
Proof.
  destruct (imagesAccounted_scanMessages (messagesOf bodyObj))
    as (Hc & Hl & Hh & Hb & Hn & Hf & Hd & Ht).
  unfold Capture.estimateMessagesBytesAndCounts. cbn.
  repeat (split; [assumption|]).
  split; [|repeat (split; [assumption|]); assumption].
  rewrite Hb. clear -Hn. induction Hn as [|[x|] l Hx _ IH]; simpl; lia.
Qed.

End Images.
End RequestFacts.

Module EncodingFacts.
Import JS Aggregation Capture StringFacts.

(** *** Suffixes of a string *)

Lemma endsWith_spec suffix s :
  endsWith suffix s = true <-> exists a, s = a ++ suffix.
Proof.
  unfold endsWith. split.
  - intros H. apply andb_true_iff in H. destruct H as [Hl He].
    apply Nat.leb_le in Hl. apply String.eqb_eq in He.
    destruct (sliceFrom_split (String.length s - String.length suffix) s) as (a & Ha & _);
      [lia|].
    exists a. rewrite <- He. exact Ha.
  - intros (a & ->). rewrite str_length_app. apply andb_true_iff. split.
    + apply Nat.leb_le. lia.
    + replace (String.length a + String.length suffix - String.length suffix)%nat
        with (String.length a) by lia.
      rewrite sliceFrom_app. apply String.eqb_refl.
Qed.

Lemma endsWith_false suffix s :
  endsWith suffix s = false <-> ~ exists a, s = a ++ suffix.
Proof.
  rewrite <- endsWith_spec. destruct (endsWith suffix s); split; congruence.
Qed.

(** The padding that [decodedBytes] reads off a text that ends in
    [p] equals signs, with [p] at most two. *)
Lemma padding_read body p :
  endsWith "=" body = false -> (p <= 2)%nat ->
  (if endsWith "==" (body ++ equalsSigns p) then 2
   else if endsWith "=" (body ++ equalsSigns p) then 1 else 0)
  = Z.of_nat p.
Proof.
  intros Hb Hp. rewrite endsWith_false in Hb.
  destruct p as [|[|[|p]]]; [| | |lia]; simpl equalsSigns.
  - rewrite str_app_nil_r.
    assert (H2 : endsWith "==" body = false).
    { apply endsWith_false. intros (a & ->). apply Hb. exists (a ++ "=").
      rewrite str_app_assoc. reflexivity. }
    assert (H1 : endsWith "=" body = false) by (apply endsWith_false, Hb).
    rewrite H2, H1. reflexivity.
  - assert (H2 : endsWith "==" (body ++ "=") = false).
    { apply endsWith_false. intros (a & H). apply Hb. exists a.
      apply (str_app_inv_tail _ _ "="). rewrite H, str_app_assoc. reflexivity. }
    assert (H1 : endsWith "=" (body ++ "=") = true)
      by (apply endsWith_spec; exists body; reflexivity).
    rewrite H2, H1. reflexivity.
  - assert (H2 : endsWith "==" (body ++ "==") = true)
      by (apply endsWith_spec; exists body; reflexivity).
    rewrite H2. reflexivity.
Qed.

(** X9: for the base64 text of [n] bytes (its characters followed by
    the padding that completes the last group of four), the decoded
    size computed from the text is [n]. *)
Theorem decodedBytes_of_base64 n body :
  0 <= n ->
  strlen body = base64Length n ->
  endsWith "=" body = false ->
  decodedBytes (body ++ equalsSigns (Z.to_nat (base64Padding n))) = n.
Proof.
  intros Hn Hlen Hb. unfold decodedBytes.
  assert (Hp : 0 <= base64Padding n <= 2).
  { unfold base64Padding. pose proof (Z.mod_pos_bound (3 - n mod 3) 3). lia. }
  rewrite (padding_read body (Z.to_nat (base64Padding n)) Hb) by lia.
  rewrite Z2Nat.id by lia.
  assert (Hs : strlen (body ++ equalsSigns (Z.to_nat (base64Padding n)))
               = 4 * ((n + 2) / 3)).
  { unfold strlen in *. rewrite str_length_app, Nat2Z.inj_add, Hlen. unfold base64Length.
    assert (E : Z.of_nat (String.length (equalsSigns (Z.to_nat (base64Padding n))))
                = base64Padding n).
    { generalize (Z.to_nat (base64Padding n)) (Z2Nat.id (base64Padding n) (proj1 Hp)).
      intros k <-. induction k as [|k IH]; [reflexivity|].
      simpl equalsSigns. simpl String.length. lia. }
    lia. }
  rewrite Hs.
  replace (4 * ((n + 2) / 3) * 3 / 4) with (3 * ((n + 2) / 3))
    by (apply Z.div_unique_exact; lia).
  unfold base64Padding in *.
  pose proof (Z.div_mod n 3 ltac:(lia)) as Hd.
  pose proof (Z.mod_pos_bound n 3 ltac:(lia)) as Hm.
  assert (Hcase : n mod 3 = 0 \/ n mod 3 = 1 \/ n mod 3 = 2) by lia.
  destruct Hcase as [E|[E|E]]; rewrite E in *.
  - replace ((n + 2) / 3) with (n / 3)
      by (apply (Z.div_unique (n + 2) 3 (n / 3) 2); lia).
    change ((3 - 0) mod 3) with 0. lia.
  - replace ((n + 2) / 3) with (n / 3 + 1)
      by (apply (Z.div_unique (n + 2) 3 (n / 3 + 1) 0); lia).
    change ((3 - 1) mod 3) with 2. lia.
  - replace ((n + 2) / 3) with (n / 3 + 1)
      by (apply (Z.div_unique (n + 2) 3 (n / 3 + 1) 1); lia).
    change ((3 - 2) mod 3) with 1. lia.
Qed.

End EncodingFacts.

Module ParamFacts.
Import JS Model Aggregation Capture.

Lemma hasOwn_prop k b : hasOwn k b = match prop k b with Some _ => true | None => false end.
Proof. destruct b; reflexivity. Qed.

(** What a lookup finds among the picked properties. *)
Lemma pickKeys_get keys b k :
  List.NoDup keys ->
  map_get k (pickKeys keys b)
  = if existsb (String.eqb k) keys then prop k b else None.
Proof.
  induction 1 as [|k' keys Hk' Hnd IH]; simpl; [reflexivity|].
  rewrite hasOwn_prop.
  destruct (String.eqb_spec k k') as [->|Hne]; simpl.
  - destruct (prop k' b) as [v|] eqn:Hv.
    + simpl. rewrite String.eqb_refl. reflexivity.
    + rewrite IH.
      destruct (existsb (String.eqb k') keys) eqn:E; [|reflexivity].
      exfalso. apply Hk'. apply existsb_exists in E. destruct E as (x & Hx & Hxe).
      apply String.eqb_eq in Hxe. subst x. exact Hx.
  - destruct (prop k' b) as [v|].
    + simpl. destruct (String.eqb_spec k k'); [congruence | apply IH].
    + apply IH.
Qed.

Lemma NoDup_strings (l : list string) :
  (forallb (fun k => Nat.eqb (length (List.filter (String.eqb k) l)) 1) l) = true ->
  List.NoDup l.
Proof.
  intros H. rewrite forallb_forall in H.
  assert (G : forall l0 : list string,
             (forall k, In k l0 -> (length (List.filter (String.eqb k) l0) <= 1)%nat) ->
             List.NoDup l0).
  { clear. induction l0 as [|x l0 IH]; intros H; constructor.
    - intros Hx. specialize (H x (or_introl eq_refl)). simpl in H.
      rewrite String.eqb_refl in H. simpl in H.
      assert (In x (List.filter (String.eqb x) l0))
        by (apply filter_In; split; [exact Hx | apply String.eqb_refl]).
      destruct (List.filter (String.eqb x) l0); [contradiction | simpl in H; lia].
    - apply IH. intros k Hk. specialize (H k (or_intror Hk)). simpl in H.
      destruct (String.eqb k x); simpl in H; lia. }
  apply G. intros k Hk. specialize (H k Hk). apply Nat.eqb_eq in H. lia.
Qed.

Lemma PARAM_KEYS_NoDup : List.NoDup PARAM_KEYS.
Proof. apply NoDup_strings. vm_compute. reflexivity. Qed.

Lemma RUNTIME_KEYS_NoDup : List.NoDup RUNTIME_KEYS.
Proof. apply NoDup_strings. vm_compute. reflexivity. Qed.

(** X10: the parameters kept of a request body are its properties
    under the eleven listed keys, with their values; no other property of
    the body is kept. *)
Theorem picked_params body k :
  prop k (pickParams (Some body))
  = if existsb (String.eqb k) PARAM_KEYS then prop k body else None.
Proof.
  unfold pickParams.
  destruct (truthy body) eqn:Ht.
  - cbn [prop]. apply pickKeys_get, PARAM_KEYS_NoDup.
  - destruct (existsb (String.eqb k) PARAM_KEYS);
      destruct body; try discriminate; reflexivity.
Qed.

Lemma pickKeys_nil keys b :
  pickKeys keys b = [] <-> forall k, In k keys -> hasOwn k b = false.
Proof.
  induction keys as [|k' keys IH]; simpl.
  - split; [intros _ k [] | reflexivity].
  - rewrite hasOwn_prop. destruct (prop k' b) as [v|] eqn:Hv.
    + split; [discriminate|]. intros H. specialize (H k' (or_introl eq_refl)).
      rewrite hasOwn_prop, Hv in H. discriminate.
    + rewrite IH. split.
      * intros H k [<-|Hk]; [rewrite hasOwn_prop, Hv; reflexivity | apply H, Hk].
      * intros H k Hk. apply H. right. exact Hk.
Qed.

(** X11: the runtime bucket of a request is "default_or_unknown" when
    the body sets none of the eighteen runtime keys; otherwise it is the
    bucket of the body itself: keeping only the runtime keys changes
    nothing to it. *)
Theorem runtime_bucket_of_body body :
  isObjectLike body = true ->
  ((forall k, In k RUNTIME_KEYS -> hasOwn k body = false) ->
   deriveRuntimeBucket (pickRuntimeContext (Some body)) = "default_or_unknown")
  /\ ((exists k, In k RUNTIME_KEYS /\ hasOwn k body = true) ->
      deriveRuntimeBucket (pickRuntimeContext (Some body))
      = deriveRuntimeBucket (Some body)).
Proof.
  intros Ho. unfold pickRuntimeContext. rewrite Ho. simpl negb. cbv iota. split.
  - intros H. apply pickKeys_nil in H. rewrite H. reflexivity.
  - intros (k & Hk & Hown).
    destruct (pickKeys RUNTIME_KEYS body) as [|e out] eqn:E.
    { rewrite (proj1 (pickKeys_nil RUNTIME_KEYS body) E k Hk) in Hown. discriminate. }
    rewrite <- E. unfold deriveRuntimeBucket. rewrite Ho. simpl negb. cbv iota.
    assert (G : forall key, existsb (String.eqb key) RUNTIME_KEYS = true ->
                prop key (VObj (pickKeys RUNTIME_KEYS body)) = prop key body).
    { intros key Hkey. cbn [prop].
      rewrite (pickKeys_get RUNTIME_KEYS body key RUNTIME_KEYS_NoDup), Hkey.
      destruct body; reflexivity. }
    rewrite !hasOwn_prop.
    rewrite (G "n_gpu_layers" eq_refl), (G "gpu_layers" eq_refl),
      (G "n_threads" eq_refl), (G "threads" eq_refl), (G "n_ctx" eq_refl).
    reflexivity.
Qed.

End ParamFacts.

Module LabelFacts.
Import JS Model Aggregation Capture Attachments Labels StringFacts.

Lemma deriveInputMode_nonempty t f i : deriveInputMode t f i <> "".
Proof.
  unfold deriveInputMode.
  destruct (hasTextOf t), f, i; simpl; discriminate.
Qed.

Lemma bytesBucket_nonempty x : bytesBucket x <> "".
Proof.
  unfold bytesBucket. destruct x as [x|]; [|discriminate].
  repeat match goal with |- context [if ?c then _ else _] => destruct c end; discriminate.
Qed.

Lemma deriveRuntimeBucket_nonempty rc : deriveRuntimeBucket rc <> "".
Proof.
  unfold deriveRuntimeBucket. destruct rc as [rc|]; [|discriminate].
  repeat match goal with |- context [if ?c then _ else _] => destruct c end; discriminate.
Qed.

Lemma join_nonempty sep x l : x <> "" -> join sep (x :: l) <> "".
Proof.
  intros Hx. destruct l as [|y l]; simpl; [exact Hx|].
  destruct x as [|c x]; [congruence|]. rewrite str_app_cons. discriminate.
Qed.

(** X14: the file kind label of a request does not depend on the order
    in which the kinds were seen. *)
Theorem file_kind_set_order msgInfo am am' rc :
  Permutation (am_kinds_seen am) (am_kinds_seen am') ->
  file_kind_set (deriveScenarioLabels msgInfo am rc)
  = file_kind_set (deriveScenarioLabels msgInfo am' rc).
Proof.
  intros Hp. unfold deriveScenarioLabels. cbn [file_kind_set]. f_equal.
  set (keep := fun k : string => negb (String.eqb k "")).
  assert (Hf : Permutation (List.filter keep (am_kinds_seen am))
                 (List.filter keep (am_kinds_seen am')))
    by (apply PermutationFacts.filter_perm, Hp).
  rewrite (SortUnique.sort_codeUnits_unique _ _ Hf).
  destruct (List.filter keep (am_kinds_seen am)) as [|x l] eqn:E1;
    destruct (List.filter keep (am_kinds_seen am')) as [|y l'] eqn:E2; try reflexivity.
  - apply Permutation_nil in Hf. discriminate.
  - apply Permutation_sym, Permutation_nil in Hf. discriminate.
Qed.

Lemma strOr_nonempty s d : s <> "" -> strOr (Some s) d = s.
Proof.
  intros H. unfold strOr. destruct (String.eqb_spec s ""); [contradiction | reflexivity].
Qed.

Lemma file_kind_label_nonempty kinds :
  (match List.filter (fun k => negb (String.eqb k "")) kinds with
   | [] => "none"
   | _ => join "+" (sort compareCodeUnits
                      (List.filter (fun k => negb (String.eqb k "")) kinds))
   end) <> "".
Proof.
  set (ks := List.filter (fun k => negb (String.eqb k "")) kinds).
  assert (Hks : forall x, In x ks -> x <> "").
  { intros x Hx. apply filter_In in Hx. destruct Hx as [_ Hx].
    destruct (String.eqb_spec x ""); [discriminate | assumption]. }
  destruct ks as [|k ks'] eqn:E; [discriminate|].
  destruct (sort compareCodeUnits (k :: ks')) as [|x l] eqn:Es.
  - apply (f_equal (@length string)) in Es. rewrite SortFacts.sort_length in Es. discriminate.
  - apply join_nonempty. apply Hks.
    apply (SortFacts.sort_In compareCodeUnits). rewrite Es. left. reflexivity.
Qed.

(** X15: a record whose request carries the labels derived at capture is
    grouped, in each breakdown by label, under that label: the fallback
    keys of the breakdowns are not used for it. *)
Theorem labels_are_breakdown_keys r q msgInfo am rc :
  req r = Some q ->
  scenario_labels q = deriveScenarioLabels msgInfo am rc ->
  Some (keyInputMode r) = input_mode (scenario_labels q)
  /\ Some (keyUserTextSize r) = current_user_text_size_bucket (scenario_labels q)
  /\ Some (keyFileSize r) = file_size_bucket (scenario_labels q)
  /\ Some (keyImageSize r) = image_size_bucket (scenario_labels q)
  /\ Some (keyFileKind r) = file_kind_set (scenario_labels q)
  /\ Some (keyRuntime r) = runtime_bucket (scenario_labels q).
Proof.
  intros Hq HL.
  unfold keyInputMode, keyUserTextSize, keyFileSize, keyImageSize, keyFileKind, keyRuntime,
    labelOf.
  rewrite Hq, HL. unfold deriveScenarioLabels.
  cbn [input_mode current_user_text_size_bucket file_size_bucket image_size_bucket
       file_kind_set runtime_bucket].
  rewrite (strOr_nonempty _ _ (deriveInputMode_nonempty _ _ _)).
  rewrite !(strOr_nonempty _ _ (bytesBucket_nonempty _)).
  rewrite (strOr_nonempty _ _ (deriveRuntimeBucket_nonempty _)).
  rewrite (strOr_nonempty _ _ (file_kind_label_nonempty _)).
  repeat split.
Qed.

End LabelFacts.

Module FileFacts.
Import JS Aggregation Attachments StringFacts.

(** *** Lower case *)

Lemma lowerCodeUnit_idem c : lowerCodeUnit (lowerCodeUnit c) = lowerCodeUnit c.
Proof.
  destruct c as [b0 b1 b2 b3 b4 b5 b6 b7].
  destruct b0, b1, b2, b3, b4, b5, b6, b7; reflexivity.
Qed.

Lemma toLowerCase_idem s : toLowerCase (toLowerCase s) = toLowerCase s.
Proof.
  induction s as [|c s IH]; simpl; [reflexivity|].
  rewrite lowerCodeUnit_idem, IH. reflexivity.
Qed.

Lemma toLowerCase_app a b : toLowerCase (a ++ b) = toLowerCase a ++ toLowerCase b.
Proof.
  induction a as [|c a IH]; [reflexivity|].
  rewrite str_app_cons. simpl. rewrite IH. reflexivity.
Qed.

Lemma lowerCodeUnit_dot c : lowerCodeUnit c = "."%char <-> c = "."%char.
Proof.
  destruct c as [b0 b1 b2 b3 b4 b5 b6 b7].
  destruct b0, b1, b2, b3, b4, b5, b6, b7; split; intros H; try reflexivity;
    try discriminate H.
Qed.

(** *** The extension of a file name *)

Lemma includes_cons needle c s :
  includes needle (String c s)
  = (String.prefix needle (String c s) || includes needle s)%bool.
Proof. reflexivity. Qed.

Lemma prefix_empty s : String.prefix "" s = true.
Proof. destruct s; reflexivity. Qed.

Lemma prefix_cons a s1 b s2 :
  String.prefix (String a s1) (String b s2)
  = if ascii_dec a b then String.prefix s1 s2 else false.
Proof. reflexivity. Qed.

Lemma includes_dot s : includes "." s = false <-> noDot s.
Proof.
  induction s as [|c s IH].
  - split; [intros _ c [] | reflexivity].
  - rewrite includes_cons, prefix_cons.
    destruct (ascii_dec "."%char c) as [<-|Hc].
    + rewrite prefix_empty. split; [intros H; simpl in H; discriminate H|].
      intros H; exfalso; apply (H "."%char); [left|]; reflexivity.
    + rewrite orb_false_l, IH. split.
      * intros H x [<-|Hx]; [congruence | apply H, Hx].
      * intros H x Hx. apply H. right. exact Hx.
Qed.

Lemma lastSegment_noDot s : forall cur, noDot s -> lastSegment cur s = cur ++ s.
Proof.
  induction s as [|c s IH]; intros cur H; simpl.
  - rewrite str_app_nil_r. reflexivity.
  - destruct (Ascii.eqb_spec c "."%char) as [->|_].
    + exfalso. apply (H "."%char); [left|]; reflexivity.
    + rewrite IH by (intros x Hx; apply H; right; exact Hx).
      rewrite str_app_assoc. reflexivity.
Qed.

Lemma lastSegment_dot a : forall cur b,
  lastSegment cur (a ++ String "."%char b) = lastSegment "" b.
Proof.
  induction a as [|c a IH]; intros cur b.
  - rewrite str_app_nil_l. reflexivity.
  - rewrite str_app_cons. simpl. destruct (Ascii.eqb c "."%char); apply IH.
Qed.

Lemma includes_after a b : includes "." (a ++ String "."%char b) = true.
Proof.
  induction a as [|c a IH].
  - rewrite str_app_nil_l, includes_cons, prefix_cons.
    destruct (ascii_dec "."%char "."%char); [rewrite prefix_empty; reflexivity | congruence].
  - rewrite str_app_cons, includes_cons, IH. apply orb_true_r.
Qed.

Lemma noDot_toLowerCase s : noDot s -> noDot (toLowerCase s).
Proof.
  induction s as [|c s IH]; intros H x Hx; simpl in Hx; [contradiction|].
  destruct Hx as [<-|Hx].
  - intros E. apply (H c); [left; reflexivity | exact (proj1 (lowerCodeUnit_dot c) E)].
  - apply IH; [|exact Hx]. intros y Hy. apply H. right. exact Hy.
Qed.

Lemma lastSegment_never_dot s : forall cur, noDot cur -> noDot (lastSegment cur s).
Proof.
  induction s as [|c s IH]; intros cur H; simpl; [exact H|].
  destruct (Ascii.eqb_spec c "."%char) as [->|Hc].
  - apply IH. intros x [].
  - apply IH. intros x Hx.
    assert (E : list_ascii_of_string (cur ++ String c "")
                = (list_ascii_of_string cur ++ [c])%list).
    { clear. induction cur as [|y cur IH]; [reflexivity|].
      rewrite str_app_cons. simpl. rewrite IH. reflexivity. }
    rewrite E in Hx. apply in_app_or in Hx. destruct Hx as [Hx|[<-|[]]]; [apply H, Hx | exact Hc].
Qed.

(** X17: the extension of "base.ext", for an "ext" without a dot, is
    "ext" in lower case; a name without a dot, or no name, has the empty
    extension; and an extension never contains a dot. *)
Theorem getFileExt_of_name :
  (forall base ext,
      noDot ext -> getFileExt (Some (base ++ String "."%char ext)) = toLowerCase ext)
  /\ (forall name, noDot name -> getFileExt (Some name) = "")
  /\ getFileExt None = ""
  /\ (forall name, noDot (getFileExt name)).
Proof.
  split; [|split; [|split]].
  - intros base ext H. unfold getFileExt.
    rewrite toLowerCase_app. simpl toLowerCase.
    change (lowerCodeUnit "."%char) with "."%char.
    rewrite includes_after, lastSegment_dot.
    rewrite lastSegment_noDot by (apply noDot_toLowerCase, H). reflexivity.
  - intros name H. unfold getFileExt.
    rewrite (proj2 (includes_dot (toLowerCase name)) (noDot_toLowerCase name H)).
    reflexivity.
  - reflexivity.
  - intros name. unfold getFileExt.
    destruct (includes "." _); [|intros c []].
    apply lastSegment_never_dot. intros c [].
Qed.

(** *** Kinds of files *)

(** X18: the two classifications agree on documents: a file is a PDF
    for one exactly when it is for the other; a file that is text as an
    attachment is a text document; and a file that is no document is an
    image, audio or other attachment.  Both ignore the case of the type
    and of the name. *)
Theorem kinds_agree mime name :
  (classifyDocumentKind mime name = Some "pdf" <-> classifyAttachmentKind mime name = "pdf")
  /\ (classifyAttachmentKind mime name = "text" -> classifyDocumentKind mime name = Some "text")
  /\ (classifyDocumentKind mime name = None ->
      classifyAttachmentKind mime name = "image"
      \/ classifyAttachmentKind mime name = "audio"
      \/ classifyAttachmentKind mime name = "other")
  /\ classifyAttachmentKind (option_map toLowerCase mime) (option_map toLowerCase name)
     = classifyAttachmentKind mime name
  /\ classifyDocumentKind (option_map toLowerCase mime) (option_map toLowerCase name)
     = classifyDocumentKind mime name.
Proof.
  assert (Hm : match option_map toLowerCase mime with Some m => toLowerCase m | None => "" end
               = match mime with Some m => toLowerCase m | None => "" end)
    by (destruct mime; simpl; [apply toLowerCase_idem | reflexivity]).
  assert (He : getFileExt (option_map toLowerCase name) = getFileExt name)
    by (unfold getFileExt; destruct name; simpl; [rewrite toLowerCase_idem|]; reflexivity).
  unfold classifyDocumentKind, classifyAttachmentKind. rewrite Hm, He.
  set (safeMime := match mime with Some m => toLowerCase m | None => "" end).
  set (ext := getFileExt name).
  destruct (String.eqb safeMime "application/pdf" || String.eqb ext "pdf")%bool.
  { repeat split; auto; discriminate. }
  destruct (String.prefix "image/" safeMime || set_has ext IMAGE_FILE_EXTENSIONS)%bool;
    destruct (String.prefix "audio/" safeMime || set_has ext AUDIO_FILE_EXTENSIONS)%bool;
    destruct (isTextMime safeMime || set_has ext TEXT_FILE_EXTENSIONS)%bool;
    repeat split; auto; discriminate.
Qed.

(** *** Names kept for a pending document *)

Lemma set_has_In x s : set_has x s = true <-> In x s.
Proof.
  unfold set_has. rewrite existsb_exists. split.
  - intros (y & Hy & E). apply String.eqb_eq in E. subst y. exact Hy.
  - intros H. exists x. split; [exact H | apply String.eqb_refl].
Qed.

Lemma pushUniqueLimited_spec values limit : forall arr,
  exists added,
    pushUniqueLimited arr values limit = (arr ++ added)%list
    /\ (forall x, In x added -> x <> "" /\ In (Some x) values /\ ~ In x arr)
    /\ List.NoDup added
    /\ (added = [] \/ Z.of_nat (length arr) + Z.of_nat (length added)
                      <= Z.max limit (Z.of_nat (length arr) + 1)).
Proof.
  induction values as [|v values IH]; intros arr; simpl.
  - exists []. rewrite app_nil_r. repeat split; try constructor; auto.
  - destruct (truthy_str v) eqn:Hv; simpl.
    + destruct v as [s|]; [|discriminate].
      assert (Hs : s <> "").
      { simpl in Hv. destruct (String.eqb_spec s ""); [discriminate | assumption]. }
      destruct (set_has s arr) eqn:Hin.
      * destruct (IH arr) as (added & E & Hadd & Hnd & Hlen).
        exists added. split; [exact E|]. split; [|split; assumption].
        intros x Hx. destruct (Hadd x Hx) as (A & B & C). repeat split; auto.
      * assert (Hnin : ~ In s arr)
          by (rewrite <- set_has_In; congruence).
        destruct (Z.leb_spec limit (Z.of_nat (length (arr ++ [s])))) as [Hl|Hl].
        -- exists [s]. split; [reflexivity|]. split; [|split].
           ++ intros x [<-|[]]. repeat split; auto.
           ++ repeat constructor. intros [].
           ++ right. simpl. lia.
        -- destruct (IH (arr ++ [s])%list) as (added & E & Hadd & Hnd & Hlen).
           exists (s :: added). split; [rewrite E, <- app_assoc; reflexivity|].
           split; [|split].
           ++ intros x [<-|Hx]; [repeat split; auto|].
              destruct (Hadd x Hx) as (A & B & C). repeat split; auto.
              intros Hc. apply C. apply in_or_app. left. exact Hc.
           ++ constructor; [|exact Hnd]. intros Hc.
              destruct (Hadd s Hc) as (_ & _ & C). apply C. apply in_or_app. right. left.
              reflexivity.
           ++ right. rewrite length_app in Hl, Hlen. simpl length in *.
              destruct Hlen as [->|Hlen]; simpl length; lia.
    + destruct (IH arr) as (added & E & Hadd & Hnd & Hlen).
      exists added. split; [exact E|]. split; [|split; assumption].
      intros x Hx. destruct (Hadd x Hx) as (A & B & C). repeat split; auto.
Qed.

(** X19: [pushUniqueLimited] only appends: the array is kept as it is,
    and what is appended is non-empty names of the values, each once and
    none already in the array.  The array stops growing when it reaches
    the limit; an array already at the limit or beyond it still takes one
    more name. *)
Theorem pushUniqueLimited_appends arr values limit :
  exists added,
    pushUniqueLimited arr values limit = (arr ++ added)%list
    /\ (forall x, In x added -> x <> "" /\ In (Some x) values /\ ~ In x arr)
    /\ List.NoDup added
    /\ (Z.of_nat (length arr) < limit ->
        Z.of_nat (length (pushUniqueLimited arr values limit)) <= limit)
    /\ (limit <= Z.of_nat (length arr) -> (length added <= 1)%nat).
Proof.
  destruct (pushUniqueLimited_spec values limit arr) as (added & E & Hadd & Hnd & Hlen).
  exists added. split; [exact E|]. split; [exact Hadd|]. split; [exact Hnd|].
  rewrite E, length_app. split; intros H; destruct Hlen as [->|Hlen]; simpl; lia.
Qed.

End FileFacts.

Module DetectorFacts.
Import JS Aggregation Attachments.

Section Facts.
Variable Number_toString : Q -> string.
Variable clock : nat -> Z.

Abbreviation Date_now := (Attachments.Date_now clock).
Abbreviation emitProbe := (Attachments.emitProbe clock).
Abbreviation updatePendingDocument := (Attachments.updatePendingDocument clock).
Abbreviation updatePendingAttachments :=
  (Attachments.updatePendingAttachments Number_toString clock).
Abbreviation registerAttachmentFilesEvent :=
  (Attachments.registerAttachmentFilesEvent Number_toString clock).
Abbreviation registerAttachmentSignal :=
  (Attachments.registerAttachmentSignal Number_toString clock).
Abbreviation registerDocumentFileEvent :=
  (Attachments.registerDocumentFileEvent Number_toString clock).
Abbreviation registerDocumentSignal := (Attachments.registerDocumentSignal clock).
Abbreviation getDocumentMetaForRequest := (Attachments.getDocumentMetaForRequest clock).
Abbreviation getAttachmentMetaForRequest := (Attachments.getAttachmentMetaForRequest clock).
Abbreviation step := (Attachments.step Number_toString clock).
Abbreviation run := (Attachments.run Number_toString clock).
Abbreviation documentSpent := (Attachments.documentSpent clock).
Abbreviation attachmentSpent := (Attachments.attachmentSpent clock).
Abbreviation spent := (Attachments.spent clock).

(** *** Steps that leave one half of the state alone *)

Ltac same_state := unfold sameDocuments, sameAttachments; cbn; repeat split; lia.

Lemma sameDocuments_refl st : sameDocuments st st.
Proof. same_state. Qed.

Lemma sameDocuments_trans st1 st2 st3 :
  sameDocuments st1 st2 -> sameDocuments st2 st3 -> sameDocuments st1 st3.
Proof.
  intros (A & B & C & D) (A' & B' & C' & D'). unfold sameDocuments.
  rewrite A', B', C'. repeat split; auto; lia.
Qed.

Lemma sameAttachments_trans st1 st2 st3 :
  sameAttachments st1 st2 -> sameAttachments st2 st3 -> sameAttachments st1 st3.
Proof.
  intros (A & B & C & D) (A' & B' & C' & D'). unfold sameAttachments.
  rewrite A', B', C'. repeat split; auto; lia.
Qed.

Lemma emitProbe_documents st : sameDocuments st (emitProbe st).
Proof. unfold Attachments.emitProbe. destruct (debugEnabled st); same_state. Qed.

Lemma emitProbe_attachments st : sameAttachments st (emitProbe st).
Proof. unfold Attachments.emitProbe. destruct (debugEnabled st); same_state. Qed.

Lemma registerAttachmentFilesEvent_documents files source st :
  sameDocuments st (registerAttachmentFilesEvent files source st).
Proof.
  unfold Attachments.registerAttachmentFilesEvent.
  destruct files as [fs|]; [|apply sameDocuments_refl].
  destruct (fileMetasOf fs) as [|m ms]; [apply sameDocuments_refl|].
  eapply sameDocuments_trans; [|apply emitProbe_documents].
  same_state.
Qed.

Lemma registerAttachmentSignal_documents source meta st :
  sameDocuments st (registerAttachmentSignal source meta st).
Proof.
  unfold Attachments.registerAttachmentSignal.
  destruct meta as [meta|]; [|apply sameDocuments_refl].
  eapply sameDocuments_trans; [|apply emitProbe_documents].
  same_state.
Qed.

Lemma getAttachmentMeta_documents st :
  sameDocuments st (snd (getAttachmentMetaForRequest st)).
Proof.
  unfold Attachments.getAttachmentMetaForRequest. cbn.
  match goal with |- context [firstTruthyMs ?a ?b] => destruct (firstTruthyMs a b) end;
    [|same_state].
  match goal with |- context [if ?c then _ else _] => destruct c end;
    same_state.
Qed.

Lemma registerDocumentSignal_attachments kind source meta st :
  sameAttachments st (registerDocumentSignal kind source meta st).
Proof.
  unfold Attachments.registerDocumentSignal.
  eapply sameAttachments_trans; [|apply emitProbe_attachments].
  same_state.
Qed.

Lemma getDocumentMeta_attachments st :
  sameAttachments st (snd (getDocumentMetaForRequest st)).
Proof.
  unfold Attachments.getDocumentMetaForRequest. cbn.
  match goal with |- context [firstTruthyMs ?a ?b] => destruct (firstTruthyMs a b) end;
    [|same_state].
  match goal with |- context [if ?c then _ else _] => destruct c end;
    same_state.
Qed.

Lemma step_documents st e : isDocumentEvent e = false -> e <> ReadDocumentMeta ->
  sameDocuments st (step st e).
Proof.
  destruct e; try discriminate; intros _ Hr; simpl.
  - apply registerAttachmentSignal_documents.
  - same_state.
  - same_state.
  - congruence.
  - apply getAttachmentMeta_documents.
Qed.

Lemma step_attachments st e : isAttachmentEvent e = false -> e <> ReadAttachmentMeta ->
  sameAttachments st (step st e).
Proof.
  destruct e; try discriminate; intros _ Hr; simpl.
  - apply registerDocumentSignal_attachments.
  - same_state.
  - same_state.
  - apply getDocumentMeta_attachments.
  - congruence.
Qed.

(** *** The order of the two time stamps of a document *)

Lemma documentOrdered_same st st' :
  sameDocuments st st' -> documentOrdered st -> documentOrdered st'.
Proof. intros (A & B & _ & _) H. unfold documentOrdered. rewrite A, B. exact H. Qed.

Hypothesis clock_monotone : monotone clock.

Lemma documentOrdered_signal kind source meta st :
  documentOrdered (registerDocumentSignal kind source meta st).
Proof.
  unfold Attachments.registerDocumentSignal.
  eapply documentOrdered_same; [apply emitProbe_documents|].
  unfold documentOrdered. cbn. intros p Hp. injection Hp as <-.
  eexists. split; [reflexivity|]. apply clock_monotone. lia.
Qed.

Lemma documentOrdered_files files source st :
  documentOrdered st -> documentOrdered (registerDocumentFileEvent files source st).
Proof.
  intros H. unfold Attachments.registerDocumentFileEvent.
  destruct files as [fs|]; [|exact H].
  set (st1 := emitProbe (registerAttachmentFilesEvent (Some fs) source st)).
  assert (H1 : documentOrdered st1).
  { eapply documentOrdered_same; [|exact H].
    eapply sameDocuments_trans;
      [apply registerAttachmentFilesEvent_documents | apply emitProbe_documents]. }
  clearbody st1.
  destruct (matchedFiles fs) as [|m ms].
  - eapply documentOrdered_same; [apply emitProbe_documents | exact H1].
  - eapply documentOrdered_same; [apply emitProbe_documents|].
    unfold documentOrdered. cbn. intros p Hp. injection Hp as <-.
    eexists. split; [reflexivity|]. apply clock_monotone. lia.
Qed.

Lemma documentOrdered_read st :
  documentOrdered st -> documentOrdered (snd (getDocumentMetaForRequest st)).
Proof.
  intros H. unfold Attachments.getDocumentMetaForRequest. cbn.
  match goal with |- context [firstTruthyMs ?a ?b] => destruct (firstTruthyMs a b) end;
    [|exact H].
  match goal with |- context [if ?c then _ else _] => destruct c end; [|exact H].
  unfold documentOrdered. cbn. discriminate.
Qed.

Lemma documentOrdered_step st e : documentOrdered st -> documentOrdered (step st e).
Proof.
  intros H. destruct e; simpl.
  - apply documentOrdered_files, H.
  - apply documentOrdered_signal.
  - eapply documentOrdered_same; [apply registerAttachmentSignal_documents | exact H].
  - exact H.
  - exact H.
  - apply documentOrdered_read, H.
  - eapply documentOrdered_same; [apply getAttachmentMeta_documents | exact H].
Qed.

Lemma documentOrdered_run history : documentOrdered (run history).
Proof.
  unfold Attachments.run.
  assert (G : forall st, documentOrdered st ->
                documentOrdered (fold_left step history st)).
  { induction history as [|e history IH]; intros st H; simpl; [exact H|].
    apply IH, documentOrdered_step, H. }
  apply G. unfold documentOrdered. cbn. discriminate.
Qed.

(** *** What is left for a later request *)

Lemma spent_later window version consumedVersion consumedAt calls calls' l :
  (calls <= calls')%nat ->
  spent window version consumedVersion consumedAt calls l ->
  spent window version consumedVersion consumedAt calls' l.
Proof.
  intros Hc [H|(k & Hk & H)]; [left; exact H|].
  right. exists k. split; [lia | exact H].
Qed.

Lemma documentSpent_same st st' :
  sameDocuments st st' -> documentSpent st -> documentSpent st'.
Proof.
  intros (A & B & C & D). unfold Attachments.documentSpent. rewrite A, B, C.
  destruct (firstTruthyMs _ _); [|auto]. apply spent_later, D.
Qed.

Lemma attachmentSpent_same st st' :
  sameAttachments st st' -> attachmentSpent st -> attachmentSpent st'.
Proof.
  intros (A & B & C & D). unfold Attachments.attachmentSpent. rewrite A, B, C.
  intros [H|H]; [left; exact H|]. right.
  destruct (firstTruthyMs _ _); [|auto]. revert H. apply spent_later, D.
Qed.

(** A spent event is outside the window or consumed at every later
    call of [Date.now()]. *)
Lemma spent_outside window version consumedVersion consumedAt calls l :
  0 <= window ->
  spent window version consumedVersion consumedAt calls l ->
  (Z.leb (Z.max 0 (clock calls - l)) window
   && ((Z.ltb 0 version && Z.ltb consumedVersion version) || Z.ltb consumedAt l))%bool
  = false.
Proof.
  intros Hw [[Hv Hl]|(k & Hk & H)].
  - apply andb_false_iff. right. apply orb_false_iff. split.
    + apply andb_false_iff. destruct Hv; [left | right]; apply Z.ltb_ge; lia.
    + apply Z.ltb_ge. lia.
  - apply andb_false_iff. left. apply Z.leb_gt.
    pose proof (clock_monotone k calls Hk). lia.
Qed.

Lemma documentSpent_read st :
  documentSpent st ->
  dm_hasDocument (fst (getDocumentMetaForRequest st)) = false
  /\ documentSpent (snd (getDocumentMetaForRequest st)).
Proof.
  unfold Attachments.documentSpent, Attachments.getDocumentMetaForRequest. cbn.
  destruct (firstTruthyMs (pd_lastEventAtMs (pendingDocument st))
              (ds_lastEventAtMs (documentSignal st))) as [l|] eqn:El; cbn.
  - intros H.
    assert (Hw : 0 <= DOCUMENT_BLOB_SIGNAL_WINDOW_MS)
      by (unfold DOCUMENT_BLOB_SIGNAL_WINDOW_MS; lia).
    pose proof (spent_outside _ _ _ _ _ _ Hw H) as Hout.
    assert (Hhas :
      ((Z.leb (Z.max 0 (clock (now_calls st) - l)) DOCUMENT_EVENT_WINDOW_MS
        || Z.leb (Z.max 0 (clock (now_calls st) - l)) DOCUMENT_BLOB_SIGNAL_WINDOW_MS)
       && ((Z.ltb 0 (pd_version (pendingDocument st))
            && Z.ltb (lastConsumedPendingVersion st) (pd_version (pendingDocument st)))
           || Z.ltb (ds_lastConsumedEventAtMs (documentSignal st)) l))%bool = false).
    { apply andb_false_iff in Hout. apply andb_false_iff.
      destruct Hout as [Hout|Hout]; [left | right; exact Hout].
      apply orb_false_iff. split; [|exact Hout].
      apply Z.leb_gt. apply Z.leb_gt in Hout.
      unfold DOCUMENT_EVENT_WINDOW_MS, DOCUMENT_BLOB_SIGNAL_WINDOW_MS in *. lia. }
    rewrite Hhas. cbn. rewrite El. split; [reflexivity|].
    revert H. apply spent_later. lia.
  - intros _. rewrite El. auto.
Qed.

Lemma documentSpent_quiet quiet : forall st,
  (forall e, In e quiet -> isDocumentEvent e = false) ->
  documentSpent st -> documentSpent (fold_left step quiet st).
Proof.
  induction quiet as [|e quiet IH]; intros st Hq H; simpl; [exact H|].
  apply IH; [intros x Hx; apply Hq; right; exact Hx|].
  assert (He : isDocumentEvent e = false) by (apply Hq; left; reflexivity).
  destruct e; try discriminate;
    try (eapply documentSpent_same; [apply step_documents; [reflexivity | discriminate] | exact H]).
  apply documentSpent_read, H.
Qed.

(** After a request has read the document state, nothing is left. *)
Lemma read_documentSpent st :
  documentOrdered st -> documentSpent (snd (getDocumentMetaForRequest st)).
Proof.
  intros Hord.
  unfold Attachments.documentSpent, Attachments.getDocumentMetaForRequest. cbn.
  destruct (firstTruthyMs (pd_lastEventAtMs (pendingDocument st))
              (ds_lastEventAtMs (documentSignal st))) as [l|] eqn:El; cbn;
    [|rewrite El; exact I].
  match goal with |- context [if ?c then _ else _] => destruct c eqn:Hhas end; cbn.
  - (* consumed: the pending state is reset *)
    unfold firstTruthyMs. cbn.
    destruct (ds_lastEventAtMs (documentSignal st)) as [d|] eqn:Ed; [|exact I].
    left. split; [left; lia|].
    unfold firstTruthyMs in El.
    destruct (truthy_Z (pd_lastEventAtMs (pendingDocument st))) eqn:Ht.
    + destruct (Hord l El) as (d' & Hd' & Hle). rewrite Ed in Hd'. injection Hd' as <-.
      exact Hle.
    + injection El as <-. lia.
  - rewrite El. apply andb_false_iff in Hhas. destruct Hhas as [Hwin|Hun].
    + right. exists (now_calls st). split; [lia|].
      apply orb_false_iff in Hwin. destruct Hwin as [_ Hwin].
      apply Z.leb_gt in Hwin. unfold DOCUMENT_BLOB_SIGNAL_WINDOW_MS in *. lia.
    + left. apply orb_false_iff in Hun. destruct Hun as [Hv Hl].
      apply andb_false_iff in Hv. apply Z.ltb_ge in Hl.
      split; [|exact Hl].
      destruct Hv as [Hv|Hv]; apply Z.ltb_ge in Hv; [left | right]; exact Hv.
Qed.

(** X20: once a request has read the document state, no later request
    reports a document until a file event or a document signal arrives,
    whatever else happens in between. *)
Theorem document_reported_once history quiet :
  (forall e, In e quiet -> isDocumentEvent e = false) ->
  dm_hasDocument
    (fst (getDocumentMetaForRequest (run (history ++ ReadDocumentMeta :: quiet)))) = false.
Proof.
  intros Hq. unfold Attachments.run. rewrite fold_left_app. simpl fold_left.
  apply documentSpent_read, documentSpent_quiet; [exact Hq|].
  apply read_documentSpent. apply documentOrdered_run.
Qed.

(** *** Attachments *)

Lemma attachmentSpent_read st :
  attachmentSpent st ->
  am_hasFiles (fst (getAttachmentMetaForRequest st)) = false
  /\ attachmentSpent (snd (getAttachmentMetaForRequest st)).
Proof.
  unfold Attachments.attachmentSpent, Attachments.getAttachmentMetaForRequest. cbn.
  intros [Hnil|H].
  - rewrite Hnil. cbn. rewrite !andb_false_r.
    destruct (firstTruthyMs _ _); cbn; split; auto.
  - destruct (firstTruthyMs (pa_lastEventAtMs (pendingAttachments st))
                (as_lastEventAtMs (attachmentSignal st))) as [l|] eqn:El; cbn.
    + assert (Hw : 0 <= ATTACHMENT_EVENT_WINDOW_MS)
        by (unfold ATTACHMENT_EVENT_WINDOW_MS; lia).
      pose proof (spent_outside _ _ _ _ _ _ Hw H) as Hout.
      rewrite Hout. cbn. rewrite El. split; [reflexivity|]. right.
      revert H. apply spent_later. lia.
    + rewrite El. auto.
Qed.

Lemma attachmentSpent_quiet quiet : forall st,
  (forall e, In e quiet -> isAttachmentEvent e = false) ->
  attachmentSpent st -> attachmentSpent (fold_left step quiet st).
Proof.
  induction quiet as [|e quiet IH]; intros st Hq H; simpl; [exact H|].
  apply IH; [intros x Hx; apply Hq; right; exact Hx|].
  assert (He : isAttachmentEvent e = false) by (apply Hq; left; reflexivity).
  destruct e; try discriminate;
    try (eapply attachmentSpent_same;
         [apply step_attachments; [reflexivity | discriminate] | exact H]).
  apply attachmentSpent_read, H.
Qed.

Lemma read_attachmentSpent st : attachmentSpent (snd (getAttachmentMetaForRequest st)).
Proof.
  unfold Attachments.attachmentSpent, Attachments.getAttachmentMetaForRequest. cbn.
  destruct (firstTruthyMs (pa_lastEventAtMs (pendingAttachments st))
              (as_lastEventAtMs (attachmentSignal st))) as [l|] eqn:El; cbn;
    [|right; rewrite El; exact I].
  match goal with |- context [if ?c then _ else _] => destruct c eqn:Hhas end; cbn.
  - left. reflexivity.
  - rewrite El. apply andb_false_iff in Hhas. destruct Hhas as [Hhas|Hlen].
    + right. apply andb_false_iff in Hhas. destruct Hhas as [Hwin|Hun].
      * right. exists (now_calls st). split; [lia|]. apply Z.leb_gt in Hwin.
        unfold ATTACHMENT_EVENT_WINDOW_MS in *. lia.
      * left. apply orb_false_iff in Hun. destruct Hun as [Hv Hl].
        apply andb_false_iff in Hv. apply Z.ltb_ge in Hl.
        split; [|exact Hl].
        destruct Hv as [Hv|Hv]; apply Z.ltb_ge in Hv; [left | right]; exact Hv.
    + left. apply negb_false_iff, Nat.eqb_eq in Hlen.
      destruct (pa_files (pendingAttachments st)); [reflexivity | discriminate].
Qed.

(** X21: once a request has read the attachment state, no later request
    reports files until a file event or an attachment signal arrives. *)
Theorem files_reported_once history quiet :
  (forall e, In e quiet -> isAttachmentEvent e = false) ->
  am_hasFiles
    (fst (getAttachmentMetaForRequest (run (history ++ ReadAttachmentMeta :: quiet))))
  = false.
Proof.
  intros Hq. unfold Attachments.run. rewrite fold_left_app. simpl fold_left.
  apply attachmentSpent_read, attachmentSpent_quiet; [exact Hq|].
  apply read_attachmentSpent.
Qed.

End Facts.
End DetectorFacts.

(** ** The event counters of the detector *)

Module CounterFacts.
Import JS Aggregation Attachments.

Section Facts.
Variable Number_toString : Q -> string.
Variable clock : nat -> Z.

Abbreviation emitProbe := (Attachments.emitProbe clock).
Abbreviation registerAttachmentFilesEvent :=
  (Attachments.registerAttachmentFilesEvent Number_toString clock).
Abbreviation registerAttachmentSignal :=
  (Attachments.registerAttachmentSignal Number_toString clock).
Abbreviation registerDocumentFileEvent :=
  (Attachments.registerDocumentFileEvent Number_toString clock).
Abbreviation registerDocumentSignal := (Attachments.registerDocumentSignal clock).
Abbreviation getDocumentMetaForRequest := (Attachments.getDocumentMetaForRequest clock).
Abbreviation getAttachmentMetaForRequest := (Attachments.getAttachmentMetaForRequest clock).
Abbreviation step := (Attachments.step Number_toString clock).
Abbreviation run := (Attachments.run Number_toString clock).

Lemma emitProbe_signals st :
  documentSignal (emitProbe st) = documentSignal st
  /\ attachmentSignal (emitProbe st) = attachmentSignal st.
Proof. unfold Attachments.emitProbe. destruct (debugEnabled st); split; reflexivity. Qed.

Lemma classifyAttachmentKind_kind mime name :
  isAttachmentKind (classifyAttachmentKind mime name).
Proof.
  unfold classifyAttachmentKind, isAttachmentKind.
  repeat match goal with |- context [if ?c then _ else _] => destruct c end; auto 6.
Qed.

Lemma strOr_kind k : isAttachmentKind k -> strOr (Some k) "other" = k.
Proof. intros [->|[->|[->|[->| ->]]]]; reflexivity. Qed.

Lemma countAttachmentKind_counted a k :
  isAttachmentKind k ->
  as_totalEvents (countAttachmentKind a k) = as_totalEvents a
  /\ as_pdf (countAttachmentKind a k) + as_text (countAttachmentKind a k)
     + as_image (countAttachmentKind a k) + as_audio (countAttachmentKind a k)
     + as_other (countAttachmentKind a k)
     = as_pdf a + as_text a + as_image a + as_audio a + as_other a + 1.
Proof.
  intros [->|[->|[->|[->| ->]]]]; split; try reflexivity;
    unfold countAttachmentKind; cbn; lia.
Qed.

Lemma fileMetasOf_kinds fs f : In f (fileMetasOf fs) -> isAttachmentKind (fm_kind f).
Proof.
  unfold fileMetasOf. intros H. apply in_flat_map in H. destruct H as ([x|] & _ & H).
  - destruct H as [<-|[]]. apply classifyAttachmentKind_kind.
  - destruct H.
Qed.

Lemma fold_countAttachmentKind metas : forall a,
  (forall f, In f metas -> isAttachmentKind (fm_kind f)) ->
  attachmentsCounted
    (mkAttachmentSignal (as_totalEvents a - Z.of_nat (length metas)) (as_lastEventAtMs a)
       (as_lastSource a) (as_lastFiles a) (as_pdf a) (as_text a) (as_image a) (as_audio a)
       (as_other a) (as_lastConsumedEventAtMs a)) ->
  attachmentsCounted
    (fold_left (fun acc f => countAttachmentKind acc (strOr (Some (fm_kind f)) "other"))
       metas a).
Proof.
  induction metas as [|f metas IH]; intros a H Ha.
  - unfold attachmentsCounted in *. cbn in *. lia.
  - cbn [fold_left]. apply IH; [intros g Hg; apply H; right; exact Hg|].
    assert (Hf : isAttachmentKind (fm_kind f)) by (apply H; left; reflexivity).
    rewrite (strOr_kind _ Hf).
    destruct (countAttachmentKind_counted a _ Hf) as [H3 H4].
    unfold attachmentsCounted in *. cbn [as_totalEvents as_pdf as_text as_image as_audio as_other] in *.
    rewrite H3. cbn [length] in Ha. lia.
Qed.

Lemma registerAttachmentFilesEvent_counted files source st :
  attachmentsCounted (attachmentSignal st) ->
  attachmentsCounted (attachmentSignal (registerAttachmentFilesEvent files source st))
  /\ documentSignal (registerAttachmentFilesEvent files source st) = documentSignal st.
Proof.
  intros H. unfold Attachments.registerAttachmentFilesEvent.
  destruct files as [fs|]; [|split; [exact H | reflexivity]].
  pose proof (fileMetasOf_kinds fs) as Hk.
  destruct (fileMetasOf fs) as [|m ms] eqn:E; [split; [exact H | reflexivity]|].
  unfold Attachments.Date_now. cbv beta iota zeta.
  match goal with |- context [Attachments.emitProbe clock ?s] =>
    destruct (emitProbe_signals s) as [Hd Ha]; rewrite Hd, Ha end.
  split; [|reflexivity].
  cbn [Attachments.updatePendingAttachments Attachments.Date_now attachmentSignal
       setPendingAttachments setAttachmentSignal fst snd].
  apply fold_countAttachmentKind; [exact Hk|].
  unfold attachmentsCounted in *. cbn. lia.
Qed.

Lemma registerAttachmentSignal_counted source meta st :
  attachmentsCounted (attachmentSignal st) ->
  attachmentsCounted (attachmentSignal (registerAttachmentSignal source meta st))
  /\ documentSignal (registerAttachmentSignal source meta st) = documentSignal st.
Proof.
  intros H. unfold Attachments.registerAttachmentSignal.
  destruct meta as [meta|]; [|split; [exact H | reflexivity]].
  unfold Attachments.Date_now. cbv beta iota zeta.
  match goal with |- context [Attachments.emitProbe clock ?s] =>
    destruct (emitProbe_signals s) as [Hd Ha]; rewrite Hd, Ha end.
  split; [|reflexivity].
  cbn [Attachments.updatePendingAttachments Attachments.Date_now attachmentSignal
       setPendingAttachments setAttachmentSignal fst snd fm_kind].
  match goal with |- context [classifyAttachmentKind ?m ?n] =>
    pose proof (classifyAttachmentKind_kind m n) as Hk;
    set (k := classifyAttachmentKind m n) in * end.
  rewrite (strOr_kind _ Hk).
  match goal with |- attachmentsCounted (countAttachmentKind ?a k) =>
    destruct (countAttachmentKind_counted a k Hk) as [H1 H2] end.
  unfold attachmentsCounted in *. rewrite H1.
  cbn [as_totalEvents as_pdf as_text as_image as_audio as_other] in *. lia.
Qed.

Lemma matchedFiles_kinds fs m :
  In m (matchedFiles fs) -> di_kind (snd m) = "pdf" \/ di_kind (snd m) = "text".
Proof.
  unfold matchedFiles. intros H. apply in_flat_map in H. destruct H as (f & _ & H).
  destruct f as [file|]; [|destruct H].
  destruct (detectDocumentFileInfo (Some file)) as [info|] eqn:E; [|destruct H].
  destruct H as [<-|[]]. cbn [snd].
  unfold detectDocumentFileInfo, classifyDocumentKind in E.
  repeat match type of E with context [if ?c then _ else _] => destruct c end;
    try discriminate E; injection E as <-; auto.
Qed.

Lemma countKind_total matched :
  (forall m, In m matched -> di_kind (snd m) = "pdf" \/ di_kind (snd m) = "text") ->
  countKind "pdf" matched + countKind "text" matched = Z.of_nat (length matched)
  /\ 0 <= countKind "pdf" matched /\ 0 <= countKind "text" matched.
Proof.
  unfold countKind. induction matched as [|m matched IH]; intros H; [simpl; lia|].
  destruct IH as (IH & _ & _); [intros x Hx; apply H; right; exact Hx|].
  cbn [List.filter length].
  destruct (H m (or_introl eq_refl)) as [-> | ->]; cbn [String.eqb Ascii.eqb Bool.eqb];
    cbn [length]; lia.
Qed.

Lemma registerDocumentFileEvent_counted files source st :
  countersAddUp st -> countersAddUp (registerDocumentFileEvent files source st).
Proof.
  intros [Hdoc Hatt]. unfold Attachments.registerDocumentFileEvent.
  destruct files as [fs|]; [|split; assumption].
  destruct (registerAttachmentFilesEvent_counted (Some fs) source st Hatt) as [Ha Hd].
  set (st0 := registerAttachmentFilesEvent (Some fs) source st) in *.
  destruct (emitProbe_signals st0) as [Hd1 Ha1].
  set (st1 := emitProbe st0) in *.
  pose proof (matchedFiles_kinds fs) as Hk.
  destruct (matchedFiles fs) as [|m ms] eqn:E.
  - destruct (emitProbe_signals st1) as [Hd2 Ha2].
    split; [rewrite Hd2, Hd1, Hd; exact Hdoc | rewrite Ha2, Ha1; exact Ha].
  - unfold Attachments.Date_now. cbv beta iota zeta.
    match goal with |- context [Attachments.emitProbe clock ?s] =>
      destruct (emitProbe_signals s) as [Hd2 Ha2] end.
    split.
    + rewrite Hd2.
      cbn [Attachments.updatePendingDocument Attachments.Date_now documentSignal
           setPendingDocument setDocumentSignal fst snd].
      destruct (countKind_total _ Hk) as (Hsum & Hp & Ht).
      rewrite Hd1, Hd. destruct Hdoc as (H1 & H2 & H3 & H4).
      unfold documentCounted.
      cbn [ds_totalEvents ds_pdf ds_text ds_other]. lia.
    + rewrite Ha2.
      cbn [Attachments.updatePendingDocument Attachments.Date_now attachmentSignal
           setPendingDocument setDocumentSignal fst snd].
      rewrite Ha1. exact Ha.
Qed.

Lemma registerDocumentSignal_counted kind source meta st :
  countersAddUp st -> countersAddUp (registerDocumentSignal kind source meta st).
Proof.
  intros [Hdoc Hatt]. unfold Attachments.registerDocumentSignal.
  unfold Attachments.Date_now. cbv beta iota zeta.
  match goal with |- context [Attachments.emitProbe clock ?s] =>
    destruct (emitProbe_signals s) as [Hd2 Ha2] end.
  split.
  - rewrite Hd2.
    cbn [Attachments.updatePendingDocument Attachments.Date_now documentSignal
         setPendingDocument setDocumentSignal fst snd].
    destruct Hdoc as (H1 & H2 & H3 & H4). unfold documentCounted.
    cbn [ds_totalEvents ds_pdf ds_text ds_other].
    destruct (String.eqb kind "pdf") eqn:Ep.
    + apply String.eqb_eq in Ep. subst kind. cbn. lia.
    + destruct (String.eqb kind "text") eqn:Et.
      * apply String.eqb_eq in Et. subst kind. cbn. lia.
      * cbn. lia.
  - rewrite Ha2. exact Hatt.
Qed.

Lemma getDocumentMeta_counted st :
  countersAddUp st -> countersAddUp (snd (getDocumentMetaForRequest st)).
Proof.
  intros [(H1 & H2 & H3 & H4) Hatt]. unfold Attachments.getDocumentMetaForRequest.
  unfold Attachments.Date_now. cbv beta iota zeta. cbn [snd].
  match goal with |- context [firstTruthyMs ?a ?b] => destruct (firstTruthyMs a b) end;
    [|split; [repeat split; assumption | exact Hatt]].
  match goal with |- context [if ?c then _ else _] => destruct c end;
    (split; [repeat split; assumption | exact Hatt]).
Qed.

Lemma getAttachmentMeta_counted st :
  countersAddUp st -> countersAddUp (snd (getAttachmentMetaForRequest st)).
Proof.
  intros [Hdoc Hatt]. unfold Attachments.getAttachmentMetaForRequest.
  unfold Attachments.Date_now. cbv beta iota zeta. cbn [snd].
  match goal with |- context [firstTruthyMs ?a ?b] => destruct (firstTruthyMs a b) end;
    [|split; assumption].
  match goal with |- context [if ?c then _ else _] => destruct c end;
    (split; assumption).
Qed.

Lemma step_counted st e : countersAddUp st -> countersAddUp (step st e).
Proof.
  intros H. destruct e; simpl.
  - apply registerDocumentFileEvent_counted, H.
  - apply registerDocumentSignal_counted, H.
  - destruct H as [Hd Ha].
    destruct (registerAttachmentSignal_counted source meta st Ha) as [Ha' Hd'].
    split; [rewrite Hd'; exact Hd | exact Ha'].
  - exact H.
  - exact H.
  - apply getDocumentMeta_counted, H.
  - apply getAttachmentMeta_counted, H.
Qed.

Lemma run_counted history : countersAddUp (run history).
Proof.
  unfold Attachments.run. induction history as [|e history IH] using rev_ind.
  - repeat split; cbn; lia.
  - rewrite fold_left_app. apply step_counted, IH.
Qed.

(** X22: whatever the page has done, the totals a request
    reports add up: every attachment event seen is counted under
    exactly one of the five kinds, and the PDF and text document events
    together never exceed the document events seen. *)
Theorem event_totals history :
  let dm := fst (getDocumentMetaForRequest (run history)) in
  let am := fst (getAttachmentMetaForRequest (run history)) in
  am_total_attachment_events_seen am
  = am_total_pdf_events_seen am + am_total_text_events_seen am
    + am_total_image_events_seen am + am_total_audio_events_seen am
    + am_total_other_events_seen am
  /\ 0 <= dm_total_pdf_events_seen dm
  /\ 0 <= dm_total_text_events_seen dm
  /\ dm_total_pdf_events_seen dm + dm_total_text_events_seen dm
     <= dm_total_document_events_seen dm.
Proof.
  intros dm am. destruct (run_counted history) as [(H1 & H2 & H3 & H4) Ha].
  unfold dm, am, Attachments.getDocumentMetaForRequest,
    Attachments.getAttachmentMetaForRequest, Attachments.Date_now.
  cbv beta iota zeta.
  cbn [fst am_total_attachment_events_seen am_total_pdf_events_seen
       am_total_text_events_seen am_total_image_events_seen am_total_audio_events_seen
       am_total_other_events_seen dm_total_pdf_events_seen dm_total_text_events_seen
       dm_total_document_events_seen documentSignal attachmentSignal].
  unfold attachmentsCounted in Ha. lia.
Qed.

End Facts.

End CounterFacts.

(** ** Facts about the record store *)

Module StorageFacts.
Import JS Model Correlator Aggregation Storage SortFacts StringFacts.

(** *** The index that ends an import key *)

Lemma afterLast_app sep a : forall cur b,
  afterLast sep cur (a ++ b) = afterLast sep (afterLast sep cur a) b.
Proof.
  induction a as [|c a IH]; intros cur b; [reflexivity|].
  rewrite str_app_cons. simpl. destruct (Ascii.eqb c sep); apply IH.
Qed.

Lemma afterLast_colons cur a b :
  afterLast ":" cur (a ++ "::" ++ b) = afterLast ":" "" b.
Proof. rewrite afterLast_app, (afterLast_app _ "::"). reflexivity. Qed.

Lemma afterLast_lacks sep b : forall cur, lacks sep b -> afterLast sep cur b = cur ++ b.
Proof.
  induction b as [|c b IH]; intros cur H; [symmetry; apply str_app_nil_r|].
  simpl. destruct (Ascii.eqb_spec c sep) as [->|_].
  - exfalso. apply (H sep); [left|]; reflexivity.
  - rewrite IH; [|intros d Hd; apply H; right; exact Hd].
    rewrite str_app_assoc. reflexivity.
Qed.

Lemma pretty_N_go_lacks_colon x : forall s, lacks ":" s -> lacks ":" (pretty_N_go x s).
Proof.
  induction (N.lt_wf_0 x) as [x _ IH]; intros s Hs.
  destruct (N.eq_dec x 0%N) as [->|Hx]; [rewrite pretty_N_go_0; exact Hs|].
  rewrite pretty_N_go_step by lia. apply IH; [apply N.div_lt; lia|].
  intros c [<-|Hc]; [|apply Hs, Hc].
  unfold pretty_N_char. repeat case_match; discriminate.
Qed.

Lemma pretty_nat_lacks_colon (n : nat) : lacks ":" (pretty n).
Proof.
  unfold pretty, pretty_nat, pretty, pretty_N.
  destruct (decide (N.of_nat n = 0%N)).
  - intros c [<-|[]]. discriminate.
  - apply pretty_N_go_lacks_colon. intros c [].
Qed.

Lemma importedRow_index h s i src :
  afterLast ":" "" (row_key (importedRow h s i src)) = pretty i.
Proof.
  unfold importedRow. cbn [row_key].
  rewrite !afterLast_colons.
  rewrite afterLast_lacks by apply pretty_nat_lacks_colon. reflexivity.
Qed.

Lemma importedRows_index h s input : forall i row,
  In row (importedRows h s i input) ->
  exists j, (i <= j)%nat /\ afterLast ":" "" (row_key row) = pretty j.
Proof.
  induction input as [|[src|] input IH]; intros i row H; simpl in H.
  - destruct H.
  - destruct H as [<-|H].
    + exists i. split; [lia | apply importedRow_index].
    + destruct (IH _ _ H) as (j & Hj & E). exists j. split; [lia | exact E].
  - destruct (IH _ _ H) as (j & Hj & E). exists j. split; [lia | exact E].
Qed.

Lemma importedRows_NoDup h s input : forall i,
  List.NoDup (map row_key (importedRows h s i input)).
Proof.
  induction input as [|[src|] input IH]; intros i; cbn [importedRows map].
  - constructor.
  - constructor; [|apply IH].
    intros Hin. apply in_map_iff in Hin. destruct Hin as (row & Hk & Hin).
    destruct (importedRows_index _ _ _ _ _ Hin) as (j & Hj & E).
    rewrite Hk, importedRow_index in E.
    apply (inj pretty) in E. lia.
  - apply IH.
Qed.

Lemma importedRows_session h s input : forall i row,
  In row (importedRows h s i input) ->
  row_session_id row = s
  /\ session_id (row_record row) = Some s
  /\ captured_at_ms (row_record row) = Some (row_captured_at_ms row).
Proof.
  induction input as [|[src|] input IH]; intros i row H; simpl in H.
  - destruct H.
  - destruct H as [<-|H]; [repeat split | apply (IH _ _ H)].
  - apply (IH _ _ H).
Qed.

Lemma importedRows_length h s input : forall i,
  Forall (fun r => invalidRecord r = false) input ->
  length (importedRows h s i input) = length input.
Proof.
  induction input as [|[src|] input IH]; intros i H; simpl.
  - reflexivity.
  - f_equal. apply IH. inversion H; assumption.
  - inversion H as [|? ? Hbad _]. discriminate Hbad.
Qed.

(** *** A store filled by successive [put]s *)

Lemma putImported_fold h s input : forall i store,
  putImported h s i input store = fold_left putRow (importedRows h s i input) store.
Proof.
  induction input as [|[src|] input IH]; intros i store; simpl; [reflexivity| |]; apply IH.
Qed.

Lemma fold_putRow_rows rows :
  List.NoDup (map row_key rows) ->
  Permutation (map_to_list (fold_left putRow rows ∅))
    (map (fun row => (row_key row, row)) rows).
Proof.
  induction rows as [|row rows IH] using rev_ind; intros Hnd.
  - simpl. rewrite map_to_list_empty. constructor.
  - rewrite fold_left_app. simpl. rewrite map_app in Hnd.
    apply NoDup_app_remove_r in Hnd as Hnd'.
    specialize (IH Hnd').
    rewrite map_app. simpl.
    eapply Permutation_trans; [|apply Permutation_cons_append].
    unfold putRow at 1.
    eapply Permutation_trans; [apply map_to_list_insert|apply perm_skip, IH].
    destruct (fold_left putRow rows ∅ !! row_key row) as [old|] eqn:E; [|reflexivity].
    exfalso.
    apply elem_of_map_to_list in E.
    apply list_elem_of_In in E.
    apply (Permutation_in _ IH) in E.
    apply in_map_iff in E. destruct E as (r & Er & Hr).
    injection Er as Ek _.
    apply NoDup_remove_2 in Hnd. simpl in Hnd. rewrite app_nil_r in Hnd.
    apply Hnd. rewrite <- Ek. apply in_map, Hr.
Qed.

Lemma allRows_perm w rows :
  Permutation (map_to_list (records_store w)) (map (fun row => (row_key row, row)) rows) ->
  Permutation (allRows w) rows.
Proof.
  intros H. unfold allRows.
  eapply Permutation_trans; [apply Permutation_sym, sort_perm|].
  eapply Permutation_trans; [apply Permutation_map, H|].
  rewrite map_map. simpl. rewrite map_id. apply Permutation_refl.
Qed.

Lemma filter_all {A} (f : A -> bool) l :
  (forall x, In x l -> f x = true) -> List.filter f l = l.
Proof.
  induction l as [|x l IH]; intros H; simpl; [reflexivity|].
  rewrite H by (left; reflexivity). f_equal. apply IH. intros y Hy. apply H. right. exact Hy.
Qed.

Lemma filter_none {A} (f : A -> bool) l :
  (forall x, In x l -> f x = false) -> List.filter f l = [].
Proof.
  induction l as [|x l IH]; intros H; simpl; [reflexivity|].
  rewrite H by (left; reflexivity). apply IH. intros y Hy. apply H. right. exact Hy.
Qed.

Lemma firstInvalid_none input : forall i,
  firstInvalid i input = None <-> Forall (fun r => invalidRecord r = false) input.
Proof.
  induction input as [|r input IH]; intros i; simpl.
  - split; [constructor | reflexivity].
  - destruct (invalidRecord r) eqn:E.
    + split; [discriminate|]. intros H. inversion H. congruence.
    + rewrite IH. split; [intros H; constructor; assumption | intros H; inversion H; assumption].
Qed.

Lemma firstInvalid_some input : forall i k,
  firstInvalid i input = Some k <->
  exists j, k = (i + j)%nat
    /\ (exists r, nth_error input j = Some r /\ invalidRecord r = true)
    /\ forall j' r, (j' < j)%nat -> nth_error input j' = Some r -> invalidRecord r = false.
Proof.
  induction input as [|r input IH]; intros i k; simpl.
  - split; [discriminate|]. intros (j & _ & (r & Hr & _) & _). destruct j; discriminate Hr.
  - destruct (invalidRecord r) eqn:E.
    + split.
      * intros [= <-]. exists 0%nat. split; [lia|]. split.
        -- exists r. split; [reflexivity | exact E].
        -- intros j' r' Hj. lia.
      * intros (j & -> & (r' & Hr' & Hbad) & Hbefore). destruct j as [|j]; [f_equal; lia|].
        exfalso. specialize (Hbefore 0%nat r ltac:(lia) eq_refl). congruence.
    + rewrite IH. split.
      * intros (j & -> & (r' & Hr' & Hbad) & Hbefore). exists (S j). split; [lia|]. split.
        -- exists r'. split; assumption.
        -- intros [|j'] r'' Hj Hn; simpl in Hn; [congruence|]. apply (Hbefore j'); [lia | exact Hn].
      * intros (j & -> & (r' & Hr' & Hbad) & Hbefore). destruct j as [|j].
        -- simpl in Hr'. congruence.
        -- exists j. split; [lia|]. split.
           ++ exists r'. split; assumption.
           ++ intros j' r'' Hj Hn. apply (Hbefore (S j')); [lia | exact Hn].
Qed.

(** X23: an import is refused exactly when the message carries
    no record or one of them lacks [req] or [resp]; the error then names
    the first such record. *)
Theorem import_refusal h w records :
  let input := match records with Some l => l | None => [] end in
  (importJsonlRecords h w records = inl NoRecordsProvided <-> input = [])
  /\ (forall i,
        importJsonlRecords h w records = inl (InvalidRecordAt i) <->
        (exists r, nth_error input i = Some r /\ invalidRecord r = true)
        /\ forall j r, (j < i)%nat -> nth_error input j = Some r -> invalidRecord r = false)
  /\ ((exists res, importJsonlRecords h w records = inr res) <->
      input <> [] /\ Forall (fun r => invalidRecord r = false) input).
Proof.
  intros input. unfold importJsonlRecords. fold input.
  destruct input as [|first rest] eqn:Ein.
  - split; [tauto|]. split.
    + intros i. split; [discriminate|]. intros [(r & Hr & _) _]. destruct i; discriminate Hr.
    + split; [intros [res H]; discriminate H | intros [H _]; congruence].
  - destruct (firstInvalid 0 (first :: rest)) as [k|] eqn:E.
    + apply firstInvalid_some in E. destruct E as (j & -> & Hj & Hbefore). simpl.
      split; [split; discriminate|]. split.
      * intros i. split.
        -- intros [= <-]. split; assumption.
        -- intros [(r & Hr & Hbad) Hb]. f_equal. f_equal.
           destruct Hj as (r' & Hr' & Hbad').
           destruct (Nat.lt_trichotomy i j) as [Hlt|[->|Hgt]]; [|reflexivity|].
           ++ specialize (Hbefore _ _ Hlt Hr). congruence.
           ++ specialize (Hb _ _ Hgt Hr'). congruence.
      * split; [intros [res H]; discriminate H|]. intros [_ Hall]. exfalso.
        destruct Hj as (r' & Hr' & Hbad').
        rewrite List.Forall_forall in Hall.
        apply nth_error_In in Hr'. specialize (Hall _ Hr'). congruence.
    + pose proof (proj1 (firstInvalid_none _ _) E) as Hall.
      split; [split; discriminate|]. split.
      * intros i. split; [discriminate|]. intros [(r & Hr & Hbad) _]. exfalso.
        rewrite List.Forall_forall in Hall.
        apply nth_error_In in Hr. specialize (Hall _ Hr). congruence.
      * split; [intros _; split; [discriminate | exact Hall]|].
        intros _. eexists. reflexivity.
Qed.

(** X24: an accepted import leaves the store holding one row
    for each record of the file and nothing else, all of them under the
    session of the first record (or a new one); the chain states of the
    tabs are kept. *)
Theorem import_replaces_store h w input :
  input <> [] ->
  Forall (fun r => invalidRecord r = false) input ->
  exists sid w',
    importJsonlRecords h w (Some input)
      = inr (mkImportResult sid (Z.of_nat (length input)), w')
    /\ sid = strOr (match input with Some r :: _ => session_id r | _ => None end)
               (import_fresh_session_id h)
    /\ active_session_id w' = Some sid
    /\ tab_chain_state w' = tab_chain_state w
    /\ countRecordsForSession w' sid = Z.of_nat (length input)
    /\ (forall s, s <> sid -> countRecordsForSession w' s = 0)
    /\ Permutation (getRecordsForSession w' sid)
         (map row_record (importedRows h sid 0 input)).
Proof.
  intros Hne Hall.
  destruct input as [|first rest]; [congruence|].
  unfold importJsonlRecords.
  rewrite (proj2 (firstInvalid_none _ 0) Hall).
  set (sid := strOr _ _).
  eexists sid, _. split; [reflexivity|].
  split; [unfold sid; destruct first; reflexivity|].
  split; [reflexivity|]. split; [reflexivity|].
  set (w' := mkWorld _ _ _).
  assert (Hperm : Permutation (allRows w') (importedRows h sid 0 (first :: rest))).
  { apply allRows_perm. unfold w'. cbn [records_store setActiveSession clearAll].
    rewrite putImported_fold. apply fold_putRow_rows, importedRows_NoDup. }
  assert (Hsess : forall row, In row (allRows w') -> row_session_id row = sid).
  { intros row Hin. apply (Permutation_in _ Hperm) in Hin.
    apply (importedRows_session _ _ _ _ _ Hin). }
  assert (Hrows : rowsOfSession w' sid = allRows w').
  { unfold rowsOfSession. apply filter_all. intros row Hin.
    apply String.eqb_eq, Hsess, Hin. }
  split; [|split].
  - unfold countRecordsForSession. rewrite Hrows.
    rewrite (Permutation_length Hperm), importedRows_length by exact Hall. reflexivity.
  - intros s Hs. unfold countRecordsForSession, rowsOfSession.
    rewrite filter_none; [reflexivity|]. intros row Hin.
    apply String.eqb_neq. rewrite (Hsess _ Hin). congruence.
  - unfold getRecordsForSession. rewrite Hrows. apply Permutation_map, Hperm.
Qed.

(** *** The rows of a reachable store *)

Lemma rowsAgree_put (store : gmap string StoredRow) aw tc aw' tc' row :
  rowsAgree (mkWorld aw tc store) ->
  session_id (row_record row) = Some (row_session_id row) ->
  captured_at_ms (row_record row) = Some (row_captured_at_ms row) ->
  rowsAgree (mkWorld aw' tc' (putRow store row)).
Proof.
  intros H Hs Ht k r. cbn [records_store]. unfold putRow.
  destruct (decide (row_key row = k)) as [<-|Hne].
  - rewrite lookup_insert_eq. intros [= <-]. auto.
  - rewrite lookup_insert_ne by exact Hne. apply H.
Qed.

Lemma rowsAgree_frame aw tc aw' tc' store :
  rowsAgree (mkWorld aw tc store) -> rowsAgree (mkWorld aw' tc' store).
Proof. intros H k r. apply H. Qed.

Lemma tryAssignChainMetadata_writes h store record sender :
  fst (fst (tryAssignChainMetadata h store record sender)) = []
  \/ exists c n,
       fst (fst (tryAssignChainMetadata h store record sender))
       = [SetChainId c; SetTurnNumber n].
Proof.
  unfold tryAssignChainMetadata, assignChainMetadata.
  destruct (decideChain _ _ _ _ _) as [c n].
  destruct (tab_id sender); [destruct (chain_storage h)|]; cbn [fst snd];
    solve [left; reflexivity | right; exists c, n; reflexivity].
Qed.

Lemma addRecord_store h w record sender :
  exists aw tc row,
    snd (fst (addRecord h w record sender)) = mkWorld aw tc (putRow (records_store w) row)
    /\ session_id (row_record row) = Some (row_session_id row)
    /\ captured_at_ms (row_record row) = Some (row_captured_at_ms row).
Proof.
  unfold addRecord.
  destruct (getActiveSessionId h w) as [sid w1] eqn:Ea.
  assert (Hst : records_store w1 = records_store w).
  { unfold getActiveSessionId in Ea. destruct (truthy_str (active_session_id w));
      injection Ea as _ <-; reflexivity. }
  match goal with
  | |- context [tryAssignChainMetadata h ?st ?r sender] =>
      pose proof (tryAssignChainMetadata_writes h st r sender) as Hw;
      destruct (tryAssignChainMetadata h st r sender) as [[writes2 store'] meta]
  end.
  cbn [fst snd] in *. rewrite Hst.
  eexists _, _, (mkStoredRow _ _ _ _). split; [reflexivity|].
  cbn [row_record row_session_id row_captured_at_ms].
  destruct Hw as [->|(c & n & ->)]; split; reflexivity.
Qed.

Lemma putImported_agree h s input : forall i aw tc store,
  rowsAgree (mkWorld aw tc store) ->
  rowsAgree (mkWorld aw tc (putImported h s i input store)).
Proof.
  induction input as [|[src|] input IH]; intros i aw tc store H; simpl; [exact H| |].
  - apply IH.
    exact (rowsAgree_put store aw tc aw tc (importedRow h s i src) H eq_refl eq_refl).
  - apply IH, H.
Qed.

Lemma rowsAgree_empty aw tc : rowsAgree (mkWorld aw tc ∅).
Proof. intros k r H. cbn [records_store] in H. rewrite lookup_empty in H. discriminate H. Qed.

Lemma import_store_shape h w records res w' :
  importJsonlRecords h w records = inr (res, w') ->
  exists aw tc s input, w' = mkWorld aw tc (putImported h s 0 input ∅).
Proof.
  unfold importJsonlRecords.
  destruct records as [[|first rest]|]; try discriminate.
  destruct (firstInvalid 0 (first :: rest)); [discriminate|].
  intros [= _ <-]. eexists _, _, _, (first :: rest). reflexivity.
Qed.

Lemma reachable_rowsAgree w : reachableWorld w -> rowsAgree w.
Proof.
  induction 1 as [|h w record sender _ IH|h w _ IH|h w records res w' _ IH E|w tabId _ IH].
  - apply rowsAgree_empty.
  - destruct (addRecord_store h w record sender) as (aw & tc & row & -> & Hs & Ht).
    destruct w as [aw0 tc0 store]. exact (rowsAgree_put store aw0 tc0 aw tc row IH Hs Ht).
  - apply rowsAgree_empty.
  - destruct (import_store_shape _ _ _ _ _ E) as (aw & tc & s & input & ->).
    exact (putImported_agree _ _ _ _ _ _ _ (rowsAgree_empty _ _)).
  - destruct w as [aw tc store]. exact (rowsAgree_frame aw tc _ _ store IH).
Qed.

Lemma allRows_stored w row :
  In row (allRows w) -> exists k, records_store w !! k = Some row.
Proof.
  intros H. unfold allRows in H. apply sort_In in H.
  apply in_map_iff in H. destruct H as ([k r] & <- & H).
  exists k. apply elem_of_map_to_list, list_elem_of_In, H.
Qed.

(** X25: in every state the background script reaches, the
    records read back for a session carry that session id and a
    capture time, and there are as many of them as the status count
    says. *)
Theorem session_records_belong w s :
  reachableWorld w ->
  Z.of_nat (length (getRecordsForSession w s)) = countRecordsForSession w s
  /\ forall r, In r (getRecordsForSession w s) ->
       session_id r = Some s /\ exists t, captured_at_ms r = Some t.
Proof.
  intros Hr. split.
  - unfold getRecordsForSession, countRecordsForSession. rewrite length_map. reflexivity.
  - intros r Hin. unfold getRecordsForSession, rowsOfSession in Hin.
    apply in_map_iff in Hin. destruct Hin as (row & <- & Hin).
    apply filter_In in Hin. destruct Hin as [Hin Hs].
    apply String.eqb_eq in Hs.
    destruct (allRows_stored _ _ Hin) as [k H].
    destruct (reachable_rowsAgree _ Hr _ _ H) as (_ & Hsid & Ht).
    split; [congruence | eexists; exact Ht].
Qed.

(** *** The export *)

Lemma join_unlines l ls :
  join (String "010"%char "") (l :: ls) ++ String "010"%char ""
  = StreamView.unlines (l :: ls).
Proof.
  revert l. induction ls as [|l' ls IH]; intros l.
  - reflexivity.
  - change (join (String "010"%char "") (l :: l' :: ls))
      with (l ++ String "010"%char "" ++ join (String "010"%char "") (l' :: ls)).
    rewrite !str_app_assoc, IH. reflexivity.
Qed.

Lemma compareRowTimes_before a b :
  goes_after compareRowTimes a b = false -> row_captured_at_ms a <= row_captured_at_ms b.
Proof.
  unfold goes_after, compareRowTimes. intros H.
  apply negb_false_iff, Qle_bool_iff in H.
  change 0%Q with (inject_Z 0) in H. rewrite <- Zle_Qle in H. simpl in H. lia.
Qed.

Lemma compareRowTimes_after a b :
  goes_after compareRowTimes a b = true -> row_captured_at_ms b <= row_captured_at_ms a.
Proof.
  unfold goes_after, compareRowTimes. intros H.
  apply negb_true_iff in H. simpl in H.
  destruct (Z_le_gt_dec (row_captured_at_ms a - row_captured_at_ms b) 0) as [Hle|Hgt]; [|lia].
  exfalso. apply not_true_iff_false in H. apply H, Qle_bool_iff.
  change 0%Q with (inject_Z 0). rewrite <- Zle_Qle. exact Hle.
Qed.

(** X26: the exported text has one line for each stored row of the
    session, every line ended by a line feed, and the lines stand in
    the order of the capture times of their rows; a session without
    rows exports the empty text. *)
Theorem export_lines JSON_stringify w sessionId :
  exportSessionJsonl JSON_stringify w sessionId
  = StreamView.unlines (exportedLines JSON_stringify w sessionId)
  /\ Z.of_nat (length (exportedLines JSON_stringify w sessionId))
     = countRecordsForSession w sessionId
  /\ exists rows,
       Permutation rows (rowsOfSession w sessionId)
       /\ StronglySorted (fun a b => row_captured_at_ms a <= row_captured_at_ms b) rows
       /\ exportedLines JSON_stringify w sessionId
          = map (fun x => JSON_stringify (row_record x)) rows.
Proof.
  split; [|split].
  - unfold exportSessionJsonl.
    destruct (exportedLines JSON_stringify w sessionId) as [|l ls]; [reflexivity|].
    apply join_unlines.
  - unfold exportedLines, countRecordsForSession. rewrite length_map, sort_length. reflexivity.
  - exists (sort compareRowTimes (rowsOfSession w sessionId)). split; [|split].
    + apply Permutation_sym, sort_perm.
    + apply sort_sorted.
      * apply compareRowTimes_before.
      * apply compareRowTimes_after.
      * intros x y z. lia.
    + reflexivity.
Qed.

(** *** Compact records *)

Lemma compareCaptured_before a b :
  goes_after compareCaptured a b = false ->
  timeOr0 (cr_captured_at_ms a) <= timeOr0 (cr_captured_at_ms b).
Proof.
  unfold goes_after, compareCaptured. intros H.
  apply negb_false_iff, Qle_bool_iff in H.
  change 0%Q with (inject_Z 0) in H. rewrite <- Zle_Qle in H. lia.
Qed.

Lemma compareCaptured_after a b :
  goes_after compareCaptured a b = true ->
  timeOr0 (cr_captured_at_ms b) <= timeOr0 (cr_captured_at_ms a).
Proof.
  unfold goes_after, compareCaptured. intros H.
  apply negb_true_iff in H.
  destruct (Z_le_gt_dec (timeOr0 (cr_captured_at_ms a) - timeOr0 (cr_captured_at_ms b)) 0)
    as [Hle|Hgt]; [|lia].
  exfalso. apply not_true_iff_false in H. apply H, Qle_bool_iff.
  change 0%Q with (inject_Z 0). rewrite <- Zle_Qle. exact Hle.
Qed.

(** X27: the compact records of the dashboard are the
    records with [req] and [resp], one row each and as many as the
    summary counts, oldest first (a record with no capture time counts
    as time 0). *)
Theorem dashboard_records_ordered records :
  let out := buildDashboardRecords records in
  Permutation out (map toCompactRecord (List.filter isClean records))
  /\ Z.of_nat (length out) = total_completions (summary (buildDashboardStats records))
  /\ StronglySorted
       (fun a b => timeOr0 (cr_captured_at_ms a) <= timeOr0 (cr_captured_at_ms b)) out.
Proof.
  intros out. unfold out, buildDashboardRecords. split; [|split].
  - apply Permutation_sym, sort_perm.
  - rewrite sort_length, length_map. unfold buildDashboardStats.
    destruct (statsLoop _). reflexivity.
  - apply sort_sorted.
    + apply compareCaptured_before.
    + apply compareCaptured_after.
    + intros x y z. lia.
Qed.

End StorageFacts.

(** ** Facts about the summary and the model table *)

Module DashboardFacts.
Import JS Model Aggregation Totals SortFacts MapFacts AggregationPermutation RoundingFacts.

Abbreviation modelLoop clean :=
  (fold_left (groupStep modelKey modelAcc0 addModelRecord) clean []).

Lemma fold_addModelRecord rk : forall acc,
  ma_model (fold_left (fun a r => addModelRecord r a) rk acc) = ma_model acc
  /\ ma_completions (fold_left (fun a r => addModelRecord r a) rk acc)
     = ma_completions acc + Z.of_nat (length rk).
Proof.
  induction rk as [|r rk IH]; intros acc; simpl fold_left.
  - split; [reflexivity | simpl; lia].
  - destruct (IH (addModelRecord r acc)) as [-> ->]. cbn [addModelRecord ma_model ma_completions length].
    split; [reflexivity | lia].
Qed.

Lemma modelLoop_entry clean k acc :
  In (k, acc) (modelLoop clean) ->
  ma_model acc = k
  /\ ma_completions acc = Z.of_nat (length (recordsOfModel k clean))
  /\ recordsOfModel k clean <> [].
Proof.
  intros Hin.
  apply In_map_get in Hin; [|apply group_NoDup; constructor].
  rewrite group_get in Hin. fold (recordsOfModel k clean) in Hin.
  destruct (recordsOfModel k clean) as [|r rk] eqn:E; [discriminate Hin|].
  injection Hin as <-.
  destruct (fold_addModelRecord (r :: rk) (modelAcc0 k)) as [H1 H2].
  split; [exact H1|]. split; [exact H2 | discriminate].
Qed.

Lemma modelLoop_names clean :
  map mr_model (map finalizeModel (map_values (modelLoop clean)))
  = map fst (modelLoop clean).
Proof.
  unfold map_values. rewrite !map_map. apply map_ext_in.
  intros [k acc] Hin. simpl. apply (modelLoop_entry _ _ _ Hin).
Qed.

Lemma sumCompletions_perm l l' :
  Permutation l l' -> sumCompletions l = sumCompletions l'.
Proof.
  induction 1 as [|x l l' H IH|x y l|l l' l'' H1 IH1 H2 IH2]; simpl; lia.
Qed.

Lemma sumCompletions_finalize m :
  sumCompletions (map finalizeModel (map_values m)) = sumAccCompletions m.
Proof.
  induction m as [|[k v] m IH]; simpl; [reflexivity|]. rewrite <- IH. reflexivity.
Qed.

Lemma sumAccCompletions_upsert k r m :
  sumAccCompletions (map_upsert k (modelAcc0 k) (addModelRecord r) m)
  = sumAccCompletions m + 1.
Proof.
  induction m as [|[k' v] m IH]; simpl; [lia|].
  destruct (String.eqb k k'); simpl; lia.
Qed.

Lemma modelLoop_count clean : forall m,
  sumAccCompletions (fold_left (groupStep modelKey modelAcc0 addModelRecord) clean m)
  = sumAccCompletions m + Z.of_nat (length clean).
Proof.
  induction clean as [|r clean IH]; intros m; simpl fold_left; [simpl; lia|].
  rewrite IH. unfold groupStep, modelKey. rewrite sumAccCompletions_upsert.
  simpl length. lia.
Qed.

Lemma compareModelRows_before a b :
  goes_after compareModelRows a b = false -> mr_completions b <= mr_completions a.
Proof.
  unfold goes_after, compareModelRows. intros H.
  apply negb_false_iff, orNum_le in H. lia.
Qed.

Lemma compareModelRows_after a b :
  goes_after compareModelRows a b = true -> mr_completions a <= mr_completions b.
Proof.
  unfold goes_after, compareModelRows. intros H.
  apply negb_true_iff in H.
  destruct (Z_lt_le_dec (mr_completions b - mr_completions a) 0) as [Hlt|Hge]; [|lia].
  exfalso. apply not_true_iff_false in H. apply H, orNum_le. left. exact Hlt.
Qed.

(** X28: the model table has one row for each model name that
    occurs among the counted records; a row counts the records of its
    model, the counts add up to the total of the summary, and the
    rows stand by falling count. *)
Theorem model_table records :
  let clean := List.filter isClean records in
  let stats := buildDashboardStats records in
  List.NoDup (map mr_model (models stats))
  /\ (forall row, In row (models stats) ->
        mr_completions row = Z.of_nat (length (recordsOfModel (mr_model row) clean))
        /\ 0 < mr_completions row)
  /\ (forall r, In r clean -> In (modelOf r) (map mr_model (models stats)))
  /\ sumCompletions (models stats) = total_completions (summary stats)
  /\ StronglySorted (fun a b => mr_completions b <= mr_completions a) (models stats).
Proof.
  intros clean stats. unfold stats, buildDashboardStats, statsLoop.
  rewrite statsLoop_split. fold clean. cbn [models summary total_completions].
  set (rows := map finalizeModel (map_values (modelLoop clean))).
  assert (Hperm : Permutation rows (sort compareModelRows rows)) by apply sort_perm.
  assert (Hnd : List.NoDup (map fst (modelLoop clean))) by (apply group_NoDup; constructor).
  split; [|split; [|split; [|split]]].
  - eapply Permutation.Permutation_NoDup; [apply Permutation_map, Hperm|].
    unfold rows. rewrite modelLoop_names. exact Hnd.
  - intros row Hin. apply sort_In in Hin. unfold rows in Hin.
    apply in_map_iff in Hin. destruct Hin as (acc & <- & Hin).
    unfold map_values in Hin. apply in_map_iff in Hin. destruct Hin as ([k acc'] & <- & Hin).
    destruct (modelLoop_entry _ _ _ Hin) as (Hm & Hc & Hne).
    cbn [snd finalizeModel mr_model mr_completions]. rewrite Hm, Hc.
    split; [reflexivity|]. destruct (recordsOfModel k clean); [congruence | simpl; lia].
  - intros r Hr. eapply Permutation_in; [apply Permutation_map, Hperm|].
    unfold rows. rewrite modelLoop_names.
    destruct (map_get (modelOf r) (modelLoop clean)) as [acc|] eqn:E.
    + apply map_get_In in E. apply in_map_iff. exists (modelOf r, acc). split; [reflexivity | exact E].
    + exfalso. rewrite group_get in E.
      assert (Hin : In r (List.filter (hasKey modelKey (modelOf r)) clean)).
      { apply filter_In. split; [exact Hr|]. unfold hasKey, modelKey. apply String.eqb_refl. }
      destruct (List.filter (hasKey modelKey (modelOf r)) clean); [destruct Hin | discriminate E].
  - rewrite <- (sumCompletions_perm _ _ Hperm). unfold rows.
    rewrite sumCompletions_finalize, modelLoop_count. reflexivity.
  - apply sort_sorted.
    + apply compareModelRows_before.
    + apply compareModelRows_after.
    + intros x y z. lia.
Qed.

(** *** The summary *)

Lemma fold_addSummaryRecord_last l : forall acc,
  sa_lastCompletionAtMs (fold_left addSummaryRecord l acc)
  = fold_left laterOf (map captured_at_ms l) (sa_lastCompletionAtMs acc).
Proof.
  induction l as [|r l IH]; intros acc; simpl; [reflexivity|]. rewrite IH. reflexivity.
Qed.

Lemma fold_laterOf ts : forall last,
  (forall t, In (Some t) ts \/ last = Some t ->
     exists l, fold_left laterOf ts last = Some l /\ t <= l)
  /\ (forall l, fold_left laterOf ts last = Some l -> In (Some l) ts \/ last = Some l).
Proof.
  induction ts as [|x ts IH]; intros last; simpl.
  - split.
    + intros t [[]|Hlast]. subst last. exists t. split; [reflexivity | lia].
    + intros l Hl. right. exact Hl.
  - destruct (IH (laterOf last x)) as [IH1 IH2]. split.
    + intros t [[Hx|Hin]|Hlast]; [subst x| |subst last].
      * destruct last as [l0|]; simpl in *.
        -- destruct (Z.ltb_spec l0 t).
           ++ apply IH1. right. reflexivity.
           ++ destruct (IH1 l0 (or_intror eq_refl)) as (l & Hl & Hle). exists l. split; [exact Hl | lia].
        -- apply IH1. right. reflexivity.
      * apply IH1. left. exact Hin.
      * destruct x as [c|]; simpl in *.
        -- destruct (Z.ltb_spec t c).
           ++ destruct (IH1 c (or_intror eq_refl)) as (l & Hl & Hle). exists l. split; [exact Hl | lia].
           ++ apply IH1. right. reflexivity.
        -- apply IH1. right. reflexivity.
    + intros l Hl. destruct (IH2 l Hl) as [Hin|E]; [left; right; exact Hin|].
      destruct x as [c|]; simpl in E.
      * destruct last as [l0|]; simpl in E.
        -- destruct (Z.ltb l0 c); injection E as <-; [left; left; reflexivity | right; reflexivity].
        -- injection E as <-. left. left. reflexivity.
      * right. exact E.
Qed.

Lemma safePct_bounds n d : (0 <= safePct n d <= 100)%Q.
Proof.
  unfold safePct. destruct (Z.leb d 0); [lra|].
  set (raw := (inject_Z n / inject_Z d * 100)%Q).
  destruct (Qle_bool raw 100) eqn:E1.
  - apply Qle_bool_iff in E1. destruct (Qle_bool 0 raw) eqn:E2; [|lra].
    apply Qle_bool_iff in E2. lra.
  - simpl. lra.
Qed.

Lemma round2_pct x :
  (0 <= x <= 100)%Q -> exists p, round2 (Some x) = Some p /\ (0 <= p <= 100)%Q.
Proof.
  intros [H0 H1]. unfold round2, toFiniteNumber. eexists. split; [reflexivity|].
  assert (Ha : 0 <= Math_round (x * 100)) by (apply Math_round_nonneg; lra).
  assert (Hb : Math_round (x * 100) <= 10000).
  { change 10000 with (Math_round 10000). apply Math_round_mono. lra. }
  rewrite Zle_Qle in Ha, Hb. unfold Qdiv.
  change (/ 100)%Q with (1 # 100)%Q.
  change (inject_Z 0) with 0%Q in Ha. change (inject_Z 10000) with 10000%Q in Hb. lra.
Qed.

(** X29: the last completion time of the summary is the latest
    capture time among the counted records (none when no record has
    one), and the two attachment percentages lie between 0 and 100. *)
Theorem summary_figures records :
  let clean := List.filter isClean records in
  let s := summary (buildDashboardStats records) in
  (forall r t, In r clean -> captured_at_ms r = Some t ->
     exists l, last_completion_at_ms s = Some l /\ t <= l)
  /\ (forall l, last_completion_at_ms s = Some l ->
        exists r, In r clean /\ captured_at_ms r = Some l)
  /\ (exists p, document_attached_requests_pct s = Some p /\ (0 <= p <= 100)%Q)
  /\ (exists p, image_attached_requests_pct s = Some p /\ (0 <= p <= 100)%Q).
Proof.
  intros clean s. unfold s, buildDashboardStats, statsLoop.
  rewrite statsLoop_split. fold clean.
  cbn [summary last_completion_at_ms document_attached_requests_pct
       image_attached_requests_pct].
  rewrite fold_addSummaryRecord_last. cbn [summaryAcc0 sa_lastCompletionAtMs].
  destruct (fold_laterOf (map captured_at_ms clean) None) as [H1 H2].
  split; [|split; [|split]].
  - intros r t Hr Ht. apply H1. left. rewrite <- Ht. apply in_map, Hr.
  - intros l Hl. destruct (H2 l Hl) as [Hin|E]; [|discriminate E].
    apply in_map_iff in Hin. destruct Hin as (r & Hr & Hin). exists r. auto.
  - apply round2_pct, safePct_bounds.
  - apply round2_pct, safePct_bounds.
Qed.

End DashboardFacts.

(** ** Facts about the material of the prompt hash *)

Module IdentityFacts.
Import JS Aggregation Capture Identity SortFacts MapFacts SortUnique.

Section Induction.
Variable P : json -> json -> Prop.
Hypothesis P_null : P VNull VNull.
Hypothesis P_bool : forall b, P (VBool b) (VBool b).
Hypothesis P_num : forall q, P (VNum q) (VNum q).
Hypothesis P_str : forall s, P (VStr s) (VStr s).
Hypothesis P_arr : forall items items',
  Forall2 P items items' -> P (VArr items) (VArr items').
Hypothesis P_obj : forall fields fields',
  List.NoDup (map fst fields) -> List.NoDup (map fst fields') ->
  (forall k, map_has k fields = map_has k fields') ->
  (forall k v v', map_get k fields = Some v -> map_get k fields' = Some v' -> P v v') ->
  P (VObj fields) (VObj fields').

Lemma sameJson_induction : forall v v', sameJson v v' -> P v v'.
Proof.
  fix IH 3. intros v v' H. destruct H as [|b|q|s|items items' HF|fields fields' Hn Hn' Hk Hv].
  - apply P_null.
  - apply P_bool.
  - apply P_num.
  - apply P_str.
  - apply P_arr. induction HF as [|x y l l' Hxy _ IHF]; constructor; [apply IH, Hxy | exact IHF].
  - apply P_obj; try assumption. intros k v v' E E'. apply IH, (Hv k v v' E E').
Qed.

End Induction.

Section Stringify.
Variable JSON_number : Q -> string.
Variable JSON_quote : string -> string.

Abbreviation stableStringify := (Identity.stableStringify JSON_number JSON_quote).

Lemma map_get_rendered {V W} (f : V -> W) k (fields : list (string * V)) :
  map_get k (map (fun kv => (fst kv, f (snd kv))) fields) = option_map f (map_get k fields).
Proof.
  induction fields as [|[k' v] fields IH]; simpl; [reflexivity|].
  destruct (String.eqb k k'); [reflexivity | exact IH].
Qed.

Lemma map_has_In {V} k (m : list (string * V)) : map_has k m = true <-> In k (map fst m).
Proof.
  unfold map_has. pose proof (map_get_None k m) as H.
  destruct (map_get k m); split; try reflexivity; try discriminate.
  - intros _. destruct (in_dec string_dec k (map fst m)) as [Hin|Hout]; [exact Hin|].
    apply H in Hout. discriminate Hout.
  - intros Hin. exfalso. apply (proj1 H eq_refl), Hin.
Qed.

Lemma stableStringify_same v v' :
  sameJson v v' -> stableStringify v = stableStringify v'.
Proof.
  intros H. induction H as [|b|q|s|items items' HF|fields fields' Hn Hn' Hk Hv]
    using sameJson_induction; try reflexivity.
  - simpl. do 3 f_equal.
    induction HF as [|x y l l' Hxy _ IHF]; simpl; [reflexivity|]. rewrite Hxy, IHF. reflexivity.
  - simpl.
    assert (Hperm : Permutation (map fst fields) (map fst fields')).
    { apply Permutation.NoDup_Permutation; try assumption.
      intros k. rewrite <- !map_has_In, Hk. reflexivity. }
    rewrite (sort_codeUnits_unique _ _ Hperm).
    do 3 f_equal. apply map_ext_in. intros k Hin.
    apply sort_In, map_has_In in Hin.
    rewrite !map_get_rendered.
    pose proof Hin as Hin'. rewrite <- Hk in Hin'. unfold map_has in Hin, Hin'.
    destruct (map_get k fields) as [x|] eqn:E; [|discriminate Hin'].
    destruct (map_get k fields') as [y|] eqn:E'; [|discriminate Hin].
    simpl. rewrite (Hv k x y E E'). reflexivity.
Qed.

Lemma messagesOf_same body body' :
  sameJson body body' ->
  Forall2 sameJson (messagesOf (Some body)) (messagesOf (Some body')).
Proof.
  intros H. destruct H as [|b|q|s|items items' HF|fields fields' Hn Hn' Hk Hv];
    try constructor.
  unfold messagesOf, prop.
  specialize (Hk "messages"). specialize (Hv "messages"). unfold map_has in Hk.
  destruct (map_get "messages" fields) as [x|];
    destruct (map_get "messages" fields') as [y|]; try discriminate Hk; [|constructor].
  specialize (Hv x y eq_refl eq_refl).
  destruct Hv; try constructor; assumption.
Qed.

(** X16: the text [stableStringify] gives for a value does not
    depend on the order in which objects list their keys, at any depth;
    so the text hashed for the prompt of a request is the same for two
    bodies that differ only in that order. *)
Theorem stableStringify_key_order v v' :
  sameJson v v' ->
  stableStringify v = stableStringify v'
  /\ promptMaterial JSON_number JSON_quote v = promptMaterial JSON_number JSON_quote v'.
Proof.
  intros H. split; [apply stableStringify_same, H|].
  unfold promptMaterial. apply stableStringify_same. constructor.
  apply messagesOf_same, H.
Qed.

End Stringify.

End IdentityFacts.

(** ** The request side, the detector and the store on concrete inputs *)

Module CaptureChecks.
Import JS Model Parser Correlator Aggregation Capture Attachments Labels Storage Identity.
Import StreamView Examples CorrelatorExamples AggregationExamples CaptureExamples.
Import StringFacts StreamFacts RequestFacts EncodingFacts ParamFacts LabelFacts.
Import DetectorFacts StorageFacts IdentityFacts.

Lemma oneLine_check l :
  forallb (fun c => negb (Ascii.eqb c "010")) (list_ascii_of_string l) = true -> oneLine l.
Proof.
  intros H c Hc ->. rewrite forallb_forall in H. specialize (H _ Hc). discriminate H.
Qed.

Lemma reads_do_not_matter_witness : runParser reasoningStream = runParser oneReadStream.
Proof.
  apply (reads_do_not_matter exampleParse exampleClock exampleOrigin exactRound3 exactMax0minus); reflexivity.
Defined.

Lemma other_lines_do_not_matter_witness :
  runParser (Data (unlines commentedLines) Eof) = runParser (Data (unlines pingedLines) Eof).
Proof.
  apply (other_lines_do_not_matter exampleParse exampleClock exampleOrigin exactRound3 exactMax0minus).
  - repeat constructor; apply oneLine_check; reflexivity.
  - repeat constructor; apply oneLine_check; reflexivity.
  - reflexivity.
Defined.

Lemma captured_text_witness :
  exists r,
    runParser reasoningStream = Some r
    /\ responseText r
       = cappedText
           (map contentOf
              (chunksOfLines exampleParse
                 (linesRead exampleParse false (streamLines "" reasoningStream))))
    /\ strlen (responseText r) <= MAX_CAPTURED_TEXT_CHARS.
Proof.
  destruct (runParser reasoningStream) as [r|] eqn:E;
    [|exfalso; vm_compute in E; discriminate E].
  destruct (captured_text exampleParse exampleClock exampleOrigin exactRound3 exactMax0minus
              (Some "t-1") (sse reasoningStream) None exampleTiming r reasoningStream
              E eq_refl)
    as (H1 & _ & H3 & _).
  exists r. auto.
Defined.

Lemma first_identifiers_win_witness :
  exists r rs,
    runParser reasoningStream = Some r /\ resp r = Some rs
    /\ resp_id rs
       = firstTruthy
           (map id
              (chunksOfLines exampleParse
                 (linesRead exampleParse false (streamLines "" reasoningStream))))
    /\ resp_model rs
       = firstTruthy
           (map model
              (chunksOfLines exampleParse
                 (linesRead exampleParse false (streamLines "" reasoningStream)))).
Proof.
  destruct (runParser reasoningStream) as [r|] eqn:E;
    [|exfalso; vm_compute in E; discriminate E].
  destruct (resp r) as [rs|] eqn:Ers.
  - destruct (first_identifiers_win exampleParse exampleClock exampleOrigin exactRound3 exactMax0minus
                (Some "t-1") (sse reasoningStream) None exampleTiming r reasoningStream rs
                E eq_refl Ers)
      as (H1 & H2).
    exists r, rs. auto.
  - exfalso. vm_compute in E. injection E as <-. discriminate Ers.
Defined.

(** The lines read of [reasoningStream] end at the terminal chunk; the
    blank line and the sentinel after it are not read. *)
Example reasoning_stream_lines_read :
  linesRead exampleParse false (streamLines "" reasoningStream)
  = ["data: " ++ reasoningJson; "data: " ++ stopJson].
Proof. vm_compute. reflexivity. Qed.

Lemma asciiBytes_nonneg s : 0 <= asciiBytes s.
Proof. unfold asciiBytes, strlen. lia. Qed.

Lemma text_bytes_split_witness :
  let info := estimateMessagesBytesAndCounts asciiBytes (Some chatBody) in
  currentUserTextBytes info + historyTextBytes info = messagesBytes info
  /\ 0 <= currentUserTextBytes info
  /\ 0 <= historyTextBytes info.
Proof. apply (text_bytes_split asciiBytes asciiBytes_nonneg). Defined.

Lemma current_user_bytes_of_prompt_witness :
  currentUserTextBytes (estimateMessagesBytesAndCounts asciiBytes (Some chatBody))
  = match getCurrentUserPromptText (Some chatBody) with
    | Some text => asciiBytes text
    | None => 0
    end.
Proof. apply (current_user_bytes_of_prompt asciiBytes strlen_app). Defined.

(** One byte encodes as [QQ==]. *)
Lemma decodedBytes_of_base64_witness :
  decodedBytes ("QQ" ++ equalsSigns (Z.to_nat (base64Padding 1))) = 1.
Proof. apply (decodedBytes_of_base64 1 "QQ"); [lia | reflexivity | reflexivity]. Defined.

Lemma runtime_bucket_of_body_witness :
  ((forall k, In k RUNTIME_KEYS -> hasOwn k chatBody = false) ->
   deriveRuntimeBucket (pickRuntimeContext (Some chatBody)) = "default_or_unknown")
  /\ ((exists k, In k RUNTIME_KEYS /\ hasOwn k chatBody = true) ->
      deriveRuntimeBucket (pickRuntimeContext (Some chatBody))
      = deriveRuntimeBucket (Some chatBody)).
Proof. apply (runtime_bucket_of_body chatBody). reflexivity. Defined.

Lemma file_kind_set_order_witness :
  file_kind_set (deriveScenarioLabels None (filesSeen ["pdf"; "text"]) None)
  = file_kind_set (deriveScenarioLabels None (filesSeen ["text"; "pdf"]) None).
Proof. apply (file_kind_set_order None (filesSeen ["pdf"; "text"])). apply perm_swap. Defined.

Lemma labels_are_breakdown_keys_witness :
  Some (keyInputMode labelledRecord) = input_mode (scenario_labels labelledRequest)
  /\ Some (keyFileKind labelledRecord) = file_kind_set (scenario_labels labelledRequest)
  /\ Some (keyRuntime labelledRecord) = runtime_bucket (scenario_labels labelledRequest).
Proof.
  destruct (labels_are_breakdown_keys labelledRecord labelledRequest None
              (filesSeen ["text"; "pdf"]) (Some chatBody) eq_refl eq_refl)
    as (H1 & _ & _ & _ & H5 & H6).
  auto.
Defined.

Lemma exampleClock_monotone : monotone exampleClock.
Proof. intros i j H. unfold exampleClock. lia. Qed.

Lemma document_reported_once_witness :
  dm_hasDocument
    (fst (getDocumentMetaForRequest exampleClock
            (run wholeNumberText exampleClock
               (pdfPicked ++ ReadDocumentMeta :: quietSteps)))) = false.
Proof.
  apply (document_reported_once wholeNumberText exampleClock exampleClock_monotone).
  intros e [<-|[<-|[]]]; reflexivity.
Defined.

Lemma files_reported_once_witness :
  am_hasFiles
    (fst (getAttachmentMetaForRequest exampleClock
            (run wholeNumberText exampleClock
               (pdfPicked ++ ReadAttachmentMeta :: quietSteps)))) = false.
Proof.
  apply (files_reported_once wholeNumberText exampleClock exampleClock_monotone).
  intros e [<-|[<-|[]]]; reflexivity.
Defined.

(** The PDF picked is reported to the first request that asks. *)
Example pdf_reported_first :
  dm_hasDocument
    (fst (getDocumentMetaForRequest exampleClock (run wholeNumberText exampleClock pdfPicked)))
  = true
  /\ am_hasFiles
       (fst (getAttachmentMetaForRequest exampleClock
               (run wholeNumberText exampleClock pdfPicked)))
     = true.
Proof. split; reflexivity. Qed.

Lemma import_replaces_store_witness :
  exists sid w',
    importJsonlRecords importHost oneRecordWorld (Some importedFile)
      = inr (mkImportResult sid 2, w')
    /\ sid = "session-new"
    /\ active_session_id w' = Some sid
    /\ countRecordsForSession w' sid = 2
    /\ (forall s, s <> sid -> countRecordsForSession w' s = 0).
Proof.
  destruct (import_replaces_store importHost oneRecordWorld importedFile)
    as (sid & w' & H1 & H2 & H3 & _ & H5 & H6 & _).
  - discriminate.
  - repeat constructor.
  - exists sid, w'. auto.
Defined.

Lemma session_records_belong_witness :
  Z.of_nat (length (getRecordsForSession oneRecordWorld "session-a"))
  = countRecordsForSession oneRecordWorld "session-a"
  /\ forall r, In r (getRecordsForSession oneRecordWorld "session-a") ->
       session_id r = Some "session-a" /\ exists t, captured_at_ms r = Some t.
Proof.
  apply (session_records_belong oneRecordWorld "session-a").
  apply (reachable_addRecord hostA emptyWorld (firstTurn 1000000) tab7).
  apply reachable_start.
Defined.

(** The record of tab 7 is read back for its session. *)
Example one_record_read_back :
  countRecordsForSession oneRecordWorld "session-a" = 1
  /\ countRecordsForSession oneRecordWorld "session-b" = 0.
Proof. split; vm_compute; reflexivity. Qed.

Ltac key_cases k :=
  repeat match goal with
         | |- context [String.eqb k ?x] =>
             let E := fresh "E" in
             destruct (String.eqb_spec k x) as [E|E]; [subst k|]
         end.

Ltac same_fields :=
  apply same_obj;
  [ repeat constructor; simpl; intuition discriminate
  | repeat constructor; simpl; intuition discriminate
  | let k := fresh "k" in intros k; unfold map_has; cbn [map_get]; key_cases k;
    try reflexivity; try congruence
  | let k := fresh "k" in
    let v := fresh "v" in
    let v' := fresh "v" in
    let H := fresh "H" in
    let H' := fresh "H" in
    intros k v v'; cbn [map_get]; key_cases k; intros H H';
    try discriminate H; try discriminate H';
    try (injection H as <-; injection H' as <-) ].

Ltac same_json :=
  lazymatch goal with
  | |- sameJson (VObj _) (VObj _) => same_fields; same_json
  | |- sameJson (VArr _) (VArr _) => apply same_arr; same_json
  | |- Forall2 sameJson [] [] => constructor
  | |- Forall2 sameJson (_ :: _) (_ :: _) => constructor; same_json
  | |- sameJson _ _ => constructor
  end.

Lemma chatBody_same : sameJson chatBody chatBodyReordered.
Proof. unfold chatBody, chatBodyReordered, message. same_json. Qed.

Lemma stableStringify_key_order_witness :
  stableStringify wholeNumberText jstr chatBody
  = stableStringify wholeNumberText jstr chatBodyReordered
  /\ promptMaterial wholeNumberText jstr chatBody
     = promptMaterial wholeNumberText jstr chatBodyReordered.
Proof. apply (stableStringify_key_order wholeNumberText jstr), chatBody_same. Defined.

End CaptureChecks.
